(* ===== verification/_CoqProject ===== *)
-Q . S2P
Prelude.v
Binary.v
Reader.v
Writer.v
Nocopy.v
Fields.v
Packet.v
Types.v
Threads.v
Protocol.v
Requests.v
RequestCodec.v
Net.v
Responses.v
ResponseCodec.v
Robust.v
Session.v
SessionOk.v
SessionClaims.v
Ownership.v
Gate.v
GateOk.v
Server.v
GateServer.v
GateRpc.v
GateSafe.v
RpcClaims.v
Call.v
CallOk.v
CallClaims.v
Dispatcher.v
DispatcherOk.v
DispatcherClaims.v
SourceHints.v
Link.v
GateLink.v
NodeLink.v
NodeLinkOk.v
NodeLinkClaims.v
GateLinkOk.v
GateLinkClaims.v
Actor.v
ActorOk.v
ActorClaims.v
Chain.v
Proxy.v
Context.v
Router.v
RouterOk.v
RouterClaims.v
NodeServer.v
NodeRpc.v
NodeLife.v
NodeLifeOk.v
NodeLifeClaims.v
NodeEntry.v
NodeRpcClaims.v
WsConn.v
WsConnOk.v
WsConnInv.v
WsConnClaims.v
WsBudget.v
TcpConn.v
TcpConnOk.v
TcpConnClaims.v
Decimal.v
RedisStore.v
RedisStoreOk.v
RedisStoreClaims.v
GateForward.v
GateForwardClaims.v
FileSyncer.v
FileSyncerNames.v
FileSyncerOk.v
FileSyncerClaims.v
Watch.v
WatchOk.v
WatchClaims.v
Locator.v
LocatorClaims.v
