(* ===== verification/Prelude.v ===== *)
(** * due: a verification of a game-server framework

    due is a framework for game servers written in Go.  Players hold a
    connection to a gate; gates and nodes talk to each other over an internal
    transport; nodes run the game in routes and actors; a user is bound to one
    connection of one gate at a time, and a shared store says which.  This
    library models the code that carries that traffic and decides who may reach
    whom, from the socket of a client to the handler on a node and back.

    ** Parts of the program and the files that model them

    - core/buffer.  [Reader] and [Writer] (one Definition per method, the
      receiver as state, slices with length and capacity), [Nocopy] (blocks,
      graded pools, the chains that are written to a socket without a copy),
      [Fields] (the reader undoes the writer).  [Binary] holds the byte
      orders of encoding/binary.
    - packet.  [Packet]: the wire format between client and gate (packer.go,
      options.go): packing, unpacking, heartbeats, reading off a stream.
    - internal/transporter/internal (protocol, route, codes).  [Protocol]:
      frames, reader.go, heartbeat.go, error codes; [Requests] and
      [Responses]: every Encode and Decode function of the protocol package;
      [Net]: utils/xnet, used by the GetIP answer.  [RequestCodec],
      [ResponseCodec] and [Robust] hold the theorems about them.
    - session.  [Session]: session.go, the table of connections, users,
      tokens, generations and channels; [SessionOk] its invariant;
      [SessionClaims] what it promises.  [Ownership]: the OwnershipStore
      interface (ownership.go) as a type class with laws, and the in-memory
      store (ownership_memory.go) as an instance.
    - session/redis.  [RedisStore]: the Lua scripts of script.go as functions on
      a hash, and Acquire, Current and Release of store.go as goroutines whose
      scripts may be run twice and whose hashes may be lost; [Decimal] the
      decimal strings they compare.  [RedisStoreOk] reads the scripts as
      arithmetic and proves the invariant of every run, [RedisStoreClaims] holds
      the theorems.
    - cluster/gate.  [Gate]: ownership.go, provider.go, the parts of proxy.go
      and gate.go that touch the session; [GateOk]: what the gate promises
      with any lawful ownership store.  [GateForward]: handleReceive of gate.go
      and deliver of proxy.go, from the session to the node linker;
      [GateForwardClaims] its theorems.
    - internal/transporter/internal/server and internal/transporter/gate.
      [Server]: a connection of the transport server and its reading loop
      (conn.go, the handshake of server.go); [GateServer]: the Provider
      interface (provider.go) as a type class, the handlers of server.go
      written against it, the gate as its instance, and the methods of
      client.go.  [GateRpc] holds the lemmas about both ends of a call,
      [GateSafe] the proof that no provider method of a gate panics, and
      [RpcClaims] the theorems.
    - internal/transporter/internal/client.  [Call]: the calls that wait for
      an answer (message.go, pending.go) and the goroutines that share them
      (Client.Call, handshake, doWrite, read), one step per access to shared
      memory; [CallOk] the invariant of every interleaving; [CallClaims] the
      theorems.
    - internal/transporter/node and the entry of a node.  [NodeServer]: the
      node's Provider interface as a type class, its handlers and the client;
      [NodeRpc] what a stream of requests does to a node; [NodeEntry]:
      trigger.go and provider.go of cluster/node, the instance of that class;
      [NodeRpcClaims] the theorems.
    - internal/dispatcher with core/endpoint and the service instances of
      registry.  [Dispatcher], [DispatcherOk], [DispatcherClaims]: the tables
      of routes and events and the choice of an endpoint.
    - internal/link.  [SourceHints]: the bounded cache of hints; [Link]: what
      the linkers share, with every call that leaves the process as a value
      whose answer is a parameter; [GateLink] and [NodeLink]: gate.go and
      node.go; [NodeLinkOk], [NodeLinkClaims], [GateLinkOk] and
      [GateLinkClaims] the lemmas and theorems.
    - cluster/node.  [Types.Waits]: the count of work (node.go); [Actor]:
      actor.go and scheduler.go as goroutines, [ActorOk] their invariants, [ActorClaims] the theorems; [Chain]: core/chains; [Proxy]:
      proxy.go; [Context]: request.go and event.go; [Router]: router.go,
      middleware.go and the life of pooled requests, [RouterOk] and
      [RouterClaims] what is proved of them; [NodeLife]: Start, Close and
      Destroy of node.go, [NodeLifeOk] and [NodeLifeClaims] the theorems.
    - network/ws.  [WsConn]: the connections of a WebSocket server
      (server_conn.go, server_conn_mgr.go, def.go) as goroutines over pooled
      objects; [WsConnOk] and [WsConnInv] the invariant, and a push that waits
      for ever; [WsBudget] the byte budget of the write queues;
      [WsConnClaims] the theorems.
    - network/tcp.  [TcpConn], [TcpConnOk], [TcpConnClaims]: the same for a TCP
      server.
    - log/file.  [FileSyncer]: syncer.go, the names of archives, the buffered
      file, rotation, compression and the goroutines that write, flush, tick
      and close; [FileSyncerNames] names and marks, [FileSyncerOk] what the
      files hold and the invariant of every run,
      [FileSyncerClaims] the theorems.
    - locate/redis.  [Locator]: locator.go and script.go, where users are bound
      and the events of it, as the locators of a cluster share them in Redis;
      [LocatorClaims] what a linker that follows the events knows.  [Watch]:
      watcher.go, the watchers as goroutines over two kinds of locks; [WatchOk]
      the invariant, [WatchClaims] the theorems.

    [Types] holds the data these parts exchange; [Threads] sums over
    goroutines; this file the result type, the state-and-error monad, machine
    integers, slices and the shared lemmas.

    ** How the code is rendered

    A Go function that can fail or panic returns [res]: a value, an error, or
    [Panic].  A method that changes its receiver is an [ST] computation: it
    takes the state and returns a result and the state left behind, also when
    it fails or panics.  Integers are Z, wrapped where the source computes in
    a fixed width ([u16], [u32], [i32], ...); bytes are Z in [0, 256).  Slicing
    and indexing out of range panic as in Go.  Connections are shared objects:
    the session's maps hold references into a heap, so a change made through
    one map is seen through all.  A method that holds the session's lock is one
    step; sequences of such steps are the reachable states of [SessionOk].
    Where goroutines share memory ([Call], [Actor], [Router], [NodeLife],
    [WsConn], [TcpConn], [RedisStore], [FileSyncer], [Watch]) a goroutine is the
    list of what it still has to do; one step is one access to shared memory or one
    region under a lock, [exec t x s] lets goroutine [t] take a step with
    outcome [x] of the network, the clock or a pool, and theorems are about the
    states reachable by any sequence of such steps.
    Calls that leave the modelled code (sending on a connection, the locator,
    the registry, remote gates and nodes, the range allocator, the file system)
    are recorded in a log, and their answers are parameters or outcomes.  What
    sync.Pool hands out, the clock, the application's callbacks and the
    configuration are parameters too.

    All definitions are executable and total.  Loops range over lists and the
    recursion over nested chains is structural.  Four loops take fuel: the
    Reader's list methods ([each_chunk], as much fuel as bytes, each round
    taking at least one), the IPv6 parser of net/netip behind IP2Long (eight
    groups at most), the printing of a number ([Decimal.FormatUint], 21 digits
    for numbers below 2^64), and the server's reading loop ([Server.read]),
    where every turn takes at least four bytes off the stream; one more than
    the stream's length is enough, and [RpcClaims.gate_server_survives] states
    that the loop always ends.

    ** What the theorems show

    - Session: every reachable table is consistent; binding moves a user to
      exactly one connection; a superseded token is never current again and
      nothing fenced with it is delivered; removal, subscription and publishing
      touch exactly what they should.
    - Ownership and gate: generations of a user grow, in memory and in Redis,
      there through retried scripts and lost hashes and as long as the
      allocator keeps its contract, and no token is given out twice; the Lua
      comparison is exact; a bind leaves store and session in agreement; a
      token that lost the user in the shared store is refused by this gate; a
      disconnect gives back its own token only.
    - From a client to a handler: a message reaches the nodes at most once and
      unchanged, with the current token of its session; the node's server hands
      it to the router with the token of the sender; a request whose token lost
      the user is not handled; every request taken is handled to its end and
      recycled once.
    - Calls between nodes and gates: a remote call returns what the call at the
      gate returns, up to the error codes of the wire; a stream of requests is
      served in order, one answer each; any stream of bytes leaves the gate
      consistent; under any interleaving of the client's goroutines an answer
      reaches its own call exactly once or is released, and a call that
      returned is over.
    - Linkers and dispatcher: the hints are a cache of the least recently used;
      owned sources are counted; deliveries reach one node at most once;
      rotation by weight is fair; the gate linker does not panic.
    - Actors and the life of a node: an actor ends once and is waited for; idle
      actors are released exactly when idle; phases follow each other and Close
      waits for accepted work.
    - Connections: no goroutine works on a recycled WebSocket connection, none
      panics, the queued bytes and the connections stay within their limits.
    - Log files: while the system's calls succeed no entry and no archive is
      lost under any interleaving, and archives are recognized at a restart.
    - Locator: watchers hear what was published, in order, and miss nothing
      while they run; while calls do not overlap a linker's table is what Redis
      holds.
    - Wire formats: every request and every answer within its limits survives
      encoding, framing, reading off the stream and decoding; decoders return
      or fail but do not panic on any bytes; client packets round-trip, do not
      run into each other and are accepted exactly when their fields fit; the
      copy-free variants agree with the copying ones.
    - Buffers: any record of typed fields round-trips; a chain is written as
      its bytes; a delayed release happens once; a pooled block has the size
      asked for.
    - Limits and faults: theorems that state what the code does beyond its
      limits or between two of its steps (wrapped offsets and sizes, a push
      that keeps a connection for ever, TCP sockets that fail early or are read
      late, a connection that changes its user while its message is under way,
      a script retried after its hash was lost, a buffer that Close does not
      flush, a watcher whose Stop deadlocks with the delivery of an event, two
      bindings whose events arrive the other way round), so that a repair has a statement to change.

    ** Bounds

    Sizes of frames are below 2^32 (the size field), and allocations below
    [max_alloc], far above any frame; the round-trip theorems assume both and
    nothing else about sizes beyond the width of each length field.
    Generations are 64-bit (63-bit in Redis): theorems that need a fresh one
    assume the counter is not exhausted.  Archive versions are 63-bit and the
    log theorem assumes that some are left.

    ** Not modelled

    Of the modelled packages: the accept loops and the writing goroutine of the
    transport server, dialing, the write queue and the fault window of the
    transport client, Start, Close and Destroy of the gate, the options, Ping
    and Close of the Redis client, the clients of network/ws and network/tcp,
    the single flight of lookups and the table of watcher managers in the
    locator, and the code that only copies options or formats output.
    Left out as a whole: network/kcp and the http component (close variants of
    the servers above over other libraries), cluster/mesh and cluster/client
    (thin wrappers of the linkers), registries (clients of Consul, etcd and
    Nacos; the linkers take their answers as a parameter),
    configuration, environment, caches, locks and event buses (adapters of
    outside services), crypto, encoding and the gRPC and rpcx transports
    (wrappers of libraries), the conversions of utils and the formatting of log
    lines (no part above depends on their result). *)
From stdpp Require Import base numbers list gmap strings.
From Stdlib Require Import ZArith Lia.

Declare Scope go_scope.
Delimit Scope go_scope with go.

Open Scope Z_scope.

(** ** Errors: the sentinels of package errors, and what other packages hand back *)

Inductive error :=
| ErrInvalidMessage
| ErrNotFoundSession
| ErrStaleSession
| ErrInvalidSessionKind
| ErrInvalidArgument
| ErrNotFoundRoute
| ErrNotFoundEvent
| ErrNotFoundEndpoint
| ErrNotFoundUserLocation
| ErrConnectionHanged
| ErrConnectionClosed
| ErrSeqOverflow
| ErrRouteOverflow
| ErrMessageTooLarge
| ErrIllegalRequest
| ErrUnexpectedEOF
| ErrUnknownError
| ErrClientClosed
| ErrOwnershipGenerationExhausted
| ErrNotFoundLocator
| ErrInvalidGID
| ErrInvalidNID
| ErrReceiveTargetEmpty
| ErrIllegalOperation
| ErrActorExists
| ErrNotFoundActor
| ErrNotBindActor
| ErrUnregisterRoute
| ErrMissingDispatchStrategy
| ErrMissingTransporter
| ErrConnectionNotOpened
| ErrConnectionNotHanged
| ErrTooManyConnection
| ErrWriteQueueBytesExceeded
| ErrDeadlineExceeded
| EOF
| IoErrUnexpectedEOF
| ErrNew (text : string)
| ErrExternal (code : Z).

#[global] Instance error_eq_dec : EqDecision error.
Proof. solve_decision. Defined.

(** ** Results: a Go call returns a value, returns an error, or panics *)

Inductive res (A : Type) : Type :=
| Ok (a : A)
| Err (e : error)
| Panic.
Arguments Ok {A} a.
Arguments Err {A} e.
Arguments Panic {A}.

#[global] Instance res_eq_dec {A} `{EqDecision A} : EqDecision (res A).
Proof. solve_decision. Defined.

Definition res_bind {A B} (m : res A) (k : A -> res B) : res B :=
  match m with
  | Ok a => k a
  | Err e => Err e
  | Panic => Panic
  end.

(** Stateful calls: the state is the receiver object, and it survives an error
    return (a Go method that returns an error leaves its receiver behind). *)
Definition ST (S A : Type) : Type := S -> res A * S.

Definition st_ret {S A} (a : A) : ST S A := fun s => (Ok a, s).
Definition st_err {S A} (e : error) : ST S A := fun s => (Err e, s).
Definition st_panic {S A} : ST S A := fun s => (Panic, s).
Definition st_bind {S A B} (m : ST S A) (k : A -> ST S B) : ST S B :=
  fun s => match m s with
           | (Ok a, s') => k a s'
           | (Err e, s') => (Err e, s')
           | (Panic, s') => (Panic, s')
           end.
Definition st_get {S} : ST S S := fun s => (Ok s, s).
Definition st_put {S} (s' : S) : ST S unit := fun _ => (Ok tt, s').
Definition st_lift {S A} (r : res A) : ST S A := fun s => (r, s).
Definition st_run {S A} (m : ST S A) (s : S) : res A := (m s).1.

Notation "'do' x <- m ; k" := (res_bind m (fun x => k))
  (at level 10, x pattern, m at level 100, k at level 200) : go_scope.
Notation "'let!' x := m 'in' k" := (st_bind m (fun x => k))
  (at level 10, x pattern, m at level 100, k at level 200) : go_scope.
Notation "m ;;; k" := (st_bind m (fun _ => k))
  (at level 100, k at level 200, right associativity) : go_scope.

Fixpoint st_iter {S A} (f : A -> ST S unit) (l : list A) : ST S unit :=
  match l with
  | [] => st_ret tt
  | x :: l' => st_bind (f x) (fun _ => st_iter f l')
  end.

(** n calls in a row, with their results *)
Fixpoint st_times {S A} (n : nat) (m : ST S A) : ST S (list A) :=
  match n with
  | O => st_ret []
  | Datatypes.S n' => st_bind m (fun a => st_bind (st_times n' m) (fun l => st_ret (a :: l)))
  end.

(** m's error as a value: the caller looks at err and goes on *)
Definition st_try {S A} (m : ST S A) : ST S (A + error) := fun s =>
  match m s with
  | (Ok a, s') => (Ok (inl a), s')
  | (Err e, s') => (Ok (inr e), s')
  | (Panic, s') => (Panic, s')
  end.

(** Rethrow after clean-up *)
Definition st_raise {S A} (r : A + error) : ST S A :=
  match r with inl a => st_ret a | inr e => st_err e end.

(** ** Machine integers: w-bit values as Z with the wrap-around written out *)

Definition wrapU (w z : Z) : Z := z mod 2 ^ w.
Definition wrapS (w z : Z) : Z := (z + 2 ^ (w - 1)) mod 2 ^ w - 2 ^ (w - 1).

Abbreviation u8 := (wrapU 8).
Abbreviation u16 := (wrapU 16).
Abbreviation u32 := (wrapU 32).
Abbreviation u64 := (wrapU 64).
Abbreviation i8 := (wrapS 8).
Abbreviation i16 := (wrapS 16).
Abbreviation i32 := (wrapS 32).
Abbreviation i64 := (wrapS 64).

Definition inU (w z : Z) : Prop := 0 <= z < 2 ^ w.
Definition inS (w z : Z) : Prop := - 2 ^ (w - 1) <= z < 2 ^ (w - 1).

Definition len {A} (l : list A) : Z := Z.of_nat (length l).

(** l[lo:hi] for a slice whose capacity is its length: a bound outside panics. *)
Definition go_slice {A} (l : list A) (lo hi : Z) : res (list A) :=
  if (0 <=? lo) && (lo <=? hi) && (hi <=? len l)
  then Ok (take (Z.to_nat (hi - lo)) (drop (Z.to_nat lo) l))
  else Panic.

(** l[i]: an index outside panics. *)
Definition go_index {A} (l : list A) (i : Z) : res A :=
  if (0 <=? i) && (i <? len l)
  then match l !! Z.to_nat i with Some x => Ok x | None => Panic end
  else Panic.

Lemma wrapU_id w z : inU w z -> wrapU w z = z.
Proof. apply Z.mod_small. Qed.

Lemma wrapU_in w z : 0 <= w -> inU w (wrapU w z).
Proof. intros. apply Z.mod_pos_bound, Z.pow_pos_nonneg; lia. Qed.

Lemma wrapS_id w z : 0 < w -> inS w z -> wrapS w z = z.
Proof.
  unfold wrapS, inS. intros Hw Hz.
  assert (2 ^ w = 2 * 2 ^ (w - 1)) as Hp
    by (rewrite <- Z.pow_succ_r by lia; f_equal; lia).
  rewrite Z.mod_small by lia. lia.
Qed.

Lemma wrapS_in w z : 0 < w -> inS w (wrapS w z).
Proof.
  unfold wrapS, inS. intros Hw.
  assert (2 ^ w = 2 * 2 ^ (w - 1)) as Hp
    by (rewrite <- Z.pow_succ_r by lia; f_equal; lia).
  assert (0 < 2 ^ (w - 1)) by (apply Z.pow_pos_nonneg; lia).
  pose proof (Z.mod_pos_bound (z + 2 ^ (w - 1)) (2 ^ w)). lia.
Qed.

(** A signed value written through its unsigned pattern and read back. *)
Lemma wrapS_wrapU w z : 0 < w -> wrapS w (wrapU w z) = wrapS w z.
Proof.
  intros. unfold wrapS, wrapU. rewrite Zplus_mod_idemp_l. done.
Qed.

Lemma wrapU_wrapU w z : wrapU w (wrapU w z) = wrapU w z.
Proof. unfold wrapU. apply Zmod_mod. Qed.

Lemma len_nonneg {A} (l : list A) : 0 <= len l.
Proof. unfold len. lia. Qed.

Lemma len_app {A} (l k : list A) : len (l ++ k) = len l + len k.
Proof. unfold len. rewrite length_app. lia. Qed.

Lemma len_cons {A} (x : A) l : len (x :: l) = 1 + len l.
Proof. unfold len. rewrite length_cons. lia. Qed.

Lemma len_nil {A} : len (@nil A) = 0.
Proof. done. Qed.

Lemma len_to_nat {A} (l : list A) : Z.to_nat (len l) = length l.
Proof. unfold len. lia. Qed.

Lemma filter_none {A} (P : A -> Prop) `{Hdec : !forall x, Decision (P x)} (l : list A) :
  (forall x, x ∈ l -> ~ P x) -> filter P l = [].
Proof.
  induction l as [|x l IH]; intros H; [done|].
  rewrite filter_cons_False by (apply H; by left). apply IH. intros y Hy. apply H. by right.
Qed.

(** The middle of a list cut at its exact borders. *)
Lemma go_slice_mid {A} (pre mid post : list A) lo hi :
  lo = len pre -> hi = len pre + len mid ->
  go_slice (pre ++ mid ++ post) lo hi = Ok mid.
Proof.
  intros -> ->. unfold go_slice.
  pose proof (len_nonneg pre). pose proof (len_nonneg mid).
  pose proof (len_nonneg post). rewrite !len_app.
  rewrite (proj2 (Z.leb_le _ _)) by lia.
  rewrite (proj2 (Z.leb_le _ _)) by lia.
  rewrite (proj2 (Z.leb_le _ _)) by lia. simpl.
  rewrite len_to_nat, drop_app_length.
  replace (Z.to_nat (len pre + len mid - len pre)) with (length mid)
    by (unfold len; lia).
  by rewrite take_app_length.
Qed.

Lemma go_slice_tail {A} (pre post : list A) lo :
  lo = len pre -> go_slice (pre ++ post) lo (len (pre ++ post)) = Ok post.
Proof.
  intros ->. rewrite <- (app_nil_r post) at 1.
  apply go_slice_mid; [done|]. by rewrite len_app.
Qed.

Arguments go_slice : simpl never.
Arguments go_index : simpl never.
Arguments wrapU : simpl never.
Arguments wrapS : simpl never.

(** ** Calls that keep an invariant

    [stable I m Q]: from a state of [I] the call [m] does not panic, leaves a
    state of [I] whether it succeeds or fails, and returns a value of [Q]. *)

Definition stable {S A} (I : S -> Prop) (m : ST S A) (Q : A -> Prop) : Prop :=
  forall s, I s -> match m s with
                   | (Ok a, s') => Q a /\ I s'
                   | (Err _, s') => I s'
                   | (Panic, _) => False
                   end.

Create HintDb stable.

Section Stable.
Context {S : Type} (I : S -> Prop).

Lemma stable_ret {A} (a : A) (Q : A -> Prop) : Q a -> stable I (st_ret a) Q.
Proof. by intros ? s. Qed.

Lemma stable_err {A} e (Q : A -> Prop) : stable I (st_err e) Q.
Proof. by intros s. Qed.

Lemma stable_lift {A} (r : res A) (Q : A -> Prop) :
  match r with Ok a => Q a | Err _ => True | Panic => False end -> stable I (st_lift r) Q.
Proof. intros H s Hs. by destruct r. Qed.

Lemma stable_bind {A B} (m : ST S A) (k : A -> ST S B) (Q : A -> Prop) (R : B -> Prop) :
  stable I m Q -> (forall a, Q a -> stable I (k a) R) -> stable I (st_bind m k) R.
Proof.
  intros Hm Hk s Hs. unfold st_bind. specialize (Hm s Hs).
  destruct (m s) as [[a|e|] s']; [|done|done]. destruct Hm as [Ha Hs']. exact (Hk a Ha s' Hs').
Qed.

Lemma stable_weaken {A} (m : ST S A) (Q R : A -> Prop) :
  (forall a, Q a -> R a) -> stable I m Q -> stable I m R.
Proof.
  intros HQ Hm s Hs. specialize (Hm s Hs). destruct (m s) as [[a|e|] s']; [|done|done].
  destruct Hm. auto.
Qed.

Lemma stable_try {A} (m : ST S A) (Q : A -> Prop) :
  stable I m Q -> stable I (st_try m) (fun r => match r with inl a => Q a | inr _ => True end).
Proof. intros Hm s Hs. unfold st_try. specialize (Hm s Hs). by destruct (m s) as [[a|e|] s']. Qed.

Lemma stable_raise {A} (r : A + error) (Q : A -> Prop) :
  match r with inl a => Q a | inr _ => True end -> stable I (st_raise r) Q.
Proof. destruct r; [apply stable_ret|intros; apply stable_err]. Qed.
End Stable.

#[export] Hint Resolve stable_ret stable_err : stable.
