(* ===== verification/Binary.v ===== *)
(** Byte orders of encoding/binary, as the buffer, packet and protocol
    packages use them: fixed-width unsigned values to and from byte lists.
    Bytes are Z values in [0, 256).  [put_uint]/[get_uint] stand for
    ByteOrder.PutUint16/32/64 and ByteOrder.Uint16/32/64 (the width is the
    number of bytes); the theorems are the conversion laws the codecs need. *)
From stdpp Require Import base numbers list.
From Stdlib Require Import ZArith Lia.
From S2P Require Import Prelude.

Open Scope Z_scope.

Inductive ByteOrder := BigEndian | LittleEndian.

#[global] Instance ByteOrder_eq_dec : EqDecision ByteOrder.
Proof. solve_decision. Defined.

Definition is_byte (b : Z) : Prop := 0 <= b < 256.

(** byte(v >> 8*m), most significant first *)
Fixpoint be_bytes (n : nat) (v : Z) : list Z :=
  match n with
  | O => []
  | S m => (v / 2 ^ (8 * Z.of_nat m)) mod 256 :: be_bytes m v
  end.

Definition be_val (bs : list Z) : Z :=
  fold_left (fun acc b => acc * 256 + b) bs 0.

Definition put_uint (o : ByteOrder) (n : nat) (v : Z) : list Z :=
  match o with
  | BigEndian => be_bytes n v
  | LittleEndian => rev (be_bytes n v)
  end.

Definition get_uint (o : ByteOrder) (bs : list Z) : Z :=
  match o with
  | BigEndian => be_val bs
  | LittleEndian => be_val (rev bs)
  end.

Lemma length_be_bytes n v : length (be_bytes n v) = n.
Proof. induction n; simpl; congruence. Qed.

Lemma length_put_uint o n v : length (put_uint o n v) = n.
Proof. destruct o; simpl; [|rewrite length_rev]; apply length_be_bytes. Qed.

Lemma len_put_uint o n v : len (put_uint o n v) = Z.of_nat n.
Proof. unfold len. by rewrite length_put_uint. Qed.

Lemma be_bytes_range n v : Forall is_byte (be_bytes n v).
Proof.
  induction n; simpl; constructor; [|done].
  apply Z.mod_pos_bound; lia.
Qed.

Lemma put_uint_range o n v : Forall is_byte (put_uint o n v).
Proof.
  destruct o; simpl; [apply be_bytes_range|].
  apply List.Forall_rev, be_bytes_range.
Qed.

Lemma be_val_acc bs acc :
  fold_left (fun acc b => acc * 256 + b) bs acc
  = acc * 2 ^ (8 * len bs) + be_val bs.
Proof.
  revert acc. unfold be_val. induction bs as [|b bs IH]; intros acc; simpl.
  - change (2 ^ (8 * len (@nil Z))) with 1. lia.
  - rewrite IH, (IH (0 * 256 + b)), len_cons.
    replace (8 * (1 + len bs)) with (8 + 8 * len bs) by lia.
    rewrite Z.pow_add_r by (pose proof (len_nonneg bs); lia).
    change (2 ^ 8) with 256. ring.
Qed.

Lemma be_val_cons b bs : be_val (b :: bs) = b * 2 ^ (8 * len bs) + be_val bs.
Proof. unfold be_val at 1. simpl. rewrite be_val_acc. f_equal; lia. Qed.

Lemma be_val_app l k : be_val (l ++ k) = be_val l * 2 ^ (8 * len k) + be_val k.
Proof. unfold be_val at 1. rewrite fold_left_app, be_val_acc. done. Qed.

Lemma be_val_bytes n v : be_val (be_bytes n v) = v mod 2 ^ (8 * Z.of_nat n).
Proof.
  induction n as [|n IH]; simpl be_bytes.
  - by rewrite Z.mod_1_r.
  - rewrite be_val_cons, IH. unfold len. rewrite length_be_bytes.
    replace (8 * Z.of_nat (S n)) with (8 * Z.of_nat n + 8) by lia.
    rewrite Z.pow_add_r, Z.rem_mul_r by lia.
    change (2 ^ 8) with 256. ring.
Qed.

Lemma be_val_range bs : Forall is_byte bs -> 0 <= be_val bs < 2 ^ (8 * len bs).
Proof.
  induction 1 as [|b bs Hb _ IH].
  - unfold be_val, len. simpl. lia.
  - rewrite be_val_cons, len_cons. unfold is_byte in Hb.
    replace (8 * (1 + len bs)) with (8 + 8 * len bs) by lia.
    rewrite Z.pow_add_r by (pose proof (len_nonneg bs); lia).
    change (2 ^ 8) with 256. nia.
Qed.

Lemma be_bytes_mod n k v :
  (n <= k)%nat -> be_bytes n (v mod 2 ^ (8 * Z.of_nat k)) = be_bytes n v.
Proof.
  intros Hk. induction n as [|n IH]; simpl; [done|].
  f_equal; [|apply IH; lia].
  replace (8 * Z.of_nat k)
    with (8 * Z.of_nat n + (8 + 8 * (Z.of_nat k - Z.of_nat n - 1))) by lia.
  rewrite !Z.pow_add_r, Z.rem_mul_r by lia.
  rewrite (Z.mul_comm (2 ^ (8 * Z.of_nat n))), Z.div_add by lia.
  rewrite Z.div_small by (apply Z.mod_pos_bound; lia).
  rewrite Z.add_0_l. change (2 ^ 8) with 256.
  rewrite (Z.rem_mul_r _ 256) by lia.
  by rewrite (Z.mul_comm 256), Z.mod_add, Zmod_mod by lia.
Qed.

Lemma be_bytes_val bs : Forall is_byte bs -> be_bytes (length bs) (be_val bs) = bs.
Proof.
  induction 1 as [|b bs Hb Hbs IH]; simpl; [done|].
  pose proof (be_val_range bs Hbs) as Hr. unfold is_byte in Hb.
  rewrite be_val_cons. f_equal.
  - fold (len bs). rewrite Z.add_comm, Z.div_add, Z.div_small by lia.
    apply Z.mod_small. lia.
  - transitivity (be_bytes (length bs) (be_val bs)); [|exact IH].
    rewrite <- (be_bytes_mod (length bs) (length bs)) by lia.
    f_equal. fold (len bs).
    rewrite (Z.add_comm (b * _)), Z.mod_add by lia.
    by apply Z.mod_small.
Qed.

(** Reading what was written gives the value at the written width. *)
Lemma get_put_uint o n v :
  get_uint o (put_uint o n v) = wrapU (8 * Z.of_nat n) v.
Proof.
  destruct o; simpl; [|rewrite rev_involutive]; apply be_val_bytes.
Qed.

(** Writing what was read gives the bytes back. *)
Lemma put_get_uint o bs :
  Forall is_byte bs -> put_uint o (length bs) (get_uint o bs) = bs.
Proof.
  intros H. destruct o; simpl; [by apply be_bytes_val|].
  rewrite <- length_rev, be_bytes_val by by apply List.Forall_rev.
  apply rev_involutive.
Qed.

Lemma get_uint_range o bs :
  Forall is_byte bs -> inU (8 * len bs) (get_uint o bs).
Proof.
  intros H. destruct o; simpl; [by apply be_val_range|].
  replace (len bs) with (len (rev bs)) by (unfold len; by rewrite length_rev).
  by apply be_val_range, List.Forall_rev.
Qed.

Create HintDb binary.
Create Rewrite HintDb len.
#[export] Hint Resolve length_put_uint put_uint_range : binary.
#[export] Hint Rewrite @len_app @len_cons @len_nil len_put_uint : len.
