(* ===== verification/Reader.v ===== *)
(** core/buffer/reader.go: the cursor over a received byte slice.
    The receiver is the state of the calls; int arithmetic is 64-bit. *)
From stdpp Require Import base numbers list strings.
From Stdlib Require Import ZArith Lia.
From S2P Require Import Prelude Binary.

Open Scope Z_scope.
Open Scope go_scope.

Definition b8 : Z := 1.
Definition b16 : Z := 2.
Definition b32 : Z := 4.
Definition b64 : Z := 8.

(** io.SeekStart, io.SeekCurrent, io.SeekEnd *)
Definition SeekStart : Z := 0.
Definition SeekCurrent : Z := 1.
Definition SeekEnd : Z := 2.

(** float32 and float64 values are carried by their IEEE bit patterns:
    math.Float32frombits and math.Float64frombits reinterpret the word. *)
Record float32 := Float32frombits { Float32bits : Z }.
Record float64 := Float64frombits { Float64bits : Z }.

(** make([]T, 0, n): the runtime panics on a negative capacity and on one
    whose size in bytes is over the allocator's address space. *)
Definition max_alloc : Z := 2 ^ 48.
Definition make_cap (elem n : Z) : res unit :=
  if (n <? 0) || (max_alloc <? elem * n) then Panic else Ok tt.

(** for i := 0; i < len(buf); i += k { values = append(values, f(buf[i:i+k])) } *)
Fixpoint each_chunk {A} (fuel k : nat) (f : list Z -> A) (buf : list Z) : list A :=
  match fuel, buf with
  | S fuel', _ :: _ => f (take k buf) :: each_chunk fuel' k f (drop k buf)
  | _, _ => []
  end.

Definition decode_all {A} (k : Z) (f : list Z -> A) (buf : list Z) : list A :=
  each_chunk (length buf) (Z.to_nat k) f buf.

Module Reader.

Record Reader := mkReader { buf : list Z; off : Z }.

Definition NewReader (data : list Z) : Reader := mkReader data 0.

Definition Reset : ST Reader unit :=
  fun r => (Ok tt, mkReader (buf r) 0).

Definition Seek (offset whence : Z) : ST Reader Z := fun r =>
  let abs := if whence =? SeekStart then Some offset
             else if whence =? SeekCurrent then Some (i64 (off r + offset))
             else if whence =? SeekEnd then Some (i64 (len (buf r) + offset))
             else None in
  match abs with
  | None => (Err (ErrNew "buffer.Reader.Seek: invalid whence"%string), r)
  | Some a =>
      if a <? 0 then (Err (ErrNew "buffer.Reader.Seek: negative position"%string), r)
      else (Ok a, mkReader (buf r) a)
  end.

Definition slices (b n : Z) : ST Reader (list Z) := fun r =>
  let o := i64 (b * n) in
  if i64 (off r + o) >? len (buf r) then (Err ErrUnexpectedEOF, r)
  else match go_slice (buf r) (off r) (i64 (off r + o)) with
       | Ok bs => (Ok bs, mkReader (buf r) (i64 (off r + o)))
       | Err e => (Err e, r)
       | Panic => (Panic, r)
       end.

Definition slice (b : Z) : ST Reader (list Z) := slices b 1.

(** buf[0] of a slice already known to hold a byte *)
Definition first (bs : list Z) : ST Reader Z := st_lift (go_index bs 0).

Definition ReadBool : ST Reader bool :=
  let! bs := slice b8 in let! b := first bs in st_ret (b =? 1).

Definition ReadBools (n : Z) : ST Reader (list bool) :=
  if n <=? 0 then st_ret [] else
  let! bs := slices b8 n in
  let! _ := st_lift (make_cap 1 n) in
  st_ret (decode_all 1 (fun c => get_uint BigEndian c =? 1) bs).

Definition ReadInt8 : ST Reader Z :=
  let! bs := slice b8 in let! b := first bs in st_ret (i8 b).

Definition ReadInt8s (n : Z) : ST Reader (list Z) :=
  if n <=? 0 then st_ret [] else
  let! bs := slices b8 n in
  let! _ := st_lift (make_cap 1 n) in
  st_ret (decode_all 1 (fun c => i8 (get_uint BigEndian c)) bs).

Definition ReadUint8 : ST Reader Z :=
  let! bs := slice b8 in let! b := first bs in st_ret b.

Definition ReadUint8s (n : Z) : ST Reader (list Z) :=
  if n <=? 0 then st_ret [] else
  let! bs := slices b8 n in
  let! _ := st_lift (make_cap 1 n) in
  st_ret (decode_all 1 (get_uint BigEndian) bs).

Definition ReadInt16 (order : ByteOrder) : ST Reader Z :=
  let! bs := slice b16 in st_ret (i16 (get_uint order bs)).

Definition ReadInt16s (order : ByteOrder) (n : Z) : ST Reader (list Z) :=
  if n <=? 0 then st_ret [] else
  let! bs := slices b16 n in
  let! _ := st_lift (make_cap 2 n) in
  st_ret (decode_all b16 (fun c => i16 (get_uint order c)) bs).

Definition ReadUint16 (order : ByteOrder) : ST Reader Z :=
  let! bs := slice b16 in st_ret (get_uint order bs).

Definition ReadUint16s (order : ByteOrder) (n : Z) : ST Reader (list Z) :=
  if n <=? 0 then st_ret [] else
  let! bs := slices b16 n in
  let! _ := st_lift (make_cap 2 n) in
  st_ret (decode_all b16 (get_uint order) bs).

Definition ReadInt32 (order : ByteOrder) : ST Reader Z :=
  let! bs := slice b32 in st_ret (i32 (get_uint order bs)).

Definition ReadInt32s (order : ByteOrder) (n : Z) : ST Reader (list Z) :=
  let! bs := slices b32 n in
  let! _ := st_lift (make_cap 4 n) in
  st_ret (decode_all b32 (fun c => i32 (get_uint order c)) bs).

Definition ReadUint32 (order : ByteOrder) : ST Reader Z :=
  let! bs := slice b32 in st_ret (get_uint order bs).

Definition ReadUint32s (order : ByteOrder) (n : Z) : ST Reader (list Z) :=
  let! bs := slices b32 n in
  let! _ := st_lift (make_cap 4 n) in
  st_ret (decode_all b32 (get_uint order) bs).

Definition ReadInt64 (order : ByteOrder) : ST Reader Z :=
  let! bs := slice b64 in st_ret (i64 (get_uint order bs)).

Definition ReadInt64s (order : ByteOrder) (n : Z) : ST Reader (list Z) :=
  if n <=? 0 then st_ret [] else
  let! bs := slices b64 n in
  let! _ := st_lift (make_cap 8 n) in
  st_ret (decode_all b64 (fun c => i64 (get_uint order c)) bs).

Definition ReadUint64 (order : ByteOrder) : ST Reader Z :=
  let! bs := slice b64 in st_ret (get_uint order bs).

Definition ReadUint64s (order : ByteOrder) (n : Z) : ST Reader (list Z) :=
  if n <=? 0 then st_ret [] else
  let! bs := slices b64 n in
  let! _ := st_lift (make_cap 8 n) in
  st_ret (decode_all b64 (get_uint order) bs).

Definition ReadFloat32 (order : ByteOrder) : ST Reader float32 :=
  let! bs := slice b32 in st_ret (Float32frombits (get_uint order bs)).

Definition ReadFloat32s (order : ByteOrder) (n : Z) : ST Reader (list float32) :=
  if n <=? 0 then st_ret [] else
  let! bs := slices b32 n in
  let! _ := st_lift (make_cap 4 n) in
  st_ret (decode_all b32 (fun c => Float32frombits (get_uint order c)) bs).

Definition ReadFloat64 (order : ByteOrder) : ST Reader float64 :=
  let! bs := slice b64 in st_ret (Float64frombits (get_uint order bs)).

Definition ReadFloat64s (order : ByteOrder) (n : Z) : ST Reader (list float64) :=
  if n <=? 0 then st_ret [] else
  let! bs := slices b64 n in
  let! _ := st_lift (make_cap 8 n) in
  st_ret (decode_all b64 (fun c => Float64frombits (get_uint order c)) bs).

Definition ReadRune (order : ByteOrder) : ST Reader Z := ReadInt32 order.

Definition ReadRunes (order : ByteOrder) (n : Z) : ST Reader (list Z) :=
  ReadInt32s order n.

Definition ReadByte : ST Reader Z := ReadUint8.

Definition ReadBytes (n : Z) : ST Reader (list Z) :=
  if n <=? 0 then st_ret [] else slices b8 n.

(** A Go string is its bytes. *)
Definition ReadString (n : Z) : ST Reader (list Z) :=
  let! bs := slice n in st_ret bs.

End Reader.
Import Reader.

(** ** The cursor predicate: [suf] is what is left to read *)

Definition fits {A} (l : list A) : Prop := len l <= max_alloc.

Definition reader_at (r : Reader) (suf : list Z) : Prop :=
  exists pre, buf r = pre ++ suf /\ off r = len pre /\ fits (buf r).

Lemma fits_i64 z : 0 <= z <= max_alloc -> i64 z = z.
Proof. intros. apply wrapS_id; [lia|]. unfold inS, max_alloc in *. lia. Qed.

Lemma reader_at_new data : fits data -> reader_at (NewReader data) data.
Proof. intros. exists []. done. Qed.

Lemma seek_start_at r pre suf n :
  buf r = pre ++ suf -> len pre = n -> fits (buf r) ->
  exists r', reader_at r' suf /\ buf r' = buf r /\
    forall B (k : Z -> ST Reader B), st_bind (Seek n SeekStart) k r = k n r'.
Proof.
  intros Hb Hn Hf. exists (mkReader (buf r) n). split; [|split; [done|]].
  - exists pre. auto.
  - intros B k. unfold st_bind, Seek. simpl.
    rewrite (proj2 (Z.ltb_ge n 0)); [done|]. pose proof (len_nonneg pre). lia.
Qed.

Lemma seek_current_at r mid suf n :
  reader_at r (mid ++ suf) -> len mid = n ->
  exists r', reader_at r' suf /\ buf r' = buf r /\
    forall B (k : Z -> ST Reader B),
      exists z, st_bind (Seek n SeekCurrent) k r = k z r'.
Proof.
  intros (pre & Hb & Ho & Hf) Hn.
  pose proof (len_nonneg pre). pose proof (len_nonneg mid).
  pose proof (len_nonneg suf).
  assert (i64 (off r + n) = len (pre ++ mid)) as He.
  { rewrite len_app, Ho, Hn. apply fits_i64. unfold fits in Hf.
    rewrite Hb, !len_app in Hf. lia. }
  exists (mkReader (buf r) (len (pre ++ mid))). split; [|split; [done|]].
  - exists (pre ++ mid). by rewrite <- app_assoc.
  - intros B k. exists (len (pre ++ mid)). unfold st_bind, Seek. simpl.
    rewrite He. by rewrite (proj2 (Z.ltb_ge _ 0)) by apply len_nonneg.
Qed.

Lemma seek_end_at r pre suf n :
  buf r = pre ++ suf -> len suf = n -> fits (buf r) ->
  exists r', reader_at r' suf /\ buf r' = buf r /\
    forall B (k : Z -> ST Reader B),
      exists z, st_bind (Seek (- n) SeekEnd) k r = k z r'.
Proof.
  intros Hb Hn Hf.
  pose proof (len_nonneg pre). pose proof (len_nonneg suf).
  assert (i64 (len (buf r) + - n) = len pre) as He.
  { rewrite Hb, len_app, Hn. rewrite fits_i64; [lia|].
    unfold fits in Hf. rewrite Hb, len_app in Hf. lia. }
  exists (mkReader (buf r) (len pre)). split; [|split; [done|]].
  - exists pre. auto.
  - intros B k. exists (len pre). unfold st_bind, Seek. simpl.
    rewrite He. by rewrite (proj2 (Z.ltb_ge _ 0)) by lia.
Qed.

Lemma slices_at r mid suf b n :
  reader_at r (mid ++ suf) -> b * n = len mid ->
  exists r', slices b n r = (Ok mid, r') /\ buf r' = buf r /\ reader_at r' suf.
Proof.
  intros (pre & Hb & Ho & Hf) Hn. unfold slices.
  pose proof (len_nonneg pre). pose proof (len_nonneg mid).
  pose proof (len_nonneg suf).
  assert (len (buf r) = len pre + len mid + len suf) as Hl
    by (rewrite Hb, !len_app; lia).
  unfold fits in Hf.
  rewrite Hn, (fits_i64 (len mid)), Ho, fits_i64 by lia.
  rewrite Z.gtb_ltb, (proj2 (Z.ltb_ge _ _)) by lia.
  assert (go_slice (buf r) (len pre) (len pre + len mid) = Ok mid) as ->
    by (rewrite Hb; by apply go_slice_mid).
  eexists. split; [done|]. split; [done|].
  exists (pre ++ mid). rewrite <- app_assoc, len_app. done.
Qed.

(** Past the end: the error, and the cursor stays where it was. *)
Lemma slices_eof r suf b n :
  reader_at r suf -> 0 <= b * n <= max_alloc -> len suf < b * n ->
  slices b n r = (Err ErrUnexpectedEOF, r).
Proof.
  intros (pre & Hb & Ho & Hf) Hn Hlt. unfold slices, fits in *.
  pose proof (len_nonneg pre). pose proof (len_nonneg suf).
  assert (len (buf r) = len pre + len suf) as Hl by (rewrite Hb, len_app; lia).
  rewrite (fits_i64 (b * n)) by lia.
  rewrite (wrapS_id 64) by (unfold inS, max_alloc in *; lia).
  rewrite Z.gtb_ltb, (proj2 (Z.ltb_lt _ _)) by lia. done.
Qed.

(** One lemma shape per reading primitive: bound to any continuation, it
    consumes the encoding of its value. *)
Definition consumes {A} (m : ST Reader A) (enc : list Z) (v : A) : Prop :=
  forall r suf, reader_at r (enc ++ suf) ->
    exists r', reader_at r' suf /\ buf r' = buf r /\
      forall B (k : A -> ST Reader B), st_bind m k r = k v r'.

Lemma consumes_slices b n mid : b * n = len mid -> consumes (slices b n) mid mid.
Proof.
  intros Hn r suf Hr. destruct (slices_at r mid suf b n Hr Hn) as (r' & E & Hb & Ha).
  exists r'. split; [done|]. split; [done|]. intros B k. unfold st_bind. by rewrite E.
Qed.

Lemma consumes_map {A B} (m : ST Reader A) (f : A -> ST Reader B) enc v w :
  consumes m enc v -> (forall r, f v r = (Ok w, r)) ->
  consumes (st_bind m f) enc w.
Proof.
  intros Hm Hf r suf Hr. destruct (Hm r suf Hr) as (r' & Ha & Hb & E).
  exists r'. split; [done|]. split; [done|]. intros C k.
  unfold st_bind at 1. rewrite E, Hf. done.
Qed.

Lemma consumes_uint o n (m : ST Reader Z) v :
  m = (let! bs := slice (Z.of_nat n) in st_ret (get_uint o bs)) ->
  consumes m (put_uint o n v) (wrapU (8 * Z.of_nat n) v).
Proof.
  intros ->. eapply consumes_map.
  - apply consumes_slices. rewrite len_put_uint. lia.
  - intros r. unfold st_ret. by rewrite get_put_uint.
Qed.

Lemma consumes_ReadUint64 o v : consumes (ReadUint64 o) (put_uint o 8 v) (u64 v).
Proof. by apply (consumes_uint o 8). Qed.

Lemma consumes_ReadUint32 o v : consumes (ReadUint32 o) (put_uint o 4 v) (u32 v).
Proof. by apply (consumes_uint o 4). Qed.

Lemma consumes_ReadUint16 o v : consumes (ReadUint16 o) (put_uint o 2 v) (u16 v).
Proof. by apply (consumes_uint o 2). Qed.

Lemma consumes_ReadInt64 o v : consumes (ReadInt64 o) (put_uint o 8 v) (i64 v).
Proof.
  eapply consumes_map; [apply consumes_slices; by rewrite len_put_uint|].
  intros r. unfold st_ret. by rewrite get_put_uint, wrapS_wrapU.
Qed.

Lemma consumes_ReadUint8 b : consumes ReadUint8 [b] b.
Proof.
  eapply consumes_map; [by apply (consumes_slices b8 1 [b])|]. done.
Qed.

Lemma consumes_ReadBool b : consumes ReadBool [if b : bool then 1 else 0] b.
Proof.
  eapply consumes_map; [by apply (consumes_slices b8 1 [_])|]. by destruct b.
Qed.

Lemma consumes_ReadString s : consumes (ReadString (len s)) s s.
Proof.
  eapply consumes_map; [apply consumes_slices; lia|]. done.
Qed.

Lemma each_chunk_concat {A} k (f : list Z -> A) cs fuel :
  (0 < k)%nat -> Forall (fun c => length c = k) cs -> (length cs <= fuel)%nat ->
  each_chunk fuel k f (concat cs) = map f cs.
Proof.
  intros Hk Hcs. revert fuel. induction Hcs as [|c cs Hc Hcs IH]; intros fuel Hf.
  - by destruct fuel.
  - destruct fuel as [|fuel]; simpl in *; [lia|].
    destruct c as [|z c]; [simpl in Hc; lia|].
    change ((z :: c) ++ concat cs) with (z :: (c ++ concat cs)). cbn [each_chunk].
    change (z :: c ++ concat cs) with ((z :: c) ++ concat cs).
    assert (take k ((z :: c) ++ concat cs) = z :: c) as ->
      by (rewrite <- Hc; apply take_app_length).
    assert (drop k ((z :: c) ++ concat cs) = concat cs) as ->
      by (rewrite <- Hc; apply drop_app_length).
    f_equal. apply IH. lia.
Qed.

Lemma len_concat_chunks (k : nat) (cs : list (list Z)) :
  Forall (fun c => length c = k) cs -> len (concat cs) = Z.of_nat k * len cs.
Proof.
  induction 1 as [|c cs Hc _ IH]; simpl; [unfold len; simpl; lia|].
  rewrite len_app, len_cons, IH. unfold len. lia.
Qed.

Lemma decode_all_concat {A} k (f : list Z -> A) cs :
  (0 < k)%nat -> Forall (fun c => length c = k) cs ->
  decode_all (Z.of_nat k) f (concat cs) = map f cs.
Proof.
  intros Hk Hcs. unfold decode_all. rewrite Nat2Z.id.
  apply each_chunk_concat; [done|done|].
  pose proof (len_concat_chunks k cs Hcs). unfold len in *. nia.
Qed.

Lemma put_chunks o n vs :
  Forall (fun c => length c = n) (map (put_uint o n) vs).
Proof.
  apply List.Forall_forall. intros c Hc. apply in_map_iff in Hc as (v & <- & _).
  apply length_put_uint.
Qed.

Lemma consumes_ReadInt64s o vs :
  fits vs -> 8 * len vs <= max_alloc ->
  consumes (ReadInt64s o (len vs)) (concat (map (put_uint o 8) vs)) (map i64 vs).
Proof.
  intros Hv Hv8 r suf Hr. pose proof (len_nonneg vs). unfold ReadInt64s.
  destruct (Z.leb_spec (len vs) 0) as [Hz|Hz].
  { assert (vs = []) as -> by (destruct vs; [done|rewrite len_cons in Hz;
      pose proof (len_nonneg vs); lia]). exists r. done. }
  assert (len (concat (map (put_uint o 8) vs)) = 8 * len vs) as Hl.
  { rewrite (len_concat_chunks 8) by apply put_chunks. unfold len.
    by rewrite length_map. }
  refine (consumes_map _ _ _ _ _ (consumes_slices b64 (len vs) _ _) _ r suf Hr);
    [rewrite Hl; unfold b64; lia|].
  intros r0. unfold make_cap. rewrite (proj2 (Z.ltb_ge _ _)) by lia.
  rewrite (proj2 (Z.ltb_ge _ _)) by lia. simpl. unfold st_bind, st_lift, st_ret.
  rewrite (decode_all_concat 8) by (first [lia|apply put_chunks]).
  rewrite map_map. do 2 f_equal. apply map_ext. intros v.
  by rewrite get_put_uint, wrapS_wrapU.
Qed.

(** ** Whole decoders: [m] run over [enc] yields [v] *)

Definition reads {A} (m : ST Reader A) (enc : list Z) (v : A) : Prop :=
  forall r, reader_at r enc -> (m r).1 = Ok v.

Lemma reads_bind {A B} (m : ST Reader A) (k : A -> ST Reader B) enc suf a v :
  consumes m enc a -> reads (k a) suf v -> reads (st_bind m k) (enc ++ suf) v.
Proof.
  intros Hm Hk r Hr. destruct (Hm r suf Hr) as (r' & Hr' & _ & E).
  rewrite E. by apply Hk.
Qed.

(** The last field: nothing is left after it. *)
Lemma reads_last {A B} (m : ST Reader A) (k : A -> ST Reader B) enc a v :
  consumes m enc a -> reads (k a) [] v -> reads (st_bind m k) enc v.
Proof. intros. rewrite <- (app_nil_r enc). by eapply reads_bind. Qed.

Lemma reads_ret {A} (v : A) enc : reads (st_ret v) enc v.
Proof. by intros r Hr. Qed.

Lemma reads_lift {A B} (m : res A) (k : A -> ST Reader B) enc a v :
  m = Ok a -> reads (k a) enc v -> reads (st_bind (st_lift m) k) enc v.
Proof. intros -> Hk r Hr. unfold st_bind, st_lift. by apply Hk. Qed.

Lemma reads_run {A} (m : ST Reader A) data v :
  fits data -> reads m data v -> st_run m (NewReader data) = Ok v.
Proof. intros Hf Hm. by apply Hm, reader_at_new. Qed.

Lemma reads_seek_start {B} (k : Z -> ST Reader B) pre suf n v :
  fits (pre ++ suf) -> len pre = n -> reads (k n) suf v ->
  st_run (st_bind (Seek n SeekStart) k) (NewReader (pre ++ suf)) = Ok v.
Proof.
  intros Hf Hn Hk.
  destruct (seek_start_at (NewReader (pre ++ suf)) pre suf n) as (r' & Hr' & _ & E); try done.
  unfold st_run. rewrite E. by apply Hk.
Qed.

(** The position a relative seek returns is never used. *)
Lemma reads_seek_current {B} (m : ST Reader B) mid suf n v :
  len mid = n -> reads m suf v ->
  reads (Seek n SeekCurrent ;;; m) (mid ++ suf) v.
Proof.
  intros Hn Hk r Hr. destruct (seek_current_at r mid suf n Hr Hn) as (r' & Hr' & _ & E).
  destruct (E _ (fun _ => m)) as [z ->]. by apply Hk.
Qed.

Lemma consumes_u64 o v : inU 64 v -> consumes (ReadUint64 o) (put_uint o 8 v) v.
Proof. intros H. rewrite <- (wrapU_id 64 v H) at 2. apply consumes_ReadUint64. Qed.

Lemma consumes_i64 o v : inS 64 v -> consumes (ReadInt64 o) (put_uint o 8 v) v.
Proof.
  intros H. rewrite <- (wrapS_id 64 v ltac:(lia) H) at 2. apply consumes_ReadInt64.
Qed.

Lemma consumes_u16 o v : inU 16 v -> consumes (ReadUint16 o) (put_uint o 2 v) v.
Proof. intros H. rewrite <- (wrapU_id 16 v H) at 2. apply consumes_ReadUint16. Qed.

Lemma consumes_u32 o v : inU 32 v -> consumes (ReadUint32 o) (put_uint o 4 v) v.
Proof. intros H. rewrite <- (wrapU_id 32 v H) at 2. apply consumes_ReadUint32. Qed.

Lemma map_i64_id vs : Forall (inS 64) vs -> map i64 vs = vs.
Proof. induction 1; simpl; [done|]. by rewrite wrapS_id, IHForall by (lia || done). Qed.

Lemma consumes_i64s o vs n :
  n = len vs -> 8 * len vs <= max_alloc -> Forall (inS 64) vs ->
  consumes (ReadInt64s o n) (concat (map (put_uint o 8) vs)) vs.
Proof.
  intros -> Hl Hv. pose proof (len_nonneg vs). rewrite <- (map_i64_id vs Hv) at 3.
  apply consumes_ReadInt64s; [unfold fits|]; lia.
Qed.

Lemma consumes_string s n : n = len s -> consumes (ReadString n) s s.
Proof. intros ->. apply consumes_ReadString. Qed.

Create HintDb reads.
#[export] Hint Resolve consumes_u64 consumes_i64 consumes_u16 consumes_u32
  consumes_ReadUint8 consumes_ReadBool consumes_i64s consumes_string reads_ret
  reads_bind reads_last : reads.
