(* ===== verification/Writer.v ===== *)
(** core/buffer/writer.go: the growing output buffer.
    [arr] is the backing array from the slice's start to its capacity, [ln]
    the slice length len(w.buf), [off] the bytes written so far, [pool] the
    index of the pool the writer came from.  Indexing is checked against
    [ln], re-slicing against the capacity, as the language does it. *)
From stdpp Require Import base numbers list.
From Stdlib Require Import ZArith Lia.
From S2P Require Import Prelude Binary Reader.

Open Scope Z_scope.
Open Scope go_scope.

(** copy(dst, src): the bytes of dst afterwards and the number copied *)
Definition go_copy (dst src : list Z) : list Z * nat :=
  let n := Nat.min (length dst) (length src) in
  (take n src ++ drop n dst, n).

Module Writer.

Record Writer := mkWriter {
  arr : list Z;
  ln : nat;
  off : nat;
  pool : option nat
}.

Definition NewWriter (buf : list Z) (spare : list Z) : Writer :=
  mkWriter (buf ++ spare) (length buf) 0 None.

Definition NewWriterWithCapacity (c : list nat) : Writer :=
  match c with
  | n :: _ => mkWriter (replicate n 0) n 0 None
  | [] => mkWriter [] 0 0 None
  end.

Definition Len (w : Writer) : Z := Z.of_nat (off w).
Definition Cap (w : Writer) : Z := len (arr w).
Definition Available (w : Writer) : Z := len (arr w) - Z.of_nat (off w).

(** w.buf[:w.off] *)
Definition Bytes (w : Writer) : res (list Z) :=
  if (off w <=? length (arr w))%nat then Ok (take (off w) (arr w)) else Panic.

Definition growSlice (n : Z) : ST Writer unit := fun w =>
  let c := Z.of_nat (ln w) + n in
  let c := if c <? 2 * len (arr w) then 2 * len (arr w) else c in
  match Bytes w with
  | Ok bs =>
      let buf := (go_copy (replicate (Z.to_nat c) 0) bs).1 in
      (Ok tt, mkWriter buf (Z.to_nat c) (off w) (pool w))
  | Err e => (Err e, w)
  | Panic => (Panic, w)
  end.

Definition grow (n : Z) : ST Writer unit := fun w =>
  if Z.of_nat (off w) + n <? len (arr w) then (Ok tt, w) else growSlice n w.

Definition Grow (n : Z) : ST Writer unit := growSlice n.

(** Release resets the offset; a pooled writer goes back to its pool. *)
Definition Release (w : Writer) : Writer :=
  mkWriter (arr w) (ln w) 0 (pool w).

(** w.buf[w.off] = b; w.off++ *)
Definition put_byte (b : Z) : ST Writer unit := fun w =>
  if (off w <? ln w)%nat
  then (Ok tt, mkWriter (<[off w := b]> (arr w)) (ln w) (S (off w)) (pool w))
  else (Panic, w).

(** order.PutUintN(w.buf[w.off:w.off+n], v); w.off += n *)
Definition put_word (o : ByteOrder) (n : nat) (v : Z) : ST Writer unit := fun w =>
  if (off w + n <=? length (arr w))%nat
  then (Ok tt, mkWriter (take (off w) (arr w) ++ put_uint o n v
                           ++ drop (off w + n) (arr w))
                        (ln w) (off w + n) (pool w))
  else (Panic, w).

(** copy(w.buf[w.off:], p); w.off += adv *)
Definition copy_tail (p : list Z) (adv : nat -> nat) : ST Writer nat := fun w =>
  if (off w <=? ln w)%nat
  then let '(tl, n) := go_copy (drop (off w) (take (ln w) (arr w))) p in
       (Ok n, mkWriter (take (off w) (arr w) ++ tl ++ drop (ln w) (arr w))
                       (ln w) (off w + adv n) (pool w))
  else (Panic, w).

Definition Write (p : list Z) : ST Writer nat :=
  grow (len p) ;;; copy_tail p (fun n => n).

Definition WriteBools (values : list bool) : ST Writer unit :=
  grow (len values) ;;; st_iter (fun v : bool => put_byte (if v then 1 else 0)) values.

Definition WriteInt8s (values : list Z) : ST Writer unit :=
  grow (len values) ;;; st_iter (fun v => put_byte (u8 v)) values.

Definition WriteUint8s (values : list Z) : ST Writer unit :=
  grow (len values) ;;; st_iter put_byte values.

Definition WriteInt16s (order : ByteOrder) (values : list Z) : ST Writer unit :=
  grow (b16 * len values) ;;; st_iter (fun v => put_word order 2 (u16 v)) values.

Definition WriteUint16s (order : ByteOrder) (values : list Z) : ST Writer unit :=
  grow (b16 * len values) ;;; st_iter (put_word order 2) values.

Definition WriteInt32s (order : ByteOrder) (values : list Z) : ST Writer unit :=
  grow (b32 * len values) ;;; st_iter (fun v => put_word order 4 (u32 v)) values.

Definition WriteUint32s (order : ByteOrder) (values : list Z) : ST Writer unit :=
  grow (b32 * len values) ;;; st_iter (put_word order 4) values.

Definition WriteInt64s (order : ByteOrder) (values : list Z) : ST Writer unit :=
  grow (b64 * len values) ;;; st_iter (fun v => put_word order 8 (u64 v)) values.

Definition WriteUint64s (order : ByteOrder) (values : list Z) : ST Writer unit :=
  grow (b64 * len values) ;;; st_iter (put_word order 8) values.

Definition WriteFloat32s (order : ByteOrder) (values : list float32) : ST Writer unit :=
  grow (b32 * len values) ;;;
  st_iter (fun v => put_word order 4 (Float32bits v)) values.

Definition WriteFloat64s (order : ByteOrder) (values : list float64) : ST Writer unit :=
  grow (b64 * len values) ;;;
  st_iter (fun v => put_word order 8 (Float64bits v)) values.

Definition WriteRunes (order : ByteOrder) (values : list Z) : ST Writer unit :=
  WriteInt32s order values.

Definition WriteBytes (values : list Z) : ST Writer unit :=
  grow (len values) ;;;
  let! _ := copy_tail values (fun _ => length values) in st_ret tt.

(** A string argument is its bytes. *)
Definition WriteString (str : list Z) : ST Writer unit := WriteBytes str.

End Writer.
Import Writer.

(** ** Well-formed writers: the slice spans its capacity and holds the offset *)

Definition writer_wf (w : Writer) : Prop :=
  ln w = length (arr w) /\ (off w <= ln w)%nat.

(** What [Bytes] returns on a well-formed writer *)
Definition written (w : Writer) : list Z := take (off w) (arr w).

(** [m] appends [bs] to every well-formed writer. *)
Definition appends {A} (m : ST Writer A) (bs : list Z) (a : A) : Prop :=
  forall w, writer_wf w ->
    exists w', m w = (Ok a, w') /\ writer_wf w' /\ written w' = written w ++ bs /\
               pool w' = pool w.

Lemma Bytes_written w : writer_wf w -> Bytes w = Ok (written w).
Proof.
  intros [H1 H2]. unfold Bytes, written.
  by rewrite (proj2 (Nat.leb_le _ _)) by lia.
Qed.

Lemma length_written w : writer_wf w -> length (written w) = off w.
Proof. intros [H1 H2]. unfold written. rewrite length_take. lia. Qed.

Lemma growSlice_spec n w :
  writer_wf w -> 0 <= n ->
  exists w', growSlice n w = (Ok tt, w') /\ writer_wf w' /\ written w' = written w /\
             off w' = off w /\ pool w' = pool w /\
             Z.of_nat (off w) + n <= len (arr w').
Proof.
  intros Hw Hn. unfold growSlice. rewrite (Bytes_written w Hw).
  pose proof (length_written w Hw) as Hl. destruct Hw as [H1 H2].
  set (c := if _ <? _ then _ else _). 
  assert (Z.of_nat (ln w) + n <= c /\ 0 <= c) as [Hc Hc0].
  { unfold c. destruct (Z.ltb_spec (Z.of_nat (ln w) + n) (2 * len (arr w)));
      unfold len in *; lia. }
  generalize dependent (written w). intros bs Hl.
  eexists. split; [done|]. unfold go_copy, writer_wf, written. simpl.
  rewrite length_replicate, Hl, Nat.min_r by lia.
  rewrite (take_ge bs) by lia. rewrite drop_replicate.
  rewrite length_app, length_replicate, Hl.
  split; [lia|]. split; [|split; [done|split; [done|]]].
  - rewrite take_app_le by lia. apply take_ge. lia.
  - unfold len. rewrite length_app, length_replicate. lia.
Qed.

Lemma grow_spec n w :
  writer_wf w -> 0 <= n ->
  exists w', grow n w = (Ok tt, w') /\ writer_wf w' /\ written w' = written w /\
             off w' = off w /\ pool w' = pool w /\
             Z.of_nat (off w) + n <= len (arr w').
Proof.
  intros Hw Hn. unfold grow.
  destruct (Z.ltb_spec (Z.of_nat (off w) + n) (len (arr w))).
  - exists w. repeat split; try done; try apply Hw. lia.
  - by apply growSlice_spec.
Qed.

(** One step of a write loop inside the space [grow] made. *)
Definition steps_in (k : nat) (m : ST Writer unit) (bs : list Z) : Prop :=
  length bs = k /\ forall w, writer_wf w -> (off w + k <= length (arr w))%nat ->
    exists w', m w = (Ok tt, w') /\ writer_wf w' /\ written w' = written w ++ bs /\
               pool w' = pool w /\ off w' = (off w + k)%nat /\
               length (arr w') = length (arr w).

Lemma put_word_steps o n v : steps_in n (put_word o n v) (put_uint o n v).
Proof.
  split; [apply length_put_uint|]. intros w [H1 H2] Hs. unfold put_word.
  rewrite (proj2 (Nat.leb_le _ _)) by done. eexists. split; [done|].
  unfold writer_wf, written; simpl.
  assert (length (take (off w) (arr w)) = off w) as Ht by (rewrite length_take; lia).
  rewrite !length_app, Ht, length_put_uint, length_drop.
  split; [lia|]. split; [|repeat split; lia].
  rewrite app_assoc, take_app_le by (rewrite length_app, length_put_uint; lia).
  apply take_ge. rewrite length_app, length_put_uint. lia.
Qed.

Lemma put_byte_steps b : steps_in 1 (put_byte b) [b].
Proof.
  split; [done|]. intros w [H1 H2] Hs. unfold put_byte.
  rewrite (proj2 (Nat.ltb_lt _ _)) by lia. eexists. split; [done|].
  unfold writer_wf, written; simpl. rewrite length_insert.
  split; [lia|]. split; [|repeat split; lia].
  rewrite (take_S_r _ _ b) by (apply list_lookup_insert_eq; lia).
  by rewrite take_insert_ge by lia.
Qed.

Lemma st_iter_steps {A} k (f : A -> ST Writer unit) (enc : A -> list Z) vs w :
  (forall v, steps_in k (f v) (enc v)) ->
  writer_wf w -> (off w + k * length vs <= length (arr w))%nat ->
  exists w', st_iter f vs w = (Ok tt, w') /\ writer_wf w' /\
             written w' = written w ++ concat (map enc vs) /\ pool w' = pool w.
Proof.
  intros Hf. revert w. induction vs as [|v vs IH]; intros w Hw Hs; simpl.
  - exists w. by rewrite app_nil_r.
  - simpl in Hs. destruct (proj2 (Hf v) w Hw ltac:(lia))
      as (w1 & E & Hw1 & Hb1 & Hp1 & Ho1 & Hl1).
    unfold st_bind. rewrite E.
    destruct (IH w1 Hw1 ltac:(lia)) as (w2 & E2 & Hw2 & Hb2 & Hp2).
    exists w2. rewrite E2, Hb2, Hb1, Hp2, Hp1, app_assoc. done.
Qed.

Lemma grow_iter_appends {A} k (f : A -> ST Writer unit) (enc : A -> list Z) vs :
  (forall v, steps_in k (f v) (enc v)) ->
  appends (grow (Z.of_nat k * len vs) ;;; st_iter f vs) (concat (map enc vs)) tt.
Proof.
  intros Hf w Hw. pose proof (len_nonneg vs).
  destruct (grow_spec (Z.of_nat k * len vs) w Hw ltac:(lia))
    as (w1 & E & Hw1 & Hb1 & Ho1 & Hp1 & Hs).
  unfold st_bind. rewrite E.
  destruct (st_iter_steps k f enc vs w1 Hf Hw1) as (w2 & E2 & Hw2 & Hb2 & Hp2).
  { unfold len in *. lia. }
  exists w2. rewrite E2, Hb2, Hb1, Hp2, Hp1. done.
Qed.

Lemma appends_words o n (vs : list Z) :
  appends (grow (Z.of_nat n * len vs) ;;; st_iter (put_word o n) vs)
    (concat (map (put_uint o n) vs)) tt.
Proof. apply grow_iter_appends. intros v. apply put_word_steps. Qed.

Lemma put_uint_wrap o n v : put_uint o n (wrapU (8 * Z.of_nat n) v) = put_uint o n v.
Proof. unfold wrapU. destruct o; simpl; by rewrite be_bytes_mod by lia. Qed.

Lemma appends_WriteUint64s o vs :
  appends (WriteUint64s o vs) (concat (map (put_uint o 8) vs)) tt.
Proof. apply (appends_words o 8). Qed.

Lemma appends_WriteUint32s o vs :
  appends (WriteUint32s o vs) (concat (map (put_uint o 4) vs)) tt.
Proof. apply (appends_words o 4). Qed.

Lemma appends_WriteUint16s o vs :
  appends (WriteUint16s o vs) (concat (map (put_uint o 2) vs)) tt.
Proof. apply (appends_words o 2). Qed.

Lemma appends_signed o n (vs : list Z) :
  appends (grow (Z.of_nat n * len vs) ;;;
           st_iter (fun v => put_word o n (wrapU (8 * Z.of_nat n) v)) vs)
    (concat (map (put_uint o n) vs)) tt.
Proof.
  apply grow_iter_appends. intros v. rewrite <- (put_uint_wrap o n v).
  apply put_word_steps.
Qed.

Lemma appends_WriteInt64s o vs :
  appends (WriteInt64s o vs) (concat (map (put_uint o 8) vs)) tt.
Proof. apply (appends_signed o 8). Qed.

Lemma appends_WriteInt32s o vs :
  appends (WriteInt32s o vs) (concat (map (put_uint o 4) vs)) tt.
Proof. apply (appends_signed o 4). Qed.

Lemma appends_WriteInt16s o vs :
  appends (WriteInt16s o vs) (concat (map (put_uint o 2) vs)) tt.
Proof. apply (appends_signed o 2). Qed.

Lemma concat_singletons (vs : list Z) : concat (map (fun v => [v]) vs) = vs.
Proof. induction vs; simpl; congruence. Qed.

Lemma appends_WriteUint8s vs : appends (WriteUint8s vs) vs tt.
Proof.
  rewrite <- (concat_singletons vs) at 2.
  replace (WriteUint8s vs) with (grow (Z.of_nat 1 * len vs) ;;; st_iter put_byte vs)
    by (unfold WriteUint8s; do 2 f_equal; lia).
  apply grow_iter_appends, put_byte_steps.
Qed.

Lemma appends_WriteInt8s vs : appends (WriteInt8s vs) (map u8 vs) tt.
Proof.
  rewrite <- (concat_singletons (map u8 vs)), map_map.
  replace (WriteInt8s vs)
    with (grow (Z.of_nat 1 * len vs) ;;; st_iter (fun v => put_byte (u8 v)) vs)
    by (unfold WriteInt8s; do 2 f_equal; lia).
  apply grow_iter_appends. intros v. apply put_byte_steps.
Qed.

Lemma appends_WriteBools (vs : list bool) :
  appends (WriteBools vs) (map (fun v : bool => if v then 1 else 0) vs) tt.
Proof.
  rewrite <- (concat_singletons (map _ vs)), map_map.
  replace (WriteBools vs) with (grow (Z.of_nat 1 * len vs) ;;;
      st_iter (fun v : bool => put_byte (if v then 1 else 0)) vs)
    by (unfold WriteBools; do 2 f_equal; lia).
  apply grow_iter_appends. intros v. apply put_byte_steps.
Qed.

Lemma copy_tail_spec p adv w :
  writer_wf w -> (off w + length p <= length (arr w))%nat ->
  adv (length p) = length p ->
  exists w', copy_tail p adv w = (Ok (length p), w') /\ writer_wf w' /\
             written w' = written w ++ p /\ pool w' = pool w.
Proof.
  intros [H1 H2] Hs Ha. unfold copy_tail.
  rewrite (proj2 (Nat.leb_le _ _)) by lia. unfold go_copy.
  rewrite length_drop, length_take, !Nat.min_r, Ha by lia.
  eexists. split; [done|]. unfold writer_wf, written; simpl.
  assert (length (take (off w) (arr w)) = off w) as Ht by (rewrite length_take; lia).
  rewrite (take_ge p) by lia.
  rewrite !length_app, Ht, !length_drop, length_take.
  split; [lia|]. split; [|done].
  rewrite <- app_assoc, app_assoc, take_app_le by (rewrite length_app; lia).
  apply take_ge. rewrite length_app. lia.
Qed.

Lemma appends_Write p : appends (Write p) p (length p).
Proof.
  intros w Hw. pose proof (len_nonneg p).
  destruct (grow_spec (len p) w Hw ltac:(lia)) as (w1 & E & Hw1 & Hb1 & Ho1 & Hp1 & Hs).
  unfold Write, st_bind. rewrite E.
  destruct (copy_tail_spec p (fun n => n) w1 Hw1) as (w2 & E2 & Hw2 & Hb2 & Hp2);
    [unfold len in Hs; lia|done|].
  exists w2. rewrite E2, Hb2, Hb1, Hp2, Hp1. done.
Qed.

Lemma appends_WriteBytes p : appends (WriteBytes p) p tt.
Proof.
  intros w Hw. pose proof (len_nonneg p).
  destruct (grow_spec (len p) w Hw ltac:(lia)) as (w1 & E & Hw1 & Hb1 & Ho1 & Hp1 & Hs).
  unfold WriteBytes, st_bind. rewrite E.
  destruct (copy_tail_spec p (fun _ => length p) w1 Hw1) as (w2 & E2 & Hw2 & Hb2 & Hp2);
    [unfold len in Hs; lia|done|].
  exists w2. rewrite E2. unfold st_ret. rewrite Hb2, Hb1, Hp2, Hp1. done.
Qed.

Lemma appends_WriteString p : appends (WriteString p) p tt.
Proof. apply appends_WriteBytes. Qed.

Lemma appends_bind {A B} (m : ST Writer A) (k : A -> ST Writer B) b1 b2 a c :
  appends m b1 a -> appends (k a) b2 c -> appends (st_bind m k) (b1 ++ b2) c.
Proof.
  intros Hm Hk w Hw. destruct (Hm w Hw) as (w1 & E1 & Hw1 & Hb1 & Hp1).
  destruct (Hk w1 Hw1) as (w2 & E2 & Hw2 & Hb2 & Hp2).
  exists w2. unfold st_bind. rewrite E1, E2, Hb2, Hb1, Hp2, Hp1, app_assoc. done.
Qed.

Lemma appends_ret {A} (a : A) : appends (st_ret a) [] a.
Proof. intros w Hw. exists w. by rewrite app_nil_r. Qed.

Lemma appends_if {A} (c : bool) (m1 m2 : ST Writer A) b1 b2 a :
  appends m1 b1 a -> appends m2 b2 a ->
  appends (if c then m1 else m2) (if c then b1 else b2) a.
Proof. by destruct c. Qed.

Create HintDb appends.
#[export] Hint Resolve appends_WriteUint64s appends_WriteUint32s appends_WriteUint16s
  appends_WriteInt64s appends_WriteInt32s appends_WriteInt16s appends_WriteUint8s
  appends_WriteInt8s appends_WriteBools appends_WriteBytes appends_WriteString
  appends_Write appends_ret appends_if : appends.
#[export] Hint Extern 3 (appends (st_bind _ _) _ _) =>
  eapply appends_bind : appends.
