(* ===== verification/Nocopy.v ===== *)
(** core/buffer: pooled byte blocks (bytes.go, bytes_pool.go, writer_pool.go),
    chain nodes (nocopy_node.go) and the chained buffer (nocopy_buffer.go).

    A chain is the list of its nodes from head to tail; the prev/next links
    are the order of that list.  Blocks are held by value: a block mounted on
    a buffer is not written through another reference afterwards, which is how
    the encoders use it.  [bcache] is the cached byte count (-1: unknown),
    [bnum] the node count the code keeps, [bdelay] and [breleased] the atomics
    that decide which Release frees. *)
From stdpp Require Import base numbers list.
From Stdlib Require Import ZArith Lia.
From S2P Require Import Prelude Binary Reader Writer.

Open Scope Z_scope.
Open Scope go_scope.

Module Bytes.

Record Bytes := mkBytes { arr : list Z; off : Z; pool : option nat }.

Definition NewBytes (buf : list Z) : Bytes := mkBytes buf (len buf) None.

Definition NewBytesWithCapacity (cap : nat) : Bytes :=
  mkBytes (replicate cap 0) (Z.of_nat cap) None.

(** The receiver may be a nil pointer. *)
Definition Len (b : option Bytes) : Z :=
  match b with None => 0 | Some b => off b end.
Definition Cap (b : option Bytes) : Z :=
  match b with None => 0 | Some b => len (arr b) end.
Definition Available (b : option Bytes) : Z :=
  match b with None => 0 | Some b => len (arr b) - off b end.
Definition bytes (b : option Bytes) : res (list Z) :=
  match b with None => Ok [] | Some b => go_slice (arr b) 0 (off b) end.
Definition Release (b : Bytes) : Bytes := mkBytes (arr b) 0 (pool b).

End Bytes.

(** ** Pools: one free list per grade, grade i holding blocks of 2^i bytes *)

(** int(math.Ceil(math.Log2(float64(cap)))): for cap <= 0 the logarithm is
    -Inf or NaN, which converts to the least int on amd64. *)
Definition grade (cap : Z) : Z :=
  if cap <=? 0 then - 2 ^ 63 else Z.log2_up cap.

Section Pool.
Context {A : Type}.

(** p.pools[min(grade, len(p.pools)-1)]; None is the nil pool. *)
Definition getPool (pools : list (list A)) (cap : Z) : res (option nat) :=
  if len pools =? 0 then Ok None
  else let i := Z.min (grade cap) (len pools - 1) in
       if i <? 0 then Panic else Ok (Some (Z.to_nat i)).

(** sync.Pool.Get: any pooled object ([pick]), or a new one. *)
Definition pool_take (pools : list (list A)) (i : nat) (pick : option nat)
    (new : A) : A * list (list A) :=
  match pick ≫= (fun k => (pools !! i) ≫= (.!! k)), pick with
  | Some x, Some k => (x, alter (delete k) i pools)
  | _, _ => (new, pools)
  end.

Definition pool_put (pools : list (list A)) (i : nat) (x : A) : list (list A) :=
  alter (cons x) i pools.
End Pool.

Module BytesPool.
Import Bytes.

Definition NewBytesPool (grade : nat) : list (list Bytes) := replicate (S grade) [].

Definition new_at (i : nat) : Bytes :=
  mkBytes (replicate (2 ^ i) 0) (2 ^ Z.of_nat i) (Some i).

Definition NewBytesPoolWithCapacity (cap : Z) : res (list (list Bytes)) :=
  if grade cap <? -1 then Panic else Ok (replicate (Z.to_nat (grade cap + 1)) []).

Definition Get (p : list (list Bytes)) (pick : option nat) (cap : Z)
    : res (option Bytes * list (list Bytes)) :=
  do i <- getPool p cap;
  match i with
  | None => Ok (None, p)
  | Some i =>
      let '(b, p') := pool_take p i pick (new_at i) in
      Ok (Some (mkBytes (arr b) cap (pool b)), p')
  end.

Definition Put (p : list (list Bytes)) (b : Bytes) : res (list (list Bytes)) :=
  do i <- getPool p (Cap (Some b));
  match i with
  | None => Ok p
  | Some i => Ok (pool_put p i b)
  end.

(** b.Release() of a pooled block: to the pool it came from *)
Definition release (p : list (list Bytes)) (b : Bytes) : list (list Bytes) :=
  match pool b with
  | Some i => pool_put p i (Release b)
  | None => p
  end.

(** buffer.MallocBytes over the package's pool of grade 32 *)
Definition MallocBytes := Get.

End BytesPool.

Module WriterPool.
Import Writer.

Definition NewWriterPool (grade : nat) : list (list Writer) := replicate (S grade) [].

Definition new_at (i : nat) : Writer :=
  mkWriter (replicate (2 ^ i) 0) (2 ^ i) 0 (Some i).

Definition NewWriterPoolWithCapacity (cap : Z) : res (list (list Writer)) :=
  if grade cap <? -1 then Panic else Ok (replicate (Z.to_nat (grade cap + 1)) []).

Definition Get (p : list (list Writer)) (pick : option nat) (cap : Z)
    : res (option Writer * list (list Writer)) :=
  do i <- getPool p cap;
  match i with
  | None => Ok (None, p)
  | Some i =>
      let '(w, p') := pool_take p i pick (new_at i) in Ok (Some w, p')
  end.

Definition Put (p : list (list Writer)) (w : Writer) : res (list (list Writer)) :=
  do i <- getPool p (Cap w);
  match i with
  | None => Ok p
  | Some i => Ok (pool_put p i w)
  end.

Definition release (p : list (list Writer)) (w : Writer) : list (list Writer) :=
  match pool w with
  | Some i => pool_put p i (Release w)
  | None => p
  end.

Definition MallocWriter := Get.

End WriterPool.

(** ** Chains *)

(** NocopyNode.block: []byte, *Bytes, *Writer, or nil once released *)
Inductive block :=
| BRaw (bs : list Z)
| BBytes (b : option Bytes.Bytes)
| BWriter (w : Writer.Writer)
| BNil.

Module NocopyNode.

Definition Len (b : block) : Z :=
  match b with
  | BRaw bs => len bs
  | BBytes b => Bytes.Len b
  | BWriter w => Writer.Len w
  | BNil => 0
  end.

Definition Bytes (b : block) : res (list Z) :=
  match b with
  | BRaw bs => Ok bs
  | BBytes b => Bytes.bytes b
  | BWriter w => Writer.Bytes w
  | BNil => Ok []
  end.

End NocopyNode.

Inductive nbuf := NBuf {
  bcache : Z;
  bnum : Z;
  bnodes : list (block + nbuf);
  bdelay : Z;
  breleased : bool
}.

(** What Mount accepts: a node or block, another chain, or anything else *)
Inductive mountable :=
| MBlock (b : block)
| MBuf (b : nbuf)
| MOther.

Inductive Whence := Head | Tail.

Module NocopyBuffer.

Definition empty : nbuf := NBuf (-1) 0 [] 0 false.

(** addToHead / addToTail: link the node, forget the byte count, add to the
    node count 1 for a node and the node count of a mounted chain. *)
Definition addToHead (b : nbuf) (m : mountable) : nbuf :=
  match m with
  | MBlock x => NBuf (-1) (bnum b + 1) (inl x :: bnodes b) (bdelay b) (breleased b)
  | MBuf x => NBuf (-1) (bnum b + bnum x) (inr x :: bnodes b) (bdelay b) (breleased b)
  | MOther => b
  end.

Definition addToTail (b : nbuf) (m : mountable) : nbuf :=
  match m with
  | MBlock x => NBuf (-1) (bnum b + 1) (bnodes b ++ [inl x]) (bdelay b) (breleased b)
  | MBuf x => NBuf (-1) (bnum b + bnum x) (bnodes b ++ [inr x]) (bdelay b) (breleased b)
  | MOther => b
  end.

Definition Mount (b : nbuf) (m : mountable) (whence : list Whence) : nbuf :=
  match whence with
  | Head :: _ => addToHead b m
  | _ => addToTail b m
  end.

Definition NewNocopyBuffer (blocks : list mountable) : nbuf :=
  fold_left (fun b m => Mount b m []) blocks empty.

(** MallocBytes / MallocWriter: the whence argument is not passed on. *)
Definition MallocBytes (p : list (list Bytes.Bytes)) (pick : option nat) (cap : Z)
    (whence : list Whence) (b : nbuf)
    : res (option Bytes.Bytes * list (list Bytes.Bytes) * nbuf) :=
  do (x, p') <- BytesPool.Get p pick cap;
  Ok (x, p', Mount b (MBlock (BBytes x)) []).

Definition MallocWriter (p : list (list Writer.Writer)) (pick : option nat) (cap : Z)
    (whence : list Whence) (b : nbuf)
    : res (option Writer.Writer * list (list Writer.Writer) * nbuf) :=
  do (x, p') <- WriterPool.Get p pick cap;
  match x with
  | Some w => Ok (x, p', Mount b (MBlock (BWriter w)) [])
  | None => Panic (* the package's pool has 33 grades: Get never yields nil *)
  end.

(** Len: the cached count when there is one, otherwise the sum over the
    nodes, which is then cached (in the mounted chains too). *)
Fixpoint Len (b : nbuf) : Z * nbuf :=
  let 'NBuf c n nodes d r := b in
  if 0 <=? c then (c, b)
  else
    let fix go (ns : list (block + nbuf)) : Z * list (block + nbuf) :=
      match ns with
      | [] => (0, [])
      | inl x :: ns' =>
          let '(s, ns'') := go ns' in (NocopyNode.Len x + s, inl x :: ns'')
      | inr x :: ns' =>
          let '(z, x') := Len x in
          let '(s, ns'') := go ns' in (z + s, inr x' :: ns'')
      end in
    let '(s, nodes') := go nodes in
    (s, NBuf s n nodes' d r).

(** Bytes: by the node count, nothing, the head's bytes, or all nodes'.
    (The call to Len that sizes the result only caches the byte count.) *)
Fixpoint Bytes (b : nbuf) : res (list Z) :=
  let 'NBuf c n nodes d r := b in
  if n =? 0 then Ok []
  else if n =? 1 then
    match nodes with
    | inl x :: _ => NocopyNode.Bytes x
    | inr x :: _ => Bytes x
    | [] => Ok []
    end
  else
    (fix go (ns : list (block + nbuf)) : res (list Z) :=
      match ns with
      | [] => Ok []
      | inl x :: ns' =>
          do h <- NocopyNode.Bytes x; do t <- go ns'; Ok (h ++ t)
      | inr x :: ns' =>
          do h <- Bytes x; do t <- go ns'; Ok (h ++ t)
      end) nodes.

(** Visit: the nodes of the chain and of the chains mounted on it, in order,
    until the callback says stop. *)
Fixpoint Visit {S} (fn : block -> S -> bool * S) (b : nbuf) (s : S) : bool * S :=
  let 'NBuf c n nodes d r := b in
  (fix go (ns : list (block + nbuf)) (s : S) : bool * S :=
    match ns with
    | [] => (true, s)
    | inl x :: ns' =>
        let '(ok, s') := fn x s in if ok then go ns' s' else (false, s')
    | inr x :: ns' =>
        let '(ok, s') := Visit fn x s in if ok then go ns' s' else (false, s')
    end) nodes s.

Definition Delay (b : nbuf) (delay : Z) : nbuf :=
  NBuf (bcache b) (bnum b) (bnodes b) (i32 delay) (breleased b).

(** Release: the buffer afterwards and the blocks given back, in order. *)
Fixpoint Release (b : nbuf) : nbuf * list block :=
  let 'NBuf c n nodes d r := b in
  let d' := i32 (d - 1) in
  if 0 <? d' then (NBuf c n nodes d' r, [])
  else if r then (NBuf c n nodes d' r, [])
  else
    let fix go (ns : list (block + nbuf)) : list block :=
      match ns with
      | [] => []
      | inl x :: ns' => x :: go ns'
      | inr x :: ns' => (Release x).2 ++ go ns'
      end in
    (NBuf (-1) 0 [] d' true, go nodes).

End NocopyBuffer.

Import NocopyBuffer.

(** ** The chain as the list of its blocks *)

Fixpoint leaves (b : nbuf) : list block :=
  flat_map (fun x => match x with inl y => [y] | inr y => leaves y end) (bnodes b).

Fixpoint all_bytes (l : list block) : res (list Z) :=
  match l with
  | [] => Ok []
  | x :: l' => do h <- NocopyNode.Bytes x; do t <- all_bytes l'; Ok (h ++ t)
  end.

(** The node counts are right and no mounted chain is empty. *)
Fixpoint chain_ok (b : nbuf) : bool :=
  (bnum b =? len (leaves b)) &&
  forallb (fun x => match x with
                    | inl _ => true
                    | inr y => chain_ok y && (1 <=? bnum y)
                    end) (bnodes b).

Lemma nbuf_rect_nodes (P : nbuf -> Prop) :
  (forall b, Forall (fun x => match x with inl _ => True | inr y => P y end) (bnodes b)
             -> P b) ->
  forall b, P b.
Proof.
  intros H. fix IH 1. intros b. apply H. destruct b as [c n nodes d r]. simpl.
  induction nodes as [|[x|x] nodes IHn]; constructor; auto.
Qed.

Lemma all_bytes_app l k :
  all_bytes (l ++ k) = do h <- all_bytes l; do t <- all_bytes k; Ok (h ++ t).
Proof.
  induction l as [|x l IH]; simpl.
  - destruct (all_bytes k); done.
  - destruct (NocopyNode.Bytes x) as [h| |]; simpl; [|done..].
    rewrite IH. destruct (all_bytes l) as [t| |]; simpl; [|done..].
    destruct (all_bytes k) as [u| |]; simpl; [|done..]. by rewrite app_assoc.
Qed.

Lemma res_bind_id {A} (m : res A) : (do x <- m; Ok x) = m.
Proof. by destruct m. Qed.

Lemma all_bytes_single x : all_bytes [x] = NocopyNode.Bytes x.
Proof. simpl. destruct (NocopyNode.Bytes x); simpl; [|done..]. by rewrite app_nil_r. Qed.

(** Bytes of a chain with right counts is the blocks' bytes in order. *)
Lemma Bytes_leaves b : chain_ok b = true -> Bytes b = all_bytes (leaves b).
Proof.
  induction b as [[c n nodes d r] IH] using nbuf_rect_nodes. simpl in IH.
  cbn [chain_ok bnum bnodes]. rewrite andb_true_iff, Z.eqb_eq.
  cbn [leaves bnodes]. intros [Hn Hok].
  cbn [Bytes]. destruct (Z.eqb_spec n 0) as [->|Hn0].
  { symmetry in Hn. unfold len in Hn. destruct (flat_map _ nodes); simpl in *;
      [done|lia]. }
  destruct (Z.eqb_spec n 1) as [->|Hn1].
  - destruct nodes as [|[x|x] nodes]; [done| |]; simpl in Hn, Hok |- *.
    + rewrite len_cons in Hn. unfold len in Hn.
      destruct (flat_map _ nodes); simpl in *; [|lia].
      destruct (NocopyNode.Bytes x); simpl; [|done..]. by rewrite app_nil_r.
    + apply andb_true_iff in Hok as [Hok _]. apply andb_true_iff in Hok as [Hx Hx1].
      inversion IH as [|? ? IHx _]; subst. specialize (IHx Hx).
      apply Z.leb_le in Hx1. rewrite len_app in Hn.
      assert (bnum x = len (leaves x)) as Hbx.
      { destruct x. cbn [chain_ok] in Hx.
        apply andb_true_iff in Hx as [Hx _]. by apply Z.eqb_eq. }
      rewrite all_bytes_app, IHx. unfold len in *.
      destruct (flat_map _ nodes) as [|]; simpl in *; [|lia].
      destruct (all_bytes (leaves x)); simpl; [|done..]. by rewrite app_nil_r.
  - clear Hn Hn0 Hn1. induction nodes as [|[x|x] nodes IHn]; [done| |];
      inversion IH as [|? ? IHx IHr]; subst; simpl in Hok |- *.
    + by rewrite IHn.
    + apply andb_true_iff in Hok as [Hx Hok]. apply andb_true_iff in Hx as [Hx _].
      by rewrite all_bytes_app, IHx, IHn.
Qed.

(** Visit reaches every block once, in order: the log of a callback that
    always continues is the list of blocks. *)
Lemma Visit_leaves b s :
  Visit (fun x s => (true, s ++ [x])) b s = (true, s ++ leaves b).
Proof.
  revert s. induction b as [[c n nodes d r] IH] using nbuf_rect_nodes. simpl in IH.
  intros s. cbn [Visit leaves bnodes]. revert s.
  induction IH as [|[x|x] nodes IHx _ IHn]; intros s; simpl.
  - by rewrite app_nil_r.
  - by rewrite IHn, <- app_assoc.
  - by rewrite IHx, IHn, <- app_assoc.
Qed.

Lemma leaves_tail b x : leaves (addToTail b (MBlock x)) = leaves b ++ [x].
Proof. destruct b. simpl. by rewrite flat_map_app. Qed.

Lemma leaves_tail_buf b x : leaves (addToTail b (MBuf x)) = leaves b ++ leaves x.
Proof. destruct b. simpl. rewrite flat_map_app. simpl. by rewrite app_nil_r. Qed.

Lemma chain_ok_num b : chain_ok b = true -> bnum b = len (leaves b).
Proof.
  destruct b. cbn [chain_ok]. intros H. apply andb_true_iff in H as [H _].
  by apply Z.eqb_eq.
Qed.

Lemma chain_ok_forallb b : chain_ok b = true ->
  forallb (fun x => match x with inl _ => true
                    | inr y => chain_ok y && (1 <=? bnum y) end) (bnodes b) = true.
Proof. destruct b. cbn [chain_ok]. intros H. by apply andb_true_iff in H as [_ H]. Qed.

Lemma chain_ok_tail b x : chain_ok b = true -> chain_ok (addToTail b (MBlock x)) = true.
Proof.
  intros H. pose proof (chain_ok_num b H) as Hn. pose proof (chain_ok_forallb b H) as Hf.
  pose proof (leaves_tail b x) as Hl.
  destruct b as [c n nodes d r]. cbn [addToTail bnum bnodes bdelay breleased] in *.
  cbn [chain_ok bnum bnodes]. rewrite Hl, forallb_app, Hf, len_app, <- Hn.
  cbn. unfold len; simpl. by rewrite Z.eqb_refl.
Qed.

Lemma chain_ok_tail_buf b x :
  chain_ok b = true -> chain_ok x = true -> 1 <= bnum x ->
  chain_ok (addToTail b (MBuf x)) = true.
Proof.
  intros H Hx H1. pose proof (chain_ok_num b H) as Hn.
  pose proof (chain_ok_forallb b H) as Hf. pose proof (chain_ok_num x Hx) as Hnx.
  pose proof (leaves_tail_buf b x) as Hl.
  destruct b as [c n nodes d r]. cbn [addToTail bnum bnodes bdelay breleased] in *.
  cbn [chain_ok bnum bnodes]. rewrite Hl, forallb_app, Hf, len_app, <- Hn, <- Hnx.
  cbn. rewrite Hx, (proj2 (Z.leb_le _ _) H1), Z.eqb_refl. done.
Qed.

(** ** Byte counts *)

Definition total (l : list block) : Z := foldr (fun x s => NocopyNode.Len x + s) 0 l.

(** Every cached byte count is unknown or right. *)
Fixpoint cache_ok (b : nbuf) : bool :=
  ((bcache b <? 0) || (bcache b =? total (leaves b))) &&
  forallb (fun x => match x with inl _ => true | inr y => cache_ok y end) (bnodes b).

Lemma total_app l k : total (l ++ k) = total l + total k.
Proof. induction l; simpl; lia. Qed.

Lemma Len_total b : cache_ok b = true -> (Len b).1 = total (leaves b).
Proof.
  induction b as [[c n nodes d r] IH] using nbuf_rect_nodes. simpl in IH.
  cbn [cache_ok bcache bnodes]. rewrite andb_true_iff, orb_true_iff.
  intros [Hc Hf]. cbn [Len].
  destruct (Z.leb_spec 0 c) as [Hp|Hp].
  { destruct Hc as [Hc|Hc]; [apply Z.ltb_lt in Hc; lia|].
    apply Z.eqb_eq in Hc. exact Hc. }
  clear Hc. cbn [leaves bnodes].
  match goal with |- context [let (_, _) := ?g nodes in _] => set (go := g) end.
  assert (forall ns, Forall (fun x => match x with inl _ => True
              | inr y => cache_ok y = true -> (Len y).1 = total (leaves y) end) ns ->
            forallb (fun x => match x with inl _ => true | inr y => cache_ok y end) ns
              = true ->
            (go ns).1 = total (flat_map (fun x => match x with inl y => [y]
                                          | inr y => leaves y end) ns)) as Hgo.
  { induction 1 as [|[x|x] ns IHx _ IHn]; intros Hok; simpl in Hok |- *; [done| |].
    - specialize (IHn Hok). destruct (go ns); simpl in *. lia.
    - apply andb_true_iff in Hok as [Hx Hok]. specialize (IHn Hok).
      specialize (IHx Hx). rewrite total_app.
      destruct (Len x), (go ns); simpl in *. lia. }
  specialize (Hgo nodes IH Hf). destruct (go nodes). exact Hgo.
Qed.

(** A block whose bytes can be taken has as many as it says. *)
Lemma block_len x bs : NocopyNode.Bytes x = Ok bs -> NocopyNode.Len x = len bs.
Proof.
  destruct x as [l|[b|]|w|]; simpl; intros H; try by inversion H.
  - unfold go_slice in H. destruct (_ && _) eqn:E in H; [|done]. inversion H; subst.
    apply andb_true_iff in E as [E1 E2]. apply andb_true_iff in E1 as [_ E1].
    apply Z.leb_le in E1, E2. unfold len in *. rewrite length_take, length_drop. lia.
  - unfold Writer.Bytes in H. destruct (Nat.leb_spec (Writer.off w) (length (Writer.arr w)));
      [|done]. inversion H; subst. unfold Writer.Len, len. rewrite length_take. lia.
Qed.

Lemma total_bytes l bs : all_bytes l = Ok bs -> total l = len bs.
Proof.
  revert bs. induction l as [|x l IH]; simpl; intros bs H; [by inversion H|].
  destruct (NocopyNode.Bytes x) as [h| |] eqn:E; simpl in H; try done.
  destruct (all_bytes l) as [t| |]; simpl in H; try done. inversion H; subst.
  rewrite len_app, (block_len x h E), (IH t eq_refl). done.
Qed.

(** ** Payloads: what an encoder appends after its header *)

(** [m] is a block or a chain that holds exactly the bytes [bs]. *)
Definition payload (m : mountable) (bs : list Z) : Prop :=
  match m with
  | MBlock x => NocopyNode.Bytes x = Ok bs
  | MBuf x => chain_ok x = true /\ cache_ok x = true /\ 1 <= bnum x /\
              all_bytes (leaves x) = Ok bs
  | MOther => False
  end.

(** message.Len() *)
Definition mLen (m : mountable) : Z :=
  match m with
  | MBlock x => NocopyNode.Len x
  | MBuf x => (Len x).1
  | MOther => 0
  end.

Lemma payload_len m bs : payload m bs -> mLen m = len bs.
Proof.
  destruct m as [x|x|]; simpl; [apply block_len| |done].
  intros (_ & Hc & _ & Hb). rewrite Len_total by done. by apply total_bytes.
Qed.

(** The chain an encoder returns: the writer's bytes, then the payload's. *)
Lemma frame_bytes w m bs :
  writer_wf w -> payload m bs ->
  Bytes (NewNocopyBuffer [MBlock (BWriter w); m]) = Ok (written w ++ bs).
Proof.
  intros Hw Hm. unfold NewNocopyBuffer. simpl.
  destruct m as [x|x|]; simpl in Hm.
  - rewrite Bytes_leaves by done. simpl. by rewrite (Bytes_written w Hw), Hm; simpl;
      rewrite app_nil_r.
  - destruct Hm as (Hc & _ & H1 & Hb).
    change (addToTail (Mount empty (MBlock (BWriter w)) []) (MBuf x))
      with (addToTail (addToTail empty (MBlock (BWriter w))) (MBuf x)).
    rewrite Bytes_leaves by (by apply chain_ok_tail_buf).
    rewrite leaves_tail_buf. simpl. rewrite (Bytes_written w Hw). simpl.
    by rewrite Hb.
  - done.
Qed.

Lemma writer_bytes w :
  writer_wf w -> Bytes (NewNocopyBuffer [MBlock (BWriter w)]) = Ok (written w).
Proof. intros Hw. simpl. by apply Bytes_written. Qed.

(** ** Release counting *)

Fixpoint release_times (n : nat) (b : nbuf) : nbuf * list block :=
  match n with
  | O => (b, [])
  | S n' => let '(b', l) := Release b in
            let '(b'', l') := release_times n' b' in (b'', l ++ l')
  end.

(** A chain of plain nodes: no chain mounted below it. *)
Definition flat (b : nbuf) : bool :=
  forallb (fun x => match x with inl _ => true | inr _ => false end) (bnodes b).

Lemma Release_early b :
  0 < i32 (bdelay b - 1) ->
  Release b = (NBuf (bcache b) (bnum b) (bnodes b) (i32 (bdelay b - 1)) (breleased b), []).
Proof.
  intros H. destruct b. cbn [Release bdelay] in *.
  by rewrite (proj2 (Z.ltb_lt _ _) H).
Qed.

Lemma Release_last b :
  i32 (bdelay b - 1) <= 0 -> breleased b = false -> flat b = true ->
  Release b = (NBuf (-1) 0 [] (i32 (bdelay b - 1)) true, leaves b).
Proof.
  intros H Hr Hf. destruct b as [c n nodes d r]. cbn [Release bdelay breleased] in *.
  subst r. rewrite (proj2 (Z.ltb_ge _ _) H). f_equal. unfold flat in Hf. simpl in *.
  clear H. induction nodes as [|[x|x] nodes IH]; simpl in *; [done| |done].
  f_equal. by apply IH.
Qed.

Lemma Release_again b : breleased b = true -> (Release b).2 = [] /\
  breleased (Release b).1 = true.
Proof.
  destruct b. cbn [breleased Release]. intros ->. by destruct (0 <? _).
Qed.

Lemma release_again_times n b : breleased b = true -> (release_times n b).2 = [].
Proof.
  revert b. induction n as [|n IH]; intros b Hb; simpl; [done|].
  destruct (Release_again b Hb) as [H1 H2]. destruct (Release b) as [b' l].
  simpl in *. specialize (IH b' H2). destruct (release_times n b') as [b'' l'].
  simpl in *. by subst.
Qed.

(** ** Pool invariants *)

Definition bytes_pool_wf (p : list (list Bytes.Bytes)) : Prop :=
  forall i l b, p !! i = Some l -> b ∈ l ->
    2 ^ Z.of_nat i <= len (Bytes.arr b) /\ Bytes.pool b = Some i.

Definition fresh (w : Writer.Writer) : Prop := writer_wf w /\ Writer.off w = 0%nat.

Definition writer_pool_wf (p : list (list Writer.Writer)) : Prop :=
  forall i l w, p !! i = Some l -> w ∈ l -> fresh w.

Lemma fresh_written w : fresh w -> written w = [].
Proof. intros [_ H]. unfold written. by rewrite H. Qed.

Lemma pool_take_inv {A} (P : nat -> A -> Prop) (p : list (list A)) i pick new x p' :
  (forall j l y, p !! j = Some l -> y ∈ l -> P j y) -> P i new ->
  pool_take p i pick new = (x, p') ->
  P i x /\ (forall j l y, p' !! j = Some l -> y ∈ l -> P j y) /\ length p' = length p.
Proof.
  intros Hp Hnew. unfold pool_take.
  destruct pick as [k|]; simpl; [|intros E; inversion E; subst; auto].
  destruct (p !! i) as [l|] eqn:Ei; simpl; [|intros E; inversion E; subst; auto].
  destruct (l !! k) as [y|] eqn:Ek; intros E; inversion E; subst; auto.
  split; [eapply Hp; [done|by eapply list_elem_of_lookup_2]|].
  split; [|apply length_alter]. intros j l' z Hj Hz.
  destruct (decide (j = i)) as [->|Hne].
  - rewrite list_lookup_alter_eq, Ei in Hj. simpl in Hj. inversion Hj; subst.
    eapply Hp; [done|]. by eapply list_elem_of_delete_inv.
  - rewrite list_lookup_alter_ne in Hj by done. eauto.
Qed.

Lemma pool_put_inv {A} (P : nat -> A -> Prop) (p : list (list A)) i x :
  (forall j l y, p !! j = Some l -> y ∈ l -> P j y) -> P i x ->
  forall j l y, pool_put p i x !! j = Some l -> y ∈ l -> P j y.
Proof.
  intros Hp Hx j l y Hj Hy. unfold pool_put in Hj.
  destruct (decide (j = i)) as [->|Hne].
  - rewrite list_lookup_alter_eq in Hj. destruct (p !! i) as [l0|] eqn:Ei; simpl in Hj;
      [|done]. inversion Hj; subst. apply elem_of_cons in Hy as [->|Hy]; [done|].
    eapply Hp; done.
  - rewrite list_lookup_alter_ne in Hj by done. eauto.
Qed.

Lemma getPool_grade {A} (p : list (list A)) cap :
  length p = 33%nat -> 1 <= cap <= 2 ^ 32 ->
  exists i, getPool p cap = Ok (Some i) /\ cap <= 2 ^ Z.of_nat i.
Proof.
  intros Hp Hc. unfold getPool, len, grade. rewrite Hp.
  rewrite (proj2 (Z.leb_gt _ _)) by lia. simpl.
  pose proof (Z.log2_up_nonneg cap).
  assert (Z.log2_up cap <= 32) by (rewrite <- (Z.log2_up_pow2 32) by lia;
    apply Z.log2_up_le_mono; lia).
  rewrite Z.min_l by lia. rewrite (proj2 (Z.ltb_ge _ _)) by lia.
  exists (Z.to_nat (Z.log2_up cap)). split; [done|].
  rewrite Z2Nat.id by lia. destruct (Z.eq_dec cap 1) as [->|].
  - simpl. lia.
  - apply Z.log2_up_spec. lia.
Qed.

(** ** Properties of the chained buffer and its pools *)

(** What a connection writes by visiting a chain's nodes one by one is
    exactly what Bytes returns: on a chain whose node counts are right and
    whose mounted chains are not empty, Visit yields every block once and in
    order, and Bytes is the concatenation of those blocks' bytes. *)
Theorem visit_writes_bytes (b : nbuf) (bs : list Z)
    (Hok : chain_ok b = true) (Hbs : all_bytes (leaves b) = Ok bs) :
  Bytes b = Ok bs /\
  Visit (fun x acc => match NocopyNode.Bytes x with
                      | Ok h => (true, acc ++ h)
                      | _ => (false, acc)
                      end) b [] = (true, bs).
Proof.
  split; [by rewrite Bytes_leaves|].
  assert (forall l s bs', all_bytes l = Ok bs' ->
    forall b', leaves b' = l ->
    Visit (fun x acc => match NocopyNode.Bytes x with
                        | Ok h => (true, acc ++ h) | _ => (false, acc) end) b' s
    = (true, s ++ bs')) as Hgen; [|by apply (Hgen (leaves b) [] bs)].
  clear. intros l s bs' Hl b' <-. revert s bs' Hl.
  induction b' as [[c n nodes d r] IH] using nbuf_rect_nodes. simpl in IH.
  cbn [Visit leaves bnodes]. induction IH as [|[x|x] nodes IHx _ IHn]; simpl;
    intros s bs' Hl.
  - inversion Hl. by rewrite app_nil_r.
  - destruct (NocopyNode.Bytes x) as [h| |]; simpl in Hl; try done.
    destruct (all_bytes _) as [t| |] eqn:Et in Hl; simpl in Hl; try done.
    inversion Hl; subst. rewrite (IHn _ t Et). by rewrite <- app_assoc.
  - rewrite all_bytes_app in Hl.
    destruct (all_bytes (leaves x)) as [h| |] eqn:Eh; simpl in Hl; try done.
    destruct (all_bytes (flat_map _ nodes)) as [t| |] eqn:Et; simpl in Hl; try done.
    inversion Hl; subst. rewrite (IHx s h eq_refl), (IHn _ t eq_refl).
    by rewrite <- app_assoc.
Qed.

Lemma visit_writes_bytes_witness :
  Bytes (NewNocopyBuffer [MBlock (BRaw [1; 2]);
           MBuf (NewNocopyBuffer [MBlock (BRaw [3]); MBlock (BRaw [4])])])
  = Ok [1; 2; 3; 4].
Proof. apply (visit_writes_bytes _ [1; 2; 3; 4]); reflexivity. Defined.

(** A chain whose head is an empty chain loses what follows it: the node
    count of the pair is one, so Bytes looks at the head only. *)
Theorem empty_head_loses_bytes (bs : list Z) :
  Bytes (NewNocopyBuffer [MBuf empty; MBlock (BRaw bs)]) = Ok [] /\
  leaves (NewNocopyBuffer [MBuf empty; MBlock (BRaw bs)]) = [BRaw bs].
Proof. split; reflexivity. Qed.

(** After Delay(n) on a chain of blocks, the first n-1 calls of Release
    give nothing back, the n-th gives every block back exactly once, and
    every later call gives nothing back. *)
Theorem delayed_release (b : nbuf) (n k : nat)
    (Hflat : flat b = true) (Hrel : breleased b = false)
    (Hn : 1 <= Z.of_nat n < 2 ^ 31) :
  (release_times k (Delay b (Z.of_nat n))).2 = if (k <? n)%nat then [] else leaves b.
Proof.
  assert (forall m b', bdelay b' = Z.of_nat m -> 1 <= Z.of_nat m < 2 ^ 31 ->
            flat b' = true -> breleased b' = false -> leaves b' = leaves b ->
            (release_times k b').2 = if (k <? m)%nat then [] else leaves b) as Hgen.
  { clear. induction k as [|k IH]; intros m b' Hd Hm Hf Hr Hl; simpl.
    { by rewrite (proj2 (Nat.ltb_lt _ _)) by lia. }
    assert (i32 (bdelay b' - 1) = Z.of_nat m - 1) as Hi.
    { rewrite Hd. apply wrapS_id; unfold inS; lia. }
    destruct (decide (m = 1%nat)) as [->|Hne].
    - rewrite Release_last by (first [done|rewrite Hi; lia]).
      pose proof (release_again_times k
        (NBuf (-1) 0 [] (i32 (bdelay b' - 1)) true) eq_refl) as Ha.
      destruct (release_times k _) as [b'' l]. simpl in *. subst.
      by rewrite app_nil_r, Hl.
    - rewrite Release_early by (rewrite Hi; lia). simpl.
      specialize (IH (m - 1)%nat
        (NBuf (bcache b') (bnum b') (bnodes b') (i32 (bdelay b' - 1)) (breleased b'))).
      destruct (release_times k _) as [b'' l]. simpl in *. rewrite IH.
      + destruct (Nat.ltb_spec k (m - 1)), (Nat.ltb_spec (S k) m); try lia; done.
      + rewrite Hi. lia.
      + lia.
      + done.
      + done.
      + rewrite <- Hl. by destruct b'. }
  apply Hgen; try done.
  - simpl. apply wrapS_id; unfold inS; lia.
  - by destruct b.
Qed.

Lemma delayed_release_witness :
  (release_times 3 (Delay (NewNocopyBuffer [MBlock (BRaw [7])]) (Z.of_nat 2))).2
  = [BRaw [7]].
Proof.
  apply (delayed_release (NewNocopyBuffer [MBlock (BRaw [7])]) 2 3);
    [reflexivity|reflexivity|lia].
Defined.

(** MallocBytes on the package's pool, whatever pooled block it hands out *)
Lemma malloc_bytes_ok p pick cap :
  bytes_pool_wf p -> length p = 33%nat -> 1 <= cap <= 2 ^ 32 ->
  exists b p', BytesPool.MallocBytes p pick cap = Ok (Some b, p') /\
    Bytes.off b = cap /\ cap <= len (Bytes.arr b) /\ length p' = 33%nat /\
    bytes_pool_wf p' /\
    (forall a, len (Bytes.arr b) <= len a ->
       bytes_pool_wf (BytesPool.release p' (Bytes.mkBytes a cap (Bytes.pool b)))).
Proof.
  intros Hp Hlen Hcap. destruct (getPool_grade p cap Hlen Hcap) as (i & Hi & Hge).
  unfold BytesPool.MallocBytes, BytesPool.Get. rewrite Hi. simpl.
  destruct (pool_take p i pick (BytesPool.new_at i)) as [b p'] eqn:E.
  destruct (pool_take_inv
    (fun i b => 2 ^ Z.of_nat i <= len (Bytes.arr b) /\ Bytes.pool b = Some i)
    p i pick (BytesPool.new_at i) b p' Hp ltac:(split; [|done]; unfold len; simpl;
      rewrite length_replicate, Nat2Z.inj_pow; lia) E) as ([Hb Hbp] & Hp' & Hl').
  eexists _, p'. split; [done|]. simpl. split; [done|]. split; [lia|].
  split; [congruence|]. split; [done|]. intros a Ha.
  unfold BytesPool.release. simpl. rewrite Hbp.
  refine (pool_put_inv
    (fun i b => 2 ^ Z.of_nat i <= len (Bytes.arr b) /\ Bytes.pool b = Some i)
    p' i _ Hp' _). simpl. split; [lia|done].
Qed.

Lemma bytes_of_block a cap pl :
  0 <= cap <= len a -> Bytes.bytes (Some (Bytes.mkBytes a cap pl)) = Ok (take (Z.to_nat cap) a).
Proof.
  intros H. simpl. unfold go_slice. rewrite !(proj2 (Z.leb_le _ _)) by lia. simpl.
  by rewrite Z.sub_0_r, drop_0.
Qed.

(** MallocBytes on the package's pool of 33 grades, whatever pooled block
    it hands out: for a size from 1 to 2^32 the block's bytes can be taken
    and there are exactly that many, and the pool keeps its invariant; giving
    the block back keeps it as well. *)
Theorem malloc_bytes_exact (p : list (list Bytes.Bytes)) (pick : option nat) (cap : Z)
    (Hp : bytes_pool_wf p) (Hlen : length p = 33%nat) (Hcap : 1 <= cap <= 2 ^ 32) :
  exists b p' bs, BytesPool.MallocBytes p pick cap = Ok (Some b, p') /\
    Bytes.bytes (Some b) = Ok bs /\ len bs = cap /\
    bytes_pool_wf p' /\ bytes_pool_wf (BytesPool.release p' b).
Proof.
  destruct (malloc_bytes_ok p pick cap Hp Hlen Hcap)
    as ([a o pl] & p' & E & Ho & Hc & _ & Hp' & Hr). simpl in *. subst o.
  exists (Bytes.mkBytes a cap pl), p', (take (Z.to_nat cap) a).
  split; [done|]. split; [apply bytes_of_block; lia|].
  split; [unfold len in *; rewrite length_take; lia|]. split; [done|].
  apply Hr. lia.
Qed.

Lemma malloc_bytes_exact_witness :
  exists b p' bs,
    BytesPool.MallocBytes (BytesPool.NewBytesPool 32) None 5 = Ok (Some b, p') /\
    Bytes.bytes (Some b) = Ok bs /\ len bs = 5 /\
    bytes_pool_wf p' /\ bytes_pool_wf (BytesPool.release p' b).
Proof.
  apply (malloc_bytes_exact (BytesPool.NewBytesPool 32) None 5).
  - intros i l b Hi Hb. apply lookup_replicate in Hi as [-> _].
    by apply not_elem_of_nil in Hb.
  - reflexivity.
  - lia.
Defined.

(** MallocWriter hands out a writer with nothing written, and takes it back. *)
Lemma malloc_writer_fresh p pick cap :
  writer_pool_wf p -> length p = 33%nat -> 1 <= cap <= 2 ^ 32 ->
  exists w p', WriterPool.MallocWriter p pick cap = Ok (Some w, p') /\ fresh w /\
    writer_pool_wf p' /\
    (forall w', writer_wf w' -> writer_pool_wf (WriterPool.release p' w')).
Proof.
  intros Hp Hlen Hcap. destruct (getPool_grade p cap Hlen Hcap) as (i & Hi & Hge).
  unfold WriterPool.MallocWriter, WriterPool.Get. rewrite Hi. simpl.
  destruct (pool_take p i pick (WriterPool.new_at i)) as [w p'] eqn:E.
  destruct (pool_take_inv (fun _ w => fresh w) p i pick (WriterPool.new_at i) w p' Hp
    ltac:(split; [split|]; simpl; rewrite ?length_replicate; try lia; done) E)
    as (Hw & Hp' & _).
  exists w, p'. split; [done|]. split; [done|]. split; [done|].
  intros w' Hw'. unfold WriterPool.release. destruct (Writer.pool w') as [j|]; [|done].
  refine (pool_put_inv (fun _ w => fresh w) p' j _ Hp' _).
  destruct Hw' as [H1 H2]. split; [split|]; simpl; lia.
Qed.

(** A size of zero panics in both pools: its grade is not an index. *)
Theorem malloc_zero_panics (p : list (list Bytes.Bytes)) (q : list (list Writer.Writer))
    (k : option nat) (Hp : length p = 33%nat) (Hq : length q = 33%nat) :
  BytesPool.MallocBytes p k 0 = Panic /\ WriterPool.MallocWriter q k 0 = Panic.
Proof.
  unfold BytesPool.MallocBytes, BytesPool.Get, WriterPool.MallocWriter,
    WriterPool.Get, getPool, len. rewrite Hp, Hq. split; reflexivity.
Qed.

Lemma malloc_zero_panics_witness :
  BytesPool.MallocBytes (BytesPool.NewBytesPool 32) None 0 = Panic /\
  WriterPool.MallocWriter (WriterPool.NewWriterPool 32) None 0 = Panic.
Proof. apply malloc_zero_panics; reflexivity. Defined.
