(* ===== verification/Fields.v ===== *)
(** core/buffer: the reader undoes the writer.
    A record of typed fields, each written with one of the Writer's methods,
    is read back field by field with the Reader's methods. *)
From stdpp Require Import base numbers list.
From Stdlib Require Import ZArith Lia.
From S2P Require Import Prelude Binary Reader Writer Nocopy.
Import Reader.Reader Writer.Writer.

Open Scope Z_scope.
Open Scope go_scope.

Inductive field :=
| FBools (l : list bool)
| FInt8s (l : list Z)
| FUint8s (l : list Z)
| FInt16s (o : ByteOrder) (l : list Z)
| FUint16s (o : ByteOrder) (l : list Z)
| FInt32s (o : ByteOrder) (l : list Z)
| FUint32s (o : ByteOrder) (l : list Z)
| FInt64s (o : ByteOrder) (l : list Z)
| FUint64s (o : ByteOrder) (l : list Z)
| FFloat32s (o : ByteOrder) (l : list float32)
| FFloat64s (o : ByteOrder) (l : list float64)
| FRunes (o : ByteOrder) (l : list Z)
| FBytes (l : list Z)
| FString (l : list Z).

Definition write_field (f : field) : ST Writer unit :=
  match f with
  | FBools l => WriteBools l
  | FInt8s l => WriteInt8s l
  | FUint8s l => WriteUint8s l
  | FInt16s o l => WriteInt16s o l
  | FUint16s o l => WriteUint16s o l
  | FInt32s o l => WriteInt32s o l
  | FUint32s o l => WriteUint32s o l
  | FInt64s o l => WriteInt64s o l
  | FUint64s o l => WriteUint64s o l
  | FFloat32s o l => WriteFloat32s o l
  | FFloat64s o l => WriteFloat64s o l
  | FRunes o l => WriteRunes o l
  | FBytes l => WriteBytes l
  | FString l => WriteString l
  end.

(** Reads a field of the same type and count. *)
Definition read_like (f : field) : ST Reader field :=
  match f with
  | FBools l => let! x := ReadBools (len l) in st_ret (FBools x)
  | FInt8s l => let! x := ReadInt8s (len l) in st_ret (FInt8s x)
  | FUint8s l => let! x := ReadUint8s (len l) in st_ret (FUint8s x)
  | FInt16s o l => let! x := ReadInt16s o (len l) in st_ret (FInt16s o x)
  | FUint16s o l => let! x := ReadUint16s o (len l) in st_ret (FUint16s o x)
  | FInt32s o l => let! x := ReadInt32s o (len l) in st_ret (FInt32s o x)
  | FUint32s o l => let! x := ReadUint32s o (len l) in st_ret (FUint32s o x)
  | FInt64s o l => let! x := ReadInt64s o (len l) in st_ret (FInt64s o x)
  | FUint64s o l => let! x := ReadUint64s o (len l) in st_ret (FUint64s o x)
  | FFloat32s o l => let! x := ReadFloat32s o (len l) in st_ret (FFloat32s o x)
  | FFloat64s o l => let! x := ReadFloat64s o (len l) in st_ret (FFloat64s o x)
  | FRunes o l => let! x := ReadRunes o (len l) in st_ret (FRunes o x)
  | FBytes l => let! x := ReadBytes (len l) in st_ret (FBytes x)
  | FString l => let! x := ReadString (len l) in st_ret (FString x)
  end.

(** Every value fits the Go type of its field. *)
Definition field_ok (f : field) : Prop :=
  match f with
  | FBools _ => True
  | FInt8s l => Forall (inS 8) l
  | FUint8s l | FBytes l | FString l => Forall (inU 8) l
  | FInt16s _ l => Forall (inS 16) l
  | FUint16s _ l => Forall (inU 16) l
  | FInt32s _ l | FRunes _ l => Forall (inS 32) l
  | FUint32s _ l => Forall (inU 32) l
  | FInt64s _ l => Forall (inS 64) l
  | FUint64s _ l => Forall (inU 64) l
  | FFloat32s _ l => Forall (fun x => inU 32 (Float32bits x)) l
  | FFloat64s _ l => Forall (fun x => inU 64 (Float64bits x)) l
  end.

Definition write_all (fs : list field) : ST Writer unit := st_iter write_field fs.

Fixpoint read_all (fs : list field) : ST Reader (list field) :=
  match fs with
  | [] => st_ret []
  | f :: fs' => let! x := read_like f in let! xs := read_all fs' in st_ret (x :: xs)
  end.

Definition field_bytes (f : field) : list Z :=
  match f with
  | FBools l => map (fun v : bool => if v then 1 else 0) l
  | FInt8s l => map u8 l
  | FUint8s l | FBytes l | FString l => l
  | FInt16s o l | FUint16s o l => concat (map (put_uint o 2) l)
  | FInt32s o l | FUint32s o l | FRunes o l => concat (map (put_uint o 4) l)
  | FInt64s o l | FUint64s o l => concat (map (put_uint o 8) l)
  | FFloat32s o l => concat (map (fun v => put_uint o 4 (Float32bits v)) l)
  | FFloat64s o l => concat (map (fun v => put_uint o 8 (Float64bits v)) l)
  end.

(** ** Writing *)

Lemma appends_WriteFloat32s o vs :
  appends (WriteFloat32s o vs) (concat (map (fun v => put_uint o 4 (Float32bits v)) vs)) tt.
Proof. apply (grow_iter_appends 4). intros v. apply put_word_steps. Qed.

Lemma appends_WriteFloat64s o vs :
  appends (WriteFloat64s o vs) (concat (map (fun v => put_uint o 8 (Float64bits v)) vs)) tt.
Proof. apply (grow_iter_appends 8). intros v. apply put_word_steps. Qed.

Lemma appends_write_field f : appends (write_field f) (field_bytes f) tt.
Proof.
  destruct f; simpl; auto using appends_WriteFloat32s, appends_WriteFloat64s
    with appends.
Qed.

Lemma appends_write_all fs : appends (write_all fs) (flat_map field_bytes fs) tt.
Proof.
  destruct fs as [|f fs]; [apply appends_ret|]. simpl.
  eapply appends_bind; [apply appends_write_field|].
  induction fs as [|g fs IH]; simpl; [apply appends_ret|].
  eapply appends_bind; [apply appends_write_field|done].
Qed.

(** ** Reading *)

Section Loop.
Context {A : Type} (k : nat) (elem : Z) (dec : list Z -> A) (enc : A -> list Z).
Context (vs : list A).
Hypothesis Hk : (0 < k)%nat.
Hypothesis Helem : elem = Z.of_nat k.
Hypothesis Henc : Forall (fun v => length (enc v) = k /\ dec (enc v) = v) vs.
Hypothesis Hfit : Z.of_nat k * len vs <= max_alloc.

Lemma chunks_of : Forall (fun c => length c = k) (map enc vs).
Proof.
  apply List.Forall_forall. intros c Hc. apply in_map_iff in Hc as (v & <- & Hv).
  by apply (proj1 (List.Forall_forall _ _) Henc v Hv).
Qed.

Lemma dec_enc_all : map dec (map enc vs) = vs.
Proof.
  rewrite map_map, <- List.map_id. apply map_ext_in. intros v Hv.
  by apply (proj1 (List.Forall_forall _ _) Henc v Hv).
Qed.

Lemma consumes_loop :
  consumes (let! bs := slices (Z.of_nat k) (len vs) in
            let! _ := st_lift (make_cap elem (len vs)) in
            st_ret (decode_all (Z.of_nat k) dec bs))
    (concat (map enc vs)) vs.
Proof.
  pose proof (len_nonneg vs). eapply consumes_map.
  - apply consumes_slices. rewrite (len_concat_chunks k) by apply chunks_of.
    unfold len. by rewrite length_map.
  - intros r. unfold make_cap. subst elem.
    rewrite (proj2 (Z.ltb_ge _ _)) by lia.
    rewrite (proj2 (Z.ltb_ge _ _)) by lia. cbn. unfold st_ret.
    rewrite decode_all_concat by (first [done|apply chunks_of]).
    by rewrite dec_enc_all.
Qed.

Lemma consumes_guarded :
  consumes (if len vs <=? 0 then st_ret [] else
            let! bs := slices (Z.of_nat k) (len vs) in
            let! _ := st_lift (make_cap elem (len vs)) in
            st_ret (decode_all (Z.of_nat k) dec bs))
    (concat (map enc vs)) vs.
Proof.
  destruct (Z.leb_spec (len vs) 0) as [Hz|Hz]; [|apply consumes_loop].
  destruct vs as [|v l]; [|rewrite len_cons in Hz; pose proof (len_nonneg l); lia].
  intros r suf Hr. exists r. done.
Qed.
End Loop.

Lemma Forall_enc_u o (n : nat) l :
  Forall (inU (8 * Z.of_nat n)) l ->
  Forall (fun v => length (put_uint o n v) = n /\ get_uint o (put_uint o n v) = v) l.
Proof.
  induction 1; constructor; [|done]. split; [apply length_put_uint|].
  rewrite get_put_uint. by apply wrapU_id.
Qed.

Lemma Forall_enc_s o (n : nat) l :
  (0 < n)%nat -> Forall (inS (8 * Z.of_nat n)) l ->
  Forall (fun v => length (put_uint o n v) = n /\
                   wrapS (8 * Z.of_nat n) (get_uint o (put_uint o n v)) = v) l.
Proof.
  intros Hn. induction 1; constructor; [|done]. split; [apply length_put_uint|].
  rewrite get_put_uint, wrapS_wrapU by lia. apply wrapS_id; [lia|done].
Qed.

Lemma concat_bytes {A} (f : A -> Z) l : map f l = concat (map (fun v => [f v]) l).
Proof. induction l; simpl; congruence. Qed.

Lemma u8_i8 v : inS 8 v -> i8 (u8 v) = v.
Proof. intros. rewrite wrapS_wrapU by lia. by apply wrapS_id. Qed.

Lemma consumes_enc_eq {A} (m : ST Reader A) enc enc' v :
  enc = enc' -> consumes m enc v -> consumes m enc' v.
Proof. by intros ->. Qed.

Lemma len_encoded {A} (enc : A -> list Z) k l :
  (forall v, length (enc v) = k) -> len (concat (map enc l)) = Z.of_nat k * len l.
Proof.
  intros H. rewrite (len_concat_chunks k).
  - unfold len. by rewrite length_map.
  - apply List.Forall_forall. intros c Hc. apply in_map_iff in Hc as (v & <- & _). done.
Qed.

Lemma consumes_read_like f :
  field_ok f -> len (field_bytes f) <= max_alloc -> consumes (read_like f) (field_bytes f) f.
Proof.
  destruct f as [l|l|l|o l|o l|o l|o l|o l|o l|o l|o l|o l|l|l]; simpl; intros Hok Hfit;
    (eapply consumes_map; [|by intros r]).
  - rewrite concat_bytes in Hfit |- *. rewrite (len_encoded _ 1%nat) in Hfit by done.
    apply (consumes_guarded 1); try done; [lia|].
    apply List.Forall_forall. intros [] _; done.
  - rewrite concat_bytes in Hfit |- *. rewrite (len_encoded _ 1%nat) in Hfit by done.
    apply (consumes_guarded 1); try done; [lia|].
    eapply Forall_impl; [exact Hok|]. intros v Hv. split; [done|].
    cbn. by apply u8_i8.
  - apply (consumes_enc_eq _ (concat (map (fun v => [v]) l))); [apply concat_singletons|].
    apply (consumes_guarded 1); try done; [lia| |lia].
    apply List.Forall_forall. done.
  - rewrite (len_encoded _ 2%nat) in Hfit by apply length_put_uint.
    apply (consumes_guarded 2); try done; [lia|by apply (Forall_enc_s o 2); [lia|]].
  - rewrite (len_encoded _ 2%nat) in Hfit by apply length_put_uint.
    apply (consumes_guarded 2); try done; [lia|by apply (Forall_enc_u o 2)].
  - rewrite (len_encoded _ 4%nat) in Hfit by apply length_put_uint.
    apply (consumes_loop 4); try done; [lia|by apply (Forall_enc_s o 4); [lia|]].
  - rewrite (len_encoded _ 4%nat) in Hfit by apply length_put_uint.
    apply (consumes_loop 4); try done; [lia|by apply (Forall_enc_u o 4)].
  - rewrite (len_encoded _ 8%nat) in Hfit by apply length_put_uint.
    apply (consumes_guarded 8); try done; [lia|by apply (Forall_enc_s o 8); [lia|]].
  - rewrite (len_encoded _ 8%nat) in Hfit by apply length_put_uint.
    apply (consumes_guarded 8); try done; [lia|by apply (Forall_enc_u o 8)].
  - rewrite (len_encoded _ 4%nat) in Hfit by (intros; apply length_put_uint).
    apply (consumes_guarded 4); try done; [lia|]. eapply Forall_impl; [exact Hok|].
    intros [v] Hv. simpl in Hv. split; [apply length_put_uint|].
    by rewrite get_put_uint, (wrapU_id (8 * Z.of_nat 4)).
  - rewrite (len_encoded _ 8%nat) in Hfit by (intros; apply length_put_uint).
    apply (consumes_guarded 8); try done; [lia|]. eapply Forall_impl; [exact Hok|].
    intros [v] Hv. simpl in Hv. split; [apply length_put_uint|].
    by rewrite get_put_uint, (wrapU_id (8 * Z.of_nat 8)).
  - rewrite (len_encoded _ 4%nat) in Hfit by apply length_put_uint.
    apply (consumes_loop 4); try done; [lia|by apply (Forall_enc_s o 4); [lia|]].
  - unfold ReadBytes. destruct (Z.leb_spec (len l) 0) as [Hz|Hz].
    + destruct l; [|rewrite len_cons in Hz; pose proof (len_nonneg l); lia].
      intros r suf Hr. by exists r.
    + apply consumes_slices. unfold b8. lia.
  - apply consumes_ReadString.
Qed.

Lemma consumes_read_all fs :
  Forall field_ok fs -> len (flat_map field_bytes fs) <= max_alloc ->
  consumes (read_all fs) (flat_map field_bytes fs) fs.
Proof.
  induction 1 as [|f fs Hf _ IH]; simpl; intros Hfit.
  - intros r suf Hr. by exists r.
  - rewrite len_app in Hfit. pose proof (len_nonneg (field_bytes f)).
    pose proof (len_nonneg (flat_map field_bytes fs)).
    intros r suf Hr. rewrite <- app_assoc in Hr.
    destruct (consumes_read_like f Hf ltac:(lia) r _ Hr) as (r1 & Hr1 & Hb1 & E1).
    destruct (IH ltac:(lia) r1 suf Hr1) as (r2 & Hr2 & Hb2 & E2).
    exists r2. split; [done|]. split; [congruence|]. intros B k.
    unfold st_bind at 1. rewrite E1, E2. done.
Qed.

(** Whatever sequence of typed fields is written into a fresh writer with
    the Writer's methods, each value within its Go type, the Reader's methods
    read back the same fields in the same order and end at the end of the
    data.  The total size is bounded by the allocator's address space. *)
Theorem fields_roundtrip (w : Writer) (fs : list field)
    (Hw : fresh w) (Hok : Forall field_ok fs)
    (Hfit : len (flat_map field_bytes fs) <= max_alloc) :
  exists w' data r',
    write_all fs w = (Ok tt, w') /\ Writer.Writer.Bytes w' = Ok data /\
    read_all fs (NewReader data) = (Ok fs, r') /\ Reader.Reader.off r' = len data.
Proof.
  destruct Hw as [Hw H0]. destruct (appends_write_all fs w Hw) as (w' & E & Hw' & Hb & _).
  exists w', (flat_map field_bytes fs).
  assert (written w' = flat_map field_bytes fs) as Hwr.
  { rewrite Hb. unfold written. by rewrite H0. }
  destruct (consumes_read_all fs Hok Hfit (NewReader (flat_map field_bytes fs)) [])
    as (r' & (pre & Hpre & Hoff & _) & Hbuf & Ek).
  { rewrite app_nil_r. by apply reader_at_new. }
  exists r'. split; [done|]. split; [by rewrite Bytes_written, Hwr|]. split.
  - specialize (Ek _ st_ret). unfold st_bind, st_ret in Ek.
    destruct (read_all fs _) as [[a|e|] s]; by inversion Ek.
  - rewrite app_nil_r in Hpre. rewrite Hoff, <- Hpre, Hbuf. done.
Qed.

Lemma fields_roundtrip_witness :
  exists w' data r',
    write_all [FUint8s [7]; FInt64s BigEndian [-2; 5]] (NewWriterWithCapacity [2%nat])
      = (Ok tt, w') /\
    Writer.Writer.Bytes w' = Ok data /\
    read_all [FUint8s [7]; FInt64s BigEndian [-2; 5]] (NewReader data)
      = (Ok [FUint8s [7]; FInt64s BigEndian [-2; 5]], r') /\
    Reader.Reader.off r' = len data.
Proof.
  apply (fields_roundtrip (NewWriterWithCapacity [2%nat])
           [FUint8s [7]; FInt64s BigEndian [-2; 5]]).
  - split; [split|]; simpl; lia.
  - repeat constructor; unfold inU, inS; lia.
  - vm_compute. discriminate.
Defined.

(** No Reader primitive panics on a non-negative request: from a cursor
    inside its data, [slices] either reports the end and leaves the cursor,
    or returns exactly the next bytes and advances past them. *)
Theorem slices_total (r : Reader) (suf : list Z) (b n : Z)
    (Hr : reader_at r suf) (Hn : 0 <= b * n <= max_alloc) :
  (len suf < b * n /\ slices b n r = (Err ErrUnexpectedEOF, r)) \/
  (exists r', b * n <= len suf /\
     slices b n r = (Ok (take (Z.to_nat (b * n)) suf), r') /\
     reader_at r' (drop (Z.to_nat (b * n)) suf)).
Proof.
  destruct (Z.ltb_spec (len suf) (b * n)) as [H|H].
  - left. split; [done|]. by eapply slices_eof.
  - right. rewrite <- (take_drop (Z.to_nat (b * n)) suf) in Hr.
    destruct (slices_at _ _ _ b n Hr) as (r' & E & _ & Ha).
    { unfold len in *. rewrite length_take. lia. }
    exists r'. auto.
Qed.

Lemma slices_total_witness :
  (len [1; 2; 3] < 4 * 1 /\
   slices 4 1 (NewReader [1; 2; 3]) = (Err ErrUnexpectedEOF, NewReader [1; 2; 3])) \/
  (exists r', 4 * 1 <= len [1; 2; 3] /\
     slices 4 1 (NewReader [1; 2; 3]) = (Ok (take (Z.to_nat (4 * 1)) [1; 2; 3]), r') /\
     reader_at r' (drop (Z.to_nat (4 * 1)) [1; 2; 3])).
Proof.
  apply (slices_total (NewReader [1; 2; 3]) [1; 2; 3] 4 1).
  - apply reader_at_new. unfold fits, max_alloc, len. simpl. lia.
  - unfold max_alloc. lia.
Defined.

(** A negative count is refused silently by most list readers but panics
    in ReadInt32s and ReadUint32s, which lack the guard. *)
Theorem read_int32s_negative_panics (o : ByteOrder) (data : list Z) (n : Z)
    (Hn : - 2 ^ 60 < n < 0) :
  st_run (ReadInt32s o n) (NewReader data) = Panic /\
  st_run (ReadUint32s o n) (NewReader data) = Panic /\
  st_run (ReadInt64s o n) (NewReader data) = Ok [].
Proof.
  assert (slices b32 n (NewReader data) = (Panic, NewReader data)) as E.
  { unfold slices, b32. cbn [Reader.Reader.off Reader.Reader.buf NewReader].
    rewrite !(wrapS_id 64) by (try unfold inS; rewrite ?wrapS_id; unfold inS; lia).
    rewrite Z.gtb_ltb, (proj2 (Z.ltb_ge _ _)) by (pose proof (len_nonneg data); lia).
    unfold go_slice. rewrite (proj2 (Z.leb_gt 0 (0 + 4 * n))) by lia. done. }
  unfold st_run, ReadInt32s, ReadUint32s, ReadInt64s, st_bind. rewrite E.
  rewrite (proj2 (Z.leb_le n 0)) by lia. done.
Qed.

Lemma read_int32s_negative_panics_witness :
  st_run (ReadInt32s BigEndian (-1)) (NewReader [1; 2]) = Panic /\
  st_run (ReadUint32s BigEndian (-1)) (NewReader [1; 2]) = Panic /\
  st_run (ReadInt64s BigEndian (-1)) (NewReader [1; 2]) = Ok [].
Proof. apply (read_int32s_negative_panics BigEndian [1; 2] (-1)). lia. Defined.

(** A writer made over a slice with spare capacity writes wrongly: a
    single byte panics, and WriteBytes advances over bytes it never stored. *)
Theorem spare_capacity_breaks_writer :
  st_run (WriteUint8s [9]) (NewWriter [] [0; 0; 0; 0]) = Panic /\
  (exists w', WriteBytes [9; 9] (NewWriter [] [0; 0; 0; 0]) = (Ok tt, w') /\
              Writer.Writer.Bytes w' = Ok [0; 0]).
Proof. split; [reflexivity|]. eexists. split; reflexivity. Qed.
