(* ===== verification/Packet.v ===== *)
(** package packet: the client wire format (packer.go, options.go, packet.go,
    message.go).

    A data packet is size(4) header(1) route(n) seq(m) message; a heartbeat
    packet is size(4) header(1) and, optionally, an 8-byte time.  A stream the
    gate reads from is the list of bytes the peer sends before it closes. *)
From stdpp Require Import base numbers list strings.
From Stdlib Require Import ZArith Lia Ascii.
From S2P Require Import Prelude Binary Reader Writer Nocopy.

Open Scope Z_scope.
Open Scope go_scope.

(** ** io.ReadFull and binary.Read on a byte stream *)

Definition read_full (n : Z) : ST (list Z) (list Z) := fun s =>
  if n <=? len s then (Ok (take (Z.to_nat n) s), drop (Z.to_nat n) s)
  else (Err (if len s =? 0 then EOF else IoErrUnexpectedEOF), []).

Definition binary_read (o : ByteOrder) (n : nat) : ST (list Z) Z :=
  let! bs := read_full (Z.of_nat n) in st_ret (get_uint o bs).

Module Packet.

Definition dataBit : Z := Z.shiftl 0 7.
Definition heartbeatBit : Z := Z.shiftl 1 7.

Definition littleEndian : string := "little".
Definition bigEndian : string := "big".

Definition defaultSizeBytes : Z := 4.
Definition defaultHeaderBytes : Z := 1.
Definition defaultRouteBytes : Z := 2.
Definition defaultSeqBytes : Z := 2.
Definition defaultBufferBytes : Z := 5000.
Definition defaultHeartbeatTime : bool := false.
Definition defaultHeartbeatTimeBytes : Z := 8.

Record Message := mkMessage { Seq : Z; Route : Z; Buffer : list Z }.

Record options := mkOptions {
  byteOrder : ByteOrder;
  routeBytes : Z;
  seqBytes : Z;
  bufferBytes : Z;
  heartbeatTime : bool
}.

(** strings.ToLower on the letters of ASCII *)
Definition lower_ascii (c : ascii) : ascii :=
  let n := N_of_ascii c in
  if (65 <=? n)%N && (n <=? 90)%N then ascii_of_N (n + 32) else c.

Fixpoint ToLower (s : string) : string :=
  match s with
  | EmptyString => EmptyString
  | String c s' => String (lower_ascii c) (ToLower s')
  end.

(** The values the configuration holds under etc.packet, if any *)
Record etc_packet := mkEtc {
  etc_byteOrder : option string;
  etc_routeBytes : option Z;
  etc_seqBytes : option Z;
  etc_bufferBytes : option Z;
  etc_heartbeatTime : option bool
}.

Definition or_default {A} (o : option A) (d : A) : A :=
  match o with Some x => x | None => d end.

Definition defaultOptions (e : etc_packet) : options :=
  let endian := or_default (etc_byteOrder e) bigEndian in
  let order := if String.eqb (ToLower endian) littleEndian then LittleEndian
               else if String.eqb (ToLower endian) bigEndian then BigEndian
               else BigEndian in
  mkOptions order
    (or_default (etc_routeBytes e) defaultRouteBytes)
    (or_default (etc_seqBytes e) defaultSeqBytes)
    (or_default (etc_bufferBytes e) defaultBufferBytes)
    (or_default (etc_heartbeatTime e) defaultHeartbeatTime).

Definition Option := options -> options.
Definition WithByteOrder (x : ByteOrder) : Option := fun o =>
  mkOptions x (routeBytes o) (seqBytes o) (bufferBytes o) (heartbeatTime o).
Definition WithRouteBytes (x : Z) : Option := fun o =>
  mkOptions (byteOrder o) x (seqBytes o) (bufferBytes o) (heartbeatTime o).
Definition WithSeqBytes (x : Z) : Option := fun o =>
  mkOptions (byteOrder o) (routeBytes o) x (bufferBytes o) (heartbeatTime o).
Definition WithBufferBytes (x : Z) : Option := fun o =>
  mkOptions (byteOrder o) (routeBytes o) (seqBytes o) x (heartbeatTime o).
Definition WithHeartbeatTime (x : bool) : Option := fun o =>
  mkOptions (byteOrder o) (routeBytes o) (seqBytes o) (bufferBytes o) x.

Record defaultPacker := mkPacker { opts : options; heartbeat : list Z }.

Definition makeHeartbeat (order : ByteOrder) : list Z :=
  put_uint order 4 (u32 defaultHeaderBytes) ++ put_uint order 1 heartbeatBit.

(** None: log.Fatalf ends the process. *)
Definition NewPacker (e : etc_packet) (os : list Option) : option defaultPacker :=
  let o := fold_left (fun o opt => opt o) os (defaultOptions e) in
  if negb (routeBytes o =? 1) && negb (routeBytes o =? 2) && negb (routeBytes o =? 4)
  then None
  else if negb (seqBytes o =? 0) && negb (seqBytes o =? 1) && negb (seqBytes o =? 2)
          && negb (seqBytes o =? 4)
  then None
  else if bufferBytes o <? 0 then None
  else Some (mkPacker o (makeHeartbeat (byteOrder o))).

Section WithPacker.
Context (p : defaultPacker).
Let o := opts p.

(** v > int32(1<<(8*n-1)-1) || v < int32(-1<<(8*n-1)), all in int32 *)
Definition overflows (v n : Z) : bool :=
  (v >? i32 (i32 (2 ^ (8 * n - 1)) - 1)) || (v <? i32 (- 2 ^ (8 * n - 1))).

(** The checks shared by PackBuffer and PackMessage *)
Definition check (m : Message) : res unit :=
  if overflows (Route m) (routeBytes o) then Err ErrRouteOverflow
  else if (0 <? seqBytes o) && overflows (Seq m) (seqBytes o) then Err ErrSeqOverflow
  else if len (Buffer m) >? bufferBytes o then Err ErrMessageTooLarge
  else Ok tt.

(** switch n { case 1: ... case 2: ... case 4: ... } *)
Definition put_field (n v : Z) : list Z :=
  if n =? 1 then put_uint (byteOrder o) 1 (i8 v)
  else if n =? 2 then put_uint (byteOrder o) 2 (i16 v)
  else if n =? 4 then put_uint (byteOrder o) 4 v
  else [].

Definition PackMessage (m : Message) : res (list Z) :=
  do _ <- check m;
  let size := defaultHeaderBytes + routeBytes o + seqBytes o + len (Buffer m) in
  Ok (put_uint (byteOrder o) 4 (i32 size) ++ put_uint (byteOrder o) 1 (i8 dataBit)
      ++ put_field (routeBytes o) (Route m) ++ put_field (seqBytes o) (Seq m)
      ++ Buffer m).

Definition write_field (n v : Z) : ST Writer.Writer unit :=
  if n =? 1 then Writer.WriteInt8s [i8 v]
  else if n =? 2 then Writer.WriteInt16s (byteOrder o) [i16 v]
  else if n =? 4 then Writer.WriteInt32s (byteOrder o) [v]
  else st_ret tt.

(** [w] is the writer MallocWriter returned. *)
Definition PackBuffer (w : Writer.Writer) (m : Message) : res nbuf :=
  do _ <- check m;
  match (Writer.WriteInt32s (byteOrder o)
           [i32 (defaultHeaderBytes + routeBytes o + seqBytes o + len (Buffer m))] ;;;
         Writer.WriteInt8s [i8 dataBit] ;;;
         write_field (routeBytes o) (Route m) ;;;
         write_field (seqBytes o) (Seq m)) w with
  | (Ok _, w') =>
      Ok (NocopyBuffer.NewNocopyBuffer [MBlock (BWriter w'); MBlock (BRaw (Buffer m))])
  | (Err e, _) => Err e
  | (Panic, _) => Panic
  end.

Definition read_field (n : Z) : ST (list Z) Z :=
  if n =? 1 then let! v := binary_read (byteOrder o) 1 in st_ret (i8 v)
  else if n =? 2 then let! v := binary_read (byteOrder o) 2 in st_ret (i16 v)
  else if n =? 4 then let! v := binary_read (byteOrder o) 4 in st_ret (i32 v)
  else st_ret 0.

Definition UnpackMessage (data : list Z) : res Message :=
  let ln := defaultSizeBytes + defaultHeaderBytes + routeBytes o + seqBytes o in
  if len data - ln <? 0 then Err ErrInvalidMessage else
  st_run (let! size := binary_read (byteOrder o) 4 in
          if negb (u64 (len data - defaultSizeBytes) =? size)
          then st_err ErrInvalidMessage else
          let! header := binary_read (byteOrder o) 1 in
          if negb (Z.land header dataBit =? dataBit)
          then st_err ErrInvalidMessage else
          let! route := read_field (routeBytes o) in
          let! seq := read_field (seqBytes o) in
          let! msg := st_lift (go_slice data ln (len data)) in
          st_ret (mkMessage seq route msg)) data.

(** [now] is time.Now().UnixNano(). *)
Definition PackHeartbeat (now : Z) : list Z :=
  if heartbeatTime o then
    put_uint (byteOrder o) 4 (u32 (defaultHeaderBytes + defaultHeartbeatTimeBytes))
    ++ put_uint (byteOrder o) 1 heartbeatBit ++ put_uint (byteOrder o) 8 now
  else heartbeat p.

Definition CheckHeartbeat (data : list Z) : res bool :=
  if len data <? defaultSizeBytes + defaultHeaderBytes then Err ErrInvalidMessage else
  st_run (let! size := binary_read (byteOrder o) 4 in
          if negb (u64 (len data - defaultSizeBytes) =? size)
          then st_err ErrInvalidMessage else
          let! header := binary_read (byteOrder o) 1 in
          st_ret (Z.land header heartbeatBit =? heartbeatBit)) data.

(** None: the (nil, nil) result of a zero size.  The length of the buffer is
    computed in uint32; copy(data[:4], buf) and data[4:] panic when it is
    below 4. *)
Definition ReadMessage : ST (list Z) (option (list Z)) :=
  let! hd := read_full defaultSizeBytes in
  let size := get_uint (byteOrder o) hd in
  if size =? 0 then st_ret None else
  let n := u32 (defaultSizeBytes + size) in
  if n <? defaultSizeBytes then st_panic else
  let! body := read_full (n - defaultSizeBytes) in
  st_ret (Some (hd ++ body)).

(** ReadBuffer works on pooled blocks; [k1] and [k2] are the pool's picks. *)
Definition ReadBuffer (k1 k2 : option nat)
    : ST (list Z * list (list Bytes.Bytes)) (option Bytes.Bytes) := fun '(s, pl) =>
  match BytesPool.MallocBytes pl k1 defaultSizeBytes with
  | Ok (Some b1, pl1) =>
      match read_full defaultSizeBytes s with
      | (Ok hd, s1) =>
          let pl1' := BytesPool.release pl1
            (Bytes.mkBytes (hd ++ drop 4 (Bytes.arr b1)) (Bytes.off b1) (Bytes.pool b1)) in
          let size := get_uint (byteOrder o) hd in
          if size =? 0 then (Ok None, (s1, pl1')) else
          match BytesPool.MallocBytes pl1 k2 (u32 (defaultSizeBytes + size)) with
          | Ok (Some b2, pl2) =>
              (* data := buf2.Bytes(); data[:4] is bounded by the capacity,
                 data[4:] by the length *)
              if (len (Bytes.arr b2) <? Bytes.off b2) || (len (Bytes.arr b2) <? 4)
                 || (Bytes.off b2 <? 4)
              then (Panic, (s1, pl2)) else
              let pl2' := BytesPool.release pl2
                (Bytes.mkBytes (hd ++ drop 4 (Bytes.arr b1)) (Bytes.off b1)
                   (Bytes.pool b1)) in
              match read_full (Bytes.off b2 - 4) s1 with
              | (Ok body, s2) =>
                  (Ok (Some (Bytes.mkBytes
                         (hd ++ body ++ drop (Z.to_nat (Bytes.off b2)) (Bytes.arr b2))
                         (Bytes.off b2) (Bytes.pool b2))), (s2, pl2'))
              | (Err e, s2) => (Err e, (s2, BytesPool.release pl2' b2))
              | (Panic, s2) => (Panic, (s2, pl2'))
              end
          | Ok (None, pl2) => (Panic, (s1, pl2))
          | Err e => (Err e, (s1, pl1'))
          | Panic => (Panic, (s1, pl1'))
          end
      | (Err e, s1) => (Err e, (s1, BytesPool.release pl1 b1))
      | (Panic, s1) => (Panic, (s1, pl1))
      end
  | Ok (None, pl1) => (Panic, (s, pl1))
  | Err e => (Err e, (s, pl))
  | Panic => (Panic, (s, pl))
  end.

End WithPacker.

End Packet.
Import Packet.

(** ** Packers that NewPacker can return *)

Definition packer_ok (p : defaultPacker) : Prop :=
  (routeBytes (opts p) = 1 \/ routeBytes (opts p) = 2 \/ routeBytes (opts p) = 4) /\
  (seqBytes (opts p) = 0 \/ seqBytes (opts p) = 1 \/ seqBytes (opts p) = 2 \/
   seqBytes (opts p) = 4) /\
  0 <= bufferBytes (opts p) /\
  heartbeat p = makeHeartbeat (byteOrder (opts p)).

(** A message as the code holds it: two int32 fields and a byte slice *)
Definition message_ok (m : Message) : Prop := inS 32 (Seq m) /\ inS 32 (Route m).

(** The bytes of the fixed part after the size field *)
Definition head_len (p : defaultPacker) : Z :=
  defaultHeaderBytes + routeBytes (opts p) + seqBytes (opts p).

Lemma NewPacker_ok e os p : NewPacker e os = Some p -> packer_ok p.
Proof.
  unfold NewPacker. set (o := fold_left _ _ _). intros H.
  destruct (_ && _) eqn:E1 in H; [done|]. destruct (_ && _) eqn:E2 in H; [done|].
  destruct (Z.ltb_spec (bufferBytes o) 0); [done|]. inversion H; subst. clear H.
  unfold packer_ok; simpl.
  destruct (Z.eqb_spec (routeBytes o) 1), (Z.eqb_spec (routeBytes o) 2),
    (Z.eqb_spec (routeBytes o) 4), (Z.eqb_spec (seqBytes o) 0),
    (Z.eqb_spec (seqBytes o) 1), (Z.eqb_spec (seqBytes o) 2),
    (Z.eqb_spec (seqBytes o) 4); simpl in *; try done; repeat split; auto 6; lia.
Qed.

Lemma overflows_spec v n :
  (n = 1 \/ n = 2 \/ n = 4) -> inS 32 v ->
  overflows v n = false <-> inS (8 * n) v.
Proof.
  intros Hn Hv. unfold overflows. rewrite orb_false_iff, Z.gtb_ltb, Z.ltb_ge, Z.ltb_ge.
  unfold inS in *. destruct Hn as [->|[->| ->]].
  - change (i32 (i32 (2 ^ (8 * 1 - 1)) - 1)) with 127.
    change (i32 (- 2 ^ (8 * 1 - 1))) with (-128). lia.
  - change (i32 (i32 (2 ^ (8 * 2 - 1)) - 1)) with 32767.
    change (i32 (- 2 ^ (8 * 2 - 1))) with (-32768). lia.
  - change (i32 (i32 (2 ^ (8 * 4 - 1)) - 1)) with 2147483647.
    change (i32 (- 2 ^ (8 * 4 - 1))) with (-2147483648). lia.
Qed.

(** ** Reading fixed-width values off a stream *)

Lemma read_full_app bs s n : n = len bs -> read_full n (bs ++ s) = (Ok bs, s).
Proof.
  intros ->. unfold read_full. rewrite len_app, (proj2 (Z.leb_le _ _))
    by (pose proof (len_nonneg s); lia).
  by rewrite len_to_nat, take_app_length, drop_app_length.
Qed.

Lemma binary_read_put o n v s {B} (k : Z -> ST (list Z) B) :
  st_bind (binary_read o n) k (put_uint o n v ++ s) = k (wrapU (8 * Z.of_nat n) v) s.
Proof.
  unfold binary_read, st_bind. rewrite read_full_app by (by rewrite len_put_uint).
  unfold st_ret. by rewrite get_put_uint.
Qed.

Lemma read_put_field p n v s {B} (k : Z -> ST (list Z) B) :
  (n = 1 \/ n = 2 \/ n = 4) -> inS (8 * n) v ->
  st_bind (read_field p n) k (put_field p n v ++ s) = k v s.
Proof.
  intros Hn Hv. unfold read_field, put_field.
  destruct Hn as [->|[->| ->]]; cbn [Z.eqb Pos.eqb]; unfold st_bind at 1;
    rewrite binary_read_put; unfold st_ret;
    rewrite wrapS_wrapU, ?wrapS_id by (try lia; first [exact Hv|rewrite wrapS_id; done]);
    done.
Qed.

Lemma len_put_field p n v : (n = 1 \/ n = 2 \/ n = 4) -> len (put_field p n v) = n.
Proof.
  unfold put_field. intros [->|[->| ->]]; cbn [Z.eqb Pos.eqb]; by rewrite len_put_uint.
Qed.

Lemma put_field_0 p v : put_field p 0 v = [].
Proof. done. Qed.

Lemma seq_cases p : packer_ok p ->
  seqBytes (opts p) = 0 \/
  (0 < seqBytes (opts p) /\
   (seqBytes (opts p) = 1 \/ seqBytes (opts p) = 2 \/ seqBytes (opts p) = 4)).
Proof. intros (_ & Hs & _). lia. Qed.

Lemma len_seq_field p v : packer_ok p -> len (put_field p (seqBytes (opts p)) v) = seqBytes (opts p).
Proof.
  intros H. destruct (seq_cases p H) as [E|[_ E]]; [by rewrite E|by apply len_put_field].
Qed.

(** What a successful check says about the message *)
Lemma check_ok p m :
  packer_ok p -> message_ok m -> check p m = Ok tt ->
  inS (8 * routeBytes (opts p)) (Route m) /\
  (0 < seqBytes (opts p) -> inS (8 * seqBytes (opts p)) (Seq m)) /\
  len (Buffer m) <= bufferBytes (opts p).
Proof.
  intros Hp [Hs Hr]. unfold check.
  destruct (overflows (Route m) _) eqn:E1; [done|].
  destruct (_ && _) eqn:E2; [done|].
  rewrite Z.gtb_ltb. destruct (Z.ltb_spec (bufferBytes (opts p)) (len (Buffer m))); [done|].
  intros _. destruct Hp as (Hrb & Hsb & _). split; [by apply overflows_spec in E1|].
  split; [|lia]. intros H0. apply (overflows_spec (Seq m) (seqBytes (opts p)) ltac:(lia) Hs).
  apply andb_false_iff in E2 as [E2|E2]; [|done]. apply Z.ltb_ge in E2. lia.
Qed.

(** The bytes of a packed message, when its size fits the 32-bit field *)
Definition packed (p : defaultPacker) (m : Message) : list Z :=
  put_uint (byteOrder (opts p)) 4 (head_len p + len (Buffer m))
  ++ put_uint (byteOrder (opts p)) 1 0
  ++ put_field p (routeBytes (opts p)) (Route m)
  ++ put_field p (seqBytes (opts p)) (Seq m) ++ Buffer m.

Lemma put_uint_wrapS o n v : (0 < n)%nat ->
  put_uint o n (wrapS (8 * Z.of_nat n) v) = put_uint o n v.
Proof.
  intros Hn. rewrite <- (put_uint_wrap o n (wrapS _ v)), <- (put_uint_wrap o n v).
  f_equal. unfold wrapU, wrapS. rewrite Zminus_mod_idemp_l. f_equal. lia.
Qed.

Lemma PackMessage_packed p m : check p m = Ok tt -> PackMessage p m = Ok (packed p m).
Proof.
  intros H. unfold PackMessage, packed, head_len. rewrite H. simpl.
  rewrite (put_uint_wrapS _ 4) by lia. done.
Qed.

Lemma len_packed p m : packer_ok p ->
  len (packed p m) = defaultSizeBytes + head_len p + len (Buffer m).
Proof.
  intros H. unfold packed, head_len, defaultHeaderBytes, defaultSizeBytes.
  rewrite !len_app, !len_put_uint, len_put_field, len_seq_field by (done || apply H). lia.
Qed.

Lemma head_len_range p : packer_ok p -> 2 <= head_len p <= 9.
Proof. intros (Hr & Hs & _). unfold head_len, defaultHeaderBytes. lia. Qed.

(** ** Properties of the client packet format *)

(** C33: a message that PackMessage accepts is recovered by UnpackMessage: the
    route and the payload exactly, the sequence number too unless the packer
    carries none (seqBytes = 0), in which case it reads as 0. *)
Theorem pack_unpack_roundtrip (p : defaultPacker) (m : Message) (data : list Z)
    (Hp : packer_ok p) (Hm : message_ok m) (Hpack : PackMessage p m = Ok data)
    (Hsize : head_len p + len (Buffer m) < 2 ^ 32) :
  UnpackMessage p data
  = Ok (mkMessage (if seqBytes (opts p) =? 0 then 0 else Seq m) (Route m) (Buffer m)).
Proof.
  assert (check p m = Ok tt) as Hc.
  { unfold PackMessage in Hpack. by destruct (check p m) as [[]| |]. }
  destruct (check_ok p m Hp Hm Hc) as (Hr & Hs & _).
  rewrite PackMessage_packed in Hpack by done. inversion Hpack; subst data. clear Hpack.
  pose proof (head_len_range p Hp) as Hh. pose proof (len_nonneg (Buffer m)) as Hb.
  unfold UnpackMessage. fold (opts p).
  rewrite len_packed by done. unfold head_len, defaultHeaderBytes, defaultSizeBytes in *.
  rewrite (proj2 (Z.ltb_ge _ _)) by lia.
  set (ln := 4 + 1 + _ + _).
  assert (go_slice (packed p m) ln (4 + (1 + routeBytes (opts p) + seqBytes (opts p))
            + len (Buffer m)) = Ok (Buffer m)) as Hslice.
  { replace (4 + _ + len (Buffer m)) with (len (packed p m))
      by (rewrite len_packed by done; done).
    unfold packed. rewrite !app_assoc. apply go_slice_tail.
    rewrite !len_app, !len_put_uint, len_put_field, len_seq_field
      by (done || apply Hp). unfold ln. lia. }
  rewrite Hslice. unfold st_run, packed. rewrite binary_read_put.
  change (8 * Z.of_nat 4) with 32. unfold head_len, defaultHeaderBytes.
  rewrite !wrapU_id by (unfold inU; lia).
  rewrite (proj2 (Z.eqb_eq (4 + _ + _ - 4) _)) by lia. cbn [negb].
  rewrite binary_read_put. change (wrapU (8 * Z.of_nat 1) 0) with 0.
  change (Z.land 0 dataBit =? dataBit) with true. cbn [negb].
  rewrite read_put_field by (done || apply Hp).
  destruct (seq_cases p Hp) as [E|[Hpos E]].
  - rewrite E in *. rewrite put_field_0. cbn [Z.eqb]. unfold read_field. cbn [Z.eqb].
    done.
  - rewrite read_put_field by (auto; done). by rewrite (proj2 (Z.eqb_neq _ _)) by lia.
Qed.

(** The packers of the examples: the default options, both byte orders. *)
Definition example_packer : defaultPacker :=
  mkPacker (mkOptions BigEndian 2 2 5000 false) (makeHeartbeat BigEndian).

Lemma example_packer_ok : packer_ok example_packer.
Proof. unfold packer_ok; simpl. repeat split; auto; lia. Qed.

Lemma pack_unpack_roundtrip_witness :
  UnpackMessage example_packer [0; 0; 0; 7; 0; 255; 255; 0; 1; 65; 66]
  = Ok (mkMessage 1 (-1) [65; 66]).
Proof.
  apply (pack_unpack_roundtrip example_packer (mkMessage 1 (-1) [65; 66])).
  - apply example_packer_ok.
  - split; unfold inS; simpl; lia.
  - reflexivity.
  - vm_compute. reflexivity.
Defined.

(** One frame off the stream, whatever follows it *)
Lemma ReadMessage_frame p n body rest :
  n = len body -> 1 <= n < 2 ^ 32 - 4 ->
  ReadMessage p (put_uint (byteOrder (opts p)) 4 n ++ body ++ rest)
  = (Ok (Some (put_uint (byteOrder (opts p)) 4 n ++ body)), rest).
Proof.
  intros Hn Hr. unfold ReadMessage, st_bind at 1, defaultSizeBytes.
  rewrite read_full_app by (by rewrite len_put_uint).
  rewrite get_put_uint, wrapU_id by (unfold inU; change (8 * Z.of_nat 4) with 32; lia).
  rewrite (proj2 (Z.eqb_neq _ _)) by lia.
  rewrite wrapU_id by (unfold inU; lia). rewrite (proj2 (Z.ltb_ge _ _)) by lia.
  unfold st_bind. by rewrite read_full_app by lia.
Qed.

Fixpoint read_messages (p : defaultPacker) (k : nat) : ST (list Z) (list (list Z)) :=
  match k with
  | O => st_ret []
  | S k' =>
      let! d := ReadMessage p in
      let! ds := read_messages p k' in
      st_ret (match d with Some x => x :: ds | None => ds end)
  end.

(** Packets do not run into each other on the stream: when any list of
    accepted messages is packed and sent back to back, reading as many times
    returns exactly those packets, in order, and leaves what follows them. *)
Theorem stream_framing (p : defaultPacker) (ms : list Message) (ds : list (list Z))
    (rest : list Z) (Hp : packer_ok p)
    (Hds : Forall2 (fun m d => PackMessage p m = Ok d /\
                               head_len p + len (Buffer m) < 2 ^ 32 - 4) ms ds) :
  read_messages p (length ms) (concat ds ++ rest) = (Ok ds, rest).
Proof.
  pose proof (head_len_range p Hp) as Hh.
  induction Hds as [|m d ms ds [Hd Hlt] _ IH]; [done|]. simpl.
  assert (check p m = Ok tt) as Hc.
  { unfold PackMessage in Hd. by destruct (check p m) as [[]| |]. }
  rewrite PackMessage_packed in Hd by done. inversion Hd; subst d.
  unfold packed. rewrite <- !app_assoc. unfold st_bind at 1.
  set (body := put_uint _ 1 0 ++ put_field p (routeBytes (opts p)) (Route m)
                ++ put_field p (seqBytes (opts p)) (Seq m) ++ Buffer m).
  replace (put_uint _ 1 0 ++ _) with (body ++ concat ds ++ rest)
    by (unfold body; rewrite <- !app_assoc; done).
  rewrite ReadMessage_frame.
  - unfold st_bind. rewrite IH. done.
  - unfold body. rewrite !len_app, len_put_uint, len_put_field, len_seq_field
      by (done || apply Hp). unfold head_len, defaultHeaderBytes. lia.
  - pose proof (len_nonneg (Buffer m)). lia.
Qed.

Lemma stream_framing_witness :
  read_messages example_packer 2
    (concat [[0; 0; 0; 5; 0; 0; 1; 0; 2]; [0; 0; 0; 6; 0; 0; 3; 0; 4; 9]] ++ [77])
  = (Ok [[0; 0; 0; 5; 0; 0; 1; 0; 2]; [0; 0; 0; 6; 0; 0; 3; 0; 4; 9]], [77]).
Proof.
  apply (stream_framing example_packer [mkMessage 2 1 []; mkMessage 4 3 [9]]).
  - apply example_packer_ok.
  - repeat constructor; vm_compute; reflexivity.
Defined.

Lemma appends_field p n v :
  appends (Packet.write_field p n v) (put_field p n v) tt.
Proof.
  unfold Packet.write_field, put_field.
  destruct (n =? 1); [|destruct (n =? 2); [|destruct (n =? 4); [|apply appends_ret]]].
  - replace (put_uint (byteOrder (opts p)) 1 (i8 v)) with (map u8 [i8 v]);
      [apply appends_WriteInt8s|].
    rewrite <- (put_uint_wrap _ 1). simpl. unfold put_uint.
    assert (be_bytes 1 (wrapU 8 (i8 v)) = [wrapU 8 (i8 v)]) as E.
    { unfold be_bytes. simpl. rewrite Z.div_1_r. unfold wrapU.
      by rewrite Zmod_mod. }
    change (8 * Z.of_nat 1) with 8. destruct (byteOrder (opts p)); by rewrite E.
  - rewrite <- (app_nil_r (put_uint _ 2 _)). apply (appends_WriteInt16s _ [i16 v]).
  - rewrite <- (app_nil_r (put_uint _ 4 _)). apply (appends_WriteInt32s _ [v]).
Qed.

Lemma appends_pack p size m :
  appends (Writer.WriteInt32s (byteOrder (opts p)) [i32 size] ;;;
           Writer.WriteInt8s [i8 dataBit] ;;;
           Packet.write_field p (routeBytes (opts p)) (Route m) ;;;
           Packet.write_field p (seqBytes (opts p)) (Seq m))
    (put_uint (byteOrder (opts p)) 4 (i32 size) ++ [0]
     ++ put_field p (routeBytes (opts p)) (Route m)
     ++ put_field p (seqBytes (opts p)) (Seq m)) tt.
Proof.
  rewrite <- (app_nil_r (put_uint _ 4 _)).
  eapply appends_bind; [apply (appends_WriteInt32s _ [i32 size])|].
  eapply appends_bind; [apply (appends_WriteInt8s [i8 dataBit])|].
  eapply appends_bind; apply appends_field.
Qed.

Lemma pack_buffer_agrees (p : defaultPacker) (w : Writer.Writer) (m : Message)
    (Hw : fresh w) :
  match PackMessage p m with
  | Ok data => exists b, PackBuffer p w m = Ok b /\ NocopyBuffer.Bytes b = Ok data
  | Err e => PackBuffer p w m = Err e
  | Panic => False
  end.
Proof.
  unfold PackMessage, PackBuffer. destruct (check p m) as [[]|e|] eqn:Hc; simpl.
  2: done.
  2: { unfold check in Hc. destruct (overflows _ _); [done|].
       destruct (_ && _); [done|]. by destruct (_ >? _). }
  set (size := defaultHeaderBytes + _ + _ + _).
  destruct (appends_pack p size m w (proj1 Hw)) as (w' & E & Hw' & Hb & _).
  rewrite E. eexists. split; [done|].
  rewrite (frame_bytes w' (MBlock (BRaw (Buffer m))) (Buffer m)) by done.
  rewrite Hb, (fresh_written w Hw).
  replace (put_uint (byteOrder (opts p)) 1 (i8 dataBit)) with [0]
    by (by destruct (byteOrder (opts p))).
  simpl. rewrite <- !app_assoc. simpl. by rewrite <- app_assoc.
Qed.

(** C34: PackBuffer is PackMessage without the copy: on any pooled writer it
    fails with the same error, and otherwise its chain holds the same bytes. *)
Theorem pack_buffer_refines (p : defaultPacker) (w : Writer.Writer) (m : Message)
    (Hw : fresh w) :
  match PackMessage p m with
  | Ok data => exists b, PackBuffer p w m = Ok b /\ NocopyBuffer.Bytes b = Ok data
  | Err e => PackBuffer p w m = Err e
  | Panic => False
  end.
Proof. by apply pack_buffer_agrees. Qed.

Lemma pack_buffer_refines_witness :
  match PackMessage example_packer (mkMessage 1 2 [5]) with
  | Ok data => exists b,
      PackBuffer example_packer (Writer.NewWriterWithCapacity []) (mkMessage 1 2 [5]) = Ok b
      /\ NocopyBuffer.Bytes b = Ok data
  | Err e => PackBuffer example_packer (Writer.NewWriterWithCapacity [])
               (mkMessage 1 2 [5]) = Err e
  | Panic => False
  end.
Proof.
  apply (pack_buffer_refines example_packer (Writer.NewWriterWithCapacity [])).
  split; [split|]; simpl; lia.
Defined.

(** ReadBuffer reads what ReadMessage reads: from the same stream, with
    any pooled blocks, it leaves the same rest and returns the same error or
    a block holding the same bytes. *)
Theorem read_buffer_refines (p : defaultPacker) (k1 k2 : option nat) (s : list Z)
    (pl : list (list Bytes.Bytes)) (Hs : Forall is_byte s)
    (Hpl : bytes_pool_wf pl) (Hlen : length pl = 33%nat) :
  let '(r, s') := ReadMessage p s in
  let '(r', (s'', _)) := ReadBuffer p k1 k2 (s, pl) in
  match r with
  | Ok None => r' = Ok None /\ s'' = s'
  | Ok (Some data) => exists b, r' = Ok (Some b) /\ Bytes.bytes (Some b) = Ok data /\
                                s'' = s'
  | Err e => r' = Err e /\ s'' = s'
  | Panic => r' = Panic
  end.
Proof.
  destruct (malloc_bytes_ok pl k1 4 Hpl Hlen ltac:(lia))
    as (b1 & pl1 & E1 & _ & Hc1 & Hl1 & Hpl1 & _).
  unfold ReadMessage, ReadBuffer, defaultSizeBytes, st_bind at 1. rewrite E1.
  destruct (read_full 4 s) as [[hd|e|] s1] eqn:Er; [|done|].
  2: { unfold read_full in Er. by destruct (4 <=? len s). }
  assert (len hd = 4 /\ inU 32 (get_uint (byteOrder (opts p)) hd)) as [Hhd Hsz].
  { unfold read_full in Er. destruct (Z.leb_spec 4 (len s)); [|done].
    inversion Er; subst hd. assert (len (take (Z.to_nat 4) s) = 4) as Hl
      by (unfold len in *; rewrite length_take; lia).
    split; [done|]. replace 32 with (8 * len (take (Z.to_nat 4) s)) by lia.
    apply get_uint_range. by apply Forall_take. }
  set (size := get_uint _ hd) in *. destruct (Z.eqb_spec size 0) as [->|Hz]; [done|].
  destruct (Z.ltb_spec (u32 (4 + size)) 4) as [Hw|Hw].
  - (* the length wrapped around: no block of that size holds the header *)
    simpl. destruct (Z.eq_dec (u32 (4 + size)) 0) as [->|Hne].
    { unfold BytesPool.MallocBytes, BytesPool.Get, getPool, len. by rewrite Hl1. }
    pose proof (wrapU_in 32 (4 + size) ltac:(lia)) as [Hlo _].
    destruct (malloc_bytes_ok pl1 k2 (u32 (4 + size)) Hpl1 Hl1 ltac:(lia))
      as (b2 & pl2 & E2 & Ho2 & _). rewrite E2, Ho2.
    rewrite (proj2 (Z.ltb_lt (u32 (4 + size)) 4)) by lia. by rewrite orb_true_r.
  - pose proof (wrapU_in 32 (4 + size) ltac:(lia)) as [_ Hhi].
    destruct (malloc_bytes_ok pl1 k2 (u32 (4 + size)) Hpl1 Hl1 ltac:(lia))
      as (b2 & pl2 & E2 & Ho2 & Hc2 & _). rewrite E2, Ho2.
    rewrite !(proj2 (Z.ltb_ge _ _)) by lia. simpl. unfold st_bind.
    destruct (read_full (u32 (4 + size) - 4) s1) as [[body|e|] s2] eqn:Eb; [|done|].
    2: { unfold read_full in Eb. by destruct (_ <=? len s1). }
    eexists. split; [done|]. split; [|done].
    assert (len body = u32 (4 + size) - 4) as Hbl.
    { unfold read_full in Eb. destruct (Z.leb_spec (u32 (4 + size) - 4) (len s1));
        [|done]. inversion Eb; subst body. unfold len in *. rewrite length_take. lia. }
    refine (eq_trans (bytes_of_block _ _ _ _) _).
    + rewrite !len_app. unfold len in *. rewrite length_drop. lia.
    + f_equal. rewrite app_assoc. apply take_app_length'.
      rewrite length_app. unfold len in *. lia.
Qed.

Lemma read_buffer_refines_witness :
  let '(r, s') := ReadMessage example_packer [0; 0; 0; 1; 128; 5] in
  let '(r', (s'', _)) := ReadBuffer example_packer None None
                           ([0; 0; 0; 1; 128; 5], BytesPool.NewBytesPool 32) in
  match r with
  | Ok None => r' = Ok None /\ s'' = s'
  | Ok (Some data) => exists b, r' = Ok (Some b) /\ Bytes.bytes (Some b) = Ok data /\
                                s'' = s'
  | Err e => r' = Err e /\ s'' = s'
  | Panic => r' = Panic
  end.
Proof.
  apply (read_buffer_refines example_packer None None [0; 0; 0; 1; 128; 5]
           (BytesPool.NewBytesPool 32)).
  - repeat constructor; unfold is_byte; lia.
  - intros i l b Hi Hb. apply lookup_replicate in Hi as [-> _].
    by apply not_elem_of_nil in Hb.
  - reflexivity.
Defined.

(** A size field of 2^32-4 or more panics the reader of the stream: the
    buffer length 4+size wraps around in uint32 to less than the header. *)
Theorem oversized_frame_panics (p : defaultPacker) (size : Z) (rest : list Z)
    (Hsize : 2 ^ 32 - 4 <= size < 2 ^ 32) :
  st_run (ReadMessage p) (put_uint (byteOrder (opts p)) 4 size ++ rest) = Panic.
Proof.
  unfold st_run, ReadMessage, st_bind, defaultSizeBytes.
  rewrite read_full_app by (by rewrite len_put_uint).
  rewrite get_put_uint, wrapU_id by (unfold inU; change (8 * Z.of_nat 4) with 32; lia).
  rewrite (proj2 (Z.eqb_neq _ _)) by lia.
  assert (u32 (4 + size) = 4 + size - 2 ^ 32) as ->.
  { unfold wrapU. symmetry. apply Z.mod_unique with 1; lia. }
  by rewrite (proj2 (Z.ltb_lt _ _)) by lia.
Qed.

Lemma oversized_frame_panics_witness :
  st_run (ReadMessage example_packer)
    (put_uint (byteOrder (opts example_packer)) 4 4294967295 ++ [1; 2]) = Panic.
Proof. apply (oversized_frame_panics example_packer 4294967295). lia. Defined.

(** ** Heartbeats *)

Lemma put_uint_1 o v : put_uint o 1 v = [u8 v].
Proof.
  unfold put_uint. assert (be_bytes 1 v = [u8 v]) as E
    by (unfold be_bytes; simpl; by rewrite Z.div_1_r). destruct o; by rewrite E.
Qed.

Lemma CheckHeartbeat_frame p n h body :
  n = 1 + len body -> n < 2 ^ 32 -> inU 8 h ->
  CheckHeartbeat p (put_uint (byteOrder (opts p)) 4 n ++ h :: body)
  = Ok (Z.land h heartbeatBit =? heartbeatBit).
Proof.
  intros Hn Hlt Hh. pose proof (len_nonneg body). unfold CheckHeartbeat, st_run.
  rewrite len_app, len_put_uint, len_cons. unfold defaultSizeBytes, defaultHeaderBytes.
  rewrite (proj2 (Z.ltb_ge _ _)) by lia. rewrite binary_read_put.
  change (8 * Z.of_nat 4) with 32.
  rewrite !wrapU_id by (unfold inU; lia).
  rewrite (proj2 (Z.eqb_eq _ _)) by lia. cbn [negb].
  change (h :: body) with ([h] ++ body). rewrite <- (wrapU_id 8 h Hh) at 1.
  rewrite <- (put_uint_1 (byteOrder (opts p)) h). rewrite binary_read_put.
  change (8 * Z.of_nat 1) with 8. by rewrite (wrapU_id 8 h Hh).
Qed.

(** The two kinds of packet are told apart: CheckHeartbeat says yes to
    every heartbeat the packer makes, with or without the time, and no to
    every data packet it makes. *)
Theorem heartbeat_discriminates (p : defaultPacker) (now : Z) (m : Message) (data : list Z)
    (Hp : packer_ok p) (Hpack : PackMessage p m = Ok data)
    (Hsize : head_len p + len (Buffer m) < 2 ^ 32) :
  CheckHeartbeat p (PackHeartbeat p now) = Ok true /\ CheckHeartbeat p data = Ok false.
Proof.
  split.
  - destruct Hp as (_ & _ & _ & Hh). unfold PackHeartbeat.
    destruct (heartbeatTime (opts p)).
    + rewrite put_uint_1. change (u8 heartbeatBit) with 128. simpl.
      rewrite CheckHeartbeat_frame; [done|by rewrite len_put_uint| |]; unfold inU;
        vm_compute; split; congruence.
    + rewrite Hh. unfold makeHeartbeat. rewrite put_uint_1.
      change (u8 heartbeatBit) with 128.
      rewrite CheckHeartbeat_frame; [done|done| |]; unfold inU;
        vm_compute; split; congruence.
  - assert (check p m = Ok tt) as Hc.
    { unfold PackMessage in Hpack. by destruct (check p m) as [[]| |]. }
    rewrite PackMessage_packed in Hpack by done. inversion Hpack; subst data.
    unfold packed. rewrite (put_uint_1 _ 0). change (u8 0) with 0. simpl.
    rewrite CheckHeartbeat_frame; [done| |lia|unfold inU; lia].
    rewrite !len_app, len_put_field, len_seq_field by (done || apply Hp).
    unfold head_len, defaultHeaderBytes. lia.
Qed.

Lemma heartbeat_discriminates_witness :
  CheckHeartbeat example_packer (PackHeartbeat example_packer 12345) = Ok true /\
  CheckHeartbeat example_packer [0; 0; 0; 5; 0; 0; 1; 0; 2] = Ok false.
Proof.
  apply (heartbeat_discriminates example_packer 12345 (mkMessage 2 1 [])).
  - apply example_packer_ok.
  - reflexivity.
  - vm_compute. reflexivity.
Defined.

(** UnpackMessage never looks at the header: its test of the data bit is
    against a zero mask, so a packet with the heartbeat bit set (or any other
    header) is unpacked as the data packet with the same remaining bytes. *)
Theorem unpack_ignores_header (p : defaultPacker) (size h h' : Z) (body : list Z)
    (Hp : packer_ok p) (Hh : inU 8 h) (Hh' : inU 8 h') :
  UnpackMessage p (put_uint (byteOrder (opts p)) 4 size ++ h :: body)
  = UnpackMessage p (put_uint (byteOrder (opts p)) 4 size ++ h' :: body).
Proof.
  assert (0 <= routeBytes (opts p) + seqBytes (opts p)) as Hge
    by (destruct Hp as (? & ? & _); lia).
  unfold UnpackMessage, st_run. rewrite !len_app, !len_put_uint, !len_cons.
  unfold defaultSizeBytes, defaultHeaderBytes.
  destruct (_ <? 0) eqn:Elt; [done|]. apply Z.ltb_ge in Elt.
  rewrite !binary_read_put. destruct (negb _); [done|].
  assert (forall x, inU 8 x -> forall B (k : Z -> ST (list Z) B),
    st_bind (binary_read (byteOrder (opts p)) 1) k (x :: body) = k x body) as Hb.
  { intros x Hx B k. change (x :: body) with ([x] ++ body).
    rewrite <- (wrapU_id 8 x Hx) at 1.
    rewrite <- (put_uint_1 (byteOrder (opts p)) x), binary_read_put.
    change (8 * Z.of_nat 1) with 8. by rewrite (wrapU_id 8 x Hx). }
  rewrite !Hb by done. change dataBit with 0. rewrite !Z.land_0_r. cbn.
  unfold st_bind. destruct (read_field p (routeBytes (opts p)) body) as [[r|e|] s1];
    [|done..].
  destruct (read_field p (seqBytes (opts p)) s1) as [[q|e|] s2]; [|done..].
  unfold st_lift, go_slice. rewrite !len_app, !len_put_uint, !len_cons.
  destruct (_ && _); [|done]. do 3 f_equal.
  set (n := Z.to_nat (4 + 1 + _ + _)).
  assert (n = 5 + (n - 5))%nat as -> by (unfold n; lia).
  rewrite <- !drop_drop. f_equal.
  replace 5%nat with (4 + 1)%nat by lia. rewrite <- !drop_drop.
  by rewrite !drop_app_length' by (by rewrite length_put_uint).
Qed.

Lemma unpack_ignores_header_witness :
  UnpackMessage example_packer (put_uint BigEndian 4 5 ++ 128 :: [0; 1; 0; 2])
  = UnpackMessage example_packer (put_uint BigEndian 4 5 ++ 0 :: [0; 1; 0; 2]).
Proof.
  apply (unpack_ignores_header example_packer 5 128 0 [0; 1; 0; 2]).
  - apply example_packer_ok.
  - unfold inU. lia.
  - unfold inU. lia.
Defined.

(** NewPacker only lets through packers whose field widths the switches
    handle, and the limits it computes in int32 are exact: with such a
    packer, PackMessage succeeds precisely on the messages whose route and
    sequence number fit the configured signed widths and whose payload is
    within bufferBytes. *)
Theorem pack_accepts_exactly (e : etc_packet) (os : list Option) (p : defaultPacker)
    (m : Message) (Hnew : NewPacker e os = Some p) (Hm : message_ok m) :
  (exists data, PackMessage p m = Ok data) <->
  inS (8 * routeBytes (opts p)) (Route m) /\
  (seqBytes (opts p) = 0 \/ inS (8 * seqBytes (opts p)) (Seq m)) /\
  len (Buffer m) <= bufferBytes (opts p).
Proof.
  pose proof (NewPacker_ok e os p Hnew) as Hp. split.
  - intros [data Hd]. assert (check p m = Ok tt) as Hc.
    { unfold PackMessage in Hd. by destruct (check p m) as [[]| |]. }
    destruct (check_ok p m Hp Hm Hc) as (Hr & Hs & Hb). split; [done|].
    split; [|done]. destruct (seq_cases p Hp) as [|[H0 _]]; auto.
  - intros (Hr & Hs & Hb). exists (packed p m). apply PackMessage_packed.
    destruct Hm as [Hms Hmr]. destruct Hp as (Hrb & Hsb & _). unfold check.
    rewrite (proj2 (overflows_spec _ _ Hrb Hmr) Hr).
    destruct (Z.ltb_spec 0 (seqBytes (opts p))) as [H0|H0]; simpl.
    + destruct Hs as [Hs|Hs]; [lia|].
      rewrite (proj2 (overflows_spec (Seq m) (seqBytes (opts p)) ltac:(lia) Hms) Hs).
      by rewrite Z.gtb_ltb, (proj2 (Z.ltb_ge _ _) Hb).
    + by rewrite Z.gtb_ltb, (proj2 (Z.ltb_ge _ _) Hb).
Qed.

Lemma pack_accepts_exactly_witness :
  (exists data, PackMessage example_packer (mkMessage 1 40000 []) = Ok data) <->
  inS (8 * 2) 40000 /\ (2 = 0 \/ inS (8 * 2) 1) /\ len (@nil Z) <= 5000.
Proof.
  apply (pack_accepts_exactly (mkEtc None None None None None) [] example_packer
           (mkMessage 1 40000 [])).
  - reflexivity.
  - split; unfold inS; simpl; lia.
Defined.
