(* ===== verification/Types.v ===== *)
(** Data the components exchange: session.Kind and session.Token
    (session/session.go), the cluster kinds, states and events
    (cluster/cluster.go) and the request metadata (cluster/request_metadata.go).
    Kinds travel as small integers, so they are Z with named values. *)
From stdpp Require Import base numbers list strings countable.
From Stdlib Require Import ZArith Lia.
From S2P Require Import Prelude.

Open Scope Z_scope.

Module Kind.
Definition Conn : Z := 1.
Definition User : Z := 2.

Definition String (k : Z) : string :=
  if k =? Conn then "conn" else if k =? User then "user" else "".
End Kind.

Record Token := mkToken { UID : Z; Generation : Z }.

Definition zero_token : Token := mkToken 0 0.

#[global] Instance Token_eq_dec : EqDecision Token.
Proof. solve_decision. Defined.

#[global] Instance Token_countable : Countable Token.
Proof.
  apply (inj_countable' (fun t => (UID t, Generation t)) (fun p => mkToken p.1 p.2)).
  by intros [].
Defined.

Module Cluster.
Definition Gate : Z := 1.
Definition Node : Z := 2.
Definition Mesh : Z := 3.
Definition Master : Z := 4.

Definition KindString (k : Z) : string :=
  if k =? Gate then "gate" else if k =? Node then "node"
  else if k =? Mesh then "mesh" else "master".

Definition Shut : Z := 0.
Definition Work : Z := 1.
Definition Busy : Z := 2.
Definition Hang : Z := 3.

Definition StateString (s : Z) : string :=
  if s =? Work then "work" else if s =? Busy then "busy"
  else if s =? Hang then "hang" else "shut".

Definition Connect : Z := 1.
Definition Reconnect : Z := 2.
Definition Disconnect : Z := 3.

Definition EventString (e : Z) : string :=
  if e =? Connect then "connect" else if e =? Reconnect then "reconnect"
  else if e =? Disconnect then "disconnect" else "".

(** A time.Time is the zero time (None) or an instant, in nanoseconds since
    the Unix epoch. *)
Definition Time := option Z.
Definition UnixMilli (ns : Z) : Z := ns / 1000000.
Definition of_UnixMilli (ms : Z) : Time := Some (ms * 1000000).

(** Strings are byte lists. *)
Record RequestMetadata := mkMetadata {
  Deadline : Time;
  CorrelationID : list Z;
  TraceParent : list Z;
  TraceState : list Z
}.

Definition no_metadata : RequestMetadata := mkMetadata None [] [] [].
End Cluster.

(** ** cluster/node/node.go: the count of work a node waits for when it closes
    (addWait, doneWait).  A WaitGroup is its counter. *)
Module Waits.
Record waits := mkWaits { state : Z; wg : Z; pendingWork : Z }.

Definition addWait (w : waits) : waits :=
  if negb (state w =? Cluster.Shut)
  then mkWaits (state w) (wg w + 1) (i64 (pendingWork w + 1)) else w.

(** wg.Done panics when the counter would become negative *)
Definition doneWait (w : waits) : res waits :=
  if negb (state w =? Cluster.Shut) then
    if wg w <=? 0 then Panic
    else Ok (mkWaits (state w) (wg w - 1) (i64 (pendingWork w - 1)))
  else Ok w.
End Waits.
