(* ===== verification/Threads.v ===== *)
(** Goroutines as lists of what they still have to do: sums over all of them. *)
From stdpp Require Import base numbers list gmap.
From Stdlib Require Import Lia.

(** what the stages of a goroutine weigh together *)
Definition weigh {A} (f : A -> nat) (k : list A) : nat := sum_list_with f k.

Section Sum.
Context {A : Type} (f : list A -> nat).

Definition total (m : gmap nat (list A)) : nat := map_fold (fun _ k n => (f k + n)%nat) 0%nat m.

Lemma total_empty : total ∅ = 0%nat.
Proof. apply map_fold_empty. Qed.

Lemma total_insert m t k : m !! t = None -> total (<[t := k]> m) = (f k + total m)%nat.
Proof. intros Ht. unfold total. rewrite map_fold_insert_L; [done|intros; lia|done]. Qed.

(** replacing what a goroutine has to do *)
Lemma total_set m t k :
  (total (<[t := k]> m) + match m !! t with Some k0 => f k0 | None => 0 end)%nat = (total m + f k)%nat.
Proof.
  destruct (m !! t) as [k0|] eqn:Ht.
  - rewrite <- (insert_id m t k0 Ht) at 2. rewrite <- !(insert_delete_eq m t).
    rewrite !total_insert by apply lookup_delete_eq. lia.
  - rewrite total_insert by done. lia.
Qed.

(** a new goroutine *)
Lemma total_fresh m k : total (<[fresh (dom m) := k]> m) = (f k + total m)%nat.
Proof. apply total_insert, not_elem_of_dom, is_fresh. Qed.

Lemma total_zero m t k : total m = 0%nat -> m !! t = Some k -> f k = 0%nat.
Proof.
  intros Hz Hk. pose proof (total_set (delete t m) t k) as H.
  rewrite insert_delete_id, lookup_delete_eq in H by done. lia.
Qed.

Lemma total_le m t k : m !! t = Some k -> (f k <= total m)%nat.
Proof.
  intros Hk. pose proof (total_set (delete t m) t k) as H.
  rewrite insert_delete_id, lookup_delete_eq in H by done. lia.
Qed.

Lemma total_none m : (forall t k, m !! t = Some k -> f k = 0%nat) -> total m = 0%nat.
Proof.
  induction m as [|t k m Ht IH] using map_ind; intros Hc; [done|].
  rewrite total_insert by done. rewrite (Hc t k) by apply lookup_insert_eq.
  apply IH. intros u k' Hu. apply (Hc u). rewrite lookup_insert_ne; [done|]. intros ->. congruence.
Qed.

(** some goroutine has it *)
Lemma total_pos m : (0 < total m)%nat -> exists t k, m !! t = Some k /\ (0 < f k)%nat.
Proof.
  induction m as [|t k m Ht IH] using map_ind; intros Hp; [by rewrite total_empty in Hp; lia|].
  rewrite total_insert in Hp by done. destruct (decide (0 < f k)%nat) as [Hk|Hk].
  - exists t, k. by rewrite lookup_insert_eq.
  - destruct IH as (u & k' & Hu & Hk'); [lia|]. exists u, k'. split; [|done].
    rewrite lookup_insert_ne; [done|]. intros ->. congruence.
Qed.
End Sum.

(** ** Stages *)

Lemma weigh_cons {A} (f : A -> nat) st k : weigh f (st :: k) = (f st + weigh f k)%nat.
Proof. done. Qed.

Lemma weigh_app {A} (f : A -> nat) k k' : weigh f (k ++ k') = (weigh f k + weigh f k')%nat.
Proof. unfold weigh. by rewrite sum_list_with_app. Qed.

Lemma weigh_in {A} (f : A -> nat) st k : st ∈ k -> (f st <= weigh f k)%nat.
Proof. induction 1; rewrite weigh_cons; lia. Qed.

Lemma weigh_pos {A} (f : A -> nat) k : (0 < weigh f k)%nat -> exists st, st ∈ k /\ (0 < f st)%nat.
Proof.
  induction k as [|st k IH]; [unfold weigh; simpl; lia|]. rewrite weigh_cons. intros Hp.
  destruct (decide (0 < f st)%nat); [exists st; split; [left|done]|].
  destruct IH as (x & Hx & ?); [lia|]. exists x. split; [by right|done].
Qed.
