(* ===== verification/Protocol.v ===== *)
(** internal/transporter/internal: the frame format between gates and nodes.
    def.go, route.go, codes/code.go, reader.go, heartbeat.go, and the helpers
    the per-message codecs (Requests, Responses) share.

    A frame is size(4) header(1) route(1) seq(8) body, big endian. *)
From stdpp Require Import base numbers list.
From Stdlib Require Import ZArith Lia.
From S2P Require Import Prelude Binary Reader Writer Nocopy Packet.
Import Reader.Reader.

Open Scope Z_scope.
Open Scope go_scope.

Module Protocol.

Definition defaultSizeBytes : Z := 4.
Definition defaultHeaderBytes : Z := 1.
Definition defaultSeqBytes : Z := 8.
Definition defaultRouteBytes : Z := 1.
Definition defaultCodeBytes : Z := 2.

Definition dataBit : Z := Z.shiftl 0 7.
Definition heartbeatBit : Z := Z.shiftl 1 7.
Definition disconnectBit : Z := Z.shiftl 1 6.
Definition traceContextBit : Z := Z.shiftl 1 5.

(** route.go *)
Inductive Route :=
| Handshake | Bind | Unbind | GetIP | Stat | IsOnline | Disconnect | Push
| Multicast | Broadcast | Publish | Subscribe | Unsubscribe | Trigger
| Deliver | GetState | SetState.

Definition route (r : Route) : Z :=
  match r with
  | Handshake => 1 | Bind => 2 | Unbind => 3 | GetIP => 4 | Stat => 5
  | IsOnline => 6 | Disconnect => 7 | Push => 8 | Multicast => 9
  | Broadcast => 10 | Publish => 11 | Subscribe => 12 | Unsubscribe => 13
  | Trigger => 14 | Deliver => 15 | GetState => 16 | SetState => 17
  end.

(** codes/code.go *)
Definition OK : Z := 0.
Definition NotFoundSession : Z := 1.
Definition InternalError : Z := 2.

(** err is nil when None *)
Definition ErrorToCode (err : option error) : Z :=
  match err with
  | None => OK
  | Some ErrNotFoundSession => NotFoundSession
  | Some _ => InternalError
  end.

Definition CodeToError (code : Z) : option error :=
  if code =? OK then None
  else if code =? NotFoundSession then Some ErrNotFoundSession
  else Some ErrUnknownError.

(** Heartbeat: the bytes the package writes once at start-up *)
Definition Heartbeat : res (list Z) :=
  match (Writer.WriteUint32s BigEndian [u32 defaultHeaderBytes] ;;;
         Writer.WriteUint8s [heartbeatBit])
          (Writer.NewWriterWithCapacity
             [Z.to_nat (defaultSizeBytes + defaultHeaderBytes)]) with
  | (Ok _, w) => Writer.Bytes w
  | (Err e, _) => Err e
  | (Panic, _) => Panic
  end.

(** ParseBuffer: is it a heartbeat, the route, the seq.  A slice expression
    with two bounds is checked against the capacity; [spare] is what the
    backing array holds between the data's length and its capacity. *)
Definition ParseBuffer (data spare : list Z) : res (bool * Z * Z) :=
  let arr := data ++ spare in
  do hs <- go_slice arr defaultSizeBytes (defaultSizeBytes + defaultHeaderBytes);
  do header <- go_index hs 0;
  if Z.land header heartbeatBit =? heartbeatBit then Ok (true, 0, 0)
  else
    do rs <- go_slice arr (defaultSizeBytes + defaultHeaderBytes)
                          (defaultSizeBytes + defaultHeaderBytes + defaultRouteBytes);
    do r <- go_index rs 0;
    do ss <- go_slice arr (defaultSizeBytes + defaultHeaderBytes + defaultRouteBytes)
                          (defaultSizeBytes + defaultHeaderBytes + defaultRouteBytes + 8);
    Ok (false, r, get_uint BigEndian ss).

(** make([]byte, defaultSizeBytes+size) has a uint32 length *)
Definition ReadMessage : ST (list Z) (bool * Z * Z * list Z) :=
  let! hd := read_full defaultSizeBytes in
  let size := get_uint BigEndian hd in
  if size =? 0 then st_err ErrInvalidMessage else
  let n := u32 (defaultSizeBytes + size) in
  if n <? defaultSizeBytes then st_panic else
  let! body := read_full (n - defaultSizeBytes) in
  let! (h, r, s) := st_lift (ParseBuffer (hd ++ body) []) in
  st_ret (h, r, s, hd ++ body).

(** ReaderBuffer reads into pooled blocks; [k1], [k2] are the pool's picks. *)
Definition ReaderBuffer (k1 k2 : option nat)
    : ST (list Z * list (list Bytes.Bytes)) Bytes.Bytes := fun '(s, pl) =>
  match BytesPool.MallocBytes pl k1 defaultSizeBytes with
  | Ok (Some b1, pl1) =>
      match read_full defaultSizeBytes s with
      | (Ok hd, s1) =>
          let b1' := Bytes.mkBytes (hd ++ drop 4 (Bytes.arr b1)) (Bytes.off b1)
                       (Bytes.pool b1) in
          let size := get_uint BigEndian hd in
          if size =? 0 then (Err ErrInvalidMessage, (s1, BytesPool.release pl1 b1')) else
          match BytesPool.MallocBytes pl1 k2 (u32 (defaultSizeBytes + size)) with
          | Ok (Some b2, pl2) =>
              if (len (Bytes.arr b2) <? Bytes.off b2) || (len (Bytes.arr b2) <? 4)
                 || (Bytes.off b2 <? 4)
              then (Panic, (s1, pl2)) else
              let pl2' := BytesPool.release pl2 b1' in
              match read_full (Bytes.off b2 - 4) s1 with
              | (Ok body, s2) =>
                  (Ok (Bytes.mkBytes
                         (hd ++ body ++ drop (Z.to_nat (Bytes.off b2)) (Bytes.arr b2))
                         (Bytes.off b2) (Bytes.pool b2)), (s2, pl2'))
              | (Err e, s2) => (Err e, (s2, BytesPool.release pl2' b2))
              | (Panic, s2) => (Panic, (s2, pl2'))
              end
          | Ok (None, pl2) => (Panic, (s1, pl2))
          | Err e => (Err e, (s1, BytesPool.release pl1 b1'))
          | Panic => (Panic, (s1, BytesPool.release pl1 b1'))
          end
      | (Err e, s1) => (Err e, (s1, BytesPool.release pl1 b1))
      | (Panic, s1) => (Panic, (s1, pl1))
      end
  | Ok (None, pl1) => (Panic, (s, pl1))
  | Err e => (Err e, (s, pl))
  | Panic => (Panic, (s, pl))
  end.

(** What every encoder does with its writer: run the writes, then chain the
    writer and the message, if any. *)
Definition frame (m : ST Writer.Writer unit) (w : Writer.Writer)
    (tail : list mountable) : res nbuf :=
  match m w with
  | (Ok _, w') => Ok (NocopyBuffer.NewNocopyBuffer (MBlock (BWriter w') :: tail))
  | (Err e, _) => Err e
  | (Panic, _) => Panic
  end.

End Protocol.
Import Protocol.

(** ** Frames as byte lists *)

(** The bytes every frame starts with *)
Definition frame_head (size header : Z) (r : Route) (seq : Z) : list Z :=
  put_uint BigEndian 4 size ++ [header; route r] ++ put_uint BigEndian 8 seq.

Definition frame_size (body : list Z) : Z := 10 + len body.

Definition frame_of (header : Z) (r : Route) (seq : Z) (body : list Z) : list Z :=
  frame_head (frame_size body) header r seq ++ body.

Lemma len_frame_head size h r seq : len (frame_head size h r seq) = 14.
Proof. unfold frame_head. rewrite !len_app, !len_put_uint. done. Qed.

Lemma len_frame_of h r seq body : len (frame_of h r seq body) = 14 + len body.
Proof. unfold frame_of. by rewrite len_app, len_frame_head. Qed.

Lemma route_byte r : inU 8 (route r).
Proof. destruct r; unfold inU; simpl; lia. Qed.

Lemma route_inj r r' : route r = route r' -> r = r'.
Proof. by destruct r, r'. Qed.

(** A header of a data frame: the heartbeat bit is clear. *)
Definition data_header (h : Z) : Prop := Z.land h heartbeatBit <> heartbeatBit.

Lemma ParseBuffer_frame size h r seq body spare :
  data_header h ->
  ParseBuffer (frame_head size h r seq ++ body) spare = Ok (false, route r, u64 seq).
Proof.
  intros Hh. unfold ParseBuffer, frame_head, defaultSizeBytes, defaultHeaderBytes,
    defaultRouteBytes.
  set (A := put_uint BigEndian 4 size). set (S8 := put_uint BigEndian 8 seq).
  assert (len A = 4) as HA by apply len_put_uint.
  assert (len S8 = 8) as HS by apply len_put_uint.
  replace (((A ++ [h; route r] ++ S8) ++ body) ++ spare)
    with (A ++ [h] ++ (route r :: S8 ++ body ++ spare))
    by (rewrite <- !app_assoc; done).
  assert (forall x : Z, go_index [x] 0 = Ok x) as Hi by done.
  rewrite (go_slice_mid A [h]) by (rewrite HA; done). cbn [res_bind].
  rewrite Hi. cbn [res_bind]. rewrite (proj2 (Z.eqb_neq _ _) Hh).
  replace (A ++ [h] ++ route r :: S8 ++ body ++ spare)
    with ((A ++ [h]) ++ [route r] ++ (S8 ++ body ++ spare))
    by (rewrite <- !app_assoc; done).
  rewrite (go_slice_mid (A ++ [h]) [route r]) by (rewrite len_app, HA; done).
  cbn [res_bind]. rewrite Hi. cbn [res_bind].
  replace ((A ++ [h]) ++ [route r] ++ S8 ++ body ++ spare)
    with ((A ++ [h; route r]) ++ S8 ++ (body ++ spare))
    by (rewrite <- !app_assoc; done).
  rewrite (go_slice_mid (A ++ [h; route r]) S8)
    by (rewrite len_app, HA, ?HS; done). cbn [res_bind].
  unfold S8. by rewrite (get_put_uint BigEndian 8).
Qed.

(** ** The reading side of a connection *)

Lemma ReadMessage_frame_of h r seq body rest :
  data_header h -> 10 + len body < 2 ^ 32 - 4 ->
  ReadMessage (frame_of h r seq body ++ rest)
  = (Ok (false, route r, u64 seq, frame_of h r seq body), rest).
Proof.
  intros Hh Hlt. pose proof (len_nonneg body). unfold ReadMessage, st_bind at 1.
  unfold frame_of. assert (frame_size body = 10 + len body) as Hn by done.
  generalize dependent (frame_size body). intros n Hn.
  unfold frame_head at 1. rewrite <- !app_assoc. unfold defaultSizeBytes.
  rewrite read_full_app by (by rewrite len_put_uint).
  rewrite get_put_uint. change (8 * Z.of_nat 4) with 32.
  rewrite (wrapU_id 32 n) by (unfold inU; lia).
  rewrite (proj2 (Z.eqb_neq _ _)) by lia.
  rewrite (wrapU_id 32 (4 + _)) by (unfold inU; lia).
  rewrite (proj2 (Z.ltb_ge _ _)) by lia.
  replace ([h; route r] ++ put_uint BigEndian 8 seq ++ body ++ rest)
    with (([h; route r] ++ put_uint BigEndian 8 seq ++ body) ++ rest)
    by (rewrite <- !app_assoc; done).
  unfold st_bind at 1. rewrite read_full_app
    by (rewrite !len_app, len_put_uint; unfold len in *; simpl; lia).
  replace (put_uint BigEndian 4 n ++ [h; route r] ++ put_uint BigEndian 8 seq ++ body)
    with (frame_head n h r seq ++ body)
    by (unfold frame_head; rewrite <- !app_assoc; done).
  unfold st_bind, st_lift. by rewrite ParseBuffer_frame.
Qed.

(** ** The writing side *)

Lemma frame_single m w bs :
  fresh w -> appends m bs tt ->
  exists b, frame m w [] = Ok b /\ NocopyBuffer.Bytes b = Ok bs.
Proof.
  intros Hw Hm. destruct (Hm w (proj1 Hw)) as (w' & E & Hw' & Hb & _).
  unfold frame. rewrite E. eexists. split; [done|].
  rewrite writer_bytes by done. by rewrite Hb, (fresh_written w Hw).
Qed.

Lemma frame_message m w bs msg ms :
  fresh w -> appends m bs tt -> payload msg ms ->
  exists b, frame m w [msg] = Ok b /\ NocopyBuffer.Bytes b = Ok (bs ++ ms).
Proof.
  intros Hw Hm Hp. destruct (Hm w (proj1 Hw)) as (w' & E & Hw' & Hb & _).
  unfold frame. rewrite E. eexists. split; [done|].
  rewrite (frame_bytes w' msg ms) by done. by rewrite Hb, (fresh_written w Hw).
Qed.
