(* ===== verification/Requests.v ===== *)
(** internal/transporter/internal/protocol: the request codecs.
    Encode functions take the writer the pool handed out; Decode functions
    return the decoded fields or the error (the partial results of an error
    return are dropped, as every caller does). *)
From stdpp Require Import base numbers list.
From Stdlib Require Import ZArith Lia.
From S2P Require Import Prelude Binary Types Reader Writer Nocopy Packet Protocol.
Import Reader.Reader Protocol.Protocol.
Import Writer.Writer (WriteUint8s, WriteUint16s, WriteUint32s, WriteUint64s,
  WriteInt64s, WriteBools, WriteString).

Open Scope Z_scope.
Open Scope go_scope.

Module Requests.

(** size + header + route, and + seq *)
Definition at_seq : Z := defaultSizeBytes + defaultHeaderBytes + defaultRouteBytes.
Definition base : Z := at_seq + defaultSeqBytes.

Definition handshakeReqBytes : Z := base + b8.
Definition bindReqBytes : Z := base + b64 + b64.
Definition unbindReqBytes : Z := base + b64.
Definition getIPReqBytes : Z := base + b8 + b64.
Definition statReqBytes : Z := base + b8.
Definition isOnlineReqBytes : Z := base + b8 + b64.
Definition disconnectReqBytes : Z := base + b8 + b64 + b8.
Definition disconnectCurrentReqBytes : Z := disconnectReqBytes + b64 + b64.
Definition pushReqBytes : Z := base + b8 + b64 + b64 + b64.
Definition multicastReqBytes : Z := base + b8 + b16.
Definition broadcastReqBytes : Z := base + b8.
Definition publishReqBytes : Z := base + b8.
Definition subscribeReqBytes : Z := base + b8 + b16.
Definition unsubscribeReqBytes : Z := base + b8 + b16.
Definition triggerReqBytes : Z := base + b8 + b64 + b64 + b64.
Definition getStateReqBytes : Z := base.
Definition setStateReqBytes : Z := base + b8.
Definition deliverReqBytes : Z := base + b64 + b64 + b64 + b64 + b16.
Definition deliverTraceContextFixedBytes : Z := b8 + b16 + b16.
Definition deliverTraceContextVersion : Z := 1.
Definition maxTraceContextFieldBytes : Z := Z.shiftl 1 16 - 1.

(** if disconnect { dataBit | disconnectBit } else { dataBit } *)
Definition disconnect_header (disconnect : bool) : Z :=
  if disconnect then Z.lor dataBit disconnectBit else dataBit.

(** The writes every encoder starts with *)
Definition write_head (size header : Z) (r : Route) (seq : Z) : ST Writer.Writer.Writer unit :=
  WriteUint32s BigEndian [u32 size] ;;;
  WriteUint8s [header] ;;;
  WriteUint8s [route r] ;;;
  WriteUint64s BigEndian [seq].

Section Encode.
Context (w : Writer.Writer.Writer).

Definition EncodeHandshakeReq (seq insKind : Z) (insID : list Z) : res nbuf :=
  let size := handshakeReqBytes + len insID in
  frame (write_head (size - defaultSizeBytes) dataBit Handshake seq ;;;
         WriteUint8s [u8 insKind] ;;; WriteString insID) w [].

Definition EncodeBindReq (seq cid uid : Z) : res nbuf :=
  frame (write_head (bindReqBytes - defaultSizeBytes) dataBit Bind seq ;;;
         WriteInt64s BigEndian [cid; uid]) w [].

Definition EncodeUnbindReq (seq uid : Z) : res nbuf :=
  frame (write_head (unbindReqBytes - defaultSizeBytes) dataBit Unbind seq ;;;
         WriteInt64s BigEndian [uid]) w [].

Definition EncodeGetIPReq (seq kind target : Z) : res nbuf :=
  frame (write_head (getIPReqBytes - defaultSizeBytes) dataBit GetIP seq ;;;
         WriteUint8s [u8 kind] ;;; WriteInt64s BigEndian [target]) w [].

Definition EncodeStatReq (seq kind : Z) : res nbuf :=
  frame (write_head (statReqBytes - defaultSizeBytes) dataBit Stat seq ;;;
         WriteUint8s [u8 kind]) w [].

Definition EncodeIsOnlineReq (seq kind target : Z) : res nbuf :=
  frame (write_head (isOnlineReqBytes - defaultSizeBytes) dataBit IsOnline seq ;;;
         WriteUint8s [u8 kind] ;;; WriteInt64s BigEndian [target]) w [].

Definition EncodeDisconnectReq (seq kind target : Z) (force : bool) : res nbuf :=
  frame (write_head (disconnectReqBytes - defaultSizeBytes) dataBit Disconnect seq ;;;
         WriteUint8s [u8 kind] ;;; WriteInt64s BigEndian [target] ;;;
         WriteBools [force]) w [].

Definition EncodeDisconnectCurrentReq (seq kind target : Z) (force : bool)
    (token : Token) : res nbuf :=
  frame (write_head (disconnectCurrentReqBytes - defaultSizeBytes) dataBit Disconnect seq ;;;
         WriteUint8s [u8 kind] ;;; WriteInt64s BigEndian [target] ;;;
         WriteBools [force] ;;; WriteInt64s BigEndian [UID token] ;;;
         WriteUint64s BigEndian [Generation token]) w [].

Definition EncodePushReq (seq kind target : Z) (disconnect : bool) (token : Token)
    (message : mountable) : res nbuf :=
  frame (write_head (pushReqBytes - defaultSizeBytes + mLen message)
           (disconnect_header disconnect) Push seq ;;;
         WriteUint8s [u8 kind] ;;; WriteInt64s BigEndian [target] ;;;
         WriteInt64s BigEndian [UID token] ;;;
         WriteUint64s BigEndian [Generation token]) w [message].

Definition EncodeMulticastReq (seq kind : Z) (targets : list Z) (disconnect : bool)
    (message : mountable) : res nbuf :=
  let size := multicastReqBytes + len targets * 8 in
  frame (write_head (size - defaultSizeBytes + mLen message)
           (disconnect_header disconnect) Multicast seq ;;;
         WriteUint8s [u8 kind] ;;; WriteUint16s BigEndian [u16 (len targets)] ;;;
         WriteInt64s BigEndian targets) w [message].

Definition EncodeBroadcastReq (seq kind : Z) (disconnect : bool)
    (message : mountable) : res nbuf :=
  frame (write_head (broadcastReqBytes - defaultSizeBytes + mLen message)
           (disconnect_header disconnect) Broadcast seq ;;;
         WriteUint8s [u8 kind]) w [message].

Definition EncodePublishReq (seq : Z) (channel : list Z) (disconnect : bool)
    (message : mountable) : res nbuf :=
  let size := publishReqBytes + len channel in
  frame (write_head (size - defaultSizeBytes + mLen message)
           (disconnect_header disconnect) Publish seq ;;;
         WriteUint8s [u8 (len channel)] ;;; WriteString channel) w [message].

Definition EncodeSubscribeReq (seq kind : Z) (targets channel : list Z) : res nbuf :=
  let size := subscribeReqBytes + len targets * 8 + len channel in
  frame (write_head (size - defaultSizeBytes) dataBit Subscribe seq ;;;
         WriteUint8s [u8 kind] ;;; WriteUint16s BigEndian [u16 (len targets)] ;;;
         WriteInt64s BigEndian targets ;;; WriteString channel) w [].

Definition EncodeUnsubscribeReq (seq kind : Z) (targets channel : list Z) : res nbuf :=
  let size := unsubscribeReqBytes + len targets * 8 + len channel in
  frame (write_head (size - defaultSizeBytes) dataBit Unsubscribe seq ;;;
         WriteUint8s [u8 kind] ;;; WriteUint16s BigEndian [u16 (len targets)] ;;;
         WriteInt64s BigEndian targets ;;; WriteString channel) w [].

Definition EncodeTriggerReq (seq event cid uid generation : Z) : res nbuf :=
  let size := triggerReqBytes - defaultSizeBytes in
  let size := if uid =? 0 then size - (b64 + b64) else size in
  let generation := if uid =? 0 then 0 else generation in
  frame (write_head size dataBit Trigger seq ;;;
         WriteUint8s [u8 event] ;;; WriteInt64s BigEndian [cid] ;;;
         (if negb (uid =? 0)
          then WriteInt64s BigEndian [uid] ;;; WriteUint64s BigEndian [generation]
          else st_ret tt)) w [].

Definition EncodeGetStateReq (seq : Z) : res nbuf :=
  frame (write_head (getStateReqBytes - defaultSizeBytes) dataBit GetState seq) w [].

Definition EncodeSetStateReq (seq state : Z) : res nbuf :=
  frame (write_head (setStateReqBytes - defaultSizeBytes) dataBit SetState seq ;;;
         WriteUint8s [u8 state]) w [].

Definition EncodeDeliverReqWithMetadata (seq cid uid generation : Z)
    (metadata : Cluster.RequestMetadata) (buf : mountable) : res nbuf :=
  let correlationID := Cluster.CorrelationID metadata in
  let traceParent := Cluster.TraceParent metadata in
  let traceState := Cluster.TraceState metadata in
  let hasTraceContext := negb (len traceParent =? 0)
    && (len traceParent <=? maxTraceContextFieldBytes)
    && (len traceState <=? maxTraceContextFieldBytes) in
  let traceParent := if hasTraceContext then traceParent else [] in
  let traceState := if hasTraceContext then traceState else [] in
  let size := deliverReqBytes + len correlationID in
  let header := if hasTraceContext then Z.lor dataBit traceContextBit else dataBit in
  let size := if hasTraceContext
              then size + (deliverTraceContextFixedBytes + len traceParent + len traceState)
              else size in
  let deadlineUnixMilli := match Cluster.Deadline metadata with
                           | None => 0
                           | Some t => Cluster.UnixMilli t
                           end in
  frame (write_head (size - defaultSizeBytes + mLen buf) header Deliver seq ;;;
         WriteInt64s BigEndian [cid; uid] ;;;
         WriteUint64s BigEndian [generation] ;;;
         WriteInt64s BigEndian [deadlineUnixMilli] ;;;
         WriteUint16s BigEndian [u16 (len correlationID)] ;;;
         WriteString correlationID ;;;
         (if hasTraceContext then
            WriteUint8s [deliverTraceContextVersion] ;;;
            WriteUint16s BigEndian [u16 (len traceParent); u16 (len traceState)] ;;;
            WriteString traceParent ;;;
            WriteString traceState
          else st_ret tt)) w [buf].

Definition EncodeDeliverReq (seq cid uid generation : Z) (buf : mountable) : res nbuf :=
  EncodeDeliverReqWithMetadata seq cid uid generation Cluster.no_metadata buf.
End Encode.

(** ** Decoders *)

Definition with_len {A} (data : list Z) (n : Z) (m : ST Reader A) : res A :=
  if negb (len data =? n) then Err ErrInvalidMessage else st_run m (NewReader data).

(** k & disconnectBit == disconnectBit *)
Definition has_bit (h bit : Z) : bool := Z.land h bit =? bit.

(** data[off:] *)
Definition tail_from (data : list Z) (off : Z) : ST Reader (list Z) :=
  st_lift (go_slice data off (len data)).

Definition DecodeHandshakeReq (data : list Z) : res (Z * Z * list Z) :=
  st_run (let! _ := Seek at_seq SeekStart in
          let! seq := ReadUint64 BigEndian in
          let! k := ReadUint8 in
          let! insID := ReadString (len data - handshakeReqBytes) in
          st_ret (seq, k, insID)) (NewReader data).

Definition DecodeBindReq (data : list Z) : res (Z * Z * Z) :=
  with_len data bindReqBytes
    (let! _ := Seek at_seq SeekStart in
     let! seq := ReadUint64 BigEndian in
     let! cid := ReadInt64 BigEndian in
     let! uid := ReadInt64 BigEndian in
     st_ret (seq, cid, uid)).

Definition DecodeUnbindReq (data : list Z) : res (Z * Z) :=
  with_len data unbindReqBytes
    (let! _ := Seek at_seq SeekStart in
     let! seq := ReadUint64 BigEndian in
     let! uid := ReadInt64 BigEndian in
     st_ret (seq, uid)).

Definition DecodeGetIPReq (data : list Z) : res (Z * Z * Z) :=
  with_len data getIPReqBytes
    (let! _ := Seek at_seq SeekStart in
     let! seq := ReadUint64 BigEndian in
     let! k := ReadUint8 in
     let! target := ReadInt64 BigEndian in
     st_ret (seq, k, target)).

Definition DecodeStatReq (data : list Z) : res (Z * Z) :=
  with_len data statReqBytes
    (let! _ := Seek at_seq SeekStart in
     let! seq := ReadUint64 BigEndian in
     let! k := ReadUint8 in
     st_ret (seq, k)).

Definition DecodeIsOnlineReq (data : list Z) : res (Z * Z * Z) :=
  with_len data isOnlineReqBytes
    (let! _ := Seek at_seq SeekStart in
     let! seq := ReadUint64 BigEndian in
     let! k := ReadUint8 in
     let! target := ReadInt64 BigEndian in
     st_ret (seq, k, target)).

Definition DecodeDisconnectReq (data : list Z) : res (Z * Z * Z * bool) :=
  with_len data disconnectReqBytes
    (let! _ := Seek at_seq SeekStart in
     let! seq := ReadUint64 BigEndian in
     let! k := ReadUint8 in
     let! target := ReadInt64 BigEndian in
     let! force := ReadBool in
     st_ret (seq, k, target, force)).

Definition DecodeDisconnectReqWithToken (data : list Z) : res (Z * Z * Z * bool * Token) :=
  if len data =? disconnectReqBytes then
    do (seq, k, target, force) <- DecodeDisconnectReq data;
    Ok (seq, k, target, force, zero_token)
  else with_len data disconnectCurrentReqBytes
    (let! _ := Seek at_seq SeekStart in
     let! seq := ReadUint64 BigEndian in
     let! k := ReadUint8 in
     let! target := ReadInt64 BigEndian in
     let! force := ReadBool in
     let! uid := ReadInt64 BigEndian in
     let! generation := ReadUint64 BigEndian in
     st_ret (seq, k, target, force, mkToken uid generation)).

Definition DecodePushReq (data : list Z) : res (Z * Z * Z * bool * Token * list Z) :=
  st_run (let! _ := Seek defaultSizeBytes SeekStart in
          let! h := ReadUint8 in
          let! _ := Seek defaultRouteBytes SeekCurrent in
          let! seq := ReadUint64 BigEndian in
          let! k := ReadUint8 in
          let! target := ReadInt64 BigEndian in
          let! uid := ReadInt64 BigEndian in
          let! generation := ReadUint64 BigEndian in
          let! message := tail_from data pushReqBytes in
          st_ret (seq, k, target, has_bit h disconnectBit, mkToken uid generation, message))
    (NewReader data).

(** data[multicastReqBytes+8*count:] is computed in uint16, count's type. *)
Definition DecodeMulticastReq (data : list Z) : res (Z * Z * list Z * bool * list Z) :=
  st_run (let! _ := Seek defaultSizeBytes SeekStart in
          let! h := ReadUint8 in
          let! _ := Seek defaultRouteBytes SeekCurrent in
          let! seq := ReadUint64 BigEndian in
          let! k := ReadUint8 in
          let! count := ReadUint16 BigEndian in
          let! targets := ReadInt64s BigEndian count in
          let! message := tail_from data (u16 (multicastReqBytes + u16 (8 * count))) in
          st_ret (seq, k, targets, has_bit h disconnectBit, message)) (NewReader data).

Definition DecodeBroadcastReq (data : list Z) : res (Z * Z * bool * list Z) :=
  st_run (let! _ := Seek defaultSizeBytes SeekStart in
          let! h := ReadUint8 in
          let! _ := Seek defaultRouteBytes SeekCurrent in
          let! seq := ReadUint64 BigEndian in
          let! k := ReadUint8 in
          let! message := tail_from data broadcastReqBytes in
          st_ret (seq, k, has_bit h disconnectBit, message)) (NewReader data).

(** data[publishReqBytes+channelBytes:] is computed in uint8. *)
Definition DecodePublishReq (data : list Z) : res (Z * list Z * bool * list Z) :=
  st_run (let! _ := Seek defaultSizeBytes SeekStart in
          let! h := ReadUint8 in
          let! _ := Seek defaultRouteBytes SeekCurrent in
          let! seq := ReadUint64 BigEndian in
          let! channelBytes := ReadUint8 in
          let! channel := ReadString channelBytes in
          let! message := tail_from data (u8 (publishReqBytes + channelBytes)) in
          st_ret (seq, channel, has_bit h disconnectBit, message)) (NewReader data).

Definition DecodeSubscribeReq (data : list Z) : res (Z * Z * list Z * list Z) :=
  st_run (let! _ := Seek at_seq SeekStart in
          let! seq := ReadUint64 BigEndian in
          let! k := ReadUint8 in
          let! count := ReadUint16 BigEndian in
          let! targets := ReadInt64s BigEndian count in
          let! channel := tail_from data (u16 (subscribeReqBytes + u16 (8 * count))) in
          st_ret (seq, k, targets, channel)) (NewReader data).

Definition DecodeUnsubscribeReq (data : list Z) : res (Z * Z * list Z * list Z) :=
  st_run (let! _ := Seek at_seq SeekStart in
          let! seq := ReadUint64 BigEndian in
          let! k := ReadUint8 in
          let! count := ReadUint16 BigEndian in
          let! targets := ReadInt64s BigEndian count in
          let! channel := tail_from data (u16 (unsubscribeReqBytes + u16 (8 * count))) in
          st_ret (seq, k, targets, channel)) (NewReader data).

Definition DecodeTriggerReq (data : list Z) : res (Z * Z * Z * Z * Z) :=
  if negb (len data =? triggerReqBytes) && negb (len data =? triggerReqBytes - b64 - b64)
  then Err ErrInvalidMessage
  else
    st_run (let! _ := Seek at_seq SeekStart in
            let! seq := ReadUint64 BigEndian in
            let! evt := ReadUint8 in
            let! cid := ReadInt64 BigEndian in
            if len data =? triggerReqBytes then
              let! uid := ReadInt64 BigEndian in
              let! generation := ReadUint64 BigEndian in
              st_ret (seq, evt, cid, uid, generation)
            else st_ret (seq, evt, cid, 0, 0)) (NewReader data).

Definition DecodeGetStateReq (data : list Z) : res Z :=
  with_len data getStateReqBytes
    (let! _ := Seek at_seq SeekStart in
     let! seq := ReadUint64 BigEndian in
     st_ret seq).

Definition DecodeSetStateReq (data : list Z) : res (Z * Z) :=
  with_len data setStateReqBytes
    (let! _ := Seek at_seq SeekStart in
     let! seq := ReadUint64 BigEndian in
     let! status := ReadUint8 in
     st_ret (seq, status)).

(** if header&traceContextBit == traceContextBit { ... }: the trace fields and
    the number of bytes they took *)
Definition decode_trace (data : list Z) (messageOffset : Z) : ST Reader (list Z * list Z * Z) :=
  if len data - messageOffset <? deliverTraceContextFixedBytes
  then st_err ErrInvalidMessage else
  let! version := ReadUint8 in
  if negb (version =? deliverTraceContextVersion) then st_err ErrInvalidMessage else
  let! traceParentBytes := ReadUint16 BigEndian in
  let! traceStateBytes := ReadUint16 BigEndian in
  let traceBytes := traceParentBytes + traceStateBytes in
  if (traceParentBytes =? 0)
     || (len data - messageOffset - deliverTraceContextFixedBytes <? traceBytes)
  then st_err ErrInvalidMessage else
  let! traceParent := ReadString traceParentBytes in
  let! traceState := if 0 <? traceStateBytes then ReadString traceStateBytes else st_ret [] in
  st_ret (traceParent, traceState, deliverTraceContextFixedBytes + traceBytes).

Definition DecodeDeliverReqWithMetadata (data : list Z)
    : res (Z * Z * Z * Z * Cluster.RequestMetadata * list Z) :=
  if len data <? deliverReqBytes then Err ErrInvalidMessage else
  st_run (let! _ := Seek at_seq SeekStart in
          let! seq := ReadUint64 BigEndian in
          let! cid := ReadInt64 BigEndian in
          let! uid := ReadInt64 BigEndian in
          let! generation := ReadUint64 BigEndian in
          let! deadlineUnixMilli := ReadInt64 BigEndian in
          let deadline := if negb (deadlineUnixMilli =? 0)
                          then Cluster.of_UnixMilli deadlineUnixMilli else None in
          let! correlationBytes := ReadUint16 BigEndian in
          if len data - deliverReqBytes <? correlationBytes
          then st_err ErrInvalidMessage else
          let! correlationID := if 0 <? correlationBytes
                                then ReadString correlationBytes else st_ret [] in
          let messageOffset := deliverReqBytes + correlationBytes in
          let! header := st_lift (go_index data defaultSizeBytes) in
          let! (traceParent, traceState, extra) :=
            if has_bit header traceContextBit then decode_trace data messageOffset
            else st_ret ([], [], 0) in
          let! message := tail_from data (messageOffset + extra) in
          st_ret (seq, cid, uid, generation,
                  Cluster.mkMetadata deadline correlationID traceParent traceState,
                  message)) (NewReader data).

Definition DecodeDeliverReq (data : list Z) : res (Z * Z * Z * Z * list Z) :=
  do (seq, cid, uid, generation, _, message) <- DecodeDeliverReqWithMetadata data;
  Ok (seq, cid, uid, generation, message).

End Requests.
Import Requests.
