(* ===== verification/RequestCodec.v ===== *)
(** The request codecs of internal/transporter/internal/protocol, taken together:
    one type of requests, the encoder and the decoder its route selects, and the
    theorems that relate them to the frames of Protocol. *)
From stdpp Require Import base numbers list.
From Stdlib Require Import ZArith Lia.
From S2P Require Import Prelude Binary Types Reader Writer Nocopy Packet Protocol Requests.
Import Reader.Reader Protocol.Protocol Requests.Requests.

Open Scope Z_scope.
Open Scope go_scope.

Arguments put_uint : simpl never.

(** A request with its parameters; [message] is the payload's bytes. *)
Inductive request :=
| RHandshake (insKind : Z) (insID : list Z)
| RBind (cid uid : Z)
| RUnbind (uid : Z)
| RGetIP (kind target : Z)
| RStat (kind : Z)
| RIsOnline (kind target : Z)
| RDisconnect (kind target : Z) (force : bool)
| RDisconnectCurrent (kind target : Z) (force : bool) (token : Token)
| RPush (kind target : Z) (disconnect : bool) (token : Token) (message : list Z)
| RMulticast (kind : Z) (targets : list Z) (disconnect : bool) (message : list Z)
| RBroadcast (kind : Z) (disconnect : bool) (message : list Z)
| RPublish (channel : list Z) (disconnect : bool) (message : list Z)
| RSubscribe (kind : Z) (targets channel : list Z)
| RUnsubscribe (kind : Z) (targets channel : list Z)
| RTrigger (event cid uid generation : Z)
| RGetState
| RSetState (state : Z)
| RDeliver (cid uid generation : Z) (metadata : Cluster.RequestMetadata) (message : list Z).

Definition route_of (q : request) : Route :=
  match q with
  | RHandshake _ _ => Handshake
  | RBind _ _ => Bind
  | RUnbind _ => Unbind
  | RGetIP _ _ => GetIP
  | RStat _ => Stat
  | RIsOnline _ _ => IsOnline
  | RDisconnect _ _ _ | RDisconnectCurrent _ _ _ _ => Disconnect
  | RPush _ _ _ _ _ => Push
  | RMulticast _ _ _ _ => Multicast
  | RBroadcast _ _ _ => Broadcast
  | RPublish _ _ _ => Publish
  | RSubscribe _ _ _ => Subscribe
  | RUnsubscribe _ _ _ => Unsubscribe
  | RTrigger _ _ _ _ => Trigger
  | RGetState => GetState
  | RSetState _ => SetState
  | RDeliver _ _ _ _ _ => Deliver
  end.

Definition message_of (q : request) : list Z :=
  match q with
  | RPush _ _ _ _ m | RMulticast _ _ _ m | RBroadcast _ _ m | RPublish _ _ m
  | RDeliver _ _ _ _ m => m
  | _ => []
  end.

(** [m] holds the request's message, for the requests that have one. *)
Definition carries (q : request) (m : mountable) : Prop :=
  match q with
  | RPush _ _ _ _ _ | RMulticast _ _ _ _ | RBroadcast _ _ _ | RPublish _ _ _
  | RDeliver _ _ _ _ _ => payload m (message_of q)
  | _ => True
  end.

(** The encoder the request's kind selects; [m] carries the message. *)
Definition encode (w : Writer.Writer.Writer) (seq : Z) (q : request) (m : mountable) : res nbuf :=
  match q with
  | RHandshake k i => EncodeHandshakeReq w seq k i
  | RBind c u => EncodeBindReq w seq c u
  | RUnbind u => EncodeUnbindReq w seq u
  | RGetIP k t => EncodeGetIPReq w seq k t
  | RStat k => EncodeStatReq w seq k
  | RIsOnline k t => EncodeIsOnlineReq w seq k t
  | RDisconnect k t f => EncodeDisconnectReq w seq k t f
  | RDisconnectCurrent k t f tk => EncodeDisconnectCurrentReq w seq k t f tk
  | RPush k t d tk _ => EncodePushReq w seq k t d tk m
  | RMulticast k ts d _ => EncodeMulticastReq w seq k ts d m
  | RBroadcast k d _ => EncodeBroadcastReq w seq k d m
  | RPublish c d _ => EncodePublishReq w seq c d m
  | RSubscribe k ts c => EncodeSubscribeReq w seq k ts c
  | RUnsubscribe k ts c => EncodeUnsubscribeReq w seq k ts c
  | RTrigger e c u g => EncodeTriggerReq w seq e c u g
  | RGetState => EncodeGetStateReq w seq
  | RSetState s => EncodeSetStateReq w seq s
  | RDeliver c u g md _ => EncodeDeliverReqWithMetadata w seq c u g md m
  end.

(** The decoder a route's handler calls. *)
Definition decode (r : Route) (data : list Z) : res (Z * request) :=
  match r with
  | Handshake => do (s, k, i) <- DecodeHandshakeReq data; Ok (s, RHandshake k i)
  | Bind => do (s, c, u) <- DecodeBindReq data; Ok (s, RBind c u)
  | Unbind => do (s, u) <- DecodeUnbindReq data; Ok (s, RUnbind u)
  | GetIP => do (s, k, t) <- DecodeGetIPReq data; Ok (s, RGetIP k t)
  | Stat => do (s, k) <- DecodeStatReq data; Ok (s, RStat k)
  | IsOnline => do (s, k, t) <- DecodeIsOnlineReq data; Ok (s, RIsOnline k t)
  | Disconnect => do (s, k, t, f, tk) <- DecodeDisconnectReqWithToken data;
                  Ok (s, RDisconnectCurrent k t f tk)
  | Push => do (s, k, t, d, tk, m) <- DecodePushReq data; Ok (s, RPush k t d tk m)
  | Multicast => do (s, k, ts, d, m) <- DecodeMulticastReq data; Ok (s, RMulticast k ts d m)
  | Broadcast => do (s, k, d, m) <- DecodeBroadcastReq data; Ok (s, RBroadcast k d m)
  | Publish => do (s, c, d, m) <- DecodePublishReq data; Ok (s, RPublish c d m)
  | Subscribe => do (s, k, ts, c) <- DecodeSubscribeReq data; Ok (s, RSubscribe k ts c)
  | Unsubscribe => do (s, k, ts, c) <- DecodeUnsubscribeReq data; Ok (s, RUnsubscribe k ts c)
  | Trigger => do (s, e, c, u, g) <- DecodeTriggerReq data; Ok (s, RTrigger e c u g)
  | GetState => do s <- DecodeGetStateReq data; Ok (s, RGetState)
  | SetState => do (s, st) <- DecodeSetStateReq data; Ok (s, RSetState st)
  | Deliver => do (s, c, u, g, md, m) <- DecodeDeliverReqWithMetadata data;
               Ok (s, RDeliver c u g md m)
  end.

(** ** What the wire carries *)

Definition traced (md : Cluster.RequestMetadata) : bool :=
  negb (len (Cluster.TraceParent md) =? 0)
  && (len (Cluster.TraceParent md) <=? maxTraceContextFieldBytes)
  && (len (Cluster.TraceState md) <=? maxTraceContextFieldBytes).

Definition deadline_ms (md : Cluster.RequestMetadata) : Z :=
  match Cluster.Deadline md with None => 0 | Some t => Cluster.UnixMilli t end.

Definition header_of (q : request) : Z :=
  match q with
  | RPush _ _ d _ _ | RMulticast _ _ d _ | RBroadcast _ d _ | RPublish _ d _ =>
      disconnect_header d
  | RDeliver _ _ _ md _ => if traced md then Z.lor dataBit traceContextBit else dataBit
  | _ => dataBit
  end.

Abbreviation w8 := (put_uint BigEndian 8).
Abbreviation w2 := (put_uint BigEndian 2).

Definition token_bytes (t : Token) : list Z := w8 (UID t) ++ w8 (Generation t).

Definition trace_bytes (md : Cluster.RequestMetadata) : list Z :=
  if traced md
  then [deliverTraceContextVersion] ++ w2 (len (Cluster.TraceParent md))
       ++ w2 (len (Cluster.TraceState md)) ++ Cluster.TraceParent md ++ Cluster.TraceState md
  else [].

(** The fixed fields of a request, then its message. *)
Definition fields_of (q : request) : list Z :=
  match q with
  | RHandshake k i => [u8 k] ++ i
  | RBind c u => w8 c ++ w8 u
  | RUnbind u => w8 u
  | RGetIP k t | RIsOnline k t => [u8 k] ++ w8 t
  | RStat k => [u8 k]
  | RDisconnect k t f => [u8 k] ++ w8 t ++ [if f : bool then 1 else 0]
  | RDisconnectCurrent k t f tk =>
      [u8 k] ++ w8 t ++ [if f : bool then 1 else 0] ++ token_bytes tk
  | RPush k t d tk _ => [u8 k] ++ w8 t ++ token_bytes tk
  | RMulticast k ts _ _ => [u8 k] ++ w2 (len ts) ++ concat (map w8 ts)
  | RBroadcast k _ _ => [u8 k]
  | RPublish c _ _ => [u8 (len c)] ++ c
  | RSubscribe k ts c | RUnsubscribe k ts c =>
      [u8 k] ++ w2 (len ts) ++ concat (map w8 ts) ++ c
  | RTrigger e c u g => [u8 e] ++ w8 c ++ (if u =? 0 then [] else w8 u ++ w8 g)
  | RGetState => []
  | RSetState s => [u8 s]
  | RDeliver c u g md _ =>
      w8 c ++ w8 u ++ w8 g ++ w8 (deadline_ms md)
      ++ w2 (len (Cluster.CorrelationID md)) ++ Cluster.CorrelationID md ++ trace_bytes md
  end.

Definition body_of (q : request) : list Z := fields_of q ++ message_of q.

(** What the receiver reports for a request: DisconnectReq carries the zero
    token, a trigger with no user carries no generation, a deadline is kept to
    the millisecond and an unencodable trace context is dropped. *)
Definition received (q : request) : request :=
  match q with
  | RDisconnect k t f => RDisconnectCurrent k t f zero_token
  | RTrigger e c u g => RTrigger e c u (if u =? 0 then 0 else g)
  | RDeliver c u g md m =>
      RDeliver c u g
        (Cluster.mkMetadata
           (if deadline_ms md =? 0 then None else Cluster.of_UnixMilli (deadline_ms md))
           (Cluster.CorrelationID md)
           (if traced md then Cluster.TraceParent md else [])
           (if traced md then Cluster.TraceState md else [])) m
  | _ => q
  end.

Definition token_ok (t : Token) : Prop := inS 64 (UID t) /\ inU 64 (Generation t).

(** The parameters fit their Go types, and the counts their length fields. *)
Definition request_ok (q : request) : Prop :=
  match q with
  | RHandshake k _ | RStat k | RBroadcast k _ _ | RSetState k => inU 8 k
  | RBind c u => inS 64 c /\ inS 64 u
  | RUnbind u => inS 64 u
  | RGetIP k t | RIsOnline k t | RDisconnect k t _ => inU 8 k /\ inS 64 t
  | RDisconnectCurrent k t _ tk | RPush k t _ tk _ => inU 8 k /\ inS 64 t /\ token_ok tk
  | RMulticast k ts _ _ | RSubscribe k ts _ | RUnsubscribe k ts _ =>
      inU 8 k /\ Forall (inS 64) ts /\ 17 + 8 * len ts < 2 ^ 16
  | RPublish c _ _ => 15 + len c < 2 ^ 8
  | RTrigger e c u g => inU 8 e /\ inS 64 c /\ inS 64 u /\ inU 64 g
  | RGetState => True
  | RDeliver c u g md _ =>
      inS 64 c /\ inS 64 u /\ inU 64 g /\ inS 64 (deadline_ms md) /\
      len (Cluster.CorrelationID md) < 2 ^ 16
  end.

(** ** Encoding *)

Lemma put_u32 v : put_uint BigEndian 4 (u32 v) = put_uint BigEndian 4 v.
Proof. apply (put_uint_wrap BigEndian 4). Qed.

Lemma put_u16 v : put_uint BigEndian 2 (u16 v) = put_uint BigEndian 2 v.
Proof. apply (put_uint_wrap BigEndian 2). Qed.

Lemma appends_head size h r seq :
  appends (write_head size h r seq) (frame_head size h r seq) tt.
Proof.
  assert (frame_head size h r seq
    = concat (map (put_uint BigEndian 4) [u32 size]) ++ [h] ++ [route r]
      ++ concat (map w8 [seq])) as ->.
  { unfold frame_head. cbn [map concat]. by rewrite put_u32, !app_nil_r. }
  unfold write_head. eauto 8 with appends.
Qed.

(** An encoder's writes are its fields in order. *)
Lemma appends_eq {A} (m : ST Writer.Writer.Writer A) bs bs' a :
  appends m bs a -> bs = bs' -> appends m bs' a.
Proof. by intros ? <-. Qed.

Ltac writes :=
  cbv beta;
  lazymatch goal with
  | |- appends (st_bind _ _) _ _ => eapply appends_bind; [writes|writes]
  | |- appends (if _ then _ else _) _ _ => eapply appends_if; [writes|writes]
  | |- _ => solve [auto 1 with appends nocore]
  end.

Ltac fields :=
  eapply appends_eq; [writes|];
  unfold token_bytes; cbn [map concat]; rewrite ?app_nil_r, <- ?app_assoc;
  rewrite ?put_u16; try done.

Lemma encode_plain m w size h r seq body :
  fresh w -> appends m body tt -> size = 10 + len body ->
  exists b, frame (write_head size h r seq ;;; m) w [] = Ok b /\
            NocopyBuffer.Bytes b = Ok (frame_of h r seq (body ++ [])).
Proof.
  intros Hw Hm ->. rewrite app_nil_r. apply frame_single; [done|].
  eapply appends_bind; [apply appends_head|done].
Qed.

Lemma encode_message m w size h r seq body msg ms :
  fresh w -> appends m body tt -> payload msg ms -> size = 10 + len body ->
  exists b, frame (write_head (size + mLen msg) h r seq ;;; m) w [msg] = Ok b /\
            NocopyBuffer.Bytes b = Ok (frame_of h r seq (body ++ ms)).
Proof.
  intros Hw Hm Hp ->. rewrite (payload_len _ _ Hp).
  unfold frame_of, frame_size. rewrite app_assoc, len_app, Z.add_assoc.
  apply frame_message; [done| |done].
  eapply appends_bind; [apply appends_head|done].
Qed.

Lemma len_words ts : len (concat (map w8 ts)) = 8 * len ts.
Proof.
  rewrite (len_concat_chunks 8) by apply put_chunks. unfold len. by rewrite length_map.
Qed.

#[local] Hint Rewrite len_words : len.

Ltac consts :=
  unfold handshakeReqBytes, bindReqBytes, unbindReqBytes, getIPReqBytes, statReqBytes,
    isOnlineReqBytes, disconnectCurrentReqBytes, disconnectReqBytes, pushReqBytes,
    multicastReqBytes, broadcastReqBytes, publishReqBytes, subscribeReqBytes,
    unsubscribeReqBytes, triggerReqBytes, getStateReqBytes, setStateReqBytes,
    deliverReqBytes, deliverTraceContextFixedBytes, base, at_seq,
    defaultSizeBytes, defaultHeaderBytes, defaultRouteBytes, defaultSeqBytes,
    b8, b16, b32, b64 in *.

Ltac sizes := unfold token_bytes; autorewrite with len; consts; lia.

Lemma encode_frame w seq q m :
  fresh w -> carries q m ->
  exists b, encode w seq q m = Ok b /\
            NocopyBuffer.Bytes b = Ok (frame_of (header_of q) (route_of q) seq (body_of q)).
Proof.
  intros Hw Hm. unfold body_of.
  destruct q; cbn [carries encode header_of route_of fields_of message_of] in Hm |- *.
  all: try (apply encode_plain; [done|fields|sizes]).
  all: try (apply encode_message; [done|fields|done|sizes]).
  - unfold EncodeTriggerReq. apply encode_plain; [done| |].
    + fields. by destruct (uid =? 0).
    + destruct (uid =? 0); sizes.
  - unfold EncodeGetStateReq, frame_of. rewrite !app_nil_r.
    apply frame_single; [done|]. apply appends_head.
  - unfold EncodeDeliverReqWithMetadata. fold (traced metadata) (deadline_ms metadata).
    cbv zeta. unfold trace_bytes. destruct (traced metadata).
    + apply encode_message; [done|fields|done|sizes].
    + apply encode_message; [done|fields|done|sizes].
Qed.

(** ** Decoding *)

Section Decoding.
Context (h : Z) (r : Route) (seq : Z) (fields message : list Z).
Hypothesis Hseq : inU 64 seq.
Abbreviation data := (frame_of h r seq (fields ++ message)).
Hypothesis Hfit : fits data.

Lemma decode_from_seq {A} (k : Z -> ST Reader A) v :
  reads (k seq) (fields ++ message) v ->
  st_run (let! _ := Seek at_seq SeekStart in
          let! s := ReadUint64 BigEndian in k s) (NewReader data) = Ok v.
Proof.
  intros Hk. revert Hfit. unfold frame_of, frame_head. rewrite <- !app_assoc.
  rewrite (app_assoc (put_uint BigEndian 4 _)). intros Hf.
  apply reads_seek_start; [done| |].
  - autorewrite with len. done.
  - eauto with reads.
Qed.

Lemma decode_from_header {A} (k : Z -> Z -> ST Reader A) v :
  reads (k h seq) (fields ++ message) v ->
  st_run (let! _ := Seek defaultSizeBytes SeekStart in
          let! hd := ReadUint8 in
          let! _ := Seek defaultRouteBytes SeekCurrent in
          let! s := ReadUint64 BigEndian in k hd s) (NewReader data) = Ok v.
Proof.
  intros Hk. revert Hfit. unfold frame_of, frame_head. rewrite <- !app_assoc. intros Hf.
  apply reads_seek_start; [done|by autorewrite with len|].
  change ([h; route r] ++ ?l) with ([h] ++ [route r] ++ l).
  eapply reads_bind; [apply consumes_ReadUint8|].
  apply reads_seek_current; [done|]. eauto with reads.
Qed.

Lemma with_frame {A} n (m : ST Reader A) :
  14 + len fields + len message = n -> with_len data n m = st_run m (NewReader data).
Proof.
  intros Hn. unfold with_len. rewrite len_frame_of, len_app, (proj2 (Z.eqb_eq _ _)) by lia.
  done.
Qed.

Lemma tail_of_frame off :
  off = 14 + len fields -> go_slice data off (len data) = Ok message.
Proof.
  intros ->. unfold frame_of. rewrite app_assoc. apply go_slice_tail.
  by rewrite len_app, len_frame_head.
Qed.

Lemma header_of_frame : go_index data defaultSizeBytes = Ok h.
Proof.
  unfold go_index, frame_of, frame_head. rewrite <- !app_assoc.
  assert (length (put_uint BigEndian 4 (frame_size (fields ++ message))) = 4%nat) as H4
    by apply length_put_uint.
  generalize dependent (put_uint BigEndian 4 (frame_size (fields ++ message))).
  intros l H4. autorewrite with len. unfold defaultSizeBytes.
  pose proof (len_nonneg l). pose proof (len_nonneg (fields ++ message)).
  pose proof (len_nonneg fields). pose proof (len_nonneg message).
  rewrite (proj2 (Z.ltb_lt _ _)) by (unfold len in *; lia).
  change (0 <=? 4) with true. cbn [andb].
  rewrite lookup_app_r by (rewrite H4; done). by rewrite H4.
Qed.
End Decoding.

Lemma reads_assoc {A} (m : ST Reader A) a b c v :
  reads m (a ++ b ++ c) v -> reads m ((a ++ b) ++ c) v.
Proof. by rewrite <- app_assoc. Qed.

(** What is left of a field: its range, or the size of a string or a list. *)
Ltac side :=
  try first
    [ assumption
    | unfold inU, max_alloc in *; consts;
      repeat match goal with
        |- context [wrapU ?w ?x] => rewrite (wrapU_id w x) by (unfold inU; lia)
      end;
      rewrite ?len_frame_of; autorewrite with len; lia ].

Ltac consume :=
  lazymatch goal with
  | |- consumes ReadUint8 _ _ => apply consumes_ReadUint8
  | |- consumes ReadBool _ _ => apply consumes_ReadBool
  | |- consumes (ReadUint64 _) _ _ => apply consumes_u64; side
  | |- consumes (ReadInt64 _) _ _ => apply consumes_i64; side
  | |- consumes (ReadUint16 _) _ _ => apply consumes_u16; side
  | |- consumes (ReadInt64s _ _) _ _ => apply consumes_i64s; side
  | |- consumes (ReadString _) _ _ => apply consumes_string; side
  end.

Ltac reading :=
  cbv beta; repeat apply reads_assoc;
  lazymatch goal with
  | |- reads (st_ret _) _ _ => apply reads_ret
  | |- reads (st_bind (tail_from _ _) _) _ _ =>
      eapply reads_lift; [first [eassumption|apply tail_of_frame; side]|reading]
  | |- reads (st_bind _ _) (_ ++ _) _ => eapply reads_bind; [consume|reading]
  | |- reads (st_bind _ _) _ _ => eapply reads_last; [consume|reading]
  | |- _ => idtac
  end.

Ltac decode_seq := erewrite decode_from_seq; [|done|done|reading]; try done.
Ltac decode_header := erewrite decode_from_header; [|done|done|reading]; try done.
Ltac decode_sized := rewrite with_frame by sizes; decode_seq.

Lemma disconnect_header_bit d : has_bit (disconnect_header d) disconnectBit = d.
Proof. by destruct d. Qed.

Lemma consumes_opt_string n s :
  n = len s -> consumes (if 0 <? n then ReadString n else st_ret []) s s.
Proof.
  intros ->. destruct (Z.ltb_spec 0 (len s)); [apply consumes_ReadString|].
  destruct s; [|rewrite len_cons in *; pose proof (len_nonneg s); lia].
  intros r suf Hr. by exists r.
Qed.

Lemma consumes_bind {A B} (m : ST Reader A) (k : A -> ST Reader B) e1 e2 a b :
  consumes m e1 a -> consumes (k a) e2 b -> consumes (st_bind m k) (e1 ++ e2) b.
Proof.
  intros Hm Hk r suf Hr. rewrite <- app_assoc in Hr.
  destruct (Hm r _ Hr) as (r1 & Hr1 & Hb1 & E1).
  destruct (Hk r1 _ Hr1) as (r2 & Hr2 & Hb2 & E2).
  exists r2. split; [done|]. split; [congruence|]. intros C k'.
  unfold st_bind at 1. rewrite E1. apply E2.
Qed.

Lemma consumes_last {A B} (m : ST Reader A) (k : A -> ST Reader B) enc a b :
  consumes m enc a -> consumes (k a) [] b -> consumes (st_bind m k) enc b.
Proof. intros. rewrite <- (app_nil_r enc). by eapply consumes_bind. Qed.

Lemma consumes_done {A} (v : A) : consumes (st_ret v) [] v.
Proof. intros r suf Hr. by exists r. Qed.

(** The trace context of a deliver frame, [off] being where it starts. *)
Lemma consumes_trace data off md :
  traced md = true -> 0 <= len data - off - len (trace_bytes md) ->
  consumes (decode_trace data off) (trace_bytes md)
    (Cluster.TraceParent md, Cluster.TraceState md, len (trace_bytes md)).
Proof.
  intros Ht. unfold decode_trace, trace_bytes. rewrite Ht. autorewrite with len.
  unfold traced, maxTraceContextFieldBytes in Ht. change (Z.shiftl 1 16) with 65536 in Ht.
  pose proof (len_nonneg (Cluster.TraceParent md)).
  pose proof (len_nonneg (Cluster.TraceState md)).
  destruct (Z.eqb_spec (len (Cluster.TraceParent md)) 0) as [|Hp]; [done|].
  destruct (Z.leb_spec (len (Cluster.TraceParent md)) (65536 - 1)) as [Hp1|]; [|done].
  destruct (Z.leb_spec (len (Cluster.TraceState md)) (65536 - 1)) as [Hs1|]; [|done].
  intros Hoff. consts. rewrite (proj2 (Z.ltb_ge _ (1 + 2 + 2))) by lia.
  eapply consumes_bind; [apply consumes_ReadUint8|]. cbn [negb Z.eqb].
  change (deliverTraceContextVersion =? deliverTraceContextVersion) with true. cbn [negb].
  eapply consumes_bind; [consume|]. eapply consumes_bind; [consume|].
  rewrite (proj2 (Z.eqb_neq _ _)), (proj2 (Z.ltb_ge _ _)) by lia. cbn [orb].
  eapply consumes_bind; [consume|].
  eapply consumes_last; [by apply consumes_opt_string|].
  replace (1 + 2 + 2 + (_ + _))
    with (1 + 0 + (2 + (2 + (len (Cluster.TraceParent md) + len (Cluster.TraceState md)))))
    by lia.
  apply consumes_done.
Qed.

Lemma consumes_opt_trace data off md :
  0 <= len data - off - len (trace_bytes md) ->
  consumes (if has_bit (if traced md then Z.lor dataBit traceContextBit else dataBit)
                 traceContextBit
            then decode_trace data off else st_ret ([], [], 0)) (trace_bytes md)
    (if traced md then Cluster.TraceParent md else [],
     if traced md then Cluster.TraceState md else [], len (trace_bytes md)).
Proof.
  intros Hoff. destruct (traced md) eqn:Ht.
  - by apply consumes_trace.
  - unfold trace_bytes. rewrite Ht. apply consumes_done.
Qed.

Lemma decode_deliver seq cid uid generation md message :
  let q := RDeliver cid uid generation md message in
  inU 64 seq -> request_ok q -> 14 + len (body_of q) < 2 ^ 32 ->
  fits (frame_of (header_of q) (route_of q) seq (body_of q)) ->
  decode (route_of q) (frame_of (header_of q) (route_of q) seq (body_of q))
  = Ok (seq, received q).
Proof.
  intros q Hs Hok Hlen Hf. unfold body_of in *.
  cbn [q request_ok decode header_of route_of fields_of message_of received] in *.
  destruct Hok as (? & ? & ? & ? & Hc). unfold DecodeDeliverReqWithMetadata.
  set (D := frame_of _ _ _ _) in *.
  assert (len D = 48 + len (Cluster.CorrelationID md) + len (trace_bytes md) + len message)
    as HD by (unfold D; rewrite len_frame_of; autorewrite with len; lia).
  pose proof (len_nonneg (Cluster.CorrelationID md)).
  pose proof (len_nonneg (trace_bytes md)). pose proof (len_nonneg message).
  rewrite (proj2 (Z.ltb_ge _ _)) by (consts; lia).
  subst D. erewrite decode_from_seq; [|done|done|]; last first.
  - reading. rewrite (proj2 (Z.ltb_ge _ _)) by (consts; lia).
    eapply reads_bind; [by apply consumes_opt_string|].
    eapply reads_lift; [apply header_of_frame|]. cbv beta.
    eapply reads_bind; [apply consumes_opt_trace; consts; lia|]. cbv beta iota. reading.
  - cbn [res_bind]. by destruct (deadline_ms md =? 0).
Qed.

Lemma decode_frame seq q :
  inU 64 seq -> request_ok q -> 14 + len (body_of q) < 2 ^ 32 ->
  decode (route_of q) (frame_of (header_of q) (route_of q) seq (body_of q))
  = Ok (seq, received q).
Proof.
  intros Hs Hok Hlen.
  assert (fits (frame_of (header_of q) (route_of q) seq (body_of q))) as Hf.
  { unfold fits, max_alloc. rewrite len_frame_of. lia. }
  unfold body_of in *.
  destruct q; cbn [request_ok decode header_of route_of fields_of message_of received] in *;
    try rewrite (wrapU_id 8) in * by (destruct_and?; done).
  - unfold DecodeHandshakeReq. decode_seq.
  - unfold DecodeBindReq. destruct Hok. decode_sized.
  - unfold DecodeUnbindReq. decode_sized.
  - unfold DecodeGetIPReq. destruct Hok. decode_sized.
  - unfold DecodeStatReq. decode_sized.
  - unfold DecodeIsOnlineReq. destruct Hok. decode_sized.
  - unfold DecodeDisconnectReqWithToken, DecodeDisconnectReq. destruct Hok.
    rewrite len_frame_of, (proj2 (Z.eqb_eq _ _)) by sizes. decode_sized.
  - unfold DecodeDisconnectReqWithToken. destruct Hok as (? & ? & ? & ?), token.
    rewrite len_frame_of, (proj2 (Z.eqb_neq _ _)) by sizes. unfold token_bytes in *. decode_sized.
  - unfold DecodePushReq. destruct Hok as (? & ? & ? & ?), token. unfold token_bytes in *.
    decode_header. by rewrite disconnect_header_bit.
  - unfold DecodeMulticastReq. destruct Hok as (? & ? & ?). pose proof (len_nonneg targets).
    decode_header. by rewrite disconnect_header_bit.
  - unfold DecodeBroadcastReq. decode_header. by rewrite disconnect_header_bit.
  - unfold DecodePublishReq. pose proof (len_nonneg channel).
    rewrite (wrapU_id 8) in * by (unfold inU; lia).
    decode_header. by rewrite disconnect_header_bit.
  - unfold DecodeSubscribeReq. destruct Hok as (? & ? & ?). pose proof (len_nonneg targets).
    rewrite app_nil_r, !app_assoc in *. decode_seq.
  - unfold DecodeUnsubscribeReq. destruct Hok as (? & ? & ?). pose proof (len_nonneg targets).
    rewrite app_nil_r, !app_assoc in *. decode_seq.
  - unfold DecodeTriggerReq. destruct Hok as (? & ? & ? & ?). rewrite len_frame_of.
    destruct (Z.eqb_spec uid 0) as [->|Hu].
    + rewrite (proj2 (Z.eqb_neq _ triggerReqBytes)), (proj2 (Z.eqb_eq _ _)) by sizes.
      cbn [negb andb]. decode_seq.
    + rewrite (proj2 (Z.eqb_eq _ triggerReqBytes)) by sizes. cbn [negb andb]. decode_seq.
  - unfold DecodeGetStateReq. rewrite (with_frame _ _ _ [] []) by sizes. by decode_seq.
  - unfold DecodeSetStateReq. decode_sized.
  - by apply decode_deliver.
Qed.

(** ** The codec's contract *)

Lemma header_data q : data_header (header_of q).
Proof.
  destruct q; try (by vm_compute); cbn [header_of].
  all: match goal with |- context [disconnect_header ?d] => destruct d
                     | |- context [traced ?m] => destruct (traced m) end; by vm_compute.
Qed.



(** ** Where the round trip stops *)

Lemma go_slice_from {A} (l : list A) off :
  0 <= off <= len l -> go_slice l off (len l) = Ok (drop (Z.to_nat off) l).
Proof.
  intros H. unfold go_slice. rewrite !(proj2 (Z.leb_le _ _)) by lia. cbn [andb].
  rewrite take_ge; [done|]. rewrite length_drop. unfold len in *. lia.
Qed.

Lemma wrap_below w z : 0 < w -> 2 ^ w <= z -> 0 <= wrapU w z < 2 ^ w /\ wrapU w z < z.
Proof. intros Hw Hz. pose proof (wrapU_in w z ltac:(lia)) as [? ?]. lia. Qed.

(** The length of a request whose list or name is too long for the offset the
    receiver computes, and the tail it loses. *)
Definition overlong (q : request) : Prop :=
  match q with
  | RMulticast k ts _ _ | RSubscribe k ts _ | RUnsubscribe k ts _ =>
      inU 8 k /\ Forall (inS 64) ts /\ len ts < 2 ^ 16 /\ 2 ^ 16 <= 17 + 8 * len ts
  | RPublish c _ _ => len c < 2 ^ 8 /\ 2 ^ 8 <= 15 + len c
  | _ => False
  end.

Definition tail_of (q : request) : list Z :=
  match q with
  | RSubscribe _ _ c | RUnsubscribe _ _ c => c
  | _ => message_of q
  end.

Definition with_tail (q : request) (t : list Z) : request :=
  match q with
  | RMulticast k ts d _ => RMulticast k ts d t
  | RSubscribe k ts _ => RSubscribe k ts t
  | RUnsubscribe k ts _ => RUnsubscribe k ts t
  | RPublish c d _ => RPublish c d t
  | _ => q
  end.

Section Cut.
Context (h : Z) (r : Route) (seq : Z) (fields message : list Z).
Abbreviation data := (frame_of h r seq (fields ++ message)).

Lemma cut_short off :
  0 <= off < 14 + len fields ->
  exists t, go_slice data off (len data) = Ok t /\ len message < len t.
Proof.
  intros Hoff. pose proof (len_nonneg message).
  exists (drop (Z.to_nat off) data).
  rewrite go_slice_from by (rewrite len_frame_of, len_app; lia).
  split; [done|]. unfold len at 2. rewrite length_drop.
  pose proof (len_frame_of h r seq (fields ++ message)) as Hd. rewrite len_app in Hd.
  unfold len in *. lia.
Qed.
End Cut.

Lemma wrapped_offset k n :
  0 < n -> 0 <= k -> n + k < 2 ^ 20 -> 2 ^ 16 <= n + k -> 0 <= u16 (n + u16 k) < n + k.
Proof.
  intros. unfold wrapU. rewrite Zplus_mod_idemp_r.
  pose proof (Z.mod_pos_bound (n + k) (2 ^ 16)). lia.
Qed.

(** Past the limits the round trip breaks silently: a multicast, subscribe
    or unsubscribe request with 8190 to 65535 targets, and a publish request
    with a channel name of 241 to 255 bytes, are framed correctly, but the
    receiver's offset wraps around (uint16, resp. uint8 arithmetic) and it
    takes a longer tail, starting inside the targets or the header, for the
    message or the channel. *)
Theorem overlong_request_corrupted (seq : Z) (q : request)
    (Hs : inU 64 seq) (Hq : overlong q) (Hlen : 14 + len (body_of q) < 2 ^ 32) :
  exists t, len (tail_of q) < len t /\
    decode (route_of q) (frame_of (header_of q) (route_of q) seq (body_of q))
    = Ok (seq, with_tail q t).
Proof.
  assert (fits (frame_of (header_of q) (route_of q) seq (body_of q))) as Hf.
  { unfold fits, max_alloc. rewrite len_frame_of. lia. }
  unfold body_of in *.
  destruct q as [ | | | | | | | | |k ts d msg| |c d msg|k ts c|k ts c| | | | ]; try done;
    cbn [overlong decode header_of route_of fields_of message_of tail_of with_tail] in *.
  1, 3, 4: destruct Hq as (Hk & Hts & Hn & Hw); pose proof (len_nonneg ts);
    rewrite (wrapU_id 8) in * by done;
    pose proof (wrapped_offset (8 * len ts) 17 ltac:(lia) ltac:(lia) ltac:(lia) Hw) as Hoff.
  - destruct (cut_short (disconnect_header d) Multicast seq
      ([k] ++ w2 (len ts) ++ concat (map w8 ts)) msg (u16 (17 + u16 (8 * len ts))))
      as (t & Ht & Hl); [autorewrite with len; lia|].
    exists t. split; [done|]. unfold DecodeMulticastReq.
    decode_header. by rewrite disconnect_header_bit.
  - destruct (cut_short dataBit Subscribe seq
      ([k] ++ w2 (len ts) ++ concat (map w8 ts)) c (u16 (17 + u16 (8 * len ts))))
      as (t & Ht & Hl); [autorewrite with len; lia|].
    exists t. split; [done|]. unfold DecodeSubscribeReq.
    rewrite app_nil_r, !app_assoc in *. decode_seq.
  - destruct (cut_short dataBit Unsubscribe seq
      ([k] ++ w2 (len ts) ++ concat (map w8 ts)) c (u16 (17 + u16 (8 * len ts))))
      as (t & Ht & Hl); [autorewrite with len; lia|].
    exists t. split; [done|]. unfold DecodeUnsubscribeReq.
    rewrite app_nil_r, !app_assoc in *. decode_seq.
  - pose proof (len_nonneg c). destruct Hq as [Hc Hw].
    rewrite (wrapU_id 8 (len c)) in * by (unfold inU; lia).
    destruct (cut_short (disconnect_header d) Publish seq ([len c] ++ c) msg
      (u8 (15 + len c))) as (t & Ht & Hl).
    { pose proof (wrap_below 8 (15 + len c)). autorewrite with len. lia. }
    exists t. split; [done|]. unfold DecodePublishReq. decode_header.
    by rewrite disconnect_header_bit.
Qed.

Lemma overlong_request_corrupted_witness :
  exists t, len (tail_of (RPublish (replicate 241 97) false [1])) < len t /\
    decode Publish (frame_of dataBit Publish 4 (body_of (RPublish (replicate 241 97) false [1])))
    = Ok (4, RPublish (replicate 241 97) false t).
Proof.
  apply (overlong_request_corrupted 4 (RPublish (replicate 241 97) false [1])).
  - unfold inU. lia.
  - split; vm_compute; [reflexivity|discriminate].
  - vm_compute. reflexivity.
Defined.

(** A correlation identifier longer than 65535 bytes is not rejected: its
    length field is truncated, the receiver keeps only that prefix, and the
    rest of the identifier becomes the head of the message. *)
Theorem long_correlation_leaks (seq cid uid generation : Z) (corr message : list Z)
    (Hs : inU 64 seq) (Hc : inS 64 cid) (Hu : inS 64 uid) (Hg : inU 64 generation)
    (Hlong : 2 ^ 16 <= len corr) (Hlen : 48 + len corr + len message < 2 ^ 32) :
  let q := RDeliver cid uid generation (Cluster.mkMetadata None corr [] []) message in
  let n := Z.to_nat (u16 (len corr)) in
  decode Deliver (frame_of (header_of q) Deliver seq (body_of q))
  = Ok (seq, RDeliver cid uid generation (Cluster.mkMetadata None (take n corr) [] [])
               (drop n corr ++ message)).
Proof.
  intros q n.
  set (q' := RDeliver cid uid generation (Cluster.mkMetadata None (take n corr) [] [])
               (drop n corr ++ message)).
  pose proof (wrapU_in 16 (len corr) ltac:(lia)) as Hn. unfold inU in Hn.
  assert (len (take n corr) = u16 (len corr)) as Ht.
  { unfold len in *. rewrite length_take. subst n. lia. }
  assert (body_of q = body_of q') as Hb.
  { unfold body_of, q, q'. cbn [fields_of message_of deadline_ms Cluster.Deadline
      Cluster.CorrelationID].
    rewrite Ht, put_u16. unfold trace_bytes. cbn. rewrite !app_nil_r, <- !app_assoc.
    by rewrite (app_assoc (take n corr)), take_drop. }
  rewrite Hb. apply (decode_frame seq q'); [done| |].
  - repeat split; try done; cbn [Cluster.CorrelationID]; rewrite ?Ht; try lia; apply Hc || apply Hu || apply Hg.
  - rewrite <- Hb. unfold body_of, q. cbn [fields_of message_of Cluster.CorrelationID].
    unfold trace_bytes. cbn [traced]. autorewrite with len. cbn. lia.
Qed.

Lemma long_correlation_leaks_witness :
  let q := RDeliver 1 2 3 (Cluster.mkMetadata None (replicate (Z.to_nat 65537) 7) [] []) [9] in
  let n := Z.to_nat (u16 (len (replicate (Z.to_nat 65537) 7))) in
  decode Deliver (frame_of (header_of q) Deliver 4 (body_of q))
  = Ok (4, RDeliver 1 2 3
             (Cluster.mkMetadata None (take n (replicate (Z.to_nat 65537) 7)) [] [])
             (drop n (replicate (Z.to_nat 65537) 7) ++ [9])).
Proof.
  apply (long_correlation_leaks 4 1 2 3 (replicate (Z.to_nat 65537) 7) [9]);
    unfold inU, inS; try lia; unfold len; rewrite length_replicate; simpl length; lia.
Defined.

Lemma go_slice_past {A} (l : list A) lo hi : len l < hi -> go_slice l lo hi = Panic.
Proof.
  intros H. unfold go_slice. rewrite (proj2 (Z.leb_gt hi _)) by lia. by rewrite andb_false_r.
Qed.

Lemma go_slice_not_err {A} (l : list A) lo hi e : go_slice l lo hi <> Err e.
Proof. unfold go_slice. by destruct (_ && _). Qed.

Lemma go_index_not_err {A} (l : list A) i e : go_index l i <> Err e.
Proof. unfold go_index. destruct (_ && _); [|done]. by destruct (_ !! _). Qed.

Lemma ParseBuffer_short hd h body :
  len hd = 4 -> data_header h -> len body <= 8 -> ParseBuffer (hd ++ h :: body) [] = Panic.
Proof.
  intros Hhd Hh Hb. unfold ParseBuffer. rewrite app_nil_r.
  unfold defaultSizeBytes, defaultHeaderBytes, defaultRouteBytes.
  change (h :: body) with ([h] ++ body).
  rewrite (go_slice_mid _ [h]) by (rewrite ?Hhd; done). cbn [res_bind].
  change (go_index [h] 0) with (Ok h). cbn [res_bind]. rewrite (proj2 (Z.eqb_neq _ _) Hh).
  destruct (go_slice _ (4 + 1) (4 + 1 + 1)) as [a|e|] eqn:E; cbn [res_bind];
    [|by apply go_slice_not_err in E|done].
  destruct (go_index a 0) as [b|e|] eqn:E2; cbn [res_bind];
    [|by apply go_index_not_err in E2|done].
  rewrite go_slice_past; [done|]. autorewrite with len. lia.
Qed.

(** A peer crashes the reading goroutine of the transport server with one
    short frame: a data frame that announces 1 to 9 bytes passes the size
    check, and ParseBuffer slices beyond it and panics. *)
Theorem short_frame_panics (body rest : list Z) (h : Z)
    (Hh : data_header h) (Hsz : len body <= 8) :
  ReadMessage (put_uint BigEndian 4 (1 + len body) ++ h :: body ++ rest) = (Panic, rest).
Proof.
  pose proof (len_nonneg body). unfold ReadMessage, st_bind at 1.
  rewrite (read_full_app (put_uint BigEndian 4 (1 + len body))) by (by rewrite len_put_uint).
  rewrite get_put_uint. change (8 * Z.of_nat 4) with 32. unfold defaultSizeBytes.
  rewrite (wrapU_id 32 (1 + len body)) by (unfold inU; lia).
  rewrite (proj2 (Z.eqb_neq _ _)) by lia.
  rewrite (wrapU_id 32) by (unfold inU; lia). rewrite (proj2 (Z.ltb_ge _ _)) by lia.
  change (h :: body ++ rest) with ((h :: body) ++ rest). unfold st_bind at 1.
  rewrite read_full_app by (rewrite len_cons; lia).
  unfold st_bind, st_lift. by rewrite ParseBuffer_short.
Qed.

Lemma short_frame_panics_witness :
  ReadMessage (put_uint BigEndian 4 (1 + len [Z.of_nat 2]) ++ 0 :: [Z.of_nat 2] ++ [8; 8])
  = (Panic, [8; 8]).
Proof. apply (short_frame_panics [2] [8; 8] 0); [done|vm_compute; discriminate]. Defined.
