(* ===== verification/Net.v ===== *)
(** utils/xnet/net.go: IPv4 addresses as 32-bit integers.
    IP2Long parses with net.ParseIP and To4, Long2IP prints with IP.String;
    both are written out from the standard library (net/netip). A string is the list of its bytes. *)
From stdpp Require Import base numbers list.
From Stdlib Require Import ZArith Lia.
From S2P Require Import Prelude Binary.

Open Scope Z_scope.

Module Net.

Definition dot : Z := 46.
Definition colon : Z := 58.
Definition percent : Z := 37.
Definition digit (c : Z) : bool := (48 <=? c) && (c <=? 57).

(** parseIPv4Fields: [prev] is the byte before, [val] and [digLen] the octet
    being read, [acc] the octets already read *)
Fixpoint parseIPv4Fields (s : list Z) (prev : option Z) (val digLen : Z) (acc : list Z)
    : option (list Z) :=
  match s with
  | [] => if len acc <? 3 then None else Some (acc ++ [val])
  | c :: s' =>
      if digit c then
        if (digLen =? 1) && (val =? 0) then None else
        let val := val * 10 + (c - 48) in
        if 255 <? val then None else parseIPv4Fields s' (Some c) val (digLen + 1) acc
      else if c =? dot then
        if match prev with None => true | Some p => p =? dot end
           || match s' with [] => true | _ => false end
        then None
        else if len acc =? 3 then None
        else parseIPv4Fields s' (Some c) 0 0 (acc ++ [val])
      else None
  end.

Definition parseIPv4 (s : list Z) : option (list Z) := parseIPv4Fields s None 0 0 [].

Definition hex (c : Z) : option Z :=
  if digit c then Some (c - 48)
  else if (97 <=? c) && (c <=? 102) then Some (c - 97 + 10)
  else if (65 <=? c) && (c <=? 70) then Some (c - 65 + 10)
  else None.

(** One group of hex digits: its value, its number of digits and the rest;
    None is the error of a fifth digit *)
Fixpoint hex_group (s : list Z) (off acc : Z) : option (Z * Z * list Z) :=
  match s with
  | [] => Some (acc, off, [])
  | c :: s' => match hex c with
               | None => Some (acc, off, s)
               | Some d => if 3 <? off then None else hex_group s' (off + 1) (acc * 16 + d)
               end
  end.

(** The loop of parseIPv6: [ip] is what is filled, [ellipsis] where "::" stood *)
Fixpoint parse_groups (fuel : nat) (s : list Z) (ip : list Z) (ellipsis : option Z)
    : option (list Z * option Z * list Z) :=
  match fuel with
  | O => Some (ip, ellipsis, s)
  | S fuel =>
      match hex_group s 0 0 with
      | None => None
      | Some (acc, off, rest) =>
          if off =? 0 then None else
          if match rest with c :: _ => c =? dot | [] => false end then
            if match ellipsis with None => negb (len ip =? 12) | Some _ => false end then None
            else if 16 <? len ip + 4 then None
            else match parseIPv4 s with
                 | None => None
                 | Some v4 => Some (ip ++ v4, ellipsis, [])
                 end
          else
            let ip := ip ++ [Z.shiftr acc 8; u8 acc] in
            match rest with
            | [] => Some (ip, ellipsis, [])
            | c :: rest =>
                if negb (c =? colon) then None else
                match rest with
                | [] => None
                | c2 :: rest2 =>
                    if c2 =? colon then
                      match ellipsis with
                      | Some _ => None
                      | None =>
                          match rest2 with
                          | [] => Some (ip, Some (len ip), [])
                          | _ => parse_groups fuel rest2 ip (Some (len ip))
                          end
                      end
                    else parse_groups fuel rest ip ellipsis
                end
            end
      end
  end.

(** s[:i] and s[i+1:] at the first '%' *)
Fixpoint cut_zone (s : list Z) : list Z * option (list Z) :=
  match s with
  | [] => ([], None)
  | c :: s' => if c =? percent then ([], Some s')
               else let '(a, z) := cut_zone s' in (c :: a, z)
  end.

(** parseIPv6: the 16 bytes, and whether there is a zone.  The loop runs at
    most 8 times: every round fills two bytes or ends it. *)
Definition parseIPv6 (s : list Z) : option (list Z * bool) :=
  let '(s, zone) := cut_zone s in
  if match zone with Some [] => true | _ => false end then None else
  let has_zone := match zone with Some _ => true | None => false end in
  let '(s, ellipsis) := match s with
                        | c :: d :: s' => if (c =? colon) && (d =? colon)
                                          then (s', Some 0) else (s, None)
                        | _ => (s, None)
                        end in
  if match s with [] => match ellipsis with Some _ => true | None => false end
               | _ => false end
  then Some (replicate 16 0, has_zone) else
  match parse_groups 8 s [] ellipsis with
  | None => None
  | Some (ip, ellipsis, rest) =>
      match rest with
      | _ :: _ => None
      | [] =>
          if len ip <? 16 then
            match ellipsis with
            | None => None
            | Some e => Some (take (Z.to_nat e) ip
                              ++ replicate (16 - length ip) 0
                              ++ drop (Z.to_nat e) ip, has_zone)
            end
          else match ellipsis with Some _ => None | None => Some (ip, has_zone) end
      end
  end.

(** net.ParseIP: the first '.', ':' or '%' decides; a zone is not accepted.
    The result has its 4 or 16 significant bytes. *)
Fixpoint family (s : list Z) : option Z :=
  match s with
  | [] => None
  | c :: s' => if (c =? dot) || (c =? colon) || (c =? percent) then Some c else family s'
  end.

Definition ParseIP (s : list Z) : option (list Z) :=
  match family s with
  | Some c => if c =? dot then parseIPv4 s
              else if c =? colon then
                match parseIPv6 s with Some (ip, false) => Some ip | _ => None end
              else None
  | None => None
  end.

(** To4: an IPv4 address, also one mapped into IPv6 (::ffff:a.b.c.d) *)
Definition To4 (ip : option (list Z)) : list Z :=
  match ip with
  | None => []
  | Some ip => if len ip =? 4 then ip
               else if (len ip =? 16)
                       && bool_decide (take 12 ip = replicate 10 0 ++ [255; 255])
                    then drop 12 ip
               else []
  end.

Definition IP2Long (ip : list Z) : Z :=
  let v := To4 (ParseIP ip) in
  if len v =? 0 then 0 else get_uint BigEndian v.

(** The decimal digits of an octet *)
Definition octet (v : Z) : list Z :=
  if v <? 10 then [48 + v]
  else if v <? 100 then [48 + v / 10; 48 + v mod 10]
  else [48 + v / 100; 48 + (v / 10) mod 10; 48 + v mod 10].

Definition ip_string (ip : list Z) : list Z :=
  match ip with
  | [] => []
  | a :: ip => octet a ++ flat_map (fun b => dot :: octet b) ip
  end.

Definition Long2IP (v : Z) : list Z := ip_string (put_uint BigEndian 4 v).

End Net.
Import Net.

Example parse_v4 : IP2Long [49; 46; 50; 46; 51; 46; 52] = 16909060.
Proof. reflexivity. Qed.
Example parse_v6 : To4 (ParseIP [58; 58; 102; 102; 102; 102; 58; 49; 46; 50; 46; 51; 46; 52])
  = [1; 2; 3; 4].
Proof. reflexivity. Qed.
Example parse_loop : ParseIP [58; 58; 49] = Some (replicate 15 0 ++ [1]).
Proof. reflexivity. Qed.

(** ** Dotted decimal is read back *)

Lemma octet_digits v : 0 <= v < 256 -> Forall (fun c => 48 <= c <= 57) (octet v).
Proof.
  intros H. unfold octet. destruct (Z.ltb_spec v 10); [repeat constructor; lia|].
  destruct (Z.ltb_spec v 100); repeat constructor; try lia;
    Z.to_euclidean_division_equations; lia.
Qed.

Lemma digit_true c : 48 <= c <= 57 -> digit c = true.
Proof. intros. unfold digit. by rewrite !(proj2 (Z.leb_le _ _)) by lia. Qed.

(** Reading an octet's digits leaves its value in [val]. *)
Lemma parse_octet v s prev acc :
  0 <= v < 256 -> exists p d, digit p = true /\
  parseIPv4Fields (octet v ++ s) prev 0 0 acc = parseIPv4Fields s (Some p) v d acc.
Proof.
  intros Hv. unfold octet.
  destruct (Z.ltb_spec v 10); [|destruct (Z.ltb_spec v 100)]; cbn [app parseIPv4Fields];
    rewrite !digit_true by (Z.to_euclidean_division_equations; lia).
  - exists (48 + v), 1. rewrite (proj2 (Z.ltb_ge _ _)) by lia.
    split; [apply digit_true; lia|]. cbn [Z.eqb andb]. f_equal; lia.
  - exists (48 + v mod 10), 2.
    assert (v = 10 * (v / 10) + v mod 10) as E by (apply Z.div_mod; lia).
    assert (1 <= v / 10 <= 9 /\ 0 <= v mod 10 <= 9) as [? ?]
      by (Z.to_euclidean_division_equations; lia).
    generalize dependent (v mod 10). generalize dependent (v / 10). intros a Ha b E Hb.
    split; [apply digit_true; lia|]. cbn [Z.eqb andb].
    rewrite !(proj2 (Z.ltb_ge _ _)), (proj2 (Z.eqb_neq _ 0)), andb_false_r by lia.
    f_equal; lia.
  - exists (48 + v mod 10), 3.
    assert (v = 100 * (v / 100) + 10 * ((v / 10) mod 10) + v mod 10) as E
      by (Z.to_euclidean_division_equations; lia).
    assert (1 <= v / 100 <= 2 /\ 0 <= (v / 10) mod 10 <= 9 /\ 0 <= v mod 10 <= 9)
      as (? & ? & ?) by (Z.to_euclidean_division_equations; lia).
    generalize dependent (v mod 10). generalize dependent ((v / 10) mod 10).
    generalize dependent (v / 100). intros a Ha b Hb c E Hc.
    split; [apply digit_true; lia|]. cbn [Z.eqb andb].
    rewrite !(proj2 (Z.ltb_ge _ _)), !(proj2 (Z.eqb_neq _ 0)), !andb_false_r by lia.
    f_equal; lia.
Qed.

Lemma digit_dot p : digit p = true -> (p =? dot) = false.
Proof. unfold digit, dot. intros H. apply Z.eqb_neq. lia. Qed.

(** A dot after an octet stores it. *)
Lemma parse_dot s p v d acc :
  s <> [] -> digit p = true -> len acc <> 3 ->
  parseIPv4Fields (dot :: s) (Some p) v d acc = parseIPv4Fields s (Some dot) 0 0 (acc ++ [v]).
Proof.
  intros Hs Hp Ha. cbn [parseIPv4Fields]. change (digit dot) with false. cbn iota.
  rewrite Z.eqb_refl, (digit_dot p Hp), (proj2 (Z.eqb_neq _ _) Ha). by destruct s.
Qed.

Lemma octet_nonnil v : octet v <> [].
Proof. unfold octet. by destruct (v <? 10), (v <? 100). Qed.

Lemma parse_dotted a b c d :
  0 <= a < 256 -> 0 <= b < 256 -> 0 <= c < 256 -> 0 <= d < 256 ->
  parseIPv4 (ip_string [a; b; c; d]) = Some [a; b; c; d].
Proof.
  intros Ha Hb Hc Hd. unfold parseIPv4, ip_string. cbn [flat_map app].
  assert (forall v (s : list Z), octet v ++ s <> []) as Hn
    by (intros v s; pose proof (octet_nonnil v); by destruct (octet v)).
  destruct (parse_octet a (dot :: octet b ++ dot :: octet c ++ dot :: octet d ++ []) None [] Ha)
    as (p1 & d1 & Hp1 & ->). rewrite parse_dot by done.
  edestruct (parse_octet b) as (p2 & d2 & Hp2 & ->); [done|]. rewrite parse_dot by done.
  edestruct (parse_octet c) as (p3 & d3 & Hp3 & ->); [done|]. rewrite parse_dot by done.
  edestruct (parse_octet d) as (p4 & d4 & Hp4 & ->); [done|]. done.
Qed.

(** The first separator of a dotted address is a dot. *)
Lemma family_dotted l s : Forall (fun c => 48 <= c <= 57) l -> family (l ++ dot :: s) = Some dot.
Proof.
  induction 1 as [|c l Hc _ IH]; [done|]. cbn [app family].
  rewrite !(proj2 (Z.eqb_neq _ _)) by (unfold dot, colon, percent; lia). done.
Qed.

Lemma IP2Long_dotted a b c d :
  0 <= a < 256 -> 0 <= b < 256 -> 0 <= c < 256 -> 0 <= d < 256 ->
  IP2Long (ip_string [a; b; c; d]) = get_uint BigEndian [a; b; c; d].
Proof.
  intros Ha Hb Hc Hd. unfold IP2Long, ParseIP.
  rewrite parse_dotted by done. unfold ip_string. cbn [flat_map app].
  rewrite family_dotted by (by apply octet_digits). done.
Qed.

Lemma put_uint_4 v : exists a b c d,
  put_uint BigEndian 4 v = [a; b; c; d] /\
  0 <= a < 256 /\ 0 <= b < 256 /\ 0 <= c < 256 /\ 0 <= d < 256.
Proof.
  pose proof (put_uint_range BigEndian 4 v) as H. unfold put_uint in *. cbn [be_bytes] in *.
  do 4 eexists. split; [reflexivity|]. by decompose_Forall_hyps.
Qed.

Lemma IP2Long_Long2IP v : inU 32 v -> IP2Long (Long2IP v) = v.
Proof.
  intros Hv. unfold Long2IP. destruct (put_uint_4 v) as (a & b & c & d & E & Ha & Hb & Hc & Hd).
  rewrite E, IP2Long_dotted, <- E, get_put_uint by done. by apply wrapU_id.
Qed.

(** IPv4 addresses survive the 32-bit encoding of the GetIP answer: the
    dotted form of any four octets is parsed to a 32-bit value that prints as
    the same text, and every 32-bit value is recovered from its text. *)
Theorem ip_roundtrip (a b c d v : Z)
    (Ha : inU 8 a) (Hb : inU 8 b) (Hc : inU 8 c) (Hd : inU 8 d) (Hv : inU 32 v) :
  inU 32 (IP2Long (ip_string [a; b; c; d])) /\
  Long2IP (IP2Long (ip_string [a; b; c; d])) = ip_string [a; b; c; d] /\
  IP2Long (Long2IP v) = v.
Proof.
  unfold inU in Ha, Hb, Hc, Hd. change (2 ^ 8) with 256 in *.
  assert (Forall is_byte [a; b; c; d]) as Hr by (repeat constructor; unfold is_byte; lia).
  rewrite IP2Long_dotted by done. split; [by apply (get_uint_range BigEndian) in Hr|].
  split; [|by apply IP2Long_Long2IP]. unfold Long2IP.
  f_equal. exact (put_get_uint BigEndian [a; b; c; d] Hr).
Qed.

Lemma ip_roundtrip_witness :
  inU 32 (IP2Long (ip_string [192; 168; 0; 255])) /\
  Long2IP (IP2Long (ip_string [192; 168; 0; 255])) = ip_string [192; 168; 0; 255] /\
  IP2Long (Long2IP 16909060) = 16909060.
Proof. apply (ip_roundtrip 192 168 0 255 16909060); unfold inU; lia. Defined.
