(* ===== verification/Responses.v ===== *)
(** internal/transporter/internal/protocol: the response codecs.
    Encode functions take the writer the pool handed out; a variadic total or
    address is the list of the arguments given. *)
From stdpp Require Import base numbers list.
From Stdlib Require Import ZArith Lia.
From S2P Require Import Prelude Binary Types Reader Writer Nocopy Packet Protocol Requests Net.
Import Reader.Reader Protocol.Protocol Requests.Requests.
Import Writer.Writer (WriteUint8s, WriteUint16s, WriteUint32s, WriteUint64s, WriteBools).

Open Scope Z_scope.
Open Scope go_scope.

Module Responses.

Definition bindResBytes : Z := base + defaultCodeBytes.
Definition unbindResBytes : Z := base + defaultCodeBytes.
Definition disconnectResBytes : Z := base + defaultCodeBytes.
Definition pushResBytes : Z := base + defaultCodeBytes.
Definition subscribeResBytes : Z := base + defaultCodeBytes.
Definition unsubscribeResBytes : Z := base + defaultCodeBytes.
Definition triggerResBytes : Z := base + defaultCodeBytes.
Definition deliverResBytes : Z := base + defaultCodeBytes.
Definition setStateResBytes : Z := base + defaultCodeBytes.
Definition handshakeResBytes : Z := base + defaultCodeBytes.
Definition statResBytes : Z := base + defaultCodeBytes + b64.
Definition multicastResBytes : Z := base + defaultCodeBytes + b64.
Definition broadcastResBytes : Z := base + defaultCodeBytes + b64.
Definition publishResBytes : Z := base + defaultCodeBytes + b64.
Definition getIPResBytes : Z := base + defaultCodeBytes + b32.
Definition isOnlineResBytes : Z := base + defaultCodeBytes + b8.
Definition getStateResBytes : Z := base + defaultCodeBytes + b8.

(** len(xs) > 0 && xs[0] != 0 *)
Definition nonzero_first (xs : list Z) : option Z :=
  match xs with
  | [] => None
  | x :: _ => if x =? 0 then None else Some x
  end.

(** len(ip) > 0 && ip[0] != "" *)
Definition nonempty_first (ip : list (list Z)) : option (list Z) :=
  match ip with
  | [] | [] :: _ => None
  | x :: _ => Some x
  end.

Section Encode.
Context (w : Writer.Writer.Writer).

Definition EncodeBindRes (seq code : Z) : res nbuf :=
  frame (write_head (bindResBytes - defaultSizeBytes) dataBit Bind seq ;;;
         WriteUint16s BigEndian [code]) w [].

Definition EncodeUnbindRes (seq code : Z) : res nbuf :=
  frame (write_head (unbindResBytes - defaultSizeBytes) dataBit Unbind seq ;;;
         WriteUint16s BigEndian [code]) w [].

Definition EncodeDisconnectRes (seq code : Z) : res nbuf :=
  frame (write_head (disconnectResBytes - defaultSizeBytes) dataBit Disconnect seq ;;;
         WriteUint16s BigEndian [code]) w [].

Definition EncodePushRes (seq code : Z) : res nbuf :=
  frame (write_head (pushResBytes - defaultSizeBytes) dataBit Push seq ;;;
         WriteUint16s BigEndian [code]) w [].

Definition EncodeSubscribeRes (seq code : Z) : res nbuf :=
  frame (write_head (subscribeResBytes - defaultSizeBytes) dataBit Subscribe seq ;;;
         WriteUint16s BigEndian [code]) w [].

Definition EncodeUnsubscribeRes (seq code : Z) : res nbuf :=
  frame (write_head (unsubscribeResBytes - defaultSizeBytes) dataBit Unsubscribe seq ;;;
         WriteUint16s BigEndian [code]) w [].

Definition EncodeTriggerRes (seq code : Z) : res nbuf :=
  frame (write_head (triggerResBytes - defaultSizeBytes) dataBit Trigger seq ;;;
         WriteUint16s BigEndian [code]) w [].

Definition EncodeDeliverRes (seq code : Z) : res nbuf :=
  frame (write_head (deliverResBytes - defaultSizeBytes) dataBit Deliver seq ;;;
         WriteUint16s BigEndian [code]) w [].

Definition EncodeSetStateRes (seq code : Z) : res nbuf :=
  frame (write_head (setStateResBytes - defaultSizeBytes) dataBit SetState seq ;;;
         WriteUint16s BigEndian [code]) w [].

Definition EncodeHandshakeRes (seq code : Z) : res nbuf :=
  frame (write_head (handshakeResBytes - defaultSizeBytes) dataBit Handshake seq ;;;
         WriteUint16s BigEndian [code]) w [].

Definition EncodeStatRes (seq code : Z) (total : list Z) : res nbuf :=
  let size := statResBytes - defaultSizeBytes in
  let size := if negb (code =? OK) then size - b64
              else match nonzero_first total with None => size - b64 | Some _ => size end in
  frame (write_head size dataBit Stat seq ;;;
         WriteUint16s BigEndian [code] ;;;
         (if code =? OK
          then match nonzero_first total with
               | Some t => WriteUint64s BigEndian [t]
               | None => st_ret tt
               end
          else st_ret tt)) w [].

Definition EncodeMulticastRes (seq code : Z) (total : list Z) : res nbuf :=
  let size := multicastResBytes - defaultSizeBytes in
  let size := if negb (code =? OK) then size - b64
              else match nonzero_first total with None => size - b64 | Some _ => size end in
  frame (write_head size dataBit Multicast seq ;;;
         WriteUint16s BigEndian [code] ;;;
         (if code =? OK
          then match nonzero_first total with
               | Some t => WriteUint64s BigEndian [t]
               | None => st_ret tt
               end
          else st_ret tt)) w [].

Definition EncodeBroadcastRes (seq code : Z) (total : list Z) : res nbuf :=
  let size := broadcastResBytes - defaultSizeBytes in
  let size := if negb (code =? OK) then size - b64
              else match nonzero_first total with None => size - b64 | Some _ => size end in
  frame (write_head size dataBit Broadcast seq ;;;
         WriteUint16s BigEndian [code] ;;;
         (if code =? OK
          then match nonzero_first total with
               | Some t => WriteUint64s BigEndian [t]
               | None => st_ret tt
               end
          else st_ret tt)) w [].

Definition EncodePublishRes (seq code : Z) (total : list Z) : res nbuf :=
  frame (write_head (publishResBytes - defaultSizeBytes) dataBit Publish seq ;;;
         WriteUint16s BigEndian [code] ;;;
         (if code =? OK
          then match nonzero_first total with
               | Some t => WriteUint64s BigEndian [t]
               | None => st_ret tt
               end
          else st_ret tt)) w [].

Definition EncodeGetIPRes (seq code : Z) (ip : list (list Z)) : res nbuf :=
  let size := getIPResBytes - defaultSizeBytes in
  let size := if negb (code =? OK) then size - 4
              else match nonempty_first ip with None => size - 4 | Some _ => size end in
  frame (write_head size dataBit GetIP seq ;;;
         WriteUint16s BigEndian [code] ;;;
         (if code =? OK
          then match nonempty_first ip with
               | Some a => WriteUint32s BigEndian [Net.Net.IP2Long a]
               | None => st_ret tt
               end
          else st_ret tt)) w [].

Definition EncodeIsOnlineRes (seq code : Z) (isOnline : bool) : res nbuf :=
  frame (write_head (isOnlineResBytes - defaultSizeBytes) dataBit IsOnline seq ;;;
         WriteUint16s BigEndian [code] ;;; WriteBools [isOnline]) w [].

Definition EncodeGetStateRes (seq code state : Z) : res nbuf :=
  frame (write_head (getStateResBytes - defaultSizeBytes) dataBit GetState seq ;;;
         WriteUint16s BigEndian [code] ;;; WriteUint8s [u8 state]) w [].
End Encode.

(** ** Decoders *)

Definition DecodeBindRes (data : list Z) : res Z :=
  with_len data bindResBytes
    (let! _ := Seek (- defaultCodeBytes) SeekEnd in
     let! code := ReadUint16 BigEndian in
     st_ret code).

Definition DecodeUnbindRes (data : list Z) : res Z :=
  with_len data unbindResBytes
    (let! _ := Seek (- defaultCodeBytes) SeekEnd in
     let! code := ReadUint16 BigEndian in
     st_ret code).

Definition DecodeDisconnectRes (data : list Z) : res Z :=
  with_len data bindResBytes
    (let! _ := Seek (- defaultCodeBytes) SeekEnd in
     let! code := ReadUint16 BigEndian in
     st_ret code).

Definition DecodePushRes (data : list Z) : res Z :=
  with_len data pushResBytes
    (let! _ := Seek (- defaultCodeBytes) SeekEnd in
     let! code := ReadUint16 BigEndian in
     st_ret code).

Definition DecodeSubscribeRes (data : list Z) : res Z :=
  with_len data subscribeResBytes
    (let! _ := Seek (- defaultCodeBytes) SeekEnd in
     let! code := ReadUint16 BigEndian in
     st_ret code).

Definition DecodeUnsubscribeRes (data : list Z) : res Z :=
  with_len data unsubscribeResBytes
    (let! _ := Seek (- defaultCodeBytes) SeekEnd in
     let! code := ReadUint16 BigEndian in
     st_ret code).

Definition DecodeTriggerRes (data : list Z) : res Z :=
  with_len data triggerResBytes
    (let! _ := Seek (- defaultCodeBytes) SeekEnd in
     let! code := ReadUint16 BigEndian in
     st_ret code).

Definition DecodeDeliverRes (data : list Z) : res Z :=
  with_len data deliverResBytes
    (let! _ := Seek (- defaultCodeBytes) SeekEnd in
     let! code := ReadUint16 BigEndian in
     st_ret code).

Definition DecodeSetStateRes (data : list Z) : res Z :=
  with_len data setStateResBytes
    (let! _ := Seek (- defaultCodeBytes) SeekEnd in
     let! code := ReadUint16 BigEndian in
     st_ret code).

Definition DecodeHandshakeRes (data : list Z) : res Z :=
  with_len data handshakeResBytes
    (let! _ := Seek (- defaultCodeBytes) SeekEnd in
     let! code := ReadUint16 BigEndian in
     st_ret code).

Definition DecodeMulticastRes (data : list Z) : res (Z * Z) :=
  if negb (len data =? multicastResBytes) && negb (len data =? multicastResBytes - b64)
  then Err ErrInvalidMessage
  else
    st_run (let! _ := Seek base SeekStart in
            let! code := ReadUint16 BigEndian in
            if (code =? OK) && (len data =? multicastResBytes) then
              let! total := ReadUint64 BigEndian in
              st_ret (code, total)
            else st_ret (code, 0)) (NewReader data).

Definition DecodeBroadcastRes (data : list Z) : res (Z * Z) :=
  if negb (len data =? broadcastResBytes) && negb (len data =? broadcastResBytes - b64)
  then Err ErrInvalidMessage
  else
    st_run (let! _ := Seek base SeekStart in
            let! code := ReadUint16 BigEndian in
            if (code =? OK) && (len data =? broadcastResBytes) then
              let! total := ReadUint64 BigEndian in
              st_ret (code, total)
            else st_ret (code, 0)) (NewReader data).

Definition DecodePublishRes (data : list Z) : res (Z * Z) :=
  if negb (len data =? publishResBytes) && negb (len data =? publishResBytes - b64)
  then Err ErrInvalidMessage
  else
    st_run (let! _ := Seek base SeekStart in
            let! code := ReadUint16 BigEndian in
            if (code =? OK) && (len data =? publishResBytes) then
              let! total := ReadUint64 BigEndian in
              st_ret (code, total)
            else st_ret (code, 0)) (NewReader data).

(** code is a named result the function never assigns. *)
Definition DecodeStatRes (data : list Z) : res (Z * Z) :=
  if negb (len data =? statResBytes) && negb (len data =? statResBytes - 8)
  then Err ErrInvalidMessage
  else
    st_run (let! _ := Seek base SeekStart in
            if len data =? statResBytes then
              let! total := ReadUint64 BigEndian in
              st_ret (0, total)
            else st_ret (0, 0)) (NewReader data).

Definition DecodeGetIPRes (data : list Z) : res (Z * list Z) :=
  if negb (len data =? getIPResBytes) && negb (len data =? getIPResBytes - 4)
  then Err ErrInvalidMessage
  else
    st_run (let! _ := Seek base SeekStart in
            let! code := ReadUint16 BigEndian in
            if (code =? OK) && (len data =? getIPResBytes) then
              let! v := ReadUint32 BigEndian in
              st_ret (code, Net.Net.Long2IP v)
            else st_ret (code, [])) (NewReader data).

Definition DecodeIsOnlineRes (data : list Z) : res (Z * bool) :=
  with_len data isOnlineResBytes
    (let! _ := Seek base SeekStart in
     let! code := ReadUint16 BigEndian in
     let! isOnline := ReadBool in
     st_ret (code, isOnline)).

Definition DecodeGetStateRes (data : list Z) : res (Z * Z) :=
  with_len data getStateResBytes
    (let! _ := Seek base SeekStart in
     let! code := ReadUint16 BigEndian in
     let! status := ReadUint8 in
     st_ret (code, status)).

End Responses.
