(* ===== verification/ResponseCodec.v ===== *)
(** The response codecs of internal/transporter/internal/protocol, taken together:
    one type of responses, the codec of each, and the theorems that relate them
    to the frames of Protocol. *)
From stdpp Require Import base numbers list.
From Stdlib Require Import ZArith Lia.
From S2P Require Import Prelude Binary Types Reader Writer Nocopy Packet Protocol Requests.
From S2P Require Import RequestCodec Net Responses.
Import Reader.Reader Protocol.Protocol Requests.Requests Responses.Responses Net.Net.

Open Scope Z_scope.
Open Scope go_scope.

Inductive response :=
| SBind (code : Z)
| SUnbind (code : Z)
| SDisconnect (code : Z)
| SPush (code : Z)
| SSubscribe (code : Z)
| SUnsubscribe (code : Z)
| STrigger (code : Z)
| SDeliver (code : Z)
| SSetState (code : Z)
| SHandshake (code : Z)
| SStat (code total : Z)
| SMulticast (code total : Z)
| SBroadcast (code total : Z)
| SPublish (code total : Z)
| SGetIP (code : Z) (ip : list Z)
| SIsOnline (code : Z) (isOnline : bool)
| SGetState (code state : Z).

Definition res_route (p : response) : Route :=
  match p with
  | SBind _ => Bind
  | SUnbind _ => Unbind
  | SDisconnect _ => Disconnect
  | SPush _ => Push
  | SSubscribe _ => Subscribe
  | SUnsubscribe _ => Unsubscribe
  | STrigger _ => Trigger
  | SDeliver _ => Deliver
  | SSetState _ => SetState
  | SHandshake _ => Handshake
  | SStat _ _ => Stat
  | SMulticast _ _ => Multicast
  | SBroadcast _ _ => Broadcast
  | SPublish _ _ => Publish
  | SGetIP _ _ => GetIP
  | SIsOnline _ _ => IsOnline
  | SGetState _ _ => GetState
  end.

Definition encode_res (w : Writer.Writer.Writer) (seq : Z) (p : response) : res nbuf :=
  match p with
  | SBind c => EncodeBindRes w seq c
  | SUnbind c => EncodeUnbindRes w seq c
  | SDisconnect c => EncodeDisconnectRes w seq c
  | SPush c => EncodePushRes w seq c
  | SSubscribe c => EncodeSubscribeRes w seq c
  | SUnsubscribe c => EncodeUnsubscribeRes w seq c
  | STrigger c => EncodeTriggerRes w seq c
  | SDeliver c => EncodeDeliverRes w seq c
  | SSetState c => EncodeSetStateRes w seq c
  | SHandshake c => EncodeHandshakeRes w seq c
  | SStat c t => EncodeStatRes w seq c [t]
  | SMulticast c t => EncodeMulticastRes w seq c [t]
  | SBroadcast c t => EncodeBroadcastRes w seq c [t]
  | SPublish c t => EncodePublishRes w seq c [t]
  | SGetIP c t => EncodeGetIPRes w seq c [t]
  | SIsOnline c t => EncodeIsOnlineRes w seq c t
  | SGetState c t => EncodeGetStateRes w seq c t
  end.

(** The decoder the caller of a route uses *)
Definition decode_res (r : Route) (data : list Z) : res response :=
  match r with
  | Bind => do c <- DecodeBindRes data; Ok (SBind c)
  | Unbind => do c <- DecodeUnbindRes data; Ok (SUnbind c)
  | Disconnect => do c <- DecodeDisconnectRes data; Ok (SDisconnect c)
  | Push => do c <- DecodePushRes data; Ok (SPush c)
  | Subscribe => do c <- DecodeSubscribeRes data; Ok (SSubscribe c)
  | Unsubscribe => do c <- DecodeUnsubscribeRes data; Ok (SUnsubscribe c)
  | Trigger => do c <- DecodeTriggerRes data; Ok (STrigger c)
  | Deliver => do c <- DecodeDeliverRes data; Ok (SDeliver c)
  | SetState => do c <- DecodeSetStateRes data; Ok (SSetState c)
  | Handshake => do c <- DecodeHandshakeRes data; Ok (SHandshake c)
  | Stat => do (c, t) <- DecodeStatRes data; Ok (SStat c t)
  | Multicast => do (c, t) <- DecodeMulticastRes data; Ok (SMulticast c t)
  | Broadcast => do (c, t) <- DecodeBroadcastRes data; Ok (SBroadcast c t)
  | Publish => do (c, t) <- DecodePublishRes data; Ok (SPublish c t)
  | GetIP => do (c, t) <- DecodeGetIPRes data; Ok (SGetIP c t)
  | IsOnline => do (c, t) <- DecodeIsOnlineRes data; Ok (SIsOnline c t)
  | GetState => do (c, t) <- DecodeGetStateRes data; Ok (SGetState c t)
  end.

(** ** What the wire carries *)

Definition total_bytes (code total : Z) : list Z :=
  if (code =? OK) && negb (total =? 0) then w8 total else [].

Definition res_code (p : response) : Z :=
  match p with
  | SBind c | SUnbind c | SDisconnect c | SPush c | SSubscribe c
  | SUnsubscribe c | STrigger c | SDeliver c | SSetState c | SHandshake c
  | SStat c _ | SMulticast c _ | SBroadcast c _ | SPublish c _ | SGetIP c _ | SIsOnline c _ | SGetState c _ => c
  end.

Definition res_body (p : response) : list Z :=
  w2 (res_code p) ++
  match p with
  | SStat c t | SMulticast c t | SBroadcast c t | SPublish c t => total_bytes c t
  | SGetIP c ip => if (c =? OK) && negb (len ip =? 0)
                   then put_uint BigEndian 4 (IP2Long ip) else []
  | SIsOnline _ b => [if b : bool then 1 else 0]
  | SGetState _ s => [u8 s]
  | _ => []
  end.

(** What the caller gets: no total and no address unless the code is OK *)
Definition res_received (p : response) : response :=
  match p with
  | SMulticast c t => SMulticast c (if c =? OK then t else 0)
  | SBroadcast c t => SBroadcast c (if c =? OK then t else 0)
  | SPublish c t => SPublish c (if c =? OK then t else 0)
  | SGetIP c ip => SGetIP c (if (c =? OK) && negb (len ip =? 0)
                             then Long2IP (IP2Long ip) else [])
  | _ => p
  end.

(** The parameters fit their Go types.  Excluded are the answers with a
    faulty codec: any stat answer but (OK, 0), and a publish answer without
    a total. *)
Definition response_ok (p : response) : Prop :=
  inU 16 (res_code p) /\
  match p with
  | SStat c t => c = OK /\ t = 0
  | SPublish c t => c = OK /\ t <> 0 /\ inU 64 t
  | SMulticast _ t | SBroadcast _ t => inU 64 t
  | SGetState _ s => inU 8 s
  | _ => True
  end.

Ltac res_consts :=
  unfold getIPResBytes, isOnlineResBytes, getStateResBytes, bindResBytes, unbindResBytes, disconnectResBytes, pushResBytes, subscribeResBytes, unsubscribeResBytes, triggerResBytes, deliverResBytes, setStateResBytes, handshakeResBytes, statResBytes, multicastResBytes, broadcastResBytes, publishResBytes, defaultCodeBytes in *; consts.

Ltac res_sizes := autorewrite with len; res_consts; lia.

Lemma encode_res_frame w seq p :
  fresh w -> response_ok p ->
  exists b, encode_res w seq p = Ok b /\
            NocopyBuffer.Bytes b = Ok (frame_of dataBit (res_route p) seq (res_body p)).
Proof.
  intros Hw [_ Hok]. rewrite <- (app_nil_r (res_body p)).
  destruct p; cbn [encode_res res_route res_body res_code] in *.
  all: try (rewrite app_nil_r; apply encode_plain; [done|fields|res_sizes]).
  all: unfold res_body, total_bytes; cbn [res_code].
  6, 7: apply encode_plain; [done|fields|res_sizes].
  - unfold EncodeStatRes, nonzero_first. destruct Hok as [-> ->].
    change (OK =? OK) with true. change (0 =? 0) with true. cbn [negb andb]. cbv iota zeta.
    apply encode_plain; [done|fields|res_sizes].
  - unfold EncodeMulticastRes, nonzero_first.
    destruct (code =? OK), (total =? 0); cbn [negb andb]; cbv iota zeta;
      (apply encode_plain; [done|fields|res_sizes]).
  - unfold EncodeBroadcastRes, nonzero_first.
    destruct (code =? OK), (total =? 0); cbn [negb andb]; cbv iota zeta;
      (apply encode_plain; [done|fields|res_sizes]).
  - unfold EncodePublishRes, nonzero_first. destruct Hok as (-> & Ht & _).
    rewrite (proj2 (Z.eqb_neq _ _) Ht).
    change (OK =? OK) with true. cbn [negb andb]. cbv iota. apply encode_plain; [done|fields|res_sizes].
  - unfold EncodeGetIPRes, nonempty_first. destruct ip as [|c ip].
    + destruct (code =? OK); cbn [negb andb]; cbv iota zeta;
      (apply encode_plain; [done|fields|res_sizes]).
    + rewrite (proj2 (Z.eqb_neq (len (c :: ip)) 0))
        by (rewrite len_cons; pose proof (len_nonneg ip); lia).
      destruct (code =? OK); cbn [negb andb]; cbv iota zeta;
      (apply encode_plain; [done|fields|res_sizes]).
Qed.

(** ** Decoding *)

Lemma decode_code h r seq code :
  inU 16 code ->
  with_len (frame_of h r seq (w2 code ++ [])) (base + defaultCodeBytes)
    (let! _ := Seek (- defaultCodeBytes) SeekEnd in
     let! c := ReadUint16 BigEndian in st_ret c) = Ok code.
Proof.
  intros Hc. rewrite app_nil_r. unfold with_len.
  rewrite len_frame_of, len_put_uint. change (negb (14 + Z.of_nat 2 =? _)) with false.
  cbv iota. unfold frame_of.
  destruct (seek_end_at (NewReader (frame_head (frame_size (w2 code)) h r seq ++ w2 code))
    (frame_head (frame_size (w2 code)) h r seq) (w2 code) defaultCodeBytes)
    as (r' & Hr' & _ & E); [done|by rewrite len_put_uint| |].
  { unfold fits. cbn [buf NewReader]. rewrite len_app, len_frame_head, len_put_uint. by vm_compute. }
  unfold st_run. edestruct E as [z ->].
  rewrite (reads_last (ReadUint16 BigEndian) st_ret (w2 code) code code);
    auto using consumes_u16, reads_ret.
Qed.

Lemma decode_from_body {A} h r seq body (m : ST Reader A) v :
  fits (frame_of h r seq body) -> reads m body v ->
  st_run (Seek base SeekStart ;;; m) (NewReader (frame_of h r seq body)) = Ok v.
Proof.
  intros Hf Hm. unfold frame_of in *. apply reads_seek_start; [done| |done].
  by rewrite len_frame_head.
Qed.

Lemma fits_small h r seq body : len body <= 32 -> fits (frame_of h r seq body).
Proof. intros H. unfold fits, max_alloc. rewrite len_frame_of. lia. Qed.

Ltac res_side :=
  try assumption; autorewrite with len; res_consts; try lia.

(** The answers with an optional total *)
Lemma decode_total h r seq code total n :
  n = base + defaultCodeBytes + b64 -> inU 16 code -> inU 64 total ->
  let data := frame_of h r seq (w2 code ++ total_bytes code total) in
  (if negb (len data =? n) && negb (len data =? n - b64)
   then Err ErrInvalidMessage
   else
     st_run (let! _ := Seek base SeekStart in
             let! c := ReadUint16 BigEndian in
             if (c =? OK) && (len data =? n) then
               let! t := ReadUint64 BigEndian in st_ret (c, t)
             else st_ret (c, 0)) (NewReader data))
  = Ok (code, if code =? OK then total else 0).
Proof.
  intros -> Hc Ht. cbv zeta. unfold total_bytes. rewrite !len_frame_of.
  destruct (Z.eqb_spec code OK) as [->|Hne]; cbn [andb].
  - destruct (Z.eqb_spec total 0) as [->|Hz]; cbn [negb].
    + rewrite len_app, len_put_uint. change (len []) with 0.
      change (14 + (Z.of_nat 2 + 0) =? base + defaultCodeBytes + b64) with false.
      change (14 + (Z.of_nat 2 + 0) =? base + defaultCodeBytes + b64 - b64) with true.
      cbn [negb andb]. apply decode_from_body; [apply fits_small; by vm_compute|].
      eapply reads_bind; [by apply consumes_u16|]. rewrite andb_false_r. apply reads_ret.
    + rewrite len_app, !len_put_uint.
      change (14 + (Z.of_nat 2 + Z.of_nat 8) =? base + defaultCodeBytes + b64) with true.
      cbn [negb andb]. apply decode_from_body;
        [apply fits_small; rewrite len_app, !len_put_uint; lia|].
      eapply reads_bind; [by apply consumes_u16|]. change (OK =? OK) with true. cbn [andb].
      cbv iota. eapply reads_last; [by apply consumes_u64|apply reads_ret].
  - rewrite len_app, len_put_uint. change (len []) with 0.
    change (14 + (Z.of_nat 2 + 0) =? base + defaultCodeBytes + b64) with false.
    change (14 + (Z.of_nat 2 + 0) =? base + defaultCodeBytes + b64 - b64) with true.
    cbn [negb andb]. apply decode_from_body;
      [apply fits_small; rewrite len_app, !len_put_uint; by vm_compute|].
    eapply reads_bind; [by apply consumes_u16|]. rewrite andb_false_r. apply reads_ret.
Qed.

Lemma decode_ip h r seq code ip :
  inU 16 code ->
  DecodeGetIPRes (frame_of h r seq (w2 code ++
     (if (code =? OK) && negb (len ip =? 0) then put_uint BigEndian 4 (IP2Long ip) else [])))
  = Ok (code, if (code =? OK) && negb (len ip =? 0) then Long2IP (IP2Long ip) else []).
Proof.
  intros Hc. unfold DecodeGetIPRes. rewrite !len_frame_of.
  destruct ((code =? OK) && negb (len ip =? 0)) eqn:E.
  - apply andb_true_iff in E as [Ec _]. rewrite len_app, !len_put_uint.
    change (14 + (Z.of_nat 2 + Z.of_nat 4) =? getIPResBytes) with true.
    cbn [negb andb]. apply decode_from_body;
      [apply fits_small; rewrite len_app, !len_put_uint; lia|].
    eapply reads_bind; [by apply consumes_u16|]. rewrite Ec. cbn [andb]. cbv iota.
    eapply reads_last; [apply consumes_ReadUint32|].
    replace (Long2IP (u32 (IP2Long ip))) with (Long2IP (IP2Long ip))
      by (unfold Long2IP; by rewrite put_u32).
    apply reads_ret.
  - rewrite len_app, len_put_uint. change (len []) with 0.
    change (14 + (Z.of_nat 2 + 0) =? getIPResBytes) with false.
    change (14 + (Z.of_nat 2 + 0) =? getIPResBytes - 4) with true.
    cbn [negb andb]. apply decode_from_body;
      [apply fits_small; rewrite len_app, !len_put_uint; by vm_compute|].
    eapply reads_bind; [by apply consumes_u16|]. rewrite andb_false_r. apply reads_ret.
Qed.

Lemma decode_res_frame seq p :
  response_ok p ->
  decode_res (res_route p) (frame_of dataBit (res_route p) seq (res_body p))
  = Ok (res_received p).
Proof.
  intros [Hc Hok].
  destruct p; unfold res_body; cbn [decode_res res_route res_code res_received] in *.
  all: try (unfold DecodeBindRes, DecodeUnbindRes, DecodeDisconnectRes, DecodePushRes,
    DecodeSubscribeRes, DecodeUnsubscribeRes, DecodeTriggerRes, DecodeDeliverRes,
    DecodeSetStateRes, DecodeHandshakeRes; by rewrite decode_code).
  - destruct Hok as [-> ->]. unfold DecodeStatRes, total_bytes.
    rewrite !len_frame_of. change (OK =? OK) with true. cbn [andb].
    change (0 =? 0) with true. cbn [negb]. rewrite app_nil_r, len_put_uint.
    change (14 + Z.of_nat 2 =? statResBytes) with false.
    change (14 + Z.of_nat 2 =? statResBytes - 8) with true. cbn [negb andb]. cbv iota.
    rewrite (decode_from_body _ _ _ _ _ (0, 0)); [done| |apply reads_ret].
    apply fits_small. by rewrite len_put_uint.
  - unfold DecodeMulticastRes. by rewrite (decode_total _ _ _ _ _ multicastResBytes).
  - unfold DecodeBroadcastRes. by rewrite (decode_total _ _ _ _ _ broadcastResBytes).
  - unfold DecodePublishRes. by rewrite (decode_total _ _ _ _ _ publishResBytes) by tauto.
  - by rewrite decode_ip.
  - unfold DecodeIsOnlineRes, with_len. rewrite len_frame_of, len_app, len_put_uint.
    change (len [if isOnline then 1 else 0]) with 1.
    change (14 + (Z.of_nat 2 + 1) =? isOnlineResBytes) with true. cbn [negb]. cbv iota.
    rewrite (decode_from_body _ _ _ _ _ (code, isOnline));
      [done|apply fits_small; rewrite len_app, len_put_uint; by vm_compute|].
    eapply reads_bind; [by apply consumes_u16|].
    eapply reads_last; [apply consumes_ReadBool|apply reads_ret].
  - unfold DecodeGetStateRes, with_len. rewrite len_frame_of, len_app, len_put_uint.
    rewrite (wrapU_id 8) by done. change (len [state]) with 1.
    change (14 + (Z.of_nat 2 + 1) =? getStateResBytes) with true. cbn [negb]. cbv iota.
    rewrite (decode_from_body _ _ _ _ _ (code, state));
      [done|apply fits_small; rewrite len_app, len_put_uint; by vm_compute|].
    eapply reads_bind; [by apply consumes_u16|].
    eapply reads_last; [apply consumes_ReadUint8|apply reads_ret].
Qed.

Lemma read_res seq p rest :
  inU 64 seq ->
  ReadMessage (frame_of dataBit (res_route p) seq (res_body p) ++ rest)
  = (Ok (false, route (res_route p), seq, frame_of dataBit (res_route p) seq (res_body p)), rest).
Proof.
  intros Hs. rewrite <- (wrapU_id 64 seq Hs) at 2. apply ReadMessage_frame_of; [by vm_compute|].
  assert (len (res_body p) <= 32); [|lia].
  unfold res_body, total_bytes. rewrite len_app, len_put_uint.
  destruct p; cbv iota; try destruct (_ && _); autorewrite with len; lia.
Qed.



Lemma encode_stat w seq code total :
  fresh w ->
  exists b, EncodeStatRes w seq code [total] = Ok b /\
    NocopyBuffer.Bytes b = Ok (frame_of dataBit Stat seq (w2 code ++ total_bytes code total)).
Proof.
  intros Hw. unfold EncodeStatRes, nonzero_first, total_bytes.
  rewrite <- (app_nil_r (w2 code ++ _)).
  destruct (code =? OK), (total =? 0); cbn [negb andb]; cbv iota zeta;
    (apply encode_plain; [done|fields|res_sizes]).
Qed.

Lemma stat_shift total :
  inU 64 total -> w2 OK ++ w8 total = w8 (total / 2 ^ 16) ++ w2 total.
Proof.
  intros [H0 H1]. unfold put_uint. cbn [be_bytes app].
  rewrite !Z.div_div by (try apply Z.pow_nonzero; lia). rewrite <- !Z.pow_add_r by lia.
  rewrite (Z.div_small total (2 ^ (16 + 8 * Z.of_nat 7))),
    (Z.div_small total (2 ^ (16 + 8 * Z.of_nat 6))) by lia. done.
Qed.

(** The stat answer is decoded wrongly: DecodeStatRes never reads the
    code, so a failure is reported to the caller as success with total 0,
    and a successful total comes back divided by 65536. *)
Theorem stat_response_garbled (w : Writer.Writer.Writer) (seq code total : Z)
    (Hw : fresh w) (Hc : inU 16 code) (Ht : inU 64 total) (Hnz : total <> 0) :
  exists b data, EncodeStatRes w seq code [total] = Ok b /\ NocopyBuffer.Bytes b = Ok data /\
    DecodeStatRes data = Ok (OK, if code =? OK then total / 2 ^ 16 else 0).
Proof.
  destruct (encode_stat w seq code total Hw) as (b & Eb & Ed).
  eexists b, _. split; [done|]. split; [done|].
  unfold DecodeStatRes. rewrite !len_frame_of. unfold total_bytes.
  destruct (Z.eqb_spec code OK) as [->|Hne]; cbn [andb].
  - rewrite (proj2 (Z.eqb_neq _ _) Hnz). cbn [negb]. rewrite len_app, !len_put_uint.
    change (14 + (Z.of_nat 2 + Z.of_nat 8) =? statResBytes) with true.
    cbn [negb andb]. cbv iota. apply decode_from_body;
      [apply fits_small; rewrite len_app, !len_put_uint; lia|].
    rewrite stat_shift by done. eapply reads_bind; [apply consumes_u64|apply reads_ret].
    destruct Ht. unfold inU. Z.to_euclidean_division_equations; lia.
  - rewrite app_nil_r, len_put_uint.
    change (14 + Z.of_nat 2 =? statResBytes) with false.
    change (14 + Z.of_nat 2 =? statResBytes - 8) with true.
    cbn [negb andb]. cbv iota. apply decode_from_body; [|apply reads_ret].
    apply fits_small. by rewrite len_put_uint.
Qed.

Lemma stat_response_garbled_witness :
  exists b data,
    EncodeStatRes (Writer.Writer.NewWriterWithCapacity [24%nat]) 9 OK [70000] = Ok b /\
    NocopyBuffer.Bytes b = Ok data /\ DecodeStatRes data = Ok (OK, 70000 / 2 ^ 16).
Proof.
  apply (stat_response_garbled (Writer.Writer.NewWriterWithCapacity [24%nat]) 9 OK 70000).
  - split; [split|]; simpl; lia.
  - unfold inU, OK; lia.
  - unfold inU; lia.
  - discriminate.
Defined.

(** A publish answer without a total (a failure, or nobody reached) is
    framed wrongly: it announces 20 bytes but holds 12, so the reader takes
    the first 8 bytes of the next frame for its end and the connection's
    framing is lost. *)
Theorem publish_response_desyncs (w : Writer.Writer.Writer) (seq code : Z) (next rest : list Z)
    (Hw : fresh w) (Hs : inU 64 seq) (Hn : len next = 8) :
  exists b data, EncodePublishRes w seq code [0] = Ok b /\ NocopyBuffer.Bytes b = Ok data /\
    len data = 16 /\
    ReadMessage (data ++ next ++ rest) = (Ok (false, route Publish, seq, data ++ next), rest).
Proof.
  assert (appends (write_head (publishResBytes - defaultSizeBytes) dataBit Publish seq ;;;
    Writer.Writer.WriteUint16s BigEndian [code] ;;; st_ret tt)
    (frame_head 20 dataBit Publish seq ++ w2 code) tt) as Ha.
  { eapply appends_bind; [apply appends_head|]. fields. }
  destruct (frame_single _ w _ Hw Ha) as (b & Eb & Ed).
  exists b, (frame_head 20 dataBit Publish seq ++ w2 code). split; [|split; [done|split]].
  - unfold EncodePublishRes, nonzero_first. change (0 =? 0) with true.
    by destruct (code =? OK).
  - by rewrite len_app, len_frame_head, len_put_uint.
  - rewrite (app_assoc _ next rest).
    replace ((frame_head 20 dataBit Publish seq ++ w2 code) ++ next)
      with (frame_of dataBit Publish seq (w2 code ++ next))
      by (unfold frame_of, frame_size; rewrite len_app, len_put_uint, Hn, app_assoc; done).
    rewrite <- (wrapU_id 64 seq Hs) at 2. apply ReadMessage_frame_of; [by vm_compute|].
    rewrite len_app, len_put_uint, Hn. lia.
Qed.

Lemma publish_response_desyncs_witness :
  exists b data,
    EncodePublishRes (Writer.Writer.NewWriterWithCapacity [24%nat]) 9 OK [0] = Ok b /\
    NocopyBuffer.Bytes b = Ok data /\ len data = 16 /\
    ReadMessage (data ++ [0; 0; 0; 1; 128; 0; 0; 0] ++ [1; 128])
    = (Ok (false, route Publish, 9, data ++ [0; 0; 0; 1; 128; 0; 0; 0]), [1; 128]).
Proof.
  apply (publish_response_desyncs (Writer.Writer.NewWriterWithCapacity [24%nat]) 9 OK
    [0; 0; 0; 1; 128; 0; 0; 0] [1; 128]).
  - split; [split|]; simpl; lia.
  - unfold inU; lia.
  - reflexivity.
Defined.
