(* ===== verification/Robust.v ===== *)
(** No decoder of internal/transporter/internal/protocol panics, whatever bytes
    a peer sends.  A small logic of decoders: [safe n m] says that [m], run on
    the received data with the cursor at [n], returns a value or an error. *)
From stdpp Require Import base numbers list.
From Stdlib Require Import ZArith Lia.
From S2P Require Import Prelude Binary Types Reader Writer Nocopy Packet Protocol Requests.
From S2P Require Import RequestCodec Net Responses ResponseCodec.
Import Reader.Reader Protocol.Protocol Requests.Requests Responses.Responses.

Open Scope Z_scope.
Open Scope go_scope.

Section Safe.
Context (data : list Z).
Hypothesis Hbytes : Forall is_byte data.
Hypothesis Hfits : len data <= 2 ^ 32.

Definition safe {A} (n : Z) (m : ST Reader A) : Prop :=
  (m (mkReader data n)).1 <> Panic.

Lemma safe_ret {A} n (a : A) : safe n (st_ret a).
Proof. done. Qed.

Lemma safe_err {A} n e : safe n (@st_err Reader A e).
Proof. done. Qed.

Lemma safe_if {A} n (c : bool) (m1 m2 : ST Reader A) :
  (c = true -> safe n m1) -> (c = false -> safe n m2) -> safe n (if c then m1 else m2).
Proof. destruct c; auto. Qed.

Lemma safe_seek {A} n z (k : Z -> ST Reader A) :
  0 <= z -> safe z (k z) -> safe n (st_bind (Seek z SeekStart) k).
Proof.
  intros Hz Hk. unfold safe, st_bind, Seek. simpl.
  by rewrite (proj2 (Z.ltb_ge _ _) Hz).
Qed.

Lemma safe_seek_current {A} n z (k : Z -> ST Reader A) :
  0 <= n + z < 2 ^ 63 -> safe (n + z) (k (n + z)) -> safe n (st_bind (Seek z SeekCurrent) k).
Proof.
  intros Hz Hk. unfold safe, st_bind, Seek. cbn -[wrapS].
  rewrite wrapS_id by (try done; unfold inS; lia). by rewrite (proj2 (Z.ltb_ge _ _)) by lia.
Qed.

Lemma safe_seek_end {A} n z (k : Z -> ST Reader A) :
  0 <= len data + z < 2 ^ 63 -> safe (len data + z) (k (len data + z)) ->
  safe n (st_bind (Seek z SeekEnd) k).
Proof.
  intros Hz Hk. unfold safe, st_bind, Seek. cbn -[wrapS].
  rewrite wrapS_id by (try done; unfold inS; lia). by rewrite (proj2 (Z.ltb_ge _ _)) by lia.
Qed.

(** Every primitive goes through [slices]: the bytes it returns are there. *)
Lemma safe_slices {A} n b c (k : list Z -> ST Reader A) :
  0 <= n < 2 ^ 48 -> 0 <= b * c < 2 ^ 48 ->
  (forall bs, n + b * c <= len data -> len bs = b * c -> Forall is_byte bs ->
     safe (n + b * c) (k bs)) ->
  safe n (st_bind (slices b c) k).
Proof.
  intros Hn Hc Hk. unfold safe, st_bind, slices. cbn -[wrapS go_slice].
  rewrite (wrapS_id 64 (b * c)), (wrapS_id 64 (n + b * c)) by (try done; unfold inS; lia).
  destruct (Z.gtb_spec (n + b * c) (len data)); [done|].
  unfold go_slice. rewrite !(proj2 (Z.leb_le _ _)) by lia. cbn [andb].
  apply Hk; [done| |by apply Forall_take, Forall_drop].
  unfold len in *. rewrite length_take, length_drop. lia.
Qed.

Lemma safe_uint {A} n (w : nat) (m : ST Reader Z) (k : Z -> ST Reader A) :
  m = (let! bs := slice (Z.of_nat w) in st_ret (get_uint BigEndian bs)) ->
  (w <= 8)%nat -> 0 <= n < 2 ^ 48 ->
  (forall v, n + Z.of_nat w <= len data -> inU (8 * Z.of_nat w) v ->
     safe (n + Z.of_nat w) (k v)) ->
  safe n (st_bind m k).
Proof.
  intros -> Hw Hn Hk.
  assert (safe n (let! bs := slices (Z.of_nat w) 1 in k (get_uint BigEndian bs))) as H.
  { apply safe_slices; [done|lia|]. rewrite Z.mul_1_r. intros bs Hl Hb Hr.
    apply Hk; [done|]. rewrite <- Hb. by apply get_uint_range. }
  revert H. unfold safe, slice, st_bind, st_ret.
  by destruct (slices (Z.of_nat w) 1 _) as [[]].
Qed.

Lemma safe_ReadUint64 {A} n (k : Z -> ST Reader A) :
  0 <= n < 2 ^ 48 ->
  (forall v, n + 8 <= len data -> inU 64 v -> safe (n + 8) (k v)) ->
  safe n (st_bind (ReadUint64 BigEndian) k).
Proof. apply (safe_uint n 8); [done|lia]. Qed.

Lemma safe_ReadUint32 {A} n (k : Z -> ST Reader A) :
  0 <= n < 2 ^ 48 ->
  (forall v, n + 4 <= len data -> inU 32 v -> safe (n + 4) (k v)) ->
  safe n (st_bind (ReadUint32 BigEndian) k).
Proof. apply (safe_uint n 4); [done|lia]. Qed.

Lemma safe_ReadUint16 {A} n (k : Z -> ST Reader A) :
  0 <= n < 2 ^ 48 ->
  (forall v, n + 2 <= len data -> inU 16 v -> safe (n + 2) (k v)) ->
  safe n (st_bind (ReadUint16 BigEndian) k).
Proof. apply (safe_uint n 2); [done|lia]. Qed.

(** A primitive that maps the bytes of one slice *)
Lemma safe_mapped {A B} n b c (f : list Z -> ST Reader A) (k : A -> ST Reader B) :
  0 <= n < 2 ^ 48 -> 0 <= b * c < 2 ^ 48 ->
  (forall bs r, len bs = b * c -> Forall is_byte bs -> exists a, f bs r = (Ok a, r) /\
     (n + b * c <= len data -> safe (n + b * c) (k a))) ->
  safe n (st_bind (let! bs := slices b c in f bs) k).
Proof.
  intros Hn Hc Hf.
  assert (safe n (let! bs := slices b c in let! a := f bs in k a)) as H.
  { apply safe_slices; [done..|]. intros bs Hl Hb Hr. unfold safe, st_bind.
    destruct (Hf bs (mkReader data (n + b * c)) Hb Hr) as (a & -> & Ha). by apply Ha. }
  revert H. unfold safe, st_bind. destruct (slices b c _) as [[bs| |] r]; try done.
Qed.

Lemma safe_ReadInt64 {A} n (k : Z -> ST Reader A) :
  0 <= n < 2 ^ 48 ->
  (forall v, n + 8 <= len data -> safe (n + 8) (k v)) ->
  safe n (st_bind (ReadInt64 BigEndian) k).
Proof.
  intros Hn Hk. apply (safe_mapped n 8 1); [done|done|]. intros bs r _ _.
  eexists. split; [done|]. apply Hk.
Qed.

Lemma single_byte (bs : list Z) : len bs = 1 -> exists b, bs = [b].
Proof. destruct bs as [|b [|? ?]]; [done|by exists b|unfold len; simpl; lia]. Qed.

Lemma safe_ReadUint8 {A} n (k : Z -> ST Reader A) :
  0 <= n < 2 ^ 48 ->
  (forall v, n + 1 <= len data -> inU 8 v -> safe (n + 1) (k v)) ->
  safe n (st_bind ReadUint8 k).
Proof.
  intros Hn Hk. apply (safe_mapped n 1 1); [done|done|]. intros bs r Hl Hb.
  destruct (single_byte bs Hl) as [b ->]. exists b. split; [done|]. intros H1.
  apply Hk; [done|]. by inversion Hb.
Qed.

Lemma safe_ReadBool {A} n (k : bool -> ST Reader A) :
  0 <= n < 2 ^ 48 ->
  (forall v, n + 1 <= len data -> safe (n + 1) (k v)) ->
  safe n (st_bind ReadBool k).
Proof.
  intros Hn Hk. apply (safe_mapped n 1 1); [done|done|]. intros bs r Hl Hb.
  destruct (single_byte bs Hl) as [b ->]. eexists. split; [done|]. apply Hk.
Qed.

Lemma safe_ReadString {A} n c (k : list Z -> ST Reader A) :
  0 <= n < 2 ^ 48 -> 0 <= c < 2 ^ 48 ->
  (forall v, n + c <= len data -> safe (n + c) (k v)) ->
  safe n (st_bind (ReadString c) k).
Proof.
  intros Hn Hc Hk. apply (safe_mapped n c 1); [done|lia|]. intros bs r Hl Hb.
  eexists. split; [done|]. rewrite Z.mul_1_r. apply Hk.
Qed.

Lemma safe_ReadInt64s {A} n c (k : list Z -> ST Reader A) :
  0 <= n < 2 ^ 48 -> 0 <= c < 2 ^ 16 -> n <= len data ->
  (forall v, n + 8 * c <= len data -> safe (n + 8 * c) (k v)) ->
  safe n (st_bind (ReadInt64s BigEndian c) k).
Proof.
  intros Hn Hc Hle Hk. unfold ReadInt64s. destruct (Z.leb_spec c 0) as [H0|H0].
  - assert (c = 0) as -> by lia. unfold st_bind at 1. unfold safe, st_ret.
    specialize (Hk [] ltac:(lia)). by replace (n + 8 * 0) with n in Hk by lia.
  - apply (safe_mapped n 8 c); [done|lia|]. intros bs r Hl Hb. unfold make_cap.
    rewrite (proj2 (Z.ltb_ge _ _)) by lia.
    rewrite (proj2 (Z.ltb_ge _ _)) by (unfold max_alloc; lia). eexists.
    split; [done|]. apply Hk.
Qed.

(** Nested blocks *)
Lemma safe_assoc {A B C} n (m : ST Reader A) (f : A -> ST Reader B) (k : B -> ST Reader C) :
  safe n (let! a := m in let! b := f a in k b) -> safe n (st_bind (st_bind m f) k).
Proof. unfold safe, st_bind. by destruct (m _) as [[] ?]. Qed.

Lemma safe_bind_if {A B} n (c : bool) (m1 m2 : ST Reader A) (k : A -> ST Reader B) :
  safe n (if c then st_bind m1 k else st_bind m2 k) ->
  safe n (st_bind (if c then m1 else m2) k).
Proof. by destruct c. Qed.

Lemma safe_bind_ret {A B} n (a : A) (k : A -> ST Reader B) :
  safe n (k a) -> safe n (st_bind (st_ret a) k).
Proof. done. Qed.

Lemma safe_bind_err {A B} n e (k : A -> ST Reader B) : safe n (st_bind (st_err e) k).
Proof. done. Qed.

Lemma safe_index {A} n i (k : Z -> ST Reader A) :
  0 <= i < len data -> (forall v, safe n (k v)) ->
  safe n (st_bind (st_lift (go_index data i)) k).
Proof.
  intros Hi Hk. unfold go_index.
  rewrite (proj2 (Z.leb_le _ _)), (proj2 (Z.ltb_lt _ _)) by lia. cbn [andb].
  destruct (lookup_lt_is_Some_2 data (Z.to_nat i)) as [v ->]; [unfold len in *; lia|].
  apply Hk.
Qed.

Lemma safe_tail {A} n off (k : list Z -> ST Reader A) :
  0 <= off <= len data -> (forall t, safe n (k t)) ->
  safe n (st_bind (tail_from data off) k).
Proof.
  intros Ho Hk. unfold tail_from. rewrite go_slice_from by done. apply Hk.
Qed.
End Safe.

Ltac safe_step :=
  lazymatch goal with
  | |- safe _ _ (st_bind (Seek _ SeekStart) _) => apply safe_seek
  | |- safe _ _ (st_bind (Seek _ SeekCurrent) _) => apply safe_seek_current
  | |- safe _ _ (st_bind (Seek _ SeekEnd) _) => apply safe_seek_end
  | |- safe _ _ (st_bind (ReadUint64 _) _) => apply safe_ReadUint64; [done| |intros ? ? ?]
  | |- safe _ _ (st_bind (ReadUint32 _) _) => apply safe_ReadUint32; [done| |intros ? ? ?]
  | |- safe _ _ (st_bind (ReadUint16 _) _) => apply safe_ReadUint16; [done| |intros ? ? ?]
  | |- safe _ _ (st_bind (ReadInt64 _) _) => apply safe_ReadInt64; [done| |intros ? ?]
  | |- safe _ _ (st_bind ReadUint8 _) => apply safe_ReadUint8; [done| |intros ? ? ?]
  | |- safe _ _ (st_bind ReadBool _) => apply safe_ReadBool; [done| |intros ? ?]
  | |- safe _ _ (st_bind (ReadString _) _) => apply safe_ReadString; [done| | |intros ? ?]
  | |- safe _ _ (st_bind (ReadInt64s _ _) _) => apply safe_ReadInt64s; [done| | | |intros ? ?]
  | |- safe _ _ (st_bind (tail_from _ _) _) => apply safe_tail; [|intros ?]
  | |- safe _ _ (st_bind (decode_trace _ _) _) => unfold decode_trace
  | |- safe _ _ (st_bind (st_bind _ _) _) => apply safe_assoc
  | |- safe _ _ (st_bind (if _ then _ else _) _) => apply safe_bind_if
  | |- safe _ _ (st_bind (st_ret _) _) => apply safe_bind_ret
  | |- safe _ _ (st_bind (st_err _) _) => apply safe_bind_err
  | |- safe _ _ (st_bind (st_lift (go_index _ _)) _) => apply safe_index; [|intros ?]
  | |- safe _ _ (if _ then _ else _) => apply safe_if; intros ?
  | |- safe _ _ (st_ret _) => apply safe_ret
  | |- safe _ _ (st_err _) => apply safe_err
  end.

Ltac safety :=
  cbv beta zeta; repeat (safe_step; cbv beta zeta); res_consts; unfold inU in *; try lia.

Section Decoders.
Context (data : list Z).
Hypothesis Hbytes : Forall is_byte data.
Hypothesis Hfits : len data <= 2 ^ 32.

Lemma run_safe {A} (m : ST Reader A) : safe data 0 m -> st_run m (NewReader data) <> Panic.
Proof. done. Qed.

Lemma with_len_safe {A} n (m : ST Reader A) :
  (len data = n -> safe data 0 m) -> with_len data n m <> Panic.
Proof.
  intros H. unfold with_len. destruct (Z.eqb_spec (len data) n); [by apply H|done].
Qed.

Lemma bind_safe {A B} (m : res A) (k : A -> res B) :
  m <> Panic -> (forall a, k a <> Panic) -> res_bind m k <> Panic.
Proof. destruct m; simpl; auto. Qed.

Ltac pairs := by intros; repeat case_match.

Lemma wrapped_tail c :
  0 <= c < 2 ^ 16 -> 17 + 8 * c <= len data -> 0 <= u16 (17 + u16 (8 * c)) <= len data.
Proof.
  intros Hc Hl. unfold wrapU. rewrite Zplus_mod_idemp_r.
  pose proof (Z.mod_pos_bound (17 + 8 * c) (2 ^ 16)).
  pose proof (Z.mod_le (17 + 8 * c) (2 ^ 16)). lia.
Qed.

Lemma decode_request_safe r : decode r data <> Panic.
Proof.
  destruct r; cbn [decode]; (apply bind_safe; [|pairs]).
  - apply run_safe. safety.
  - apply with_len_safe. intros. safety.
  - apply with_len_safe. intros. safety.
  - apply with_len_safe. intros. safety.
  - apply with_len_safe. intros. safety.
  - apply with_len_safe. intros. safety.
  - unfold DecodeDisconnectReqWithToken, DecodeDisconnectReq.
    destruct (len data =? disconnectReqBytes); [apply bind_safe; [|pairs]|];
      apply with_len_safe; intros; safety.
  - apply run_safe. safety.
  - apply run_safe. safety. apply wrapped_tail; lia.
  - apply run_safe. safety.
  - apply run_safe. safety. pose proof (wrapU_in 8 (4 + 1 + 1 + 8 + 1 + v1) ltac:(lia)) as [? _].
    pose proof (Z.mod_le (4 + 1 + 1 + 8 + 1 + v1) (2 ^ 8)). unfold wrapU in *. lia.
  - apply run_safe. safety. apply wrapped_tail; lia.
  - apply run_safe. safety. apply wrapped_tail; lia.
  - unfold DecodeTriggerReq. destruct (_ && _); [done|]. apply run_safe. safety.
  - unfold DecodeDeliverReqWithMetadata. destruct (Z.ltb_spec (len data) deliverReqBytes);
      [done|]. apply run_safe. safety.
  - apply with_len_safe. intros. safety.
  - apply with_len_safe. intros. safety.
Qed.

Lemma decode_response_safe r : decode_res r data <> Panic.
Proof.
  destruct r; cbn [decode_res]; (apply bind_safe; [|pairs]);
    try (apply with_len_safe; intros; safety).
  - unfold DecodeGetIPRes. destruct (_ && _); [done|]. apply run_safe. safety.
  - unfold DecodeStatRes. destruct (_ && _); [done|]. apply run_safe. safety.
  - unfold DecodeMulticastRes. destruct (_ && _); [done|]. apply run_safe. safety.
  - unfold DecodeBroadcastRes. destruct (_ && _); [done|]. apply run_safe. safety.
  - unfold DecodePublishRes. destruct (_ && _); [done|]. apply run_safe. safety.
Qed.
End Decoders.

(** C19: no bytes a peer can put in a frame make a request or response decoder
    panic: on any byte string of a frame's size, for every route, it returns
    the decoded values or an error. *)
Theorem decoders_never_panic (r : Route) (data : list Z)
    (Hbytes : Forall is_byte data) (Hlen : len data <= 2 ^ 32) :
  decode r data <> Panic /\ decode_res r data <> Panic.
Proof. split; [by apply decode_request_safe|by apply decode_response_safe]. Qed.

Lemma decoders_never_panic_witness :
  decode Multicast [0; 0; 0; 13; 0; 9; 0; 0; 0; 0; 0; 0; 0; 1; 1; 255; 255] <> Panic /\
  decode_res Multicast [0; 0; 0; 13; 0; 9; 0; 0; 0; 0; 0; 0; 0; 1; 1; 255; 255] <> Panic.
Proof.
  apply (decoders_never_panic Multicast
    [0; 0; 0; 13; 0; 9; 0; 0; 0; 0; 0; 0; 0; 1; 1; 255; 255]).
  - repeat constructor; unfold is_byte; lia.
  - vm_compute. discriminate.
Defined.
