(* ===== verification/Session.v ===== *)
(** session/session.go: the session table of a gate.

    Connections are objects shared with the network layer: a network.Conn is
    a reference into a heap, and the identifier, the bound user and the
    attributes of a connection live there.  What the session asks of a
    connection beyond that (Send, Push, Close) is recorded in a log of calls;
    the network's answer to a call may depend on all calls before it.
    The methods run under the session's lock: each is one step here. *)
From stdpp Require Import base numbers list gmap strings.
From Stdlib Require Import ZArith Lia.
From S2P Require Import Prelude Types.

Open Scope Z_scope.
Open Scope go_scope.

(** An attribute key: a string (as bytes), or a value of another Go type *)
Inductive key := KString (s : list Z) | KOther (n : Z).

#[global] Instance key_eq_dec : EqDecision key.
Proof. solve_decision. Defined.

#[global] Instance key_countable : Countable key.
Proof.
  apply (inj_countable' (fun k => match k with KString s => inl s | KOther n => inr n end)
           (fun p => match p with inl s => KString s | inr n => KOther n end)).
  by intros [].
Defined.

Abbreviation cref := nat.

(** What the session sees of a network.Conn *)
Record conn := mkConn { ID : Z; UID : Z; Attr : gset key }.

(** A call on a connection that leaves the session *)
Inductive call :=
| CSend (c : cref) (message : list Z)
| CPush (c : cref) (message : list Z)
| CClose (c : cref) (force : list bool).

Module Session.

Record Session := mkSession {
  conns : gmap Z cref;
  users : gmap Z cref;
  tokens : gmap Z Token;
  generations : gmap Z Z;
  channels : gmap (list Z) (gset cref)
}.

Definition NewSession : Session := mkSession ∅ ∅ ∅ ∅ ∅.

Record World := mkWorld {
  sess : Session;
  heap : gmap cref conn;
  log : list call
}.

(** *** Field updates *)

Definition upd (f : Session -> Session) : ST World unit :=
  fun w => (Ok tt, mkWorld (f (sess w)) (heap w) (log w)).
Definition set_conns f := upd (fun s =>
  mkSession (f (conns s)) (users s) (tokens s) (generations s) (channels s)).
Definition set_users f := upd (fun s =>
  mkSession (conns s) (f (users s)) (tokens s) (generations s) (channels s)).
Definition set_tokens f := upd (fun s =>
  mkSession (conns s) (users s) (f (tokens s)) (generations s) (channels s)).
Definition set_generations f := upd (fun s =>
  mkSession (conns s) (users s) (tokens s) (f (generations s)) (channels s)).
Definition set_channels f := upd (fun s =>
  mkSession (conns s) (users s) (tokens s) (generations s) (f (channels s))).

(** A read of the session's fields *)
Definition get {A} (f : Session -> A) : ST World A := fun w => (Ok (f (sess w)), w).

(** *** Methods of a connection the session calls *)

(** A nil connection panics when it is used. *)
Definition deref (c : cref) : ST World conn := fun w =>
  match heap w !! c with
  | Some o => (Ok o, w)
  | None => (Panic, w)
  end.

Definition store (c : cref) (o : conn) : ST World unit :=
  fun w => (Ok tt, mkWorld (sess w) (<[c := o]> (heap w)) (log w)).

Definition conn_Bind (c : cref) (uid : Z) : ST World unit :=
  let! o := deref c in store c (mkConn (ID o) uid (Attr o)).
Definition conn_Unbind (c : cref) : ST World unit :=
  let! o := deref c in store c (mkConn (ID o) 0 (Attr o)).
Definition attr_Set (c : cref) (k : key) : ST World unit :=
  let! o := deref c in store c (mkConn (ID o) (UID o) ({[k]} ∪ Attr o)).
Definition attr_Del (c : cref) (k : key) : ST World bool :=
  let! o := deref c in
  store c (mkConn (ID o) (UID o) (Attr o ∖ {[k]})) ;;;
  st_ret (bool_decide (k ∈ Attr o)).

(** s.tokens[cid], the zero Token when there is none *)
Definition token_at (s : Session) (cid : Z) : Token := default zero_token (tokens s !! cid).

(** s.users[uid]; ok && current == conn *)
Definition is_user (s : Session) (uid : Z) (c : cref) : bool :=
  bool_decide (users s !! uid = Some c).

Definition nextGeneration (uid : Z) : ST World Z :=
  let! gens := get generations in
  let generation := u64 (default 0 (gens !! uid) + 1) in
  let generation := if generation =? 0 then u64 (generation + 1) else generation in
  set_generations (<[uid := generation]>) ;;;
  st_ret generation.

(** conn(kind, target) *)
Definition lookup_conn (s : Session) (kind target : Z) : res cref :=
  if kind =? Kind.Conn then
    match conns s !! target with Some c => Ok c | None => Err ErrNotFoundSession end
  else if kind =? Kind.User then
    match users s !! target with Some c => Ok c | None => Err ErrNotFoundSession end
  else Err ErrInvalidSessionKind.

Definition conn_ (kind target : Z) : ST World cref :=
  fun w => (lookup_conn (sess w) kind target, w).

(** The map a kind selects *)
Definition index (s : Session) (kind : Z) : res (gmap Z cref) :=
  if kind =? Kind.Conn then Ok (conns s)
  else if kind =? Kind.User then Ok (users s)
  else Err ErrInvalidSessionKind.

Definition AddConn (c : cref) : ST World unit :=
  let! o := deref c in
  set_conns (<[ID o := c]>) ;;;
  if negb (UID o =? 0) then
    let! generation := nextGeneration (UID o) in
    set_users (<[UID o := c]>) ;;;
    set_tokens (<[ID o := mkToken (UID o) generation]>)
  else st_ret tt.

Definition doUnsubscribe (channel : list Z) (c : cref) : ST World unit :=
  let! chs := get channels in
  match chs !! channel with
  | Some members =>
      let members := members ∖ {[c]} in
      if bool_decide (members = ∅) then set_channels (delete channel)
      else set_channels (<[channel := members]>)
  | None => st_ret tt
  end.

(** [order] is the order Visit takes the attributes in.  channel.(string)
    panics on a key of another type. *)
Definition RemConnWithToken (order : list key) (c : cref) : ST World (Z * Token) :=
  let! o := deref c in
  let! token := get (fun s => token_at s (ID o)) in
  set_conns (delete (ID o)) ;;;
  set_tokens (delete (ID o)) ;;;
  let! current := get (fun s => is_user s (UID o) c) in
  (if negb (UID o =? 0) && current then set_users (delete (UID o)) else st_ret tt) ;;;
  st_iter (fun k => match k with
                    | KString channel => doUnsubscribe channel c
                    | KOther _ => st_panic
                    end) order ;;;
  st_ret (UID o, token).

Definition RemConn (order : list key) (c : cref) : ST World unit :=
  let! _ := RemConnWithToken order c in st_ret tt.

Definition Has (kind target : Z) : ST World bool :=
  let! m := (fun w => (index (sess w) kind, w)) in
  st_ret (bool_decide (is_Some (m !! target))).

Definition bindToken (c : cref) (uid : Z) (token : Token) : ST World unit :=
  let! o := deref c in
  let! at_uid := get (fun s => is_user s uid c) in
  let! at_old := get (fun s => is_user s (UID o) c) in
  if negb (UID o =? 0) && (UID o =? uid) && at_uid then
    set_tokens (<[ID o := token]>)
  else
    (if negb (UID o =? 0) && negb (UID o =? uid) && at_old
     then set_users (delete (UID o)) else st_ret tt) ;;;
    let! us := get users in
    (match us !! uid with
     | Some oldConn => if bool_decide (oldConn = c) then st_ret tt else conn_Unbind oldConn
     | None => st_ret tt
     end) ;;;
    conn_Bind c uid ;;;
    set_users (<[uid := c]>) ;;;
    set_tokens (<[ID o := token]>).

Definition Bind (cid uid : Z) : ST World unit :=
  let! c := conn_ Kind.Conn cid in
  let! o := deref c in
  if UID o =? uid then st_ret tt else
  let! generation := nextGeneration uid in
  bindToken c uid (mkToken uid generation).

Definition BindToken (cid uid : Z) (token : Token) : ST World unit :=
  if (uid <=? 0) || negb (Types.UID token =? uid) || (Generation token =? 0)
  then st_err ErrInvalidArgument else
  let! c := conn_ Kind.Conn cid in
  bindToken c uid token ;;;
  let! gens := get generations in
  if default 0 (gens !! uid) <? Generation token
  then set_generations (<[uid := Generation token]>)
  else st_ret tt.

Definition Unbind (uid : Z) : ST World Z :=
  let! c := conn_ Kind.User uid in
  conn_Unbind c ;;;
  set_users (delete uid) ;;;
  let! o := deref c in
  st_ret (ID o).

Definition Token_ (kind target : Z) : ST World Token :=
  let! c := conn_ kind target in
  let! o := deref c in
  get (fun s => token_at s (ID o)).

Definition IsCurrent (token : Token) : ST World bool :=
  if (Types.UID token =? 0) || (Generation token =? 0) then st_ret false else
  let! us := get users in
  match us !! Types.UID token with
  | None => st_ret false
  | Some c => let! o := deref c in
              get (fun s => bool_decide (token_at s (ID o) = token))
  end.

(** LocalIP, LocalAddr, RemoteIP and RemoteAddr ask the connection. *)
Definition ask {A} (f : cref -> res A) (kind target : Z) : ST World A :=
  let! c := conn_ kind target in st_lift (f c).
Definition LocalIP := @ask (list Z).
Definition RemoteIP := @ask (list Z).
Definition LocalAddr {A} := @ask A.
Definition RemoteAddr {A} := @ask A.

Definition Stat (kind : Z) : ST World Z :=
  let! m := (fun w => (index (sess w) kind, w)) in
  st_ret (Z.of_nat (size m)).

Definition Subscribe (kind : Z) (targets : list Z) (channel : list Z) : ST World unit :=
  if len targets =? 0 then st_ret tt else
  let! m := (fun w => (index (sess w) kind, w)) in
  st_iter (fun target =>
    match m !! target with
    | None => st_ret tt
    | Some c =>
        attr_Set c (KString channel) ;;;
        set_channels (fun chs => <[channel := {[c]} ∪ default ∅ (chs !! channel)]> chs)
    end) targets.

Definition Unsubscribe (kind : Z) (targets : list Z) (channel : list Z) : ST World unit :=
  if len targets =? 0 then st_ret tt else
  let! m := (fun w => (index (sess w) kind, w)) in
  st_iter (fun target =>
    match m !! target with
    | None => st_ret tt
    | Some c =>
        let! ok := attr_Del c (KString channel) in
        if ok then doUnsubscribe channel c else st_ret tt
    end) targets.

(** *** Calls that leave the session *)

Section Network.
(** What the connection answers, given the calls made before *)
Context (answer : list call -> call -> option error).

Definition invoke (x : call) : ST World unit := fun w =>
  (match answer (log w) x with None => Ok tt | Some e => Err e end,
   mkWorld (sess w) (heap w) (log w ++ [x])).

Definition Close (kind target : Z) (force : list bool) : ST World unit :=
  let! c := conn_ kind target in invoke (CClose c force).

(** users[token.UID] is [c] and c's token is [token] *)
Definition holds (s : Session) (c : cref) (o : conn) (token : Token) : bool :=
  is_user s (Types.UID token) c && bool_decide (token_at s (ID o) = token).

Definition CloseCurrent (kind target : Z) (token : Token) (force : list bool) : ST World unit :=
  if (Types.UID token <=? 0) || (Generation token =? 0) then st_err ErrStaleSession else
  if (kind =? Kind.User) && negb (target =? Types.UID token) then st_err ErrStaleSession else
  let! c := conn_ kind target in
  let! o := deref c in
  let! current := get (fun s => holds s c o token) in
  if negb current then st_err ErrStaleSession else invoke (CClose c force).

Definition Send (kind target : Z) (message : list Z) : ST World unit :=
  let! c := conn_ kind target in invoke (CSend c message).

Definition SendCurrent (kind target : Z) (token : Token) (disconnect : bool)
    (message : list Z) : ST World unit :=
  if (Types.UID token <=? 0) || (Generation token =? 0) then st_err ErrStaleSession else
  let! c := conn_ kind target in
  let! o := deref c in
  let! current := get (fun s => holds s c o token) in
  if negb current then st_err ErrStaleSession else
  invoke (CSend c message) ;;;
  if disconnect then invoke (CClose c []) else st_ret tt.

Definition Push (kind target : Z) (disconnect : bool) (message : list Z) : ST World unit :=
  let! c := conn_ kind target in
  invoke (CPush c message) ;;;
  if disconnect then invoke (CClose c []) else st_ret tt.

(** One goroutine of the fan-out: a failed push is an error of the group,
    a failed close is not. *)
Definition push_one (disconnect : bool) (message : list Z) (c : cref) (w : World)
    : option error * World :=
  match invoke (CPush c message) w with
  | (Ok _, w') => (None, if disconnect then (invoke (CClose c []) w').2 else w')
  | (Err e, w') => (Some e, w')
  | (Panic, w') => (None, w')
  end.

(** The group: the number of successful pushes and the first error *)
Fixpoint push_all (disconnect : bool) (message : list Z) (cs : list cref) (w : World)
    : Z * option error * World :=
  match cs with
  | [] => (0, None, w)
  | c :: cs' =>
      let '(e, w1) := push_one disconnect message c w in
      let '(n, e', w2) := push_all disconnect message cs' w1 in
      match e with
      | None => (n + 1, e', w2)
      | Some e => (n, Some e, w2)
      end
  end.

(** eg.Wait(): the error counts only when nothing was pushed *)
Definition fan_out (disconnect : bool) (message : list Z) (cs : list cref) : ST World Z :=
  fun w => let '(n, e, w') := push_all disconnect message cs w in
           (match e with
            | Some e => if n =? 0 then Err e else Ok n
            | None => Ok n
            end, w').

(** [sched] is the order the goroutines run in. *)
Definition Multicast (sched : list cref -> list cref) (kind : Z) (targets : list Z)
    (disconnect : bool) (message : list Z) : ST World Z :=
  if len targets =? 0 then st_ret 0 else
  let! m := (fun w => (index (sess w) kind, w)) in
  fan_out disconnect message (sched (omap (fun t => m !! t) targets)).

Definition Broadcast (sched : list cref -> list cref) (kind : Z)
    (disconnect : bool) (message : list Z) : ST World Z :=
  let! m := (fun w => (index (sess w) kind, w)) in
  fan_out disconnect message (sched (map_to_list m).*2).

Definition Publish (sched : list cref -> list cref) (channel : list Z)
    (disconnect : bool) (message : list Z) : ST World Z :=
  let! chs := get channels in
  match chs !! channel with
  | None => st_ret 0
  | Some members => fan_out disconnect message (sched (elements members))
  end.
End Network.

End Session.
