(* ===== verification/SessionOk.v ===== *)
(** The invariant of the session table, its preservation by every method, and
    what the methods promise. *)
From stdpp Require Import base numbers list gmap strings sets.
From Stdlib Require Import ZArith Lia.
From S2P Require Import Prelude Types Session.
Import Session.Session.

Open Scope Z_scope.
Open Scope go_scope.

(** ** The invariant *)

Record wf (w : World) : Prop := mkWf {
  wf_conns : forall cid c, conns (sess w) !! cid = Some c ->
    exists o, heap w !! c = Some o /\ ID o = cid;
  wf_users : forall uid c, users (sess w) !! uid = Some c ->
    uid <> 0 /\ exists o, heap w !! c = Some o /\ UID o = uid /\
                          conns (sess w) !! ID o = Some c;
  wf_tokens : forall uid c o, users (sess w) !! uid = Some c -> heap w !! c = Some o ->
    exists t, tokens (sess w) !! ID o = Some t /\ Types.UID t = uid /\
      Generation t <> 0 /\ Generation t <= default 0 (generations (sess w) !! uid);
  wf_token_conns : forall cid t, tokens (sess w) !! cid = Some t ->
    is_Some (conns (sess w) !! cid);
  wf_generations : forall uid, inU 64 (default 0 (generations (sess w) !! uid));
  wf_channels : forall ch ms, channels (sess w) !! ch = Some ms ->
    ms <> ∅ /\ forall c, c ∈ ms ->
      exists o, heap w !! c = Some o /\ KString ch ∈ Attr o /\ conns (sess w) !! ID o = Some c
}.

Definition initial (h : gmap cref conn) : World := mkWorld NewSession h [].

Lemma wf_initial h : wf (initial h).
Proof. split; simpl; intros *; by rewrite lookup_empty. Qed.

(** A registered connection is found under its own identifier. *)
Lemma wf_conn_inv w cid c :
  wf w -> conns (sess w) !! cid = Some c ->
  exists o, heap w !! c = Some o /\ ID o = cid /\ conns (sess w) !! ID o = Some c.
Proof. intros Hw Hc. destruct (wf_conns w Hw _ _ Hc) as (o & Ho & <-). eauto. Qed.

(** A connection is the session of at most one user: the one it is bound to. *)
Lemma wf_user_unique w u c o :
  wf w -> users (sess w) !! u = Some c -> heap w !! c = Some o -> UID o = u.
Proof. intros Hw Hu Ho. destruct (wf_users w Hw _ _ Hu) as (_ & o' & ? & ? & _). congruence. Qed.

Lemma wf_no_zero w : wf w -> users (sess w) !! 0 = None.
Proof.
  intros Hw. destruct (users (sess w) !! 0) as [c|] eqn:E; [|done].
  by destruct (wf_users w Hw _ _ E).
Qed.

(** ** Binding *)

Definition unbound (o : conn) : conn := mkConn (ID o) 0 (Attr o).

(** The world after bindToken *)
Definition bound (w : World) (c : cref) (o : conn) (uid : Z) (t : Token) : World :=
  let s := sess w in
  mkWorld
    (mkSession (conns s)
       (<[uid := c]> (if is_user s (UID o) c then delete (UID o) (users s) else users s))
       (<[ID o := t]> (tokens s)) (generations s) (channels s))
    (<[c := mkConn (ID o) uid (Attr o)]>
       (match users s !! uid with Some d => alter unbound d (heap w) | None => heap w end))
    (log w).

Definition with_gens (gs : gmap Z Z) (w : World) : World :=
  mkWorld (mkSession (conns (sess w)) (users (sess w)) (tokens (sess w)) gs
             (channels (sess w))) (heap w) (log w).

Lemma alter_some (f : conn -> conn) (d : cref) (h : gmap cref conn) o :
  h !! d = Some o -> alter f d h = <[d := f o]> h.
Proof.
  intros Hd. apply map_eq. intros i. destruct (decide (i = d)) as [->|Hi].
  - by rewrite lookup_insert_eq, lookup_alter_eq, Hd.
  - by rewrite lookup_insert_ne, lookup_alter_ne.
Qed.

(** The two writes of bindToken's tail: the previous owner loses the user, the
    connection gets it. *)
Lemma take_over {A} (k : ST World A) s h lg c o uid us :
  h !! c = Some o -> us <> Some c -> (forall d, us = Some d -> is_Some (h !! d)) ->
  ((match us with
    | Some d => if bool_decide (d = c) then st_ret tt else conn_Unbind d
    | None => st_ret tt
    end) ;;; conn_Bind c uid ;;; k) (mkWorld s h lg)
  = k (mkWorld s (<[c := mkConn (ID o) uid (Attr o)]>
      (match us with Some d => alter unbound d h | None => h end)) lg).
Proof.
  intros Ho Hne Hd. unfold conn_Unbind, conn_Bind, deref, store, st_ret, st_bind.
  destruct us as [d|]; simpl; [|by rewrite Ho].
  rewrite bool_decide_eq_false_2 by congruence. simpl.
  destruct (Hd d eq_refl) as [od Hod]. rewrite Hod. simpl.
  rewrite lookup_insert_ne by congruence. rewrite Ho. by rewrite (alter_some _ _ _ _ Hod).
Qed.

Lemma bindToken_bound w c o uid t gs :
  wf w -> heap w !! c = Some o -> uid <> 0 ->
  bindToken c uid t (with_gens gs w) = (Ok tt, with_gens gs (bound w c o uid t)).
Proof.
  intros Hw Ho Hu.
  assert (users (sess w) !! uid = Some c -> UID o = uid) as Huniq
    by (intros; by eapply wf_user_unique).
  assert (forall d, users (sess w) !! uid = Some d -> is_Some (heap w !! d)) as Hd.
  { intros d E. destruct (wf_users w Hw _ _ E) as (_ & od & ? & _). eauto. }
  pose proof (wf_no_zero _ Hw) as H0.
  unfold bindToken, bound, with_gens. unfold st_bind at 1 2 3. unfold deref at 1, get at 1 2.
  cbn [heap sess conns users tokens generations channels Session.log].
  rewrite Ho. destruct w as [[cs us ts gens chs] h lg]. unfold is_user in *. simpl in *.
  destruct (Z.eqb_spec (UID o) uid) as [<-|E].
  - rewrite (proj2 (Z.eqb_neq _ _) Hu). cbn [negb andb].
    case_bool_decide as Hc.
    + cbn. unfold set_tokens, upd. cbn. rewrite Hc. do 2 f_equal.
      * f_equal. by rewrite insert_delete_eq, insert_id.
      * apply map_eq. intros i. destruct (decide (i = c)) as [->|Hi].
        -- rewrite lookup_insert_eq, Ho. by destruct o.
        -- by rewrite lookup_insert_ne, lookup_alter_ne.
    + unfold st_bind at 1 2, get. cbn [users sess st_ret].
      by rewrite (take_over _ _ _ _ _ o) by (done || congruence).
  - rewrite !andb_false_r. cbn [negb andb]. rewrite andb_true_r.
    assert (negb (UID o =? 0) && bool_decide (us !! UID o = Some c)
            = bool_decide (us !! UID o = Some c)) as ->.
    { destruct (Z.eqb_spec (UID o) 0) as [->|]; [|done]. by rewrite H0. }
    assert (us !! uid <> Some c) by (intros ?; by apply E, Huniq).
    unfold st_bind at 1 2, get. case_bool_decide.
    + unfold set_users at 1, upd. cbn [users sess st_ret conns tokens generations channels heap Session.log].
      rewrite lookup_delete_ne by done.
      by rewrite (take_over _ _ _ _ _ o) by (done || congruence).
    + cbn [users sess st_ret].
      by rewrite (take_over _ _ _ _ _ o) by (done || congruence).
Qed.

(** Lookups in the world after a binding *)
Lemma bound_users w c o uid t u d :
  wf w -> heap w !! c = Some o -> users (sess (bound w c o uid t)) !! u = Some d ->
  (u = uid /\ d = c) \/ (u <> uid /\ users (sess w) !! u = Some d /\ d <> c).
Proof.
  intros Hw Ho. simpl. destruct (decide (u = uid)) as [->|Hu].
  - rewrite lookup_insert_eq. intros [= ->]. by left.
  - rewrite lookup_insert_ne by done. unfold is_user. case_bool_decide as Hc; intros Hd.
    + apply lookup_delete_Some in Hd as [Hne Hd]. right. repeat split; [done..|].
      intros ->. by apply Hne, (wf_user_unique w u c o).
    + right. repeat split; [done..|]. intros ->.
      apply Hc. by rewrite (wf_user_unique w u c o).
Qed.

Lemma bound_heap_same w c o uid t :
  heap (bound w c o uid t) !! c = Some (mkConn (ID o) uid (Attr o)).
Proof. apply lookup_insert_eq. Qed.

Lemma bound_heap_other w c o uid t d od :
  d <> c -> heap w !! d = Some od ->
  heap (bound w c o uid t) !! d
  = Some (if bool_decide (users (sess w) !! uid = Some d) then unbound od else od).
Proof.
  intros Hd Hod. simpl. rewrite lookup_insert_ne by done.
  destruct (users (sess w) !! uid) as [e|] eqn:E.
  - case_bool_decide as He.
    + injection He as ->. by rewrite lookup_alter_eq, Hod.
    + rewrite lookup_alter_ne by congruence. done.
  - by rewrite bool_decide_eq_false_2.
Qed.

(** Identifiers and attributes survive a binding. *)
Lemma bound_heap w c o uid t d od :
  heap w !! c = Some o -> heap w !! d = Some od ->
  exists u, heap (bound w c o uid t) !! d = Some (mkConn (ID od) u (Attr od)).
Proof.
  intros Ho Hod. destruct (decide (d = c)) as [->|Hd].
  - rewrite bound_heap_same. eexists. by simplify_eq.
  - rewrite (bound_heap_other _ _ _ _ _ _ _ Hd Hod).
    case_bool_decide; [by eexists|]. exists (UID od). by destruct od.
Qed.

Lemma wf_bound w c o uid t gs :
  wf w -> heap w !! c = Some o -> conns (sess w) !! ID o = Some c -> uid <> 0 ->
  Types.UID t = uid -> Generation t <> 0 ->
  (forall u, inU 64 (default 0 (gs !! u))) -> Generation t <= default 0 (gs !! uid) ->
  (forall u, u <> uid -> gs !! u = generations (sess w) !! u) ->
  wf (with_gens gs (bound w c o uid t)).
Proof.
  intros Hw Ho Hc Hu Ht Hg Hgs Hle Hsame. split.
  - intros cid d Hd. destruct (wf_conns w Hw _ _ Hd) as (od & Hod & <-).
    destruct (bound_heap w c o uid t d od Ho Hod) as [u Hu']. eauto.
  - intros u d Hd. destruct (bound_users w c o uid t u d Hw Ho Hd) as [[-> ->]|(Hne & Hud & Hdc)].
    + split; [done|]. eexists. split; [apply bound_heap_same|]. done.
    + destruct (wf_users w Hw _ _ Hud) as (H0 & od & Hod & HU & Hcd). split; [done|].
      eexists. split; [by apply bound_heap_other|].
      case_bool_decide as E; [|done]. exfalso. apply Hne.
      rewrite <- HU. by eapply wf_user_unique.
  - intros u d od Hd Hod.
    destruct (bound_users w c o uid t u d Hw Ho Hd) as [[-> ->]|(Hne & Hud & Hdc)].
    + exists t. simpl. simpl in Hod. rewrite lookup_insert_eq in Hod. simplify_eq. simpl.
      by rewrite lookup_insert_eq.
    + destruct (wf_users w Hw _ _ Hud) as (H0 & od' & Hod' & HU & Hcd).
      destruct (wf_tokens w Hw _ _ _ Hud Hod') as (t' & Ht' & HUt & Hgt & Hlt).
      destruct (bound_heap w c o uid t d od' Ho Hod') as [u' Hu'].
      change (heap (bound w c o uid t) !! d = Some od) in Hod. simplify_eq. simpl.
      exists t'. rewrite Hsame by done. rewrite lookup_insert_ne; [done|].
      intros E. rewrite <- E in Hcd. congruence.
  - intros cid t'. simpl. destruct (decide (cid = ID o)) as [->|Hne]; [by rewrite Hc; eauto|].
    rewrite lookup_insert_ne by done. apply (wf_token_conns w Hw).
  - done.
  - intros ch ms Hch. destruct (wf_channels w Hw _ _ Hch) as [Hne Hms]. split; [done|].
    intros d Hd. destruct (Hms d Hd) as (od & Hod & Ha & Hcd).
    destruct (bound_heap w c o uid t d od Ho Hod) as [u Hu']. eauto.
Qed.

(** ** Generations *)

Definition next_gen (g : Z) : Z :=
  let g1 := u64 (g + 1) in if g1 =? 0 then u64 (g1 + 1) else g1.

Definition gen (w : World) (uid : Z) : Z := default 0 (generations (sess w) !! uid).

Lemma nextGeneration_eq uid w :
  nextGeneration uid w
  = (Ok (next_gen (gen w uid)),
     with_gens (<[uid := next_gen (gen w uid)]> (generations (sess w))) w).
Proof. done. Qed.

Lemma next_gen_range g : inU 64 (next_gen g) /\ next_gen g <> 0.
Proof.
  unfold next_gen. pose proof (wrapU_in 64 (g + 1) ltac:(lia)) as H.
  destruct (Z.eqb_spec (u64 (g + 1)) 0) as [->|]; [|done]. by vm_compute.
Qed.

(** Below the last generation the next one is larger by one. *)
Lemma next_gen_succ g : 0 <= g < 2 ^ 64 - 1 -> next_gen g = g + 1.
Proof.
  intros H. unfold next_gen. rewrite wrapU_id by (unfold inU; lia).
  by rewrite (proj2 (Z.eqb_neq _ _)) by lia.
Qed.

Lemma gens_insert_range w uid g u :
  wf w -> inU 64 g -> inU 64 (default 0 (<[uid := g]> (generations (sess w)) !! u)).
Proof.
  intros Hw Hg. destruct (decide (u = uid)) as [->|Hu].
  - by rewrite lookup_insert_eq.
  - rewrite lookup_insert_ne by done. apply (wf_generations w Hw).
Qed.

(** ** Bind and BindToken *)

(** The world after a successful Bind *)
Definition after_bind (w : World) (c : cref) (o : conn) (uid : Z) : World :=
  let g := next_gen (gen w uid) in
  with_gens (<[uid := g]> (generations (sess w))) (bound w c o uid (mkToken uid g)).

Lemma Bind_eq w cid uid c o :
  wf w -> conns (sess w) !! cid = Some c -> heap w !! c = Some o -> uid <> 0 ->
  Bind cid uid w = (Ok tt, if UID o =? uid then w else after_bind w c o uid).
Proof.
  intros Hw Hc Ho Hu. unfold Bind, conn_, lookup_conn, st_bind at 1 2, deref.
  change (Kind.Conn =? Kind.Conn) with true. cbv iota. rewrite Hc, Ho.
  destruct (UID o =? uid); [done|]. unfold st_bind. rewrite nextGeneration_eq.
  by apply bindToken_bound.
Qed.

Lemma Bind_missing w cid uid :
  conns (sess w) !! cid = None -> Bind cid uid w = (Err ErrNotFoundSession, w).
Proof. intros Hc. unfold Bind, conn_, lookup_conn, st_bind. simpl. by rewrite Hc. Qed.

Lemma wf_after_bind w c o uid :
  wf w -> heap w !! c = Some o -> conns (sess w) !! ID o = Some c -> uid <> 0 ->
  wf (after_bind w c o uid).
Proof.
  intros Hw Ho Hc Hu. destruct (next_gen_range (gen w uid)) as [Hr Hn].
  apply wf_bound; try done.
  - intros u. by apply gens_insert_range.
  - simpl. rewrite lookup_insert_eq. simpl. lia.
  - intros u Hne. by rewrite lookup_insert_ne.
Qed.

Definition after_bind_token (w : World) (c : cref) (o : conn) (uid : Z) (t : Token) : World :=
  with_gens (if gen w uid <? Generation t then <[uid := Generation t]> (generations (sess w))
             else generations (sess w)) (bound w c o uid t).

Lemma with_gens_id w : with_gens (generations (sess w)) w = w.
Proof. by destruct w as [[] ? ?]. Qed.

Lemma BindToken_eq w cid uid t c o :
  wf w -> conns (sess w) !! cid = Some c -> heap w !! c = Some o ->
  0 < uid -> Types.UID t = uid -> Generation t <> 0 ->
  BindToken cid uid t w = (Ok tt, after_bind_token w c o uid t).
Proof.
  intros Hw Hc Ho Hu Ht Hg. unfold BindToken.
  rewrite (proj2 (Z.leb_gt _ _)), (proj2 (Z.eqb_eq _ _)), (proj2 (Z.eqb_neq _ _)) by done.
  cbn [orb negb]. unfold conn_, lookup_conn, st_bind at 1 2.
  change (Kind.Conn =? Kind.Conn) with true. cbv iota. rewrite Hc.
  rewrite <- (with_gens_id w) at 1. rewrite (bindToken_bound w c o) by (done || lia).
  unfold after_bind_token, st_bind, get, gen. cbn [generations sess with_gens].
  by destruct (_ <? _).
Qed.

Lemma wf_after_bind_token w c o uid t :
  wf w -> heap w !! c = Some o -> conns (sess w) !! ID o = Some c -> 0 < uid ->
  Types.UID t = uid -> Generation t <> 0 -> inU 64 (Generation t) ->
  wf (after_bind_token w c o uid t).
Proof.
  intros Hw Ho Hc Hu Ht Hg Hr. unfold after_bind_token.
  destruct (Z.ltb_spec (gen w uid) (Generation t)); apply wf_bound; try done; try lia.
  - intros u. by apply gens_insert_range.
  - rewrite lookup_insert_eq. simpl. lia.
  - intros u Hne. by rewrite lookup_insert_ne.
  - apply (wf_generations w Hw).
Qed.

(** ** Unbind *)

Definition after_unbind (w : World) (c : cref) (o : conn) (uid : Z) : World :=
  mkWorld (mkSession (conns (sess w)) (delete uid (users (sess w))) (tokens (sess w))
             (generations (sess w)) (channels (sess w)))
    (<[c := unbound o]> (heap w)) (log w).

Lemma Unbind_eq w uid c o :
  users (sess w) !! uid = Some c -> heap w !! c = Some o ->
  Unbind uid w = (Ok (ID o), after_unbind w c o uid).
Proof.
  intros Hu Ho. unfold Unbind, conn_, lookup_conn, conn_Unbind, deref, store, set_users, upd,
    st_bind, st_ret. simpl. rewrite Hu. simpl. rewrite Ho. simpl. by rewrite lookup_insert_eq.
Qed.

Lemma Unbind_missing w uid :
  users (sess w) !! uid = None -> Unbind uid w = (Err ErrNotFoundSession, w).
Proof. intros Hu. unfold Unbind, conn_, lookup_conn, st_bind. simpl. by rewrite Hu. Qed.

Lemma wf_after_unbind w c o uid :
  wf w -> users (sess w) !! uid = Some c -> heap w !! c = Some o -> wf (after_unbind w c o uid).
Proof.
  intros Hw Hu Ho.
  assert (forall d od, heap w !! d = Some od -> exists u,
    heap (after_unbind w c o uid) !! d = Some (mkConn (ID od) u (Attr od))) as Hh.
  { intros d od Hod. simpl. destruct (decide (d = c)) as [->|Hd].
    - rewrite lookup_insert_eq. eexists. by simplify_eq.
    - rewrite lookup_insert_ne by done. exists (UID od). rewrite Hod. by destruct od. }
  split.
  - intros cid d Hd. destruct (wf_conns w Hw _ _ Hd) as (od & Hod & <-).
    destruct (Hh d od Hod) as [u Hu']. eauto.
  - intros u d Hd. simpl in Hd. apply lookup_delete_Some in Hd as [Hne Hd].
    destruct (wf_users w Hw _ _ Hd) as (H0 & od & Hod & HU & Hcd). split; [done|].
    exists od. simpl. rewrite lookup_insert_ne; [done|]. intros <-. apply Hne.
    rewrite <- HU. symmetry. by eapply wf_user_unique.
  - intros u d od Hd Hod. simpl in Hd. apply lookup_delete_Some in Hd as [Hne Hd].
    destruct (wf_users w Hw _ _ Hd) as (H0 & od' & Hod' & HU & Hcd).
    destruct (Hh d od' Hod') as [u' Hu']. rewrite Hod in Hu'. simplify_eq. simpl.
    apply (wf_tokens w Hw _ _ _ Hd Hod').
  - apply (wf_token_conns w Hw).
  - apply (wf_generations w Hw).
  - intros ch ms Hch. destruct (wf_channels w Hw _ _ Hch) as [Hne Hms]. split; [done|].
    intros d Hd. destruct (Hms d Hd) as (od & Hod & Ha & Hcd).
    destruct (Hh d od Hod) as [u Hu']. eauto.
Qed.

(** ** AddConn *)

Definition after_add (w : World) (c : cref) (o : conn) : World :=
  let s := sess w in
  let g := next_gen (gen w (UID o)) in
  mkWorld
    (if UID o =? 0
     then mkSession (<[ID o := c]> (conns s)) (users s) (tokens s) (generations s) (channels s)
     else mkSession (<[ID o := c]> (conns s)) (<[UID o := c]> (users s))
            (<[ID o := mkToken (UID o) g]> (tokens s))
            (<[UID o := g]> (generations s)) (channels s)) (heap w) (log w).

Lemma AddConn_eq w c o :
  heap w !! c = Some o -> AddConn c w = (Ok tt, after_add w c o).
Proof.
  intros Ho. unfold AddConn, st_bind at 1, deref. rewrite Ho. unfold after_add.
  by destruct (UID o =? 0).
Qed.

(** [c] is an object the session does not know yet. *)
Definition new_conn (w : World) (c : cref) (o : conn) : Prop :=
  heap w !! c = Some o /\ conns (sess w) !! ID o = None /\
  forall cid, conns (sess w) !! cid <> Some c.

(** What the tables say stays true when a new connection is registered. *)
Lemma new_conn_keeps w c o :
  wf w -> new_conn w c o ->
  let cs := <[ID o := c]> (conns (sess w)) in
  (forall i d, conns (sess w) !! i = Some d -> cs !! i = Some d) /\
  (forall u d, users (sess w) !! u = Some d -> d <> c) /\
  (forall cid d, cs !! cid = Some d -> exists od, heap w !! d = Some od /\ ID od = cid) /\
  (forall ch ms, channels (sess w) !! ch = Some ms -> ms <> ∅ /\ forall d, d ∈ ms ->
    exists od, heap w !! d = Some od /\ KString ch ∈ Attr od /\ cs !! ID od = Some d).
Proof.
  intros Hw (Ho & Hn & Hf) cs.
  assert (forall i d, conns (sess w) !! i = Some d -> cs !! i = Some d)
    as Hi by (intros i d Hd; unfold cs; rewrite lookup_insert_ne; congruence).
  split; [done|]. split; [|split].
  - intros u d Hu ->. destruct (wf_users w Hw _ _ Hu) as (_ & o' & _ & _ & Hc).
    by apply (Hf (ID o')).
  - intros cid d Hcd. unfold cs in Hcd. destruct (decide (cid = ID o)) as [->|Hne].
    + rewrite lookup_insert_eq in Hcd. injection Hcd as <-. eauto.
    + rewrite lookup_insert_ne in Hcd by done. by apply (wf_conns w Hw).
  - intros ch ms Hms. destruct (wf_channels w Hw _ _ Hms) as [Hne Hm]. split; [done|].
    intros d Hdm. destruct (Hm d Hdm) as (od & ? & ? & ?). eauto.
Qed.

Lemma wf_after_add w c o : wf w -> new_conn w c o -> wf (after_add w c o).
Proof.
  intros Hw Hnew. destruct (new_conn_keeps w c o Hw Hnew) as (Hi & Hd & Hcs & Hch).
  destruct Hnew as (Ho & Hn & Hf).
  unfold after_add. destruct (Z.eqb_spec (UID o) 0) as [H0|H0].
  - split; simpl; try done.
    + intros u d Hu. destruct (wf_users w Hw _ _ Hu) as (? & od & ? & ? & ?). eauto 8.
    + apply (wf_tokens w Hw).
    + intros cid t Ht. destruct (wf_token_conns w Hw _ _ Ht) as [d Hcd]. eauto.
    + apply (wf_generations w Hw).
  - destruct (next_gen_range (gen w (UID o))) as [Hr Hz]. split; simpl; try done.
    + intros u d Hu. destruct (decide (u = UID o)) as [->|Hne].
      * rewrite lookup_insert_eq in Hu. injection Hu as <-. split; [done|].
        exists o. by rewrite lookup_insert_eq.
      * rewrite lookup_insert_ne in Hu by done.
        destruct (wf_users w Hw _ _ Hu) as (? & od & ? & ? & ?). eauto 8.
    + intros u d od Hu Hod. destruct (decide (u = UID o)) as [->|Hne].
      * rewrite lookup_insert_eq in Hu. injection Hu as <-. simplify_eq.
        eexists. rewrite !lookup_insert_eq. split; [done|]. simpl. split; [done|]. split; [done|lia].
      * rewrite lookup_insert_ne in Hu by done.
        destruct (wf_tokens w Hw _ _ _ Hu Hod) as (t & Ht & ?). exists t.
        rewrite !lookup_insert_ne; [done|done|]. intros E.
        destruct (wf_token_conns w Hw _ _ Ht) as [d' Hd']. congruence.
    + intros cid t Ht. destruct (decide (cid = ID o)) as [->|Hne].
      * rewrite lookup_insert_eq. eauto.
      * rewrite lookup_insert_ne in Ht by done.
        destruct (wf_token_conns w Hw _ _ Ht) as [d Hcd]. eauto.
    + intros u. by apply gens_insert_range.
Qed.

(** ** Channels *)

(** doUnsubscribe on the map of channels *)
Definition unsub (c : cref) (ch : list Z) (chs : gmap (list Z) (gset cref))
    : gmap (list Z) (gset cref) :=
  match chs !! ch with
  | Some ms => if bool_decide (ms ∖ {[c]} = ∅) then delete ch chs
               else <[ch := ms ∖ {[c]}]> chs
  | None => chs
  end.

Definition with_channels (w : World) chs : World :=
  mkWorld (mkSession (conns (sess w)) (users (sess w)) (tokens (sess w))
             (generations (sess w)) chs) (heap w) (log w).

Lemma doUnsubscribe_eq ch c w :
  doUnsubscribe ch c w = (Ok tt, with_channels w (unsub c ch (channels (sess w)))).
Proof.
  unfold doUnsubscribe, unsub, st_bind, get.
  destruct (channels (sess w) !! ch) as [ms|]; [by case_bool_decide|].
  by destruct w as [[] ? ?].
Qed.

Lemma unsub_lookup c ch chs ch' ms :
  unsub c ch chs !! ch' = Some ms ->
  exists ms0, chs !! ch' = Some ms0 /\ ms = (if decide (ch' = ch) then ms0 ∖ {[c]} else ms0)
    /\ (ms0 <> ∅ -> ms <> ∅).
Proof.
  unfold unsub. destruct (chs !! ch) as [m|] eqn:E.
  - case_bool_decide as Hb.
    + intros H. apply lookup_delete_Some in H as [Hne H]. exists ms.
      by rewrite decide_False.
    + destruct (decide (ch' = ch)) as [->|Hne].
      * rewrite lookup_insert_eq. intros [= <-]. exists m. done.
      * rewrite lookup_insert_ne by done. intros H. by exists ms.
  - intros H. exists ms. destruct (decide (ch' = ch)) as [->|Hne]; [congruence|done].
Qed.

Lemma unsub_other c ch chs ch' : ch' <> ch -> unsub c ch chs !! ch' = chs !! ch'.
Proof.
  intros Hne. unfold unsub. destruct (chs !! ch); [|done].
  case_bool_decide; [by rewrite lookup_delete_ne|by rewrite lookup_insert_ne].
Qed.

(** The other members of a channel stay. *)
Lemma unsub_keeps c ch chs ch' ms0 d :
  chs !! ch' = Some ms0 -> d ∈ ms0 -> d <> c ->
  exists ms, unsub c ch chs !! ch' = Some ms /\ d ∈ ms.
Proof.
  intros H0 Hd Hne. destruct (decide (ch' = ch)) as [->|Hc].
  - unfold unsub. rewrite H0. rewrite bool_decide_eq_false_2 by set_solver.
    rewrite lookup_insert_eq. eexists. split; [done|]. set_solver.
  - rewrite unsub_other by done. eauto.
Qed.

Definition unsub_all (c : cref) (ss : list (list Z)) chs := foldl (fun m s => unsub c s m) chs ss.

Lemma unsub_all_lookup c ss chs ch ms :
  unsub_all c ss chs !! ch = Some ms ->
  exists ms0, chs !! ch = Some ms0 /\ ms ⊆ ms0 /\ (ms0 <> ∅ -> ms <> ∅) /\
    (ch ∈ ss -> c ∉ ms).
Proof.
  revert chs. induction ss as [|s ss IH]; intros chs; simpl.
  - intros H. exists ms. split; [done|]. split; [done|]. split; [done|]. by rewrite elem_of_nil.
  - intros H. destruct (IH _ H) as (m1 & H1 & Hs1 & Hn1 & Hc1).
    destruct (unsub_lookup _ _ _ _ _ H1) as (m0 & H0 & E & Hn0). exists m0.
    split; [done|]. split; [|split; [auto|]].
    + subst m1. destruct (decide (ch = s)); set_solver.
    + rewrite elem_of_cons. intros [->|Hin]; [|by apply Hc1].
      rewrite decide_True in E by done. set_solver.
Qed.

Lemma unsub_all_keeps c ss chs ch ms0 d :
  chs !! ch = Some ms0 -> d ∈ ms0 -> d <> c ->
  exists ms, unsub_all c ss chs !! ch = Some ms /\ d ∈ ms.
Proof.
  revert chs ms0. induction ss as [|s ss IH]; intros chs ms0 H0 Hd Hne; simpl; [eauto|].
  destruct (unsub_keeps c s chs ch ms0 d H0 Hd Hne) as (m1 & H1 & Hd1). by eapply IH.
Qed.

Lemma with_channels_twice w a b : with_channels (with_channels w a) b = with_channels w b.
Proof. done. Qed.

(** The body of the Visit in RemConnWithToken *)
Definition visit_attr (c : cref) (k : key) : ST World unit :=
  match k with KString channel => doUnsubscribe channel c | KOther _ => st_panic end.

Lemma visit_strings c ss w :
  st_iter (visit_attr c) (map KString ss) w
  = (Ok tt, with_channels w (unsub_all c ss (channels (sess w)))).
Proof.
  revert w. induction ss as [|s ss IH]; intros w; simpl.
  - by destruct w as [[] ? ?].
  - unfold st_bind. rewrite doUnsubscribe_eq, IH. done.
Qed.

(** ** RemConn *)

Definition after_rem (w : World) (c : cref) (o : conn) (ss : list (list Z)) : World :=
  let s := sess w in
  mkWorld (mkSession (delete (ID o) (conns s))
             (if is_user s (UID o) c then delete (UID o) (users s) else users s)
             (delete (ID o) (tokens s)) (generations s)
             (unsub_all c ss (channels s))) (heap w) (log w).

Lemma RemConnWithToken_eq w c o ss :
  wf w -> heap w !! c = Some o ->
  RemConnWithToken (map KString ss) c w
  = (Ok (UID o, token_at (sess w) (ID o)), after_rem w c o ss).
Proof.
  intros Hw Ho. unfold RemConnWithToken. unfold st_bind at 1 2. unfold deref at 1, get at 1.
  rewrite Ho. unfold st_bind at 1 2 3. unfold get at 1. cbn [set_conns set_tokens upd sess].
  assert (forall s, users s = users (sess w) ->
    negb (UID o =? 0) && is_user s (UID o) c = is_user (sess w) (UID o) c) as Hz.
  { intros s Hs. unfold is_user. rewrite Hs. destruct (Z.eqb_spec (UID o) 0) as [->|]; [|done].
    rewrite (wf_no_zero w Hw). done. }
  unfold st_bind at 1. rewrite Hz by done. unfold after_rem.
  fold (visit_attr c).
  destruct (is_user (sess w) (UID o) c);
    (unfold st_bind; cbn [set_users upd st_ret];
     rewrite visit_strings; done).
Qed.

Lemma wf_after_rem w c o ss :
  wf w -> heap w !! c = Some o -> conns (sess w) !! ID o = Some c ->
  (forall s, KString s ∈ Attr o -> s ∈ ss) -> wf (after_rem w c o ss).
Proof.
  intros Hw Ho Hc Hss.
  assert (forall u d, users (sess (after_rem w c o ss)) !! u = Some d ->
    users (sess w) !! u = Some d /\ d <> c) as Hus.
  { intros u d. simpl. unfold is_user. case_bool_decide as E; intros Hd.
    - apply lookup_delete_Some in Hd as [Hne Hd]. split; [done|]. intros ->.
      by apply Hne, (wf_user_unique w u c o).
    - split; [done|]. intros ->. apply E. by rewrite (wf_user_unique w u c o). }
  assert (forall i d, conns (sess w) !! i = Some d -> d <> c ->
    conns (sess (after_rem w c o ss)) !! i = Some d) as Hcs.
  { intros i d Hd Hne. simpl. rewrite lookup_delete_ne; [done|]. intros <-. congruence. }
  split.
  - intros cid d Hd. simpl in Hd. apply lookup_delete_Some in Hd as [_ Hd].
    by apply (wf_conns w Hw).
  - intros u d Hd. destruct (Hus u d Hd) as [Hu Hne].
    destruct (wf_users w Hw _ _ Hu) as (H0 & od & Hod & HU & Hcd). split; [done|].
    exists od. auto.
  - intros u d od Hd Hod. destruct (Hus u d Hd) as [Hu Hne].
    destruct (wf_users w Hw _ _ Hu) as (H0 & od' & Hod' & HU & Hcd).
    change (heap w !! d = Some od) in Hod. simplify_eq. simpl.
    destruct (wf_tokens w Hw _ _ _ Hu Hod) as (t & Ht & ?). exists t.
    rewrite lookup_delete_ne; [done|]. intros E. congruence.
  - intros cid t Ht. simpl in Ht |- *. apply lookup_delete_Some in Ht as [Hne Ht].
    rewrite lookup_delete_ne by done. by apply (wf_token_conns w Hw cid t).
  - apply (wf_generations w Hw).
  - intros ch ms Hch. destruct (unsub_all_lookup _ _ _ _ _ Hch) as (m0 & H0 & Hs & Hn & Hcn).
    destruct (wf_channels w Hw _ _ H0) as [Hne Hm]. split; [auto|]. intros d Hd.
    destruct (Hm d ltac:(set_solver)) as (od & Hod & Ha & Hcd). exists od.
    split; [done|]. split; [done|]. apply Hcs; [done|]. intros ->. simplify_eq.
    apply (Hcn (Hss ch Ha)). done.
Qed.

(** ** Subscribe and Unsubscribe *)

Definition with_attr (o : conn) (a : gset key) : conn := mkConn (ID o) (UID o) a.

(** The world after the attributes of [c] and the channels change *)
Definition recast (w : World) (c : cref) (o : conn) (a : gset key) chs : World :=
  mkWorld (sess (with_channels w chs)) (<[c := with_attr o a]> (heap w)) (log w).

Lemma wf_recast w c o a chs :
  wf w -> heap w !! c = Some o ->
  (forall ch ms, chs !! ch = Some ms -> ms <> ∅ /\ forall d, d ∈ ms ->
     exists od, heap (recast w c o a chs) !! d = Some od /\ KString ch ∈ Attr od /\
                conns (sess w) !! ID od = Some d) ->
  wf (recast w c o a chs).
Proof.
  intros Hw Ho Hch.
  assert (forall d od, heap w !! d = Some od -> exists od',
    heap (recast w c o a chs) !! d = Some od' /\ ID od' = ID od /\ UID od' = UID od) as Hh.
  { intros d od Hod. simpl. destruct (decide (d = c)) as [->|Hd].
    - rewrite lookup_insert_eq. exists (with_attr o a). by simplify_eq.
    - rewrite lookup_insert_ne by done. eauto. }
  split.
  - intros cid d Hd. destruct (wf_conns w Hw _ _ Hd) as (od & Hod & <-).
    destruct (Hh d od Hod) as (od' & ? & ? & _). eauto.
  - intros u d Hd. destruct (wf_users w Hw _ _ Hd) as (H0 & od & Hod & HU & Hcd).
    destruct (Hh d od Hod) as (od' & E & EI & EU). split; [done|]. exists od'.
    split; [done|]. split; [congruence|]. by rewrite EI.
  - intros u d od Hd Hod. destruct (wf_users w Hw _ _ Hd) as (H0 & od' & Hod' & HU & Hcd).
    destruct (Hh d od' Hod') as (od'' & E & EI & EU). rewrite Hod in E.
    injection E as <-. rewrite EI. apply (wf_tokens w Hw _ _ _ Hd Hod').
  - apply (wf_token_conns w Hw).
  - apply (wf_generations w Hw).
  - exact Hch.
Qed.

Definition sub_one (ch : list Z) (c : cref) : ST World unit :=
  attr_Set c (KString ch) ;;;
  set_channels (fun chs => <[ch := {[c]} ∪ default ∅ (chs !! ch)]> chs).

Definition unsub_one (ch : list Z) (c : cref) : ST World unit :=
  let! ok := attr_Del c (KString ch) in if ok then doUnsubscribe ch c else st_ret tt.

Definition subscribed (w : World) (c : cref) (o : conn) (ch : list Z) : World :=
  recast w c o ({[KString ch]} ∪ Attr o)
    (<[ch := {[c]} ∪ default ∅ (channels (sess w) !! ch)]> (channels (sess w))).

Definition unsubscribed (w : World) (c : cref) (o : conn) (ch : list Z) : World :=
  recast w c o (Attr o ∖ {[KString ch]})
    (if bool_decide (KString ch ∈ Attr o) then unsub c ch (channels (sess w))
     else channels (sess w)).

Lemma sub_one_eq ch c o w : heap w !! c = Some o -> sub_one ch c w = (Ok tt, subscribed w c o ch).
Proof. intros Ho. unfold sub_one, attr_Set, deref, store, st_bind. by rewrite Ho. Qed.

Lemma unsub_one_eq ch c o w :
  heap w !! c = Some o -> unsub_one ch c w = (Ok tt, unsubscribed w c o ch).
Proof.
  intros Ho. unfold unsub_one, attr_Del, deref, store, st_bind, st_ret. rewrite Ho. simpl.
  unfold unsubscribed. case_bool_decide; [by rewrite doUnsubscribe_eq|].
  by destruct w as [[] ? ?].
Qed.

Lemma heap_recast w c o a chs d od :
  heap w !! c = Some o -> heap w !! d = Some od ->
  heap (recast w c o a chs) !! d
  = Some (if decide (d = c) then with_attr o a else od).
Proof.
  intros Ho Hod. simpl. destruct (decide (d = c)) as [->|Hd].
  - by rewrite lookup_insert_eq.
  - by rewrite lookup_insert_ne.
Qed.

Lemma wf_subscribed w c o ch :
  wf w -> heap w !! c = Some o -> conns (sess w) !! ID o = Some c -> wf (subscribed w c o ch).
Proof.
  intros Hw Ho Hc. apply wf_recast; [done..|]. intros ch' ms Hms.
  assert (forall ms', channels (sess w) !! ch' = Some ms' -> forall d, d ∈ ms' ->
    exists od, heap (subscribed w c o ch) !! d = Some od /\ KString ch' ∈ Attr od /\
               conns (sess w) !! ID od = Some d) as Hold.
  { intros ms' Hms' d Hd. destruct (wf_channels w Hw _ _ Hms') as [_ Hm].
    destruct (Hm d Hd) as (od & Hod & Ha & Hcd). eexists.
    split; [by apply heap_recast|]. destruct (decide (d = c)) as [->|]; [|done].
    simplify_eq. simpl. split; [set_solver|done]. }
  destruct (decide (ch' = ch)) as [->|Hne].
  - rewrite lookup_insert_eq in Hms. injection Hms as <-. split; [set_solver|].
    intros d. rewrite elem_of_union, elem_of_singleton. intros [->|Hd].
    + exists (with_attr o ({[KString ch]} ∪ Attr o)). simpl.
      rewrite lookup_insert_eq. split; [done|]. split; [set_solver|done].
    + destruct (channels (sess w) !! ch) as [ms'|] eqn:E; simpl in Hd; [|set_solver].
      by eapply Hold.
  - rewrite lookup_insert_ne in Hms by done. split; [by apply (wf_channels w Hw _ _ Hms)|].
    by apply Hold.
Qed.

Lemma wf_unsubscribed w c o ch :
  wf w -> heap w !! c = Some o -> wf (unsubscribed w c o ch).
Proof.
  intros Hw Ho. apply wf_recast; [done..|]. intros ch' ms Hms.
  assert (exists ms0, channels (sess w) !! ch' = Some ms0 /\ ms ⊆ ms0 /\ ms <> ∅ /\
    (c ∈ ms -> ch' <> ch)) as (ms0 & H0 & Hsub & Hn & Hcn).
  { case_bool_decide as Hk.
    - destruct (unsub_lookup _ _ _ _ _ Hms) as (m0 & Hm0 & E & Hn).
      exists m0. split; [done|]. destruct (wf_channels w Hw _ _ Hm0) as [Hne _].
      split; [|split; [auto|]]; subst ms; destruct (decide (ch' = ch)); set_solver.
    - destruct (wf_channels w Hw _ _ Hms) as [Hne Hm]. exists ms. split; [done|].
      split; [done|]. split; [done|]. intros Hc ->. destruct (Hm c Hc) as (oc & ? & ? & _).
      simplify_eq. }
  split; [done|]. intros d Hd. destruct (wf_channels w Hw _ _ H0) as [_ Hm].
  destruct (Hm d ltac:(set_solver)) as (od & Hod & Ha & Hcd).
  eexists. split; [by apply heap_recast|].
  destruct (decide (d = c)) as [->|]; [|done]. simplify_eq. simpl. split; [|done].
  specialize (Hcn Hd). set_solver.
Qed.

Lemma index_conn w kind m target c :
  wf w -> index (sess w) kind = Ok m -> m !! target = Some c ->
  exists o, heap w !! c = Some o /\ conns (sess w) !! ID o = Some c.
Proof.
  unfold index. intros Hw. destruct (kind =? Kind.Conn), (kind =? Kind.User); intros [= <-] Hc.
  1, 2: destruct (wf_conn_inv w _ _ Hw Hc) as (o & ? & ? & ?); eauto.
  destruct (wf_users w Hw _ _ Hc) as (_ & o & ? & _ & ?). eauto.
Qed.

(** Only attributes and channels change. *)
Definition keeps (v v' : World) : Prop :=
  conns (sess v') = conns (sess v) /\ users (sess v') = users (sess v) /\
  tokens (sess v') = tokens (sess v) /\ generations (sess v') = generations (sess v) /\
  log v' = log v /\
  forall d od, heap v !! d = Some od ->
    exists od', heap v' !! d = Some od' /\ ID od' = ID od /\ UID od' = UID od.

Lemma keeps_refl v : keeps v v.
Proof. repeat split; eauto. Qed.

Lemma keeps_trans v u w : keeps v u -> keeps u w -> keeps v w.
Proof.
  intros (H1 & H2 & H3 & H4 & H5 & H6) (K1 & K2 & K3 & K4 & K5 & K6).
  repeat split; try congruence. intros d od Hd.
  destruct (H6 d od Hd) as (od1 & Hd1 & ? & ?). destruct (K6 d od1 Hd1) as (od2 & ? & ? & ?).
  exists od2. repeat split; congruence.
Qed.

Lemma keeps_recast w c o a chs : heap w !! c = Some o -> keeps w (recast w c o a chs).
Proof.
  intros Ho. repeat split; try done. intros d od Hod. simpl.
  destruct (decide (d = c)) as [->|Hd].
  - rewrite lookup_insert_eq. exists (with_attr o a). by simplify_eq.
  - rewrite lookup_insert_ne by done. eauto.
Qed.

(** A loop over the targets that keeps the invariant and the indexes *)
Lemma targets_loop (f : cref -> ST World unit) kind m targets w :
  (forall c o v, wf v -> heap v !! c = Some o -> conns (sess v) !! ID o = Some c ->
     exists v', f c v = (Ok tt, v') /\ wf v' /\ keeps v v') ->
  wf w -> index (sess w) kind = Ok m ->
  exists w', st_iter (fun target => match m !! target with
                                    | None => st_ret tt
                                    | Some c => f c
                                    end) targets w = (Ok tt, w') /\ wf w' /\ keeps w w'.
Proof.
  intros Hf. revert w. induction targets as [|t ts IH]; intros w Hw Hm; simpl;
    [by eauto using keeps_refl|].
  unfold st_bind. destruct (m !! t) as [c|] eqn:E; [|by apply IH].
  destruct (index_conn w kind m t c Hw Hm E) as (o & Ho & Hc).
  destruct (Hf c o w Hw Ho Hc) as (v & -> & Hv & Hk).
  destruct (IH v Hv) as (w' & -> & Hw' & Hk').
  { destruct Hk as (Hcs & Hus & _). unfold index in *. by rewrite Hcs, Hus. }
  exists w'. eauto using keeps_trans.
Qed.

Lemma Subscribe_ok w kind targets ch :
  wf w -> exists r w', Subscribe kind targets ch w = (r, w') /\ r <> Panic /\ wf w' /\ keeps w w'.
Proof.
  intros Hw. unfold Subscribe. pose proof (keeps_refl w).
  destruct (len targets =? 0); [by eexists _, _|].
  unfold st_bind. destruct (index (sess w) kind) as [m|e|] eqn:E; [|by eexists _, _|].
  - destruct (targets_loop (sub_one ch) kind m targets w) as (w' & Ew & ?); try done;
      [|exists (Ok tt), w'; split; [exact Ew|done]].
    intros c o v Hv Ho Hc. eexists. split; [by apply sub_one_eq|].
    split; [by apply wf_subscribed|by apply keeps_recast].
  - exfalso. revert E. unfold index. by destruct (kind =? Kind.Conn), (kind =? Kind.User).
Qed.

Lemma Unsubscribe_ok w kind targets ch :
  wf w -> exists r w', Unsubscribe kind targets ch w = (r, w') /\ r <> Panic /\ wf w' /\ keeps w w'.
Proof.
  intros Hw. unfold Unsubscribe. pose proof (keeps_refl w).
  destruct (len targets =? 0); [by eexists _, _|].
  unfold st_bind. destruct (index (sess w) kind) as [m|e|] eqn:E; [|by eexists _, _|].
  - destruct (targets_loop (unsub_one ch) kind m targets w) as (w' & Ew & ?); try done;
      [|exists (Ok tt), w'; split; [exact Ew|done]].
    intros c o v Hv Ho Hc. eexists. split; [by apply unsub_one_eq|].
    split; [by apply wf_unsubscribed|by apply keeps_recast].
  - exfalso. revert E. unfold index. by destruct (kind =? Kind.Conn), (kind =? Kind.User).
Qed.

(** ** The session as a transition system *)

Inductive op :=
| OAddConn (c : cref)
| ORemConn (order : list key) (c : cref)
| OBind (cid uid : Z)
| OBindToken (cid uid : Z) (token : Token)
| OUnbind (uid : Z)
| OSubscribe (kind : Z) (targets channel : list Z)
| OUnsubscribe (kind : Z) (targets channel : list Z)
| OClose (kind target : Z) (force : list bool)
| OCloseCurrent (kind target : Z) (token : Token) (force : list bool)
| OSend (kind target : Z) (message : list Z)
| OSendCurrent (kind target : Z) (token : Token) (disconnect : bool) (message : list Z)
| OPush (kind target : Z) (disconnect : bool) (message : list Z)
| OMulticast (sched : list cref -> list cref) (kind : Z) (targets : list Z)
    (disconnect : bool) (message : list Z)
| OBroadcast (sched : list cref -> list cref) (kind : Z) (disconnect : bool) (message : list Z)
| OPublish (sched : list cref -> list cref) (channel : list Z) (disconnect : bool)
    (message : list Z).

(** The state a call leaves behind, whatever it returned *)
Definition effect {A} (m : ST World A) (w : World) : World := (m w).2.

Section Steps.
Context (answer : list call -> call -> option error).

Definition run (x : op) : World -> World :=
  match x with
  | OAddConn c => effect (AddConn c)
  | ORemConn order c => effect (RemConnWithToken order c)
  | OBind cid uid => effect (Bind cid uid)
  | OBindToken cid uid t => effect (BindToken cid uid t)
  | OUnbind uid => effect (Unbind uid)
  | OSubscribe k ts ch => effect (Subscribe k ts ch)
  | OUnsubscribe k ts ch => effect (Unsubscribe k ts ch)
  | OClose k t f => effect (Close answer k t f)
  | OCloseCurrent k t tk f => effect (CloseCurrent answer k t tk f)
  | OSend k t m => effect (Send answer k t m)
  | OSendCurrent k t tk d m => effect (SendCurrent answer k t tk d m)
  | OPush k t d m => effect (Push answer k t d m)
  | OMulticast s k ts d m => effect (Multicast answer s k ts d m)
  | OBroadcast s k d m => effect (Broadcast answer s k d m)
  | OPublish s ch d m => effect (Publish answer s ch d m)
  end.

(** How the callers use the session: the network registers an object once,
    under an identifier of its own, and removes a registered one, visiting
    all its attributes; users are bound under nonzero identifiers. *)
Definition allowed (w : World) (x : op) : Prop :=
  match x with
  | OAddConn c => exists o, new_conn w c o
  | ORemConn order c => exists o ss, heap w !! c = Some o /\
      conns (sess w) !! ID o = Some c /\ order = map KString ss /\
      order ≡ₚ elements (Attr o)
  | OBind _ uid => uid <> 0
  | OBindToken _ _ t => inU 64 (Generation t)
  | _ => True
  end.

Inductive step : World -> World -> Prop :=
| step_alloc w c o : heap w !! c = None ->
    step w (mkWorld (sess w) (<[c := o]> (heap w)) (log w))
| step_op w x : allowed w x -> step w (run x w).

Inductive reachable : World -> Prop :=
| reach_init : reachable (initial ∅)
| reach_step w w' : reachable w -> step w w' -> reachable w'.

(** Only the log changes when the network is called. *)
Definition same_table (w w' : World) : Prop := sess w' = sess w /\ heap w' = heap w.

Lemma wf_same_table w w' : wf w -> same_table w w' -> wf w'.
Proof. intros [] [Hs Hh]. by split; rewrite ?Hs, ?Hh. Qed.

Lemma invoke_table x w : same_table w (effect (invoke answer x) w).
Proof. done. Qed.

Lemma push_all_table d m cs w : same_table w (push_all answer d m cs w).2.
Proof.
  revert w. induction cs as [|c cs IH]; intros w; [done|]. simpl.
  destruct (push_one answer d m c w) as [e w1] eqn:E.
  assert (same_table w w1) as [Hs Hh].
  { unfold push_one, invoke in E. destruct (answer (log w) _); [by simplify_eq|].
    destruct d; by simplify_eq. }
  destruct (push_all answer d m cs w1) as [[n e'] w2] eqn:E2.
  specialize (IH w1). rewrite E2 in IH. destruct IH as [Hs2 Hh2].
  destruct e; split; simpl in *; congruence.
Qed.

Lemma fan_out_table d m cs w : same_table w (effect (fan_out answer d m cs) w).
Proof.
  pose proof (push_all_table d m cs w) as H. unfold effect, fan_out.
  by destruct (push_all answer d m cs w) as [[n e] w'].
Qed.

Lemma bind_table {A B} (f : ST World A) (k : A -> ST World B) w :
  same_table w (effect f w) -> (forall a v, same_table w v -> same_table w (effect (k a) v)) ->
  same_table w (effect (st_bind f k) w).
Proof.
  unfold effect, st_bind. intros Hf Hk. destruct (f w) as [[a| |] v]; simpl in *; auto.
Qed.

Lemma same_table_trans w v u : same_table w v -> same_table v u -> same_table w u.
Proof. intros [? ?] [? ?]. split; congruence. Qed.

(** A call found in the table and handed to the network *)
Lemma lookup_table {A} kind target (k : cref -> ST World A) w :
  (forall c, same_table w (effect (k c) w)) ->
  same_table w (effect (st_bind (conn_ kind target) k) w).
Proof.
  intros Hk. unfold effect, st_bind, conn_. by destruct (lookup_conn _ _ _); simpl; [apply Hk|..].
Qed.

Lemma invoke_twice_table x y (b : bool) w :
  same_table w (effect (invoke answer x ;;; if b then invoke answer y else st_ret tt) w).
Proof. apply bind_table; [done|]. intros _ v Hv. by destruct b. Qed.

Lemma fenced_table kind target token (k : cref -> ST World unit) w :
  (forall c, same_table w (effect (k c) w)) ->
  same_table w (effect (let! c := conn_ kind target in let! o := deref c in
    let! current := get (fun s => holds s c o token) in
    if negb current then st_err ErrStaleSession else k c) w).
Proof.
  intros Hk. apply lookup_table. intros c. unfold effect, st_bind, deref, get.
  destruct (heap w !! c); [|done]. by destruct (holds _ _ _ _); [apply Hk|].
Qed.

Lemma index_table kind (f : gmap Z cref -> list cref) d m w :
  same_table w (effect (let! idx := (fun w => (index (sess w) kind, w)) in
                        fan_out answer d m (f idx)) w).
Proof.
  unfold effect, st_bind. destruct (index (sess w) kind); [|done|done]. apply fan_out_table.
Qed.

(** The calls that only talk to the network *)
Definition is_network (x : op) : bool :=
  match x with
  | OAddConn _ | ORemConn _ _ | OBind _ _ | OBindToken _ _ _ | OUnbind _
  | OSubscribe _ _ _ | OUnsubscribe _ _ _ => false
  | _ => true
  end.

Lemma network_table x w : is_network x = true -> same_table w (run x w).
Proof.
  destruct x; intros Hx; try done; clear Hx; cbn [run].
  - by apply lookup_table.
  - unfold CloseCurrent. destruct (_ || _); [done|]. destruct (_ && _); [done|].
    by apply fenced_table.
  - by apply lookup_table.
  - unfold SendCurrent. destruct (_ || _); [done|].
    apply fenced_table. intros c. apply invoke_twice_table.
  - apply lookup_table. intros c. apply invoke_twice_table.
  - unfold Multicast. destruct (len targets =? 0); [done|].
    apply (index_table kind (fun idx => sched (omap (fun t => idx !! t) targets))).
  - apply (index_table kind (fun idx => sched (map_to_list idx).*2)).
  - unfold effect, Publish, st_bind, get.
    destruct (channels (sess w) !! channel); [apply fan_out_table|done].
Qed.

Lemma BindToken_rejects w cid uid token :
  ~ (0 < uid /\ Types.UID token = uid /\ Generation token <> 0) \/
  conns (sess w) !! cid = None -> effect (BindToken cid uid token) w = w.
Proof.
  unfold BindToken. intros H.
  destruct (Z.leb_spec uid 0), (Z.eqb_spec (Types.UID token) uid),
    (Z.eqb_spec (Generation token) 0); try done.
  destruct H as [H|Hc]; [exfalso; apply H; lia|].
  unfold effect, st_bind, conn_, lookup_conn. simpl. by rewrite Hc.
Qed.

Lemma run_wf w x : wf w -> allowed w x -> wf (run x w).
Proof.
  intros Hw Ha. destruct (is_network x) eqn:Ex;
    [by eapply wf_same_table; [|apply network_table]|].
  destruct x; try done; cbn [run allowed] in *; clear Ex.
  - destruct Ha as [o Hn]. unfold effect. rewrite (AddConn_eq w c o) by apply Hn.
    by apply wf_after_add.
  - destruct Ha as (o & ss & Ho & Hc & -> & Hp). unfold effect.
    rewrite (RemConnWithToken_eq w c o ss) by done. apply wf_after_rem; [done..|].
    intros s Hs. apply elem_of_elements in Hs. rewrite <- Hp in Hs.
    apply list_elem_of_fmap in Hs as (s' & [= <-] & Hs). done.
  - unfold effect. destruct (conns (sess w) !! cid) as [c|] eqn:Hc; [|by rewrite Bind_missing].
    destruct (wf_conn_inv w _ _ Hw Hc) as (o & Ho & <- & _).
    rewrite (Bind_eq w _ uid c o) by done. destruct (UID o =? uid); [done|].
    by apply wf_after_bind.
  - destruct (decide (0 < uid /\ Types.UID token = uid /\ Generation token <> 0))
      as [(Hu & Ht & Hg)|Hno]; [|by rewrite BindToken_rejects by auto].
    destruct (conns (sess w) !! cid) as [c|] eqn:Hc; [|by rewrite BindToken_rejects by auto].
    destruct (wf_conn_inv w _ _ Hw Hc) as (o & Ho & <- & _). unfold effect.
    rewrite (BindToken_eq w _ uid token c o) by done. by apply wf_after_bind_token.
  - unfold effect. destruct (users (sess w) !! uid) as [c|] eqn:Hc; [|by rewrite Unbind_missing].
    destruct (wf_users w Hw _ _ Hc) as (_ & o & Ho & _).
    rewrite (Unbind_eq w uid c o) by done. by apply wf_after_unbind.
  - unfold effect. destruct (Subscribe_ok w kind targets channel Hw) as (r & w' & -> & _ & ? & _).
    done.
  - unfold effect.
    destruct (Unsubscribe_ok w kind targets channel Hw) as (r & w' & -> & _ & ? & _). done.
Qed.

Lemma step_wf w w' : wf w -> step w w' -> wf w'.
Proof.
  intros Hw Hs. destruct Hs as [w c o Hc|w x Ha]; [|by apply run_wf].
  assert (forall d od, heap w !! d = Some od -> <[c := o]> (heap w) !! d = Some od) as Hh
    by (intros d od Hd; rewrite lookup_insert_ne; congruence).
  split; simpl.
  - intros cid d Hd. destruct (wf_conns w Hw _ _ Hd) as (od & ? & ?). eauto.
  - intros u d Hd. destruct (wf_users w Hw _ _ Hd) as (? & od & ? & ? & ?). eauto 6.
  - intros u d od Hd Hod. destruct (wf_users w Hw _ _ Hd) as (_ & od' & Hod' & _).
    rewrite (Hh d od' Hod') in Hod. simplify_eq. by apply (wf_tokens w Hw _ d).
  - apply (wf_token_conns w Hw).
  - apply (wf_generations w Hw).
  - intros ch ms Hch. destruct (wf_channels w Hw _ _ Hch) as [Hne Hm]. split; [done|].
    intros d Hd. destruct (Hm d Hd) as (od & ? & ? & ?). eauto.
Qed.

Lemma reach_run w x : reachable w -> allowed w x -> reachable (run x w).
Proof. intros Hr Ha. eapply reach_step; [done|by constructor]. Qed.

Lemma reach_alloc w c o :
  reachable w -> heap w !! c = None ->
  reachable (mkWorld (sess w) (<[c := o]> (heap w)) (log w)).
Proof. intros Hr Hc. eapply reach_step; [done|by constructor]. Qed.

Lemma reachable_wf w : reachable w -> wf w.
Proof. induction 1; [apply wf_initial|by eapply step_wf]. Qed.
End Steps.
