(* ===== verification/SessionClaims.v ===== *)
(** What the session table promises: exclusive bindings, fencing by tokens,
    complete removal, and deliveries to exactly the right connections. *)
From stdpp Require Import base numbers list gmap strings sets.
From Stdlib Require Import ZArith Lia.
From S2P Require Import Prelude Types Session SessionOk.
Import Session.Session.

Open Scope Z_scope.
Open Scope go_scope.

(** No network answer is an error. *)
Definition accepting : list call -> call -> option error := fun _ _ => None.

(** ** The invariant *)

(** C1: whatever sequence of registrations, removals, binds, unbinds,
    subscriptions and deliveries the gate performs, the tables agree: every
    user resolves to a registered connection that is bound to that user and
    holds a token of that user with a generation the session has reached, a
    connection serves at most one user, and every channel is non-empty with
    registered members only. *)
Theorem session_invariant (answer : list call -> call -> option error) (w : World)
    (Hr : reachable answer w) :
  wf w /\
  (forall u1 u2 c, users (sess w) !! u1 = Some c -> users (sess w) !! u2 = Some c -> u1 = u2).
Proof.
  pose proof (reachable_wf answer w Hr) as Hw. split; [done|]. intros u1 u2 c H1 H2.
  destruct (wf_users w Hw _ _ H1) as (_ & o & Ho & <- & _).
  by eapply wf_user_unique.
Qed.

(** One connection, number 7, registered *)
Definition demo : World := after_add (mkWorld NewSession {[1%nat := mkConn 7 0 ∅]} []) 1%nat (mkConn 7 0 ∅).

Lemma demo_reachable answer : reachable answer demo.
Proof.
  assert (demo = run answer (OAddConn 1%nat) (mkWorld NewSession {[1%nat := mkConn 7 0 ∅]} []))
    as -> by reflexivity.
  eapply reach_step; [eapply reach_step; [apply reach_init|]|].
  - apply (step_alloc answer (initial ∅) 1%nat (mkConn 7 0 ∅)). apply lookup_empty.
  - apply step_op. exists (mkConn 7 0 ∅). split; [apply lookup_insert_eq|].
    split; [apply lookup_empty|]. intros cid. simpl. rewrite lookup_empty. done.
Qed.

Lemma session_invariant_witness :
  wf demo /\
  (forall u1 u2 c, users (sess demo) !! u1 = Some c -> users (sess demo) !! u2 = Some c -> u1 = u2).
Proof. apply (session_invariant accepting demo). apply demo_reachable. Defined.

(** ** Current tokens *)

(** [t] is the token of its user's present session. *)
Definition cur (w : World) (t : Token) : Prop :=
  Types.UID t <> 0 /\ Generation t <> 0 /\
  exists c o, users (sess w) !! Types.UID t = Some c /\ heap w !! c = Some o /\
              tokens (sess w) !! ID o = Some t.

Lemma IsCurrent_cur w t : wf w -> st_run (IsCurrent t) w = Ok true <-> cur w t.
Proof.
  intros Hw. unfold IsCurrent, cur.
  destruct (Z.eqb_spec (Types.UID t) 0), (Z.eqb_spec (Generation t) 0); cbn [orb];
    try (split; [done|intros (? & ? & _); congruence]).
  unfold st_run, st_bind, get. simpl. split.
  - destruct (users (sess w) !! Types.UID t) as [c|] eqn:Hu; [|done].
    unfold deref. destruct (heap w !! c) as [o|] eqn:Ho; [|done]. simpl.
    intros [= Ht]. apply bool_decide_eq_true in Ht. unfold token_at in Ht.
    split; [done|]. split; [done|]. exists c, o. split; [done|]. split; [done|].
    destruct (tokens (sess w) !! ID o); simpl in Ht; [by subst|]. by subst.
  - intros (_ & _ & c & o & -> & Ho & Ht). unfold deref. rewrite Ho. simpl.
    unfold token_at. rewrite Ht. by rewrite bool_decide_eq_true_2.
Qed.

Lemma IsCurrent_total w t : wf w -> exists b, st_run (IsCurrent t) w = Ok b.
Proof.
  intros Hw. unfold IsCurrent, st_run, st_bind, get. destruct (_ || _); [by eexists|].
  destruct (users (sess w) !! Types.UID t) as [c|] eqn:Hu; [|by eexists].
  destruct (wf_users w Hw _ _ Hu) as (_ & o & Ho & _). unfold deref. rewrite Ho. by eexists.
Qed.

Lemma not_current w t : wf w -> ~ cur w t -> st_run (IsCurrent t) w = Ok false.
Proof.
  intros Hw Hn. destruct (IsCurrent_total w t Hw) as [[] E]; [|done].
  by apply IsCurrent_cur in E.
Qed.

(** A user has one current token. *)
Lemma cur_unique w t t' : cur w t -> cur w t' -> Types.UID t = Types.UID t' -> t = t'.
Proof. intros (_ & _ & c & o & ? & ? & ?) (_ & _ & c' & o' & ? & ? & ?) E. congruence. Qed.

Lemma cur_bound w c o uid t gs :
  uid <> 0 -> Types.UID t = uid -> Generation t <> 0 ->
  cur (with_gens gs (bound w c o uid t)) t.
Proof.
  intros Hu <- Hg. split; [done|]. split; [done|]. 
  exists c, (mkConn (ID o) (Types.UID t) (Attr o)). simpl. by rewrite !lookup_insert_eq.
Qed.

(** C2: Bind hands a user over exclusively: the user resolves to the new
    connection, the connection that held the user is unbound, the new session
    has the next generation and is current, and no token of an earlier
    generation of that user is current any more. *)
Theorem bind_takes_over (answer : list call -> call -> option error) (w : World)
    (cid uid : Z) (c : cref) (o : conn)
    (Hr : reachable answer w) (Hc : conns (sess w) !! cid = Some c)
    (Ho : heap w !! c = Some o) (Hu : uid <> 0) (Hne : UID o <> uid)
    (Hgen : gen w uid < 2 ^ 64 - 1) :
  let t := mkToken uid (gen w uid + 1) in
  exists w', Bind cid uid w = (Ok tt, w') /\
    users (sess w') !! uid = Some c /\
    (forall d, users (sess w) !! uid = Some d ->
       exists od, heap w' !! d = Some od /\ UID od = 0) /\
    st_run (Token_ Kind.User uid) w' = Ok t /\
    st_run (IsCurrent t) w' = Ok true /\
    (forall t', Types.UID t' = uid -> t' <> t -> st_run (IsCurrent t') w' = Ok false).
Proof.
  intros t. pose proof (reachable_wf answer w Hr) as Hw. pose proof (wf_generations w Hw uid) as Hg.
  destruct (wf_conns w Hw _ _ Hc) as (o' & Ho' & HI). simplify_eq.
  exists (after_bind w c o uid). rewrite (Bind_eq w _ uid c o) by done.
  rewrite (proj2 (Z.eqb_neq _ _) Hne).
  assert (wf (after_bind w c o uid)) as Hw' by (by apply wf_after_bind).
  assert (next_gen (gen w uid) = gen w uid + 1) as En
    by (apply next_gen_succ; unfold inU, gen in *; lia).
  assert (cur (after_bind w c o uid) t) as Hcur.
  { unfold after_bind. rewrite En. apply cur_bound; [done..|]. simpl.
    unfold inU, gen in *. lia. }
  split; [done|]. split; [apply lookup_insert_eq|]. split; [|split; [|split]].
  - intros d Hd. destruct (wf_users w Hw _ _ Hd) as (_ & od & Hod & HU & _).
    exists (unbound od). split; [|done].
    change (heap (bound w c o uid (mkToken uid (next_gen (gen w uid)))) !! d = Some (unbound od)).
    rewrite (bound_heap_other _ _ _ _ _ d od); [|congruence|done].
    by rewrite bool_decide_eq_true_2.
  - unfold Token_, conn_, lookup_conn, st_run, st_bind, deref, get, token_at. simpl.
    rewrite !lookup_insert_eq. simpl. rewrite !lookup_insert_eq. simpl. by rewrite En.
  - by apply IsCurrent_cur.
  - intros t' HU Hd. apply not_current; [done|]. intros Hc'. apply Hd.
    by apply (cur_unique _ _ _ Hc' Hcur).
Qed.

Lemma bind_takes_over_witness :
  let t := mkToken 9 (gen demo 9 + 1) in
  exists w', Bind 7 9 demo = (Ok tt, w') /\
    users (sess w') !! 9 = Some 1%nat /\
    (forall d, users (sess demo) !! 9 = Some d ->
       exists od, heap w' !! d = Some od /\ UID od = 0) /\
    st_run (Token_ Kind.User 9) w' = Ok t /\
    st_run (IsCurrent t) w' = Ok true /\
    (forall t', Types.UID t' = 9 -> t' <> t -> st_run (IsCurrent t') w' = Ok false).
Proof.
  apply (bind_takes_over accepting demo 7 9 1%nat (mkConn 7 0 ∅)).
  - apply demo_reachable.
  - reflexivity.
  - reflexivity.
  - lia.
  - simpl. lia.
  - vm_compute. reflexivity.
Defined.

(** ** Fenced calls *)

Lemma holds_cur w c o t :
  heap w !! c = Some o -> Types.UID t <> 0 -> Generation t <> 0 ->
  holds (sess w) c o t = true <-> users (sess w) !! Types.UID t = Some c /\ cur w t.
Proof.
  intros Ho Hu Hg. unfold holds, is_user, token_at. rewrite andb_true_iff, !bool_decide_eq_true.
  split.
  - intros [Hc Ht]. split; [done|]. split; [done|]. split; [done|]. exists c, o.
    split; [done|]. split; [done|]. destruct (tokens (sess w) !! ID o); simpl in Ht; by subst.
  - intros [Hc (_ & _ & c' & o' & Hc' & Ho' & Ht)]. split; [done|].
    assert (c' = c) as -> by congruence. assert (o' = o) as -> by congruence. by rewrite Ht.
Qed.

Lemma lookup_conn_heap w kind target c :
  wf w -> lookup_conn (sess w) kind target = Ok c -> exists o, heap w !! c = Some o.
Proof.
  intros Hw. unfold lookup_conn. destruct (kind =? Kind.Conn); [|destruct (kind =? Kind.User); [|done]].
  - destruct (conns (sess w) !! target) eqn:E; [|done]. intros [= <-].
    destruct (wf_conns w Hw _ _ E) as (o & ? & _). eauto.
  - destruct (users (sess w) !! target) eqn:E; [|done]. intros [= <-].
    destruct (wf_users w Hw _ _ E) as (_ & o & ? & _). eauto.
Qed.

(** The shape both fenced methods share *)
Lemma fenced_eq w kind target token (k : cref -> ST World unit) c o :
  lookup_conn (sess w) kind target = Ok c -> heap w !! c = Some o ->
  (let! c := conn_ kind target in let! o := deref c in
   let! current := get (fun s => holds s c o token) in
   if negb current then st_err ErrStaleSession else k c) w
  = if holds (sess w) c o token then k c w else (Err ErrStaleSession, w).
Proof.
  intros Hl Ho. unfold st_bind, conn_, deref, get. rewrite Hl, Ho.
  by destruct (holds _ _ _ _).
Qed.

(** A fenced call whose token is not current *)
Lemma fenced_not_current w kind target token (k : cref -> ST World unit) :
  wf w -> ~ cur w token -> 0 < Types.UID token -> Generation token <> 0 -> exists e,
  (let! c := conn_ kind target in let! o := deref c in
   let! current := get (fun s => holds s c o token) in
   if negb current then st_err ErrStaleSession else k c) w = (Err e, w).
Proof.
  intros Hw Hn Hu Hg. destruct (lookup_conn (sess w) kind target) as [c|e|] eqn:E.
  - destruct (lookup_conn_heap w _ _ _ Hw E) as [o Ho]. rewrite (fenced_eq w _ _ _ k c o) by done.
    destruct (holds (sess w) c o token) eqn:Eh; [|by eauto].
    apply holds_cur in Eh; [|done|lia|done]. by destruct Eh.
  - exists e. unfold st_bind, conn_. by rewrite E.
  - exfalso. revert E. unfold lookup_conn. by repeat case_match.
Qed.

Lemma send_not_current answer w kind target token disconnect message :
  wf w -> ~ cur w token ->
  exists e, SendCurrent answer kind target token disconnect message w = (Err e, w).
Proof.
  intros Hw Hn. unfold SendCurrent. destruct (Z.leb_spec (Types.UID token) 0); [by eauto|].
  destruct (Z.eqb_spec (Generation token) 0); [by eauto|].
  by apply (fenced_not_current w kind target token (fun c => _)).
Qed.

Lemma close_not_current answer w kind target token force :
  wf w -> ~ cur w token ->
  exists e, CloseCurrent answer kind target token force w = (Err e, w).
Proof.
  intros Hw Hn. unfold CloseCurrent. destruct (Z.leb_spec (Types.UID token) 0); [by eauto|].
  destruct (Z.eqb_spec (Generation token) 0); [by eauto|]. cbn [orb].
  destruct (_ && _); [by eauto|].
  by apply (fenced_not_current w kind target token (fun c => _)).
Qed.

(** A token that is not current reaches nobody: SendCurrent and
    CloseCurrent fail and leave the world, the network included, untouched.
    A current token reaches the connection of its own session and no other:
    a target that resolves elsewhere is refused as stale. *)
Theorem fenced_delivery (answer : list call -> call -> option error) (w : World)
    (kind target : Z) (token : Token) (disconnect : bool) (message : list Z)
    (force : list bool) (Hr : reachable answer w) :
  (st_run (IsCurrent token) w <> Ok true ->
     (exists e, SendCurrent answer kind target token disconnect message w = (Err e, w)) /\
     (exists e, CloseCurrent answer kind target token force w = (Err e, w))) /\
  (forall c d, st_run (IsCurrent token) w = Ok true -> 0 < Types.UID token ->
     users (sess w) !! Types.UID token = Some c -> lookup_conn (sess w) kind target = Ok d ->
     if bool_decide (d = c)
     then SendCurrent answer kind target token disconnect message w
          = (invoke answer (CSend c message) ;;;
             if disconnect then invoke answer (CClose c []) else st_ret tt) w /\
          CloseCurrent answer kind target token force w = invoke answer (CClose c force) w
     else SendCurrent answer kind target token disconnect message w
          = (Err ErrStaleSession, w) /\
          CloseCurrent answer kind target token force w = (Err ErrStaleSession, w)).
Proof.
  pose proof (reachable_wf answer w Hr) as Hw. split.
  - intros Hn. rewrite IsCurrent_cur in Hn by done.
    split; [by apply send_not_current|by apply close_not_current].
  - intros c d Hc Hu Huc Hl. apply IsCurrent_cur in Hc; [|done].
    destruct (lookup_conn_heap w _ _ _ Hw Hl) as [o Ho]. pose proof Hc as (_ & Hg & _).
    unfold SendCurrent, CloseCurrent. rewrite (proj2 (Z.leb_gt _ _)) by done.
    rewrite (proj2 (Z.eqb_neq (Generation token) 0)) by done. cbn [orb].
    assert (forall (b : bool) (m : ST World unit), (if b then st_err ErrStaleSession else m) w
      = if b then (Err ErrStaleSession, w) else m w) as Hif by (by intros []).
    rewrite Hif, !(fenced_eq w _ _ _ (fun c => _) d o Hl Ho).
    case_bool_decide as Hd.
    + subst d. assert (holds (sess w) c o token = true) as -> by (apply holds_cur; [done|lia|done|done]).
      split; [done|]. destruct (Z.eqb_spec kind Kind.User) as [->|]; [|done].
      destruct (Z.eqb_spec target (Types.UID token)) as [|Hne]; [done|]. exfalso. apply Hne.
      unfold lookup_conn in Hl. simpl in Hl.
      destruct (users (sess w) !! target) as [x|] eqn:Ex; [|done]. injection Hl as ->.
      transitivity (UID o); [symmetry|]; by eapply wf_user_unique.
    + assert (holds (sess w) d o token = false) as ->.
      { apply not_true_is_false. intros Eh. apply holds_cur in Eh; [|done|lia|done].
        destruct Eh. congruence. }
      split; [done|]. by destruct (_ && _).
Qed.

Lemma fenced_delivery_witness :
  (st_run (IsCurrent (mkToken 9 4)) demo <> Ok true ->
     (exists e, SendCurrent accepting Kind.Conn 7 (mkToken 9 4) true [1] demo = (Err e, demo)) /\
     (exists e, CloseCurrent accepting Kind.Conn 7 (mkToken 9 4) [] demo = (Err e, demo))) /\
  (forall c d, st_run (IsCurrent (mkToken 9 4)) demo = Ok true -> 0 < 9 ->
     users (sess demo) !! 9 = Some c -> lookup_conn (sess demo) Kind.Conn 7 = Ok d ->
     if bool_decide (d = c)
     then SendCurrent accepting Kind.Conn 7 (mkToken 9 4) true [1] demo
          = (invoke accepting (CSend c [1]) ;;;
             if true then invoke accepting (CClose c []) else st_ret tt) demo /\
          CloseCurrent accepting Kind.Conn 7 (mkToken 9 4) [] demo
          = invoke accepting (CClose c []) demo
     else SendCurrent accepting Kind.Conn 7 (mkToken 9 4) true [1] demo
          = (Err ErrStaleSession, demo) /\
          CloseCurrent accepting Kind.Conn 7 (mkToken 9 4) [] demo
          = (Err ErrStaleSession, demo)).
Proof.
  apply (fenced_delivery accepting demo Kind.Conn 7 (mkToken 9 4) true [1] []).
  apply demo_reachable.
Defined.

(** ** Fencing over time *)

(** Tokens bound from outside are newer than all before (what an ownership
    store guarantees), and the local counter is not exhausted. *)
Definition newer (w : World) (x : op) : Prop :=
  match x with
  | OAddConn c => forall o, heap w !! c = Some o -> gen w (UID o) < 2 ^ 64 - 1
  | OBind _ uid => gen w uid < 2 ^ 64 - 1
  | OBindToken _ uid t => gen w uid < Generation t
  | _ => True
  end.

Inductive runs (answer : list call -> call -> option error) : World -> World -> Prop :=
| runs_refl w : runs answer w w
| runs_alloc w c o w' : heap w !! c = None ->
    runs answer (mkWorld (sess w) (<[c := o]> (heap w)) (log w)) w' -> runs answer w w'
| runs_op w x w' : allowed w x -> newer w x -> runs answer (run answer x w) w' -> runs answer w w'.

(** A step that makes no token current and lowers no generation *)
Definition stays_stale (w w' : World) (t : Token) : Prop :=
  (cur w' t -> cur w t) /\ forall u, gen w u <= gen w' u.

Lemma stale_same_table w w' t : same_table w w' -> stays_stale w w' t.
Proof.
  intros [Hs Hh]. unfold stays_stale, cur, gen. rewrite Hs, Hh. split; [done|]. lia.
Qed.

Lemma stale_keeps w w' t : wf w -> keeps w w' -> stays_stale w w' t.
Proof.
  intros Hw (Hc & Hu & Ht & Hg & _ & Hh). split; [|intros u; unfold gen; rewrite Hg; lia].
  intros (H1 & H2 & c & o & Huc & Ho & Hto). rewrite Hu in Huc. rewrite Ht in Hto.
  split; [done|]. split; [done|]. destruct (wf_users w Hw _ _ Huc) as (_ & o0 & Ho0 & _).
  destruct (Hh c o0 Ho0) as (o1 & Ho1 & EI & _). exists c, o0.
  rewrite Ho1 in Ho. simplify_eq. by rewrite <- EI.
Qed.

(** A binding makes current its own token only. *)
Lemma cur_after_bound w c o uid t gs t' :
  wf w -> heap w !! c = Some o -> conns (sess w) !! ID o = Some c ->
  cur (with_gens gs (bound w c o uid t)) t' -> t' = t \/ cur w t'.
Proof.
  intros Hw Ho Hc (H1 & H2 & d & od & Hd & Hod & Ht).
  destruct (bound_users w c o uid t _ d Hw Ho Hd) as [[E ->]|(Hne & Hud & Hdc)].
  - left. simpl in Hod, Ht. rewrite lookup_insert_eq in Hod. injection Hod as <-.
    simpl in Ht. rewrite lookup_insert_eq in Ht. congruence.
  - right. destruct (wf_users w Hw _ _ Hud) as (_ & od' & Hod' & _ & Hcd).
    destruct (bound_heap w c o uid t d od' Ho Hod') as [u Hu].
    change (heap (bound w c o uid t) !! d = Some od) in Hod. rewrite Hu in Hod.
    injection Hod as <-. simpl in Ht. rewrite lookup_insert_ne in Ht.
    + split; [done|]. split; [done|]. eauto.
    + intros E. rewrite <- E in Hcd. congruence.
Qed.

Lemma gen_insert w gs uid g s h lg u :
  gs = <[uid := g]> (generations (sess w)) -> gen w uid <= g -> generations s = gs ->
  gen w u <= gen (mkWorld s h lg) u.
Proof.
  intros -> Hg Hs. unfold gen in *. simpl. rewrite Hs. destruct (decide (u = uid)) as [->|Hu].
  - by rewrite lookup_insert_eq.
  - rewrite lookup_insert_ne by done. lia.
Qed.

Section Stale.
Context (w : World) (t : Token).
Hypothesis Hw : wf w.
Hypothesis Ht : Generation t <= gen w (Types.UID t).

Lemma next_gen_below uid : gen w uid < 2 ^ 64 - 1 -> next_gen (gen w uid) = gen w uid + 1.
Proof.
  intros H. pose proof (wf_generations w Hw uid) as Hr. unfold inU in Hr.
  apply next_gen_succ. unfold gen in *. lia.
Qed.

Lemma stale_add c o :
  new_conn w c o -> gen w (UID o) < 2 ^ 64 - 1 -> stays_stale w (after_add w c o) t.
Proof using Hw Ht.
  intros (Ho & Hid & Hf) Hn. pose proof (next_gen_below _ Hn) as En.
  unfold after_add. destruct (Z.eqb_spec (UID o) 0); [split; [done|unfold gen; simpl; lia]|].
  split; [|intros u; eapply gen_insert; [done| |done]; lia].
  intros (H1 & H2 & d & od & Hd & Hod & Htd). simpl in *.
  destruct (decide (Types.UID t = UID o)) as [E|E].
  - rewrite E, lookup_insert_eq in Hd. simplify_eq. rewrite lookup_insert_eq in Htd.
    injection Htd as <-. simpl in Ht. lia.
  - rewrite lookup_insert_ne in Hd by done. rewrite lookup_insert_ne in Htd.
    + split; [done|]. split; [done|]. eauto.
    + intros E'. destruct (wf_users w Hw _ _ Hd) as (_ & od' & Hod' & _ & Hcd). simplify_eq.
      rewrite <- E' in Hcd. congruence.
Qed.

Lemma stale_rem c o ss : stays_stale w (after_rem w c o ss) t.
Proof using.
  split; [|unfold gen; simpl; lia].
  intros (H1 & H2 & d & od & Hd & Hod & Htd). simpl in *.
  apply lookup_delete_Some in Htd as [_ Htd]. split; [done|]. split; [done|].
  exists d, od. split; [|done]. destruct (is_user _ _ _); [|done].
  by apply lookup_delete_Some in Hd as [_ Hd].
Qed.

Lemma stale_bind c o uid :
  heap w !! c = Some o -> conns (sess w) !! ID o = Some c -> gen w uid < 2 ^ 64 - 1 ->
  stays_stale w (after_bind w c o uid) t.
Proof using Hw Ht.
  intros Ho Hc Hn. pose proof (next_gen_below _ Hn) as En.
  split; [|intros u; eapply gen_insert; [done| |done]; lia].
  unfold after_bind. intros Hcur. apply cur_after_bound in Hcur as [->|]; try done.
  simpl in Ht. lia.
Qed.

Lemma stale_bind_token c o uid token :
  heap w !! c = Some o -> conns (sess w) !! ID o = Some c -> Types.UID token = uid ->
  gen w uid < Generation token -> stays_stale w (after_bind_token w c o uid token) t.
Proof using Hw Ht.
  intros Ho Hc HU Hn. unfold after_bind_token. rewrite (proj2 (Z.ltb_lt _ _) Hn).
  split; [|intros u; eapply gen_insert; [done| |done]; lia].
  intros Hcur. apply cur_after_bound in Hcur as [->|]; try done. subst uid. lia.
Qed.

Lemma stale_unbind c o uid :
  users (sess w) !! uid = Some c -> heap w !! c = Some o ->
  stays_stale w (after_unbind w c o uid) t.
Proof using.
  intros Hc Ho. split; [|unfold gen; simpl; lia].
  intros (H1 & H2 & d & od & Hd & Hod & Htd). simpl in *.
  apply lookup_delete_Some in Hd as [Hne Hd]. split; [done|]. split; [done|].
  destruct (decide (d = c)) as [->|Hdc].
  - rewrite lookup_insert_eq in Hod. injection Hod as <-. exists c, o. done.
  - rewrite lookup_insert_ne in Hod by done. eauto.
Qed.

Lemma run_stale answer x : allowed w x -> newer w x -> stays_stale w (run answer x w) t.
Proof using Hw Ht.
  intros Ha Hn. destruct (is_network x) eqn:Ex; [by apply stale_same_table, network_table|].
  destruct x; try done; cbn [run allowed newer] in *; clear Ex.
  - destruct Ha as [o Hc]. pose proof Hc as (Ho & _). unfold effect.
    rewrite (AddConn_eq w c o) by done. by apply stale_add; [|apply Hn].
  - destruct Ha as (o & ss & Ho & Hc & -> & Hp). unfold effect.
    rewrite (RemConnWithToken_eq w c o ss) by done. apply stale_rem.
  - unfold effect. destruct (conns (sess w) !! cid) as [c|] eqn:Hc;
      [|rewrite Bind_missing by done; by apply stale_same_table].
    destruct (wf_conn_inv w _ _ Hw Hc) as (o & Ho & <- & _).
    rewrite (Bind_eq w _ uid c o) by done. simpl.
    destruct (UID o =? uid); [by apply stale_same_table|by apply stale_bind].
  - destruct (decide (0 < uid /\ Types.UID token = uid /\ Generation token <> 0))
      as [(Hu & HU & Hg)|Hno]; [|rewrite BindToken_rejects by auto; by apply stale_same_table].
    destruct (conns (sess w) !! cid) as [c|] eqn:Hc;
      [|rewrite BindToken_rejects by auto; by apply stale_same_table].
    destruct (wf_conn_inv w _ _ Hw Hc) as (o & Ho & <- & _). unfold effect.
    rewrite (BindToken_eq w _ uid token c o) by done. by apply stale_bind_token.
  - unfold effect. destruct (users (sess w) !! uid) as [c|] eqn:Hc;
      [|rewrite Unbind_missing by done; by apply stale_same_table].
    destruct (wf_users w Hw _ _ Hc) as (_ & o & Ho & _).
    rewrite (Unbind_eq w uid c o) by done. by apply stale_unbind.
  - unfold effect.
    destruct (Subscribe_ok w kind targets channel Hw) as (r & w' & -> & _ & _ & ?).
    by apply stale_keeps.
  - unfold effect.
    destruct (Unsubscribe_ok w kind targets channel Hw) as (r & w' & -> & _ & _ & ?).
    by apply stale_keeps.
Qed.
End Stale.

Lemma alloc_stale w c o t :
  wf w -> heap w !! c = None -> stays_stale w (mkWorld (sess w) (<[c := o]> (heap w)) (log w)) t.
Proof.
  intros Hw Hc. split; [|unfold gen; simpl; lia].
  intros (H1 & H2 & d & od & Hd & Hod & Htd). simpl in *. split; [done|]. split; [done|].
  destruct (wf_users w Hw _ _ Hd) as (_ & od' & Hod' & _).
  rewrite lookup_insert_ne in Hod by congruence. eauto.
Qed.

Lemma runs_stale answer w w' t :
  runs answer w w' -> wf w -> Generation t <= gen w (Types.UID t) -> ~ cur w t ->
  wf w' /\ ~ cur w' t.
Proof.
  induction 1 as [w|w c o w' Hc Hr IH|w x w' Ha Hn Hr IH]; intros Hw Hg Ht; [done| |].
  - destruct (alloc_stale w c o t Hw Hc) as [H1 H2]. apply IH.
    + eapply (step_wf answer w); [done|by constructor].
    + specialize (H2 (Types.UID t)). lia.
    + auto.
  - destruct (run_stale w t Hw Hg answer x Ha Hn) as [H1 H2]. apply IH.
    + by apply run_wf.
    + specialize (H2 (Types.UID t)). lia.
    + auto.
Qed.


(** Connections 7 and 8; user 9 binds on 7, then on 8 *)
Definition demo_rebound : World :=
  run accepting (OBind 8 9) (run accepting (OBind 7 9) (run accepting (OAddConn 2%nat)
    (mkWorld (sess demo) (<[2%nat := mkConn 8 0 ∅]> (heap demo)) (log demo)))).

Lemma demo_rebound_reachable : reachable accepting demo_rebound.
Proof.
  unfold demo_rebound. apply reach_run; [|done]. apply reach_run; [|done].
  apply reach_run; [apply reach_alloc; [apply demo_reachable|done]|].
  exists (mkConn 8 0 ∅). split; [done|]. split; [done|].
  intros cid. destruct (decide (cid = 7)) as [->|]; [done|].
  simpl. rewrite lookup_insert_ne by done. by rewrite lookup_empty.
Qed.


(** ** Removal *)

(** A disconnected connection is gone: RemConnWithToken reports its last
    user and token, and afterwards neither its identifier, nor a user, nor a
    channel leads to it, while every other user and subscription stays. *)
Theorem disconnect_removes (answer : list call -> call -> option error) (w : World)
    (c : cref) (o : conn) (ss : list (list Z))
    (Hr : reachable answer w) (Ho : heap w !! c = Some o)
    (Hc : conns (sess w) !! ID o = Some c) (Hp : map KString ss ≡ₚ elements (Attr o)) :
  exists w',
    RemConnWithToken (map KString ss) c w = (Ok (UID o, token_at (sess w) (ID o)), w') /\
    conns (sess w') = delete (ID o) (conns (sess w)) /\
    (forall u d, users (sess w') !! u = Some d <-> users (sess w) !! u = Some d /\ d <> c) /\
    (forall ch ms, channels (sess w') !! ch = Some ms -> c ∉ ms) /\
    (forall ch ms d, channels (sess w) !! ch = Some ms -> d ∈ ms -> d <> c ->
       exists ms', channels (sess w') !! ch = Some ms' /\ d ∈ ms').
Proof.
  pose proof (reachable_wf answer w Hr) as Hw. exists (after_rem w c o ss).
  split; [by apply RemConnWithToken_eq|]. split; [done|]. split; [|split].
  - intros u d. simpl. unfold is_user. case_bool_decide as E.
    + rewrite lookup_delete_Some. split.
      * intros [Hne Hd]. split; [done|]. intros ->. by apply Hne, (wf_user_unique w u c o).
      * intros [Hd Hne]. split; [|done]. intros <-. congruence.
    + split; [|by intros [? _]]. intros Hd. split; [done|]. intros ->. apply E.
      by rewrite (wf_user_unique w u c o).
  - intros ch ms Hch Hin. destruct (unsub_all_lookup _ _ _ _ _ Hch) as (m0 & H0 & Hs & _ & Hcn).
    destruct (wf_channels w Hw _ _ H0) as [_ Hm].
    destruct (Hm c ltac:(set_solver)) as (o' & Ho' & Ha & _). simplify_eq.
    apply elem_of_elements in Ha. rewrite <- Hp in Ha.
    apply list_elem_of_fmap in Ha as (s & [= <-] & Hs'). by apply Hcn.
  - intros ch ms d. apply unsub_all_keeps.
Qed.

Lemma disconnect_removes_witness :
  exists w',
    RemConnWithToken (map KString []) 1%nat demo = (Ok (0, token_at (sess demo) 7), w') /\
    conns (sess w') = delete 7 (conns (sess demo)) /\
    (forall u d, users (sess w') !! u = Some d <-> users (sess demo) !! u = Some d /\ d <> 1%nat) /\
    (forall ch ms, channels (sess w') !! ch = Some ms -> 1%nat ∉ ms) /\
    (forall ch ms d, channels (sess demo) !! ch = Some ms -> d ∈ ms -> d <> 1%nat ->
       exists ms', channels (sess w') !! ch = Some ms' /\ d ∈ ms').
Proof.
  apply (disconnect_removes accepting demo 1%nat (mkConn 7 0 ∅) []).
  - apply demo_reachable.
  - reflexivity.
  - reflexivity.
  - reflexivity.
Defined.

(** An application attribute under a key that is not a string breaks the
    disconnect: the type assertion in RemConnWithToken panics with the
    connection already removed from the tables but its channels not cleaned,
    so a channel it joined still delivers to it. *)
Theorem nonstring_attribute_panics (n : Z) (ch : list Z) :
  let o := mkConn 7 0 {[KOther n; KString ch]} in
  let w := mkWorld (mkSession {[7 := 1%nat]} ∅ ∅ ∅ {[ch := {[1%nat]}]}) {[1%nat := o]} [] in
  exists w', RemConnWithToken [KOther n; KString ch] 1%nat w = (Panic, w') /\
    conns (sess w') !! 7 = None /\ channels (sess w') !! ch = Some {[1%nat]} /\
    effect (Publish accepting (fun l => l) ch false [5]) w'
    = mkWorld (sess w') (heap w') [CPush 1%nat [5]].
Proof.
  intros o w. eexists. split; [reflexivity|]. split; [reflexivity|].
  assert (forall s : gset cref, ({[ch := s]} : gmap (list Z) (gset cref)) !! ch = Some s) as Hs
    by (intros; apply lookup_insert_eq).
  split; [apply Hs|]. unfold effect, Publish, st_bind, get. cbn [sess channels].
  change (channels _) with ({[ch := {[1%nat]}]} : gmap (list Z) (gset cref)). rewrite Hs.
  reflexivity.
Qed.

(** ** Channels *)

Definition members (w : World) (ch : list Z) : gset cref := default ∅ (channels (sess w) !! ch).

Lemma members_subscribed w c o ch ch' :
  members (subscribed w c o ch) ch'
  = if decide (ch' = ch) then {[c]} ∪ members w ch else members w ch'.
Proof.
  unfold members. simpl. destruct (decide (ch' = ch)) as [->|Hne].
  - by rewrite lookup_insert_eq.
  - by rewrite lookup_insert_ne.
Qed.

Lemma members_unsub c ch chs ch' :
  default ∅ (unsub c ch chs !! ch')
  = if decide (ch' = ch) then default ∅ (chs !! ch) ∖ {[c]} else default ∅ (chs !! ch').
Proof.
  destruct (decide (ch' = ch)) as [->|Hne]; [|by rewrite unsub_other].
  unfold unsub. destruct (chs !! ch) as [ms|] eqn:E; simpl; [|rewrite E; set_solver].
  case_bool_decide as Hb; [rewrite lookup_delete_eq; simpl; set_solver|].
  by rewrite lookup_insert_eq.
Qed.

Lemma members_unsubscribed w c o ch ch' :
  wf w -> heap w !! c = Some o ->
  members (unsubscribed w c o ch) ch'
  = if decide (ch' = ch) then members w ch ∖ {[c]} else members w ch'.
Proof.
  intros Hw Ho. unfold members. simpl. case_bool_decide as Hk; [apply members_unsub|].
  destruct (decide (ch' = ch)) as [->|]; [|done].
  assert (c ∉ default ∅ (channels (sess w) !! ch)); [|set_solver].
  destruct (channels (sess w) !! ch) as [ms|] eqn:E; simpl; [|set_solver]. intros Hc.
  destruct (wf_channels w Hw _ _ E) as [_ Hm]. destruct (Hm c Hc) as (o' & Ho' & Ha & _).
  rewrite Ho in Ho'. injection Ho' as <-. done.
Qed.

Section Loop.
Context (f : cref -> ST World unit) (after : World -> cref -> conn -> World) (ch : list Z).
Context (change : gset cref -> gset cref -> gset cref).
Hypothesis Hf : forall c o v, wf v -> heap v !! c = Some o -> conns (sess v) !! ID o = Some c ->
  f c v = (Ok tt, after v c o) /\ wf (after v c o) /\ keeps v (after v c o) /\
  forall ch', members (after v c o) ch'
              = if decide (ch' = ch) then change (members v ch) {[c]} else members v ch'.
Hypothesis Hch_nil : forall s, change s ∅ = s.
Hypothesis Hch_cons : forall s a b, change (change s a) b = change s (a ∪ b).

(** The targets that resolve, as a set *)
Definition resolved (m : gmap Z cref) (targets : list Z) : gset cref :=
  list_to_set (omap (fun t => m !! t) targets).

Lemma members_loop kind m targets w :
  wf w -> index (sess w) kind = Ok m ->
  exists w', st_iter (fun target => match m !! target with
                                    | None => st_ret tt
                                    | Some c => f c
                                    end) targets w = (Ok tt, w') /\
    forall ch', members w' ch' = if decide (ch' = ch)
      then change (members w ch) (resolved m targets) else members w ch'.
Proof using Hf Hch_nil Hch_cons.
  revert w. induction targets as [|t ts IH]; intros w Hw Hm; cbn [st_iter].
  - exists w. split; [done|]. intros ch'. destruct (decide (ch' = ch)) as [->|]; [|done].
    by rewrite Hch_nil.
  - unfold st_bind at 1, resolved. cbn [omap list_omap].
    destruct (m !! t) as [c|] eqn:E.
    2: { destruct (IH w Hw Hm) as (w' & E' & H). exists w'. split; [exact E'|done]. }
    destruct (index_conn w kind m t c Hw Hm E) as (o & Ho & Hc).
    destruct (Hf c o w Hw Ho Hc) as (-> & Hv & (Kc & Ku & _) & Hmem).
    destruct (IH (after w c o) Hv) as (w' & -> & H).
    { unfold index in *. by rewrite Kc, Ku. }
    exists w'. split; [done|]. intros ch'. rewrite H, !Hmem.
    destruct (decide (ch' = ch)) as [->|]; [|done]. rewrite decide_True by done.
    by rewrite Hch_cons.
Qed.
End Loop.

(** Subscribe and Unsubscribe change exactly one channel, by exactly the
    connections the targets resolve to: targets that are not connected are
    ignored, repeated targets count once, and no other channel changes. *)
Theorem subscription_members (answer : list call -> call -> option error) (w : World)
    (kind : Z) (m : gmap Z cref) (targets ch : list Z)
    (Hr : reachable answer w) (Hm : index (sess w) kind = Ok m) :
  (exists w', Subscribe kind targets ch w = (Ok tt, w') /\
     forall ch', members w' ch' = if decide (ch' = ch)
       then members w ch ∪ resolved m targets else members w ch') /\
  (exists w', Unsubscribe kind targets ch w = (Ok tt, w') /\
     forall ch', members w' ch' = if decide (ch' = ch)
       then members w ch ∖ resolved m targets else members w ch').
Proof.
  pose proof (reachable_wf answer w Hr) as Hw. unfold Subscribe, Unsubscribe.
  assert (targets = [] \/ (len targets =? 0) = false) as [->|Hl].
  { destruct targets as [|t ts]; [by left|]. right. apply Z.eqb_neq. rewrite len_cons.
    pose proof (len_nonneg ts). lia. }
  { split; exists w; (split; [done|]); intros ch'; destruct (decide (ch' = ch)) as [->|];
      try done; unfold resolved; simpl; set_solver. }
  rewrite Hl. unfold st_bind at 1 3. rewrite Hm. split.
  - apply (members_loop (sub_one ch) (fun v c o => subscribed v c o ch) ch (∪))
      with (kind := kind); try done; [|set_solver..].
    intros c o v Hv Ho Hc. split; [by apply sub_one_eq|]. split; [by apply wf_subscribed|].
    split; [by apply keeps_recast|]. intros ch'. rewrite members_subscribed.
    destruct (decide (ch' = ch)); [set_solver|done].
  - apply (members_loop (unsub_one ch) (fun v c o => unsubscribed v c o ch) ch (∖))
      with (kind := kind); try done; [|set_solver..].
    intros c o v Hv Ho Hc. split; [by apply unsub_one_eq|]. split; [by apply wf_unsubscribed|].
    split; [by apply keeps_recast|]. intros ch'. by apply members_unsubscribed.
Qed.

Lemma subscription_members_witness :
  (exists w', Subscribe Kind.Conn [7; 5; 7] [1] demo = (Ok tt, w') /\
     forall ch', members w' ch' = if decide (ch' = [1])
       then members demo [1] ∪ resolved (conns (sess demo)) [7; 5; 7] else members demo ch') /\
  (exists w', Unsubscribe Kind.Conn [7; 5; 7] [1] demo = (Ok tt, w') /\
     forall ch', members w' ch' = if decide (ch' = [1])
       then members demo [1] ∖ resolved (conns (sess demo)) [7; 5; 7] else members demo ch').
Proof.
  apply (subscription_members accepting demo Kind.Conn (conns (sess demo)) [7; 5; 7] [1]).
  - apply demo_reachable.
  - reflexivity.
Defined.

(** ** Fan-out *)

Definition is_push (x : call) : bool := match x with CPush _ _ => true | _ => false end.

Lemma push_one_log answer d msg c w :
  exists ext, log (push_one answer d msg c w).2 = log w ++ ext /\
    filter (fun x => is_push x = true) ext = [CPush c msg] /\
    ((forall h x, answer h x = None) -> (push_one answer d msg c w).1 = None).
Proof.
  unfold push_one, invoke. destruct (answer (log w) (CPush c msg)) as [e|] eqn:E; simpl.
  - exists [CPush c msg]. split; [done|]. split; [done|]. intros Ha. congruence.
  - destruct d; simpl; [exists [CPush c msg; CClose c []]|exists [CPush c msg]];
      rewrite <- ?app_assoc; done.
Qed.

Lemma push_all_log answer d msg cs w :
  let '(n, e, w') := push_all answer d msg cs w in
  0 <= n <= len cs /\ (e = None <-> n = len cs) /\
  (exists ext, log w' = log w ++ ext /\
     filter (fun x => is_push x = true) ext = map (fun c => CPush c msg) cs) /\
  ((forall h x, answer h x = None) -> e = None).
Proof.
  revert w. induction cs as [|c cs IH]; intros w; cbn [push_all].
  { split; [done|]. split; [done|]. split; [|done]. exists []. by rewrite app_nil_r. }
  destruct (push_one_log answer d msg c w) as (ext & Hl & Hp & Ha).
  destruct (push_one answer d msg c w) as [e1 w1]. simpl in Hl, Ha.
  specialize (IH w1). destruct (push_all answer d msg cs w1) as [[n e'] w2].
  destruct IH as (Hn & He & (ext2 & Hl2 & Hp2) & Ha2). rewrite len_cons.
  assert (exists ext', log w2 = log w ++ ext' /\ filter (fun x => is_push x = true) ext'
    = map (fun c => CPush c msg) (c :: cs)) as Hext.
  { exists (ext ++ ext2). split; [by rewrite Hl2, Hl, app_assoc|].
    rewrite filter_app, Hp, Hp2. done. }
  destruct e1 as [e1|].
  - split; [lia|]. split; [split; [done|lia]|]. split; [done|]. intros H. by apply Ha in H.
  - split; [lia|]. split; [rewrite He; lia|]. auto.
Qed.

(** A published message goes out to the members of the channel and to
    nobody else, one push each, in whatever order the goroutines run; the
    tables do not change; the count returned is that of the members when the
    network accepts every push, and an error is returned only when no push
    was accepted. *)
Theorem publish_exact (answer : list call -> call -> option error)
    (sched : list cref -> list cref) (w : World) (ch message : list Z) (disconnect : bool)
    (Hsched : forall l, sched l ≡ₚ l) :
  exists r w' ext, Publish answer sched ch disconnect message w = (r, w') /\
    log w' = log w ++ ext /\
    filter (fun x => is_push x = true) ext
      ≡ₚ map (fun c => CPush c message) (elements (members w ch)) /\
    sess w' = sess w /\ heap w' = heap w /\
    match r with
    | Ok n => 0 <= n <= Z.of_nat (size (members w ch)) /\
              ((forall h x, answer h x = None) -> n = Z.of_nat (size (members w ch)))
    | Err _ => ~ (forall h x, answer h x = None)
    | Panic => False
    end.
Proof.
  unfold Publish, st_bind, get, members.
  destruct (channels (sess w) !! ch) as [ms|] eqn:E; simpl.
  2: { exists (Ok 0), w, []. by rewrite app_nil_r. }
  pose proof (push_all_log answer disconnect message (sched (elements ms)) w) as H.
  pose proof (push_all_table answer disconnect message (sched (elements ms)) w) as [Ht Hh].
  assert (len (sched (elements ms)) = Z.of_nat (size ms)) as Hl.
  { unfold len. f_equal. rewrite (Permutation_length (Hsched (elements ms))).
    unfold size, set_size. done. }
  unfold fan_out. destruct (push_all answer disconnect message (sched (elements ms)) w)
    as [[n e] w']. destruct H as (Hn & He & (ext & Hlog & Hp) & Ha).
  eexists _, w', ext. split; [done|]. split; [done|].
  split; [rewrite Hp; by apply Permutation_map|]. split; [done|]. split; [done|].
  destruct e as [e|].
  - destruct (n =? 0); [intros Hx; by apply Ha in Hx|].
    split; [lia|]. intros Hx. by apply Ha in Hx.
  - split; [lia|]. intros _. rewrite <- Hl. by apply He.
Qed.

Lemma publish_exact_witness :
  exists r w' ext, Publish accepting (fun l => l) [1] true [5] demo = (r, w') /\
    log w' = log demo ++ ext /\
    filter (fun x => is_push x = true) ext
      ≡ₚ map (fun c => CPush c [5]) (elements (members demo [1])) /\
    sess w' = sess demo /\ heap w' = heap demo /\
    match r with
    | Ok n => 0 <= n <= Z.of_nat (size (members demo [1])) /\
              ((forall h x, accepting h x = None) -> n = Z.of_nat (size (members demo [1])))
    | Err _ => ~ (forall h x, accepting h x = None)
    | Panic => False
    end.
Proof. apply (publish_exact accepting (fun l => l) demo [1] [5] true). reflexivity. Defined.
