(* ===== verification/Ownership.v ===== *)
(** session/ownership.go and session/ownership_memory.go: which session token
    owns a user.  [OwnershipStore] is the interface the gate is written
    against; [OwnershipLaws] is what its documentation promises, in terms of
    the last generation given out and the present owner; the in-process
    MemoryOwnershipStore is an instance of both. *)
From stdpp Require Import base numbers list gmap.
From Stdlib Require Import ZArith Lia.
From S2P Require Import Prelude Types.

Open Scope Z_scope.
Open Scope go_scope.

(** ctx is what ctx.Err() returns when the store is called. *)
Class OwnershipStore (S : Type) := {
  Acquire : option error -> Z -> ST S Token;
  Current : option error -> Z -> ST S (option Token);
  Release : option error -> Z -> Token -> ST S bool
}.

(** What an implementation is asked for: [issued] is the last generation given
    out for a user, [owner] the token that holds it. *)
Class OwnershipLaws (S : Type) `{OwnershipStore S} := {
  store_inv : S -> Prop;
  issued : S -> Z -> Z;
  owner : S -> Z -> option Token;
  owner_issued s uid t : store_inv s -> owner s uid = Some t ->
    UID t = uid /\ 0 < Generation t <= issued s uid;
  Acquire_ok ctx uid s t s' : store_inv s -> Acquire ctx uid s = (Ok t, s') ->
    store_inv s' /\ 0 < uid /\ UID t = uid /\ issued s uid < Generation t < 2 ^ 64 /\
    0 < Generation t /\ issued s' uid = Generation t /\ owner s' uid = Some t /\
    (forall u, u <> uid -> issued s' u = issued s u /\ owner s' u = owner s u);
  Acquire_err ctx uid s e s' : Acquire ctx uid s = (Err e, s') -> s' = s;
  Current_ok ctx uid s o s' : Current ctx uid s = (Ok o, s') -> s' = s /\ o = owner s uid;
  Current_err ctx uid s e s' : Current ctx uid s = (Err e, s') -> s' = s;
  Release_ok ctx uid t s b s' : store_inv s -> Release ctx uid t s = (Ok b, s') ->
    store_inv s' /\ b = bool_decide (owner s uid = Some t) /\
    owner s' uid = (if b then None else owner s uid) /\
    (forall u, issued s' u = issued s u) /\
    (forall u, u <> uid -> owner s' u = owner s u);
  Release_err ctx uid t s e s' : Release ctx uid t s = (Err e, s') -> s' = s;
  store_no_panic ctx uid t s :
    (Acquire ctx uid s).1 <> Panic /\ (Current ctx uid s).1 <> Panic /\
    (Release ctx uid t s).1 <> Panic
}.

Module MemoryOwnershipStore.

Record MemoryOwnershipStore := mkStore {
  owners : gmap Z Token;
  generations : gmap Z Z
}.

Definition NewMemoryOwnershipStore : MemoryOwnershipStore := mkStore ∅ ∅.

Definition MaxUint64 : Z := 2 ^ 64 - 1.

Definition Acquire (ctx : option error) (uid : Z) : ST MemoryOwnershipStore Token := fun s =>
  match ctx with
  | Some e => (Err e, s)
  | None =>
      if uid <=? 0 then (Err ErrInvalidArgument, s) else
      let currentGeneration := default 0 (generations s !! uid) in
      if currentGeneration =? MaxUint64 then (Err ErrOwnershipGenerationExhausted, s) else
      let token := mkToken uid (u64 (currentGeneration + 1)) in
      (Ok token, mkStore (<[uid := token]> (owners s))
                   (<[uid := Generation token]> (generations s)))
  end.

Definition Current (ctx : option error) (uid : Z) : ST MemoryOwnershipStore (option Token) :=
  fun s =>
  match ctx with
  | Some e => (Err e, s)
  | None => if uid <=? 0 then (Err ErrInvalidArgument, s) else (Ok (owners s !! uid), s)
  end.

Definition Release (ctx : option error) (uid : Z) (token : Token)
    : ST MemoryOwnershipStore bool := fun s =>
  match ctx with
  | Some e => (Err e, s)
  | None =>
      if (uid <=? 0) || negb (UID token =? uid) || (Generation token =? 0)
      then (Err ErrInvalidArgument, s) else
      if bool_decide (owners s !! uid = Some token)
      then (Ok true, mkStore (delete uid (owners s)) (generations s))
      else (Ok false, s)
  end.

End MemoryOwnershipStore.
Import MemoryOwnershipStore (MemoryOwnershipStore, mkStore, owners, generations).

(** Owners were issued, and counters are 64-bit. *)
Definition store_wf (s : MemoryOwnershipStore) : Prop :=
  (forall uid, inU 64 (default 0 (generations s !! uid))) /\
  (forall uid t, owners s !! uid = Some t ->
     UID t = uid /\ 0 < Generation t <= default 0 (generations s !! uid)).

Lemma wf_new : store_wf MemoryOwnershipStore.NewMemoryOwnershipStore.
Proof. split; [intros uid|intros uid t]; simpl; rewrite lookup_empty; done. Qed.

#[export] Instance memory_ownership : OwnershipStore MemoryOwnershipStore := {
  Acquire := MemoryOwnershipStore.Acquire;
  Current := MemoryOwnershipStore.Current;
  Release := MemoryOwnershipStore.Release
}.

(** What Acquire does when it succeeds *)
Lemma acquire_inv ctx uid s t s' :
  store_wf s -> MemoryOwnershipStore.Acquire ctx uid s = (Ok t, s') ->
  let g := default 0 (generations s !! uid) + 1 in
  0 < uid /\ 0 < g < 2 ^ 64 /\ t = mkToken uid g /\
  s' = mkStore (<[uid := t]> (owners s)) (<[uid := g]> (generations s)).
Proof.
  intros [Hg _]. unfold MemoryOwnershipStore.Acquire. destruct ctx; [done|].
  destruct (Z.leb_spec uid 0); [done|]. pose proof (Hg uid) as Hgu. unfold inU in Hgu.
  destruct (Z.eqb_spec (default 0 (generations s !! uid)) MemoryOwnershipStore.MaxUint64)
    as [|Hne]; [done|]. unfold MemoryOwnershipStore.MaxUint64 in Hne.
  rewrite wrapU_id by (unfold inU; lia). intros [= <- <-]. split; [done|]. split; [lia|]. done.
Qed.

Lemma wf_acquire ctx uid s t s' :
  store_wf s -> MemoryOwnershipStore.Acquire ctx uid s = (Ok t, s') -> store_wf s'.
Proof.
  intros Hs E. destruct (acquire_inv ctx uid s t s' Hs E) as (Hu & Hg & -> & ->).
  destruct Hs as [Hgs Ho]. split; cbn [generations owners].
  - intros u. destruct (decide (u = uid)) as [->|Hne].
    + rewrite lookup_insert_eq. simpl. unfold inU. lia.
    + rewrite lookup_insert_ne by done. apply Hgs.
  - intros u t. destruct (decide (u = uid)) as [->|Hne].
    + rewrite !lookup_insert_eq. intros [= <-]. simpl. lia.
    + rewrite !lookup_insert_ne by done. apply Ho.
Qed.

(** What Release does when it succeeds *)
Lemma release_inv ctx uid t s b s' :
  MemoryOwnershipStore.Release ctx uid t s = (Ok b, s') ->
  b = bool_decide (owners s !! uid = Some t) /\
  s' = if b then mkStore (delete uid (owners s)) (generations s) else s.
Proof.
  unfold MemoryOwnershipStore.Release. destruct ctx; [done|]. destruct (_ || _); [done|].
  by case_bool_decide; intros [= <- <-].
Qed.

#[export] Program Instance memory_laws : OwnershipLaws MemoryOwnershipStore := {
  store_inv := store_wf;
  issued s uid := default 0 (generations s !! uid);
  owner s uid := owners s !! uid
}.
Next Obligation. intros s uid t [_ Ho]. apply Ho. Qed.
Next Obligation.
  intros ctx uid s t s' Hs E. split; [by eapply wf_acquire|].
  destruct (acquire_inv ctx uid s t s' Hs E) as (Hu & Hg & -> & ->). simpl.
  rewrite !lookup_insert_eq. simpl. repeat split; try lia.
  - by rewrite lookup_insert_ne.
  - by rewrite lookup_insert_ne.
Qed.
Next Obligation.
  intros ctx uid s e s'. simpl. unfold MemoryOwnershipStore.Acquire.
  destruct ctx; [by intros [= _ <-]|]. destruct (uid <=? 0); [by intros [= _ <-]|].
  destruct (_ =? _); [by intros [= _ <-]|done].
Qed.
Next Obligation.
  intros ctx uid s o s'. simpl. unfold MemoryOwnershipStore.Current.
  destruct ctx; [done|]. destruct (uid <=? 0); [done|]. by intros [= <- <-].
Qed.
Next Obligation.
  intros ctx uid s e s'. simpl. unfold MemoryOwnershipStore.Current.
  destruct ctx; [by intros [= _ <-]|]. destruct (uid <=? 0); [by intros [= _ <-]|done].
Qed.
Next Obligation.
  intros ctx uid t s b s' Hs E. destruct (release_inv ctx uid t s b s' E) as [Hb ->].
  destruct b; [|done]. symmetry in Hb. apply bool_decide_eq_true in Hb. simpl.
  split; [|repeat split].
  - destruct Hs as [Hg Ho]. split; [done|]. simpl. intros u t' Hu.
    apply lookup_delete_Some in Hu as [_ Hu]. by apply Ho.
  - by rewrite bool_decide_eq_true_2.
  - apply lookup_delete_eq.
  - intros u Hu. by apply lookup_delete_ne.
Qed.
Next Obligation.
  intros ctx uid t s e s'. simpl. unfold MemoryOwnershipStore.Release.
  destruct ctx; [by intros [= _ <-]|]. destruct (_ || _); [by intros [= _ <-]|].
  by case_bool_decide.
Qed.
Next Obligation.
  intros ctx uid t s. simpl. unfold MemoryOwnershipStore.Acquire,
    MemoryOwnershipStore.Current, MemoryOwnershipStore.Release.
  destruct ctx; [done|]. destruct (uid <=? 0); [done|]. destruct (_ =? _); simpl;
    (split; [done|]); (split; [done|]); destruct (_ || _); try done; by case_bool_decide.
Qed.

(** ** Stores over time *)

Inductive sop :=
| SAcquire (ctx : option error) (uid : Z)
| SCurrent (ctx : option error) (uid : Z)
| SRelease (ctx : option error) (uid : Z) (t : Token).

Section Laws.
Context {S : Type} `{OwnershipLaws S}.

Definition run_sop (s : S) (x : sop) : S :=
  match x with
  | SAcquire ctx uid => (Acquire ctx uid s).2
  | SCurrent ctx uid => (Current ctx uid s).2
  | SRelease ctx uid t => (Release ctx uid t s).2
  end.

(** Generations are never taken back. *)
Lemma run_sop_issued s x u :
  store_inv s -> store_inv (run_sop s x) /\ issued s u <= issued (run_sop s x) u.
Proof.
  intros Hs. destruct x as [ctx uid|ctx uid|ctx uid t]; simpl.
  - destruct (store_no_panic ctx uid zero_token s) as [Hp _].
    destruct (Acquire ctx uid s) as [[t|e|] s'] eqn:E; [| |done]; simpl.
    + destruct (Acquire_ok ctx uid s t s' Hs E) as (Hs' & _ & _ & Hg & _ & Hi & _ & Hu).
      split; [done|]. destruct (decide (u = uid)) as [->|Hne]; [lia|].
      destruct (Hu u Hne) as [-> _]. lia.
    + apply Acquire_err in E as ->. split; [done|lia].
  - destruct (store_no_panic ctx uid zero_token s) as (_ & Hp & _).
    destruct (Current ctx uid s) as [[o|e|] s'] eqn:E; [| |done]; simpl.
    + apply Current_ok in E as [-> _]. split; [done|lia].
    + apply Current_err in E as ->. split; [done|lia].
  - destruct (store_no_panic ctx uid t s) as (_ & _ & Hp).
    destruct (Release ctx uid t s) as [[b|e|] s'] eqn:E; [| |done]; simpl.
    + destruct (Release_ok ctx uid t s b s' Hs E) as (Hs' & _ & _ & Hi & _).
      split; [done|]. rewrite Hi. lia.
    + apply Release_err in E as ->. split; [done|lia].
Qed.

Lemma run_sops_issued xs s u :
  store_inv s -> store_inv (foldl run_sop s xs) /\ issued s u <= issued (foldl run_sop s xs) u.
Proof.
  revert s. induction xs as [|x xs IH]; intros s Hs; simpl; [split; [done|lia]|].
  destruct (run_sop_issued s x u Hs) as [Hs' Hi]. destruct (IH _ Hs') as [? ?].
  split; [done|lia].
Qed.

(** Two acquisitions of a user, with anything in between *)
Lemma acquire_twice s ctx ctx' uid t1 s1 xs t2 s2 :
  store_inv s -> Acquire ctx uid s = (Ok t1, s1) ->
  Acquire ctx' uid (foldl run_sop s1 xs) = (Ok t2, s2) ->
  Generation t1 < Generation t2 /\ owner s2 uid = Some t2 /\
  (forall ctx'' b s3, Release ctx'' uid t1 s2 = (Ok b, s3) ->
     b = false /\ owner s3 uid = Some t2).
Proof.
  intros Hs E1 E2. destruct (Acquire_ok ctx uid s t1 s1 Hs E1) as (Hs1 & _ & _ & _ & _ & Hi & _).
  destruct (run_sops_issued xs s1 uid Hs1) as [Hx Hle].
  destruct (Acquire_ok _ _ _ t2 s2 Hx E2) as (Hs2 & _ & _ & Hg2 & _ & _ & Ho & _).
  split; [lia|]. split; [done|]. intros ctx'' b s3 E3.
  destruct (Release_ok _ _ _ _ _ _ Hs2 E3) as (_ & Hb & Ho3 & _).
  assert (b = false) as ->.
  { rewrite Hb, Ho. apply bool_decide_eq_false_2. intros [= ->]. lia. }
  split; [done|]. by rewrite Ho3.
Qed.
End Laws.

(** C26: the in-memory ownership store fences users: of two tokens acquired for
    the same user, with any operations in between, the later one has the larger
    generation and owns the user, and releasing the earlier one changes
    nothing. *)
Theorem ownership_generations_grow (s s1 s2 : MemoryOwnershipStore) (ctx ctx' : option error)
    (uid : Z) (t1 t2 : Token) (xs : list sop) (Hs : store_wf s)
    (E1 : MemoryOwnershipStore.Acquire ctx uid s = (Ok t1, s1))
    (E2 : MemoryOwnershipStore.Acquire ctx' uid (foldl run_sop s1 xs) = (Ok t2, s2)) :
  Generation t1 < Generation t2 /\ owners s2 !! uid = Some t2 /\
  (forall ctx'' b s3, MemoryOwnershipStore.Release ctx'' uid t1 s2 = (Ok b, s3) ->
     b = false /\ owners s3 !! uid = Some t2).
Proof. exact (acquire_twice s ctx ctx' uid t1 s1 xs t2 s2 Hs E1 E2). Qed.

Definition store0 : MemoryOwnershipStore := MemoryOwnershipStore.NewMemoryOwnershipStore.
Definition store1 : MemoryOwnershipStore := (MemoryOwnershipStore.Acquire None 9 store0).2.
Definition store2 : MemoryOwnershipStore :=
  (MemoryOwnershipStore.Acquire None 9
     (foldl run_sop store1 [SRelease None 9 (mkToken 9 1); SAcquire None 4])).2.

Lemma ownership_generations_grow_witness :
  1 < 2 /\ owners store2 !! 9 = Some (mkToken 9 2) /\
  (forall ctx'' b s3, MemoryOwnershipStore.Release ctx'' 9 (mkToken 9 1) store2 = (Ok b, s3) ->
     b = false /\ owners s3 !! 9 = Some (mkToken 9 2)).
Proof.
  apply (ownership_generations_grow store0 store1 store2 None None 9 (mkToken 9 1) (mkToken 9 2)
           [SRelease None 9 (mkToken 9 1); SAcquire None 4]).
  - apply wf_new.
  - reflexivity.
  - reflexivity.
Defined.
