(* ===== verification/Gate.v ===== *)
(** cluster/gate: the gate around its session table (ownership.go, provider.go,
    the bind/unbind/trigger calls of proxy.go, the connect and disconnect
    handlers of gate.go).

    The locator, the node linker and the network are outside: what the gate
    asks of them is recorded as events, and what they answer is a parameter. *)
From stdpp Require Import base numbers list gmap.
From Stdlib Require Import ZArith Lia.
From S2P Require Import Prelude Types Session Ownership.
Import Session.Session.

Open Scope Z_scope.
Open Scope go_scope.

Inductive event :=
| EvBindGate (uid : Z)
| EvUnbindGate (uid : Z)
| EvTrigger (e cid uid : Z) (token : Token)
| EvInvalidateHints (uid : Z).

Module Gate.
Section Gate.
Context {S : Type} `{OwnershipStore S}.

(** opts.ownershipStore is nil or a store; wg counts open connections *)
Record Gate := mkGate {
  world : World;
  store : option S;
  state : Z;
  wg : Z;
  events : list event
}.

Definition on_session {A} (m : ST World A) : ST Gate A := fun g =>
  let '(r, w) := m (world g) in (r, mkGate w (store g) (state g) (wg g) (events g)).

(** A call of the store; the callers test for nil first *)
Definition on_store {A} (m : ST S A) : ST Gate A := fun g =>
  match store g with
  | None => (Panic, g)
  | Some s => let '(r, s') := m s in
              (r, mkGate (world g) (Some s') (state g) (wg g) (events g))
  end.

Definition has_store : ST Gate bool := fun g =>
  (Ok (match store g with None => false | Some _ => true end), g).

Definition emit (x : event) : ST Gate unit := fun g =>
  (Ok tt, mkGate (world g) (store g) (state g) (wg g) (events g ++ [x])).

Definition NewGate (s : option S) : Gate :=
  mkGate (mkWorld NewSession ∅ []) s Cluster.Shut 0 [].

(** ctx.Err() of the context given to the store, and the locator's answers *)
Context (ctx : option error).
Context (locator_BindGate locator_UnbindGate : Z -> option error).
Context (answer : list call -> call -> option error).

(** *** ownership.go *)

Definition bindSession (cid uid : Z) : ST Gate Token :=
  let! stored := has_store in
  if negb stored then
    on_session (Bind cid uid) ;;; on_session (Token_ Kind.Conn cid)
  else
    let! localToken := on_session (Token_ Kind.Conn cid) in
    let! isCurrent := if (Types.UID localToken =? uid) && negb (Generation localToken =? 0)
                      then on_session (IsCurrent localToken) else st_ret false in
    let! kept := if isCurrent
                 then let! current := on_store (Current ctx uid) in
                      st_ret (bool_decide (current = Some localToken))
                 else st_ret false in
    if kept then st_ret localToken else
    let! token := on_store (Acquire ctx uid) in
    let! bound := st_try (on_session (BindToken cid uid token)) in
    match bound with
    | inr e => let! _ := st_try (on_store (Release ctx uid token)) in st_err e
    | inl _ =>
        (if negb (Types.UID localToken =? 0) && negb (Generation localToken =? 0)
            && negb (Types.UID localToken =? uid)
         then let! _ := st_try (on_store (Release ctx (Types.UID localToken) localToken)) in
              st_ret tt
         else st_ret tt) ;;;
        st_ret token
    end.

Definition releaseSession (token : Token) : ST Gate bool :=
  let! stored := has_store in
  if negb stored || (Types.UID token =? 0) || (Generation token =? 0) then st_ret false
  else on_store (Release ctx (Types.UID token) token).

(** *** proxy.go *)

(** An error of the linker is logged, not returned. *)
Definition trigger (e cid uid : Z) (token : Token) : ST Gate unit :=
  emit (EvTrigger e cid uid token).

Definition bindGate (cid uid : Z) : ST Gate unit :=
  emit (EvBindGate uid) ;;;
  match locator_BindGate uid with
  | Some e => st_err e
  | None =>
      let! r := st_try (on_session (Token_ Kind.Conn cid)) in
      let token := match r with inl t => t | inr _ => zero_token end in
      trigger Cluster.Reconnect cid uid token
  end.

Definition unbindGate (cid uid : Z) : ST Gate unit :=
  emit (EvUnbindGate uid) ;;;
  match locator_UnbindGate uid with Some e => st_err e | None => st_ret tt end.

Definition requestDeliveryToken (cid uid : Z) : ST World Token :=
  if uid =? 0 then st_ret zero_token else
  let! r := st_try (Token_ Kind.Conn cid) in
  st_ret (match r with inl t => t | inr _ => zero_token end).

(** *** provider.go *)

Definition Bind (cid uid : Z) : ST Gate unit :=
  if (cid <=? 0) || (uid <=? 0) then st_err ErrInvalidArgument else
  let! token := bindSession cid uid in
  let! r := st_try (bindGate cid uid) in
  match r with
  | inr e =>
      let! _ := st_try (on_session (Session.Unbind uid)) in
      let! _ := st_try (releaseSession token) in
      st_err e
  | inl _ => emit (EvInvalidateHints uid)
  end.

Definition Unbind (uid : Z) : ST Gate unit :=
  if uid =? 0 then st_err ErrInvalidArgument else
  let! token := on_session (Token_ Kind.User uid) in
  let! _ := releaseSession token in
  let! cid := on_session (Session.Unbind uid) in
  unbindGate cid uid.

Definition GetIP (remoteIP : cref -> res (list Z)) (kind target : Z) : ST Gate (list Z) :=
  on_session (RemoteIP remoteIP kind target).

Definition IsOnline (kind target : Z) : ST Gate bool := on_session (Has kind target).
Definition Stat (kind : Z) : ST Gate Z := on_session (Session.Stat kind).

Definition Disconnect (kind target : Z) (force : bool) : ST Gate unit :=
  on_session (Close answer kind target [force]).

(** The store must name [token] as the owner, when there is a store. *)
Definition check_owner (token : Token) : ST Gate unit :=
  let! stored := has_store in
  if stored then
    let! current := on_store (Current ctx (Types.UID token)) in
    if bool_decide (current = Some token) then st_ret tt else st_err ErrStaleSession
  else st_ret tt.

(** kind is Conn or User *)
Definition known_kind (kind : Z) : bool := (kind =? Kind.Conn) || (kind =? Kind.User).

Definition DisconnectCurrent (kind target : Z) (token : Token) (force : bool) : ST Gate unit :=
  if negb (known_kind kind) || (Types.UID token <=? 0) || (Generation token =? 0)
  then st_err ErrStaleSession else
  if (kind =? Kind.User) && negb (target =? Types.UID token) then st_err ErrStaleSession else
  check_owner token ;;;
  on_session (CloseCurrent answer kind target token [force]).

Definition Push (kind target : Z) (disconnect : bool) (token : Token) (message : list Z)
    : ST Gate unit :=
  if negb (bool_decide (token = zero_token)) then
    if negb (known_kind kind) || (Types.UID token <=? 0) || (Generation token =? 0)
    then st_err ErrStaleSession else
    if (kind =? Kind.User) && negb (target =? Types.UID token) then st_err ErrStaleSession else
    check_owner token ;;;
    on_session (SendCurrent answer kind target token disconnect message)
  else
    let! r := st_try (on_session (Session.Push answer kind target disconnect message)) in
    (if (kind =? Kind.User) && bool_decide (r = inr ErrNotFoundSession)
     then emit (EvUnbindGate target) else st_ret tt) ;;;
    st_raise r.

Definition Multicast sched kind targets disconnect message : ST Gate Z :=
  on_session (Session.Multicast answer sched kind targets disconnect message).
Definition Broadcast sched kind disconnect message : ST Gate Z :=
  on_session (Session.Broadcast answer sched kind disconnect message).
Definition Publish sched channel disconnect message : ST Gate Z :=
  on_session (Session.Publish answer sched channel disconnect message).
Definition Subscribe kind targets channel : ST Gate unit :=
  on_session (Session.Subscribe kind targets channel).
Definition Unsubscribe kind targets channel : ST Gate unit :=
  on_session (Session.Unsubscribe kind targets channel).

Definition GetState : ST Gate Z := fun g => (Ok (state g), g).
Definition SetState (s : Z) : ST Gate unit := fun g =>
  (Ok tt, mkGate (world g) (store g) (i32 s) (wg g) (events g)).

(** *** gate.go *)

(** WaitGroup.Add: the counter moves before it panics *)
Definition wg_add (n : Z) : ST Gate unit := fun g =>
  (if wg g + n <? 0 then Panic else Ok tt, mkGate (world g) (store g) (state g) (wg g + n) (events g)).

Definition handleConnect (c : cref) : ST Gate unit :=
  wg_add 1 ;;;
  on_session (AddConn c) ;;;
  let! o := on_session (deref c) in
  let! r := st_try (on_session (Token_ Kind.Conn (ID o))) in
  let token := match r with inl t => t | inr _ => zero_token end in
  trigger Cluster.Connect (ID o) (UID o) token.

Definition handleDisconnect (order : list key) (c : cref) : ST Gate unit :=
  let! o := on_session (deref c) in
  let! (uid, token) := on_session (RemConnWithToken order c) in
  (if negb (uid =? 0) then
     let! _ := st_try (unbindGate (ID o) uid) in
     let! _ := st_try (releaseSession token) in
     st_ret tt
   else st_ret tt) ;;;
  trigger Cluster.Disconnect (ID o) uid token ;;;
  wg_add (-1).

End Gate.
Arguments Gate S : clear implicits.
End Gate.
