(* ===== verification/GateOk.v ===== *)
(** What the gate promises on top of its session table and of any lawful
    ownership store. *)
From stdpp Require Import base numbers list gmap.
From Stdlib Require Import ZArith Lia.
From S2P Require Import Prelude Types Session SessionOk SessionClaims Ownership Gate.
Import Session.Session.

Open Scope Z_scope.
Open Scope go_scope.

Section GateOk.
Context {S : Type} `{OwnershipLaws S}.
Context (ctx : option error).
Context (bindLoc unbindLoc : Z -> option error).
Context (answer : list call -> call -> option error).

(** The gate runs with store [s], and both invariants hold. *)
Definition gate_ok (g : Gate.Gate S) (s : S) : Prop :=
  wf (Gate.world g) /\ Gate.store g = Some s /\ store_inv s.

Lemma on_session_eq {A} (m : ST World A) (g : Gate.Gate S) r w :
  m (Gate.world g) = (r, w) ->
  Gate.on_session m g = (r, Gate.mkGate w (Gate.store g) (Gate.state g) (Gate.wg g) (Gate.events g)).
Proof. intros E. unfold Gate.on_session. by rewrite E. Qed.

Lemma on_store_eq {A} (m : ST S A) (g : Gate.Gate S) s r s' :
  Gate.store g = Some s -> m s = (r, s') ->
  Gate.on_store m g = (r, Gate.mkGate (Gate.world g) (Some s') (Gate.state g) (Gate.wg g) (Gate.events g)).
Proof. intros Hs E. unfold Gate.on_store. by rewrite Hs, E. Qed.

(** A lookup of the local token leaves everything in place. *)
Lemma Token_same w kind target : (Token_ kind target w).2 = w.
Proof.
  unfold Token_, st_bind, conn_. destruct (lookup_conn _ _ _); [|done|done]. simpl.
  unfold deref. by destruct (heap w !! a).
Qed.

Lemma IsCurrent_same w t : (IsCurrent t w).2 = w.
Proof.
  unfold IsCurrent, st_bind, get. destruct (_ || _); [done|]. simpl.
  destruct (users (sess w) !! Types.UID t) as [c|]; [|done]. unfold deref.
  by destruct (heap w !! c).
Qed.

Lemma Token_eq w cid c o :
  conns (sess w) !! cid = Some c -> heap w !! c = Some o ->
  st_run (Token_ Kind.Conn cid) w = Ok (token_at (sess w) (ID o)).
Proof.
  intros Hc Ho. unfold st_run, Token_, st_bind, conn_, lookup_conn. simpl. rewrite Hc.
  unfold deref, get. by rewrite Ho.
Qed.

Lemma bind_value {A B} (m : ST World A) (v : B) w x w' :
  (m ;;; st_ret v) w = (Ok x, w') -> x = v.
Proof. unfold st_bind, st_ret. destruct (m w) as [[]]; try done. by intros [= <-]. Qed.

Lemma RemConn_result w order c o uid token w' :
  heap w !! c = Some o -> RemConnWithToken order c w = (Ok (uid, token), w') ->
  uid = UID o /\ token = token_at (sess w) (ID o).
Proof.
  intros Ho. unfold RemConnWithToken. unfold st_bind at 1 2. unfold deref at 1, get at 1.
  rewrite Ho. unfold st_bind at 1 2 3. unfold get at 1. cbn [set_conns set_tokens upd].
  unfold st_bind at 1. destruct (negb _ && _); cbn [set_users upd st_ret];
    intros E; apply bind_value in E; by injection E as -> ->.
Qed.

Lemma gate_eta (g : Gate.Gate S) s :
  Gate.store g = Some s ->
  Gate.mkGate (Gate.world g) (Some s) (Gate.state g) (Gate.wg g) (Gate.events g) = g.
Proof. intros E. destruct g. simpl in *. by subst. Qed.

(** The acquired token is bound and still owns the user. *)
Lemma bound_agrees w c o uid token s' st n ev :
  wf w -> heap w !! c = Some o -> conns (sess w) !! ID o = Some c -> 0 < uid ->
  Types.UID token = uid -> 0 < Generation token < 2 ^ 64 ->
  store_inv s' -> owner s' uid = Some token ->
  let g1 := Gate.mkGate (after_bind_token w c o uid token) (Some s') st n ev in
  exists s', gate_ok g1 s' /\ owner s' uid = Some token /\ Types.UID token = uid /\
    cur (Gate.world g1) token /\ st_run (Token_ Kind.Conn (ID o)) (Gate.world g1) = Ok token.
Proof.
  intros Hw Ho Hc Hu HU Hg Hi' Ho' g1. exists s'.
  split; [split; [|by split]; apply wf_after_bind_token; (done || lia || (unfold inU; lia))|].
  split; [done|]. split; [done|]. split; [apply cur_bound; lia|].
  cbn [g1 Gate.world].
  rewrite (Token_eq _ _ c (mkConn (ID o) uid (Attr o))); [|done|apply lookup_insert_eq].
  unfold token_at. cbn. by rewrite lookup_insert_eq.
Qed.

(** Binding the acquired token, and giving the previous user back *)
Lemma bind_acquired g s cid uid localToken g' t :
  gate_ok g s ->
  (let! token := Gate.on_store (Acquire ctx uid) in
   let! bound := st_try (Gate.on_session (BindToken cid uid token)) in
   match bound with
   | inr e => let! _ := st_try (Gate.on_store (Release ctx uid token)) in st_err e
   | inl _ =>
       (if negb (Types.UID localToken =? 0) && negb (Generation localToken =? 0)
           && negb (Types.UID localToken =? uid)
        then let! _ := st_try (Gate.on_store (Release ctx (Types.UID localToken) localToken)) in
             st_ret tt
        else st_ret tt) ;;; st_ret token
   end) g = (Ok t, g') ->
  exists s', gate_ok g' s' /\ owner s' uid = Some t /\ Types.UID t = uid /\
    cur (Gate.world g') t /\ st_run (Token_ Kind.Conn cid) (Gate.world g') = Ok t.
Proof.
  intros (Hw & Hs & Hi). unfold st_bind at 1.
  destruct (Acquire ctx uid s) as [[token|e|] s1] eqn:Ea;
    rewrite (on_store_eq _ g s _ s1) by done; [|done|done].
  destruct (Acquire_ok ctx uid s token s1 Hi Ea)
    as (Hi1 & Hu & HU & Hg & Hgp & _ & Ho & _).
  unfold st_bind at 1, st_try at 1. cbn [Gate.world].
  destruct (conns (sess (Gate.world g)) !! cid) as [c|] eqn:Hc; last first.
  { unfold Gate.on_session at 1. cbn [Gate.world]. unfold BindToken.
    rewrite (proj2 (Z.leb_gt _ _)), HU, Z.eqb_refl, (proj2 (Z.eqb_neq (Generation token) 0)) by lia.
    cbn [orb negb]. unfold st_bind at 1, conn_, lookup_conn. simpl. rewrite Hc.
    unfold st_bind, st_try. destruct (Gate.on_store _ _) as [[]]; done. }
  destruct (wf_conn_inv _ _ _ Hw Hc) as (o & Hoh & <- & Hcc).
  rewrite (on_session_eq _ _ (Ok tt) (after_bind_token (Gate.world g) c o uid token))
    by (apply BindToken_eq; (done || lia)).
  cbn [Gate.store Gate.state Gate.wg Gate.events].
  pose proof (fun s' => bound_agrees (Gate.world g) c o uid token s' (Gate.state g) (Gate.wg g)
    (Gate.events g) Hw Hoh Hcc Hu HU ltac:(lia)) as Hfin.
  destruct (negb (Types.UID localToken =? 0) && negb (Generation localToken =? 0)
            && negb (Types.UID localToken =? uid)) eqn:Ec; cbv iota;
    [|intros [= <- <-]; by apply Hfin].
  apply andb_true_iff in Ec as [_ Ec]. apply negb_true_iff, Z.eqb_neq in Ec.
  unfold st_bind, st_try. destruct (store_no_panic ctx (Types.UID localToken) localToken s1)
    as (_ & _ & Hp).
  destruct (Release ctx (Types.UID localToken) localToken s1) as [[b|e|] s2] eqn:Er;
    rewrite (on_store_eq _ _ s1 _ s2) by done; [| |done]; intros [= <- <-]; apply Hfin.
  - by destruct (Release_ok _ _ _ _ _ _ Hi1 Er).
  - destruct (Release_ok _ _ _ _ _ _ Hi1 Er) as (_ & _ & _ & _ & Hoth).
    rewrite Hoth by congruence. done.
  - by apply Release_err in Er as ->.
  - by apply Release_err in Er as ->.
Qed.

(** C25: a successful bindSession leaves the store and the session table in
    agreement, for any lawful ownership store: the token returned owns the
    user in the store, it is the current token of the user's session, and it
    is the token of the connection that was bound. *)
Theorem bind_session_agrees (g g' : Gate.Gate S) (s : S) (cid uid : Z) (t : Token)
    (Hg : gate_ok g s) (Hb : Gate.bindSession ctx cid uid g = (Ok t, g')) :
  exists s', gate_ok g' s' /\ owner s' uid = Some t /\ Types.UID t = uid /\
    cur (Gate.world g') t /\ st_run (Token_ Kind.Conn cid) (Gate.world g') = Ok t.
Proof.
  pose proof Hg as (Hw & Hs & Hi). revert Hb. unfold Gate.bindSession.
  unfold st_bind at 1, Gate.has_store at 1. rewrite Hs. cbn [negb].
  unfold st_bind at 1. destruct (Token_ Kind.Conn cid (Gate.world g)) as [r w1] eqn:Et.
  pose proof (Token_same (Gate.world g) Kind.Conn cid) as E1. rewrite Et in E1. simpl in E1. subst w1.
  rewrite (on_session_eq _ _ _ _ Et), Hs, gate_eta by done.
  destruct r as [lt|e|]; [|done|done].
  destruct ((Types.UID lt =? uid) && negb (Generation lt =? 0)) eqn:Ec; cbv iota.
  2: { unfold st_bind at 1 2. cbn [st_ret]. intros E. by eapply (bind_acquired g s cid uid lt). }
  unfold st_bind at 1. destruct (IsCurrent lt (Gate.world g)) as [rc w2] eqn:Eic.
  pose proof (IsCurrent_same (Gate.world g) lt) as E2. rewrite Eic in E2. simpl in E2. subst w2.
  rewrite (on_session_eq _ _ _ _ Eic), Hs, gate_eta by done.
  destruct rc as [[]|e|]; [| |done|done].
  2: { unfold st_bind at 1. cbn [st_ret]. intros E. by eapply (bind_acquired g s cid uid lt). }
  unfold st_bind at 1 2. destruct (Current ctx uid s) as [[o|e|] s1] eqn:Ecu;
    rewrite (on_store_eq _ _ s _ s1) by done; [|done|done].
  destruct (Current_ok _ _ _ _ _ Ecu) as [-> ->]. rewrite gate_eta by done. cbn [st_ret].
  case_bool_decide as Eo; [|intros E; by eapply (bind_acquired g s cid uid lt)].
  intros [= <- <-]. exists s. apply andb_true_iff in Ec as [Ec _]. apply Z.eqb_eq in Ec.
  split; [done|]. split; [done|]. split; [done|]. split.
  - apply IsCurrent_cur; [done|]. unfold st_run. by rewrite Eic.
  - unfold st_run. by rewrite Et.
Qed.
(** The owner check reads the store and changes nothing. *)
Lemma check_owner_eq g s token :
  gate_ok g s ->
  exists r, Gate.check_owner ctx token g = (r, g) /\ r <> Panic /\
    (r = Ok tt -> owner s (Types.UID token) = Some token).
Proof.
  intros (Hw & Hs & Hi). unfold Gate.check_owner, st_bind at 1, Gate.has_store. rewrite Hs.
  unfold st_bind. destruct (store_no_panic ctx (Types.UID token) token s) as (_ & Hp & _).
  destruct (Current ctx (Types.UID token) s) as [[o|e|] s1] eqn:Ec;
    rewrite (on_store_eq _ _ s _ s1) by done; [| |done].
  - destruct (Current_ok _ _ _ _ _ Ec) as [-> ->]. rewrite gate_eta by done.
    case_bool_decide; eexists; (split; [done|]); done.
  - apply Current_err in Ec as ->. rewrite gate_eta by done. by eexists.
Qed.

Lemma on_session_fixed {A} (m : ST World A) (g : Gate.Gate S) s r :
  Gate.store g = Some s -> m (Gate.world g) = (r, Gate.world g) -> Gate.on_session m g = (r, g).
Proof. intros Hs E. rewrite (on_session_eq _ _ _ _ E), Hs, gate_eta; done. Qed.

(** C3: a fenced push or disconnect reaches the network only with the token
    that owns the user in the shared store and is current in this gate: with
    any other token Push and DisconnectCurrent fail and change nothing, so a
    gate that lost a user to another gate can no longer speak to it. *)
Theorem stale_push_refused (g : Gate.Gate S) (s : S) (kind target : Z) (disconnect force : bool)
    (token : Token) (message : list Z) (Hg : gate_ok g s) (Hnz : token <> zero_token)
    (Hstale : owner s (Types.UID token) <> Some token \/
              st_run (IsCurrent token) (Gate.world g) <> Ok true) :
  (exists e, Gate.Push ctx answer kind target disconnect token message g = (Err e, g)) /\
  (exists e, Gate.DisconnectCurrent ctx answer kind target token force g = (Err e, g)).
Proof.
  pose proof Hg as (Hw & Hs & Hi).
  destruct (check_owner_eq g s token Hg) as (r & Ec & Hp & Hok).
  assert (forall m : ST World unit, (exists e, m (Gate.world g) = (Err e, Gate.world g)) ->
    exists e, (Gate.check_owner ctx token ;;; Gate.on_session m) g = (Err e, g)) as Hk.
  { intros m [e Em]. unfold st_bind. rewrite Ec. destruct r as [[]|e'|]; [|by eauto|done].
    exists e. by apply (on_session_fixed m g s). }
  assert (~ cur (Gate.world g) token \/ exists e, r = Err e) as Hn.
  { destruct Hstale as [Ho|Hc].
    - right. destruct r as [[]|e|]; [|by eauto|done]. exfalso. by apply Ho, Hok.
    - left. by rewrite <- IsCurrent_cur. }
  assert (forall m : ST World unit,
    (~ cur (Gate.world g) token -> exists e, m (Gate.world g) = (Err e, Gate.world g)) ->
    exists e, (Gate.check_owner ctx token ;;; Gate.on_session m) g = (Err e, g)) as Hall.
  { intros m Hm. destruct Hn as [Hn|[e ->]]; [by apply Hk, Hm|].
    exists e. unfold st_bind. by rewrite Ec. }
  unfold Gate.Push, Gate.DisconnectCurrent. rewrite bool_decide_eq_false_2 by done. cbn [negb].
  destruct (_ || _ || _); [by eauto|]. destruct (_ && _); [by eauto|].
  split; apply Hall; intros Hc; [by apply send_not_current|by apply close_not_current].
Qed.

(** releaseSession takes away at most [token]'s ownership. *)
Lemma release_own g s token :
  Gate.store g = Some s -> store_inv s ->
  exists r g', st_try (Gate.releaseSession ctx token) g = (Ok r, g') /\
    exists s', Gate.store g' = Some s' /\ store_inv s' /\
      forall u t, owner s u = Some t -> t <> token -> owner s' u = Some t.
Proof.
  intros Hs Hi. unfold st_try, Gate.releaseSession, st_bind, Gate.has_store. rewrite Hs.
  destruct (negb true || _ || _); [by eexists _, g; split; [done|exists s]|].
  destruct (store_no_panic ctx (Types.UID token) token s) as (_ & _ & Hp).
  destruct (Release ctx (Types.UID token) token s) as [[b|e|] s1] eqn:Er;
    rewrite (on_store_eq _ _ s _ s1) by done; [| |done].
  - eexists _, _. split; [done|]. exists s1. split; [done|].
    destruct (Release_ok _ _ _ _ _ _ Hi Er) as (Hi1 & Hb & Ho & _ & Hoth). split; [done|].
    intros u t Hu Ht. destruct (decide (u = Types.UID token)) as [->|Hne].
    + rewrite Ho. destruct b; [|done]. symmetry in Hb. apply bool_decide_eq_true in Hb.
      congruence.
    + by rewrite Hoth.
  - apply Release_err in Er as ->. eexists _, _. split; [done|]. by exists s.
Qed.

(** A connection that goes away gives back its own ownership and nobody
    else's: after handleDisconnect every user is owned by the token that
    owned it before, except that the token the connection last held may be
    released. *)
Theorem disconnect_releases_own (g g' : Gate.Gate S) (s : S) (order : list key) (c : cref)
    (o : conn) (Hg : gate_ok g s) (Ho : heap (Gate.world g) !! c = Some o)
    (Hd : Gate.handleDisconnect ctx unbindLoc order c g = (Ok tt, g')) :
  exists s', Gate.store g' = Some s' /\ store_inv s' /\
    forall u t, owner s u = Some t -> t <> token_at (sess (Gate.world g)) (ID o) ->
      owner s' u = Some t.
Proof.
  destruct Hg as (Hw & Hs & Hi). revert Hd. unfold Gate.handleDisconnect.
  unfold st_bind at 1. unfold Gate.on_session at 1, deref. rewrite Ho.
  unfold st_bind at 1. unfold Gate.on_session at 1. cbn [Gate.world].
  destruct (RemConnWithToken order c (Gate.world g)) as [[[uid token]|e|] w1] eqn:Er; [|done|done].
  cbn [Gate.store Gate.state Gate.wg Gate.events]. rewrite Hs.
  assert (token = token_at (sess (Gate.world g)) (ID o)) as ->.
  { by destruct (RemConn_result _ _ _ _ _ _ _ Ho Er). }
  set (g1 := Gate.mkGate w1 (Some s) _ _ _).
  assert (forall g2 s2, Gate.store g2 = Some s2 ->
    (Gate.trigger Cluster.Disconnect (ID o) uid (token_at (sess (Gate.world g)) (ID o)) ;;;
     Gate.wg_add (-1)) g2 = (Ok tt, g') -> Gate.store g' = Some s2) as Htail.
  { intros g2 s2 Hs2. unfold st_bind, Gate.trigger, Gate.emit, Gate.wg_add.
    cbn [Gate.wg]. destruct (_ <? 0); [done|]. by intros [= <-]. }
  unfold st_bind at 1. destruct (negb (uid =? 0)); last first.
  { cbn [st_ret]. intros Hd. exists s. split; [by eapply (Htail g1)|]. done. }
  unfold st_bind at 1 2.
  assert (exists r, st_try (Gate.unbindGate unbindLoc (ID o) uid) g1
    = (Ok r, Gate.mkGate w1 (Some s) (Gate.state g) (Gate.wg g)
               (Gate.events g ++ [EvUnbindGate uid]))) as [r ->].
  { unfold st_try, Gate.unbindGate, st_bind, Gate.emit.
    destruct (unbindLoc uid); eexists; reflexivity. }
  edestruct (release_own (Gate.mkGate w1 (Some s) (Gate.state g) (Gate.wg g)
    (Gate.events g ++ [EvUnbindGate uid])) s) as (r2 & g2 & -> & s2 & Hs2 & Hi2 & Hown); [done..|].
  cbn [st_ret]. intros Hd. exists s2. split; [by eapply (Htail g2)|]. done.
Qed.
End GateOk.

(** ** The in-memory store as an instance *)

(** Connections 7 and 8 are registered, nobody is bound. *)
Definition gate0 : Gate.Gate MemoryOwnershipStore.MemoryOwnershipStore :=
  Gate.mkGate
    (run accepting (OAddConn 2%nat)
       (mkWorld (sess demo) (<[2%nat := mkConn 8 0 ∅]> (heap demo)) (log demo)))
    (Some store0) Cluster.Work 2 [].

Lemma gate0_ok : gate_ok gate0 store0.
Proof.
  split; [|split; [done|apply wf_new]].
  apply (reachable_wf accepting). apply reach_run; [apply reach_alloc; [apply demo_reachable|done]|].
  exists (mkConn 8 0 ∅). split; [done|]. split; [done|].
  intros cid. destruct (decide (cid = 7)) as [->|]; [done|].
  simpl. rewrite lookup_insert_ne by done. by rewrite lookup_empty.
Qed.

(** User 9 bound on connection 7 *)
Definition gate1 : Gate.Gate MemoryOwnershipStore.MemoryOwnershipStore :=
  (Gate.bindSession None 7 9 gate0).2.

Lemma bind_session_agrees_witness :
  exists s', gate_ok gate1 s' /\ owner s' 9 = Some (mkToken 9 1) /\ 9 = 9 /\
    cur (Gate.world gate1) (mkToken 9 1) /\
    st_run (Token_ Kind.Conn 7) (Gate.world gate1) = Ok (mkToken 9 1).
Proof.
  apply (bind_session_agrees None gate0 gate1 store0 7 9 (mkToken 9 1)).
  - apply gate0_ok.
  - vm_compute. reflexivity.
Defined.

Lemma stale_push_refused_witness :
  (exists e, Gate.Push None accepting Kind.Conn 7 false (mkToken 9 3) [1] gate0 = (Err e, gate0)) /\
  (exists e, Gate.DisconnectCurrent None accepting Kind.Conn 7 (mkToken 9 3) true gate0
             = (Err e, gate0)).
Proof.
  apply (stale_push_refused None accepting gate0 store0 Kind.Conn 7 false true (mkToken 9 3) [1]).
  - apply gate0_ok.
  - discriminate.
  - left. vm_compute. discriminate.
Defined.

Lemma disconnect_releases_own_witness :
  exists s', Gate.store (Gate.handleDisconnect None (fun _ => None) [] 1%nat gate0).2 = Some s' /\
    store_inv s' /\
    forall u t, owner store0 u = Some t ->
      t <> token_at (sess (Gate.world gate0)) 7 -> owner s' u = Some t.
Proof.
  apply (disconnect_releases_own None (fun _ => None) gate0
    (Gate.handleDisconnect None (fun _ => None) [] 1%nat gate0).2 store0 [] 1%nat (mkConn 7 0 ∅)).
  - apply gate0_ok.
  - reflexivity.
  - vm_compute. reflexivity.
Defined.

(** Two binds of the same user that interleave lock the user out: when the
    earlier acquisition is bound last, the session's current token is the
    older one while the store's owner is the newer one, so fenced pushes fail
    with either token although the user is connected. *)
Theorem interleaved_binds_lock_out :
  exists g t1 t2,
    (let! t1 := Gate.on_store (Acquire None 9) in
     let! t2 := Gate.on_store (Acquire None 9) in
     Gate.on_session (BindToken 8 9 t2) ;;;
     Gate.on_session (BindToken 7 9 t1) ;;;
     st_ret (t1, t2)) gate0 = (Ok (t1, t2), g) /\
    st_run (IsCurrent t1) (Gate.world g) = Ok true /\
    (forall disconnect message,
       Gate.Push None accepting Kind.User 9 disconnect t1 message g = (Err ErrStaleSession, g) /\
       Gate.Push None accepting Kind.User 9 disconnect t2 message g = (Err ErrStaleSession, g)).
Proof.
  eexists _, _, _. split; [vm_compute; reflexivity|]. split; [vm_compute; reflexivity|].
  intros disconnect message. split; vm_compute; reflexivity.
Qed.
