(* ===== verification/Server.v ===== *)
(** internal/transporter/internal/server: a connection accepted by the transport
    server (conn.go) and the handler table every server starts with (server.go).

    The provider a server calls is a state [P]; a handler runs on the provider
    and on the connection the request came from.  The write queue is the list of
    buffers it has accepted, oldest first; whether it accepts one more in time,
    and which writer the pool hands out for an answer, are parameters that may
    depend on what was accepted before. *)
From stdpp Require Import base numbers list.
From Stdlib Require Import ZArith Lia.
From S2P Require Import Prelude Binary Types Writer Nocopy Protocol Requests Responses Gate.
Import Protocol.Protocol Requests.Requests Responses.Responses.

Open Scope Z_scope.
Open Scope go_scope.

Module Server.

(** def.go *)
Definition ConnClosed : Z := 0.
Definition ConnOpened : Z := 1.
Definition ConnHanged : Z := 2.

Record Conn := mkConn {
  state : Z;
  chWrite : list nbuf;
  lastHeartbeatTime : Z;
  InsKind : Z;
  InsID : list Z
}.

Definition newConn (now : Z) : Conn := mkConn ConnOpened [] now 0 [].

(** The server as one connection's goroutine sees it *)
Record Server (P : Type) := mkServer { provider : P; conn : Conn }.
Arguments mkServer {P} provider conn.
Arguments provider {P} s.
Arguments conn {P} s.

Section Conn.
Context {P : Type}.

Definition on_provider {A} (m : ST P A) : ST (Server P) A := fun x =>
  let '(r, p) := m (provider x) in (r, mkServer p (conn x)).

Definition on_conn {A} (m : ST Conn A) : ST (Server P) A := fun x =>
  let '(r, c) := m (conn x) in (r, mkServer (provider x) c).

(** queue: what the write queue does with one more buffer: None when it takes
    it, the context's error when WriteTimeout passes first. *)
Context (queue : list nbuf -> option error).
Context (malloc : list nbuf -> Writer.Writer.Writer).

Definition Send (buf : nbuf) : ST Conn unit := fun c =>
  if state c =? ConnClosed then (Err ErrConnectionClosed, c) else
  match queue (chWrite c) with
  | Some e => (Err e, c)
  | None => (Ok tt, mkConn (state c) (chWrite c ++ [buf]) (lastHeartbeatTime c)
                      (InsKind c) (InsID c))
  end.

(** The writer of the next answer *)
Definition writer : ST (Server P) Writer.Writer.Writer := fun x =>
  (Ok (malloc (chWrite (conn x))), x).

(** conn.Send(protocol.Encode...Res(...)) *)
Definition send (encode : Writer.Writer.Writer -> res nbuf) : ST (Server P) unit :=
  let! w := writer in
  let! buf := st_lift (encode w) in
  on_conn (Send buf).

(** if seq == 0 { return err } else { return conn.Send(...) } *)
Definition reply (seq : Z) (err : option error) (encode : Writer.Writer.Writer -> res nbuf)
    : ST (Server P) unit :=
  if seq =? 0
  then match err with None => st_ret tt | Some e => st_err e end
  else send encode.

(** the second result of a call *)
Definition err_of {A} (r : A + error) : option error :=
  match r with inl _ => None | inr e => Some e end.

(** the first result; a call that fails returns the zero value beside the error *)
Definition val_of {A} (zero : A) (r : A + error) : A :=
  match r with inl a => a | inr _ => zero end.

Definition handshake (data : list Z) : ST (Server P) unit :=
  let! (seq, insKind, insID) := st_lift (DecodeHandshakeReq data) in
  on_conn (fun c => (Ok tt, mkConn (state c) (chWrite c) (lastHeartbeatTime c) insKind insID)) ;;;
  send (fun w => EncodeHandshakeRes w seq (ErrorToCode None)).

(** ** The reading goroutine *)

(** s.handlers *)
Context (handlers : Z -> option (list Z -> ST (Server P) unit)).
(** xtime.Now() when so much of the stream is left *)
Context (now : list Z -> Z).

(** whether the writing goroutine or Stop closed the connection during the read *)
Context (interrupted : list Z -> bool).

Definition touch (t : Z) (c : Conn) : Conn :=
  mkConn (state c) (chWrite c) t (InsKind c) (InsID c).

(** close(true): the first call wins *)
Definition close (c : Conn) : Conn :=
  if state c =? ConnOpened
  then mkConn ConnClosed (chWrite c) (lastHeartbeatTime c) (InsKind c) (InsID c) else c.

Inductive turn := Continue | Return | Crash.

(** One turn of the loop in read(); close cancels the context *)
Definition read_step (s : list Z) (x : Server P) : turn * list Z * Server P :=
  if state (conn x) =? ConnClosed then (Return, s, x) else
  let '(r, s') := ReadMessage s in
  let x := if interrupted s' then mkServer (provider x) (close (conn x)) else x in
  match r with
  | Err _ => (Return, s', mkServer (provider x) (close (conn x)))
  | Panic => (Crash, s', x)
  | Ok (isHeartbeat, route, _, data) =>
      if state (conn x) =? ConnClosed then (Return, s', x) else
      let x := mkServer (provider x) (touch (now s') (conn x)) in
      if isHeartbeat : bool then (Continue, s', x) else
      match handlers route with
      | None => (Continue, s', x)
      | Some handler =>
          match handler data x with
          | (Panic, x') => (Crash, s', x')
          | (_, x') => (Continue, s', x')
          end
      end
  end.

(** read(): None when the fuel is used up *)
Fixpoint read (fuel : nat) (s : list Z) (x : Server P) : option (turn * list Z * Server P) :=
  match fuel with
  | O => None
  | S n => match read_step s x with
           | (Continue, s', x') => read n s' x'
           | r => Some r
           end
  end.
End Conn.
End Server.
