(* ===== verification/GateServer.v ===== *)
(** internal/transporter/gate: what a gate offers to the rest of the cluster.
    [Provider] is the interface of provider.go; [GateServer] the handlers of
    server.go, written against it; [GateClient] the methods of client.go, which
    call a remote gate through client.Client (its Call and Send are parameters). *)
From stdpp Require Import base numbers list gmap.
From Stdlib Require Import ZArith Lia.
From S2P Require Import Prelude Binary Types Writer Nocopy Protocol Requests Responses.
From S2P Require Import Session Ownership Gate Server.
Import Protocol.Protocol Requests.Requests Responses.Responses.

Open Scope Z_scope.
Open Scope go_scope.

Class Provider (P : Type) := {
  provider_Bind : Z -> Z -> ST P unit;
  provider_Unbind : Z -> ST P unit;
  provider_GetIP : Z -> Z -> ST P (list Z);
  provider_IsOnline : Z -> Z -> ST P bool;
  provider_Stat : Z -> ST P Z;
  provider_Disconnect : Z -> Z -> bool -> ST P unit;
  provider_DisconnectCurrent : Z -> Z -> Token -> bool -> ST P unit;
  provider_Push : Z -> Z -> bool -> Token -> list Z -> ST P unit;
  provider_Multicast : Z -> list Z -> bool -> list Z -> ST P Z;
  provider_Broadcast : Z -> bool -> list Z -> ST P Z;
  provider_Publish : list Z -> bool -> list Z -> ST P Z;
  provider_Subscribe : Z -> list Z -> list Z -> ST P unit;
  provider_Unsubscribe : Z -> list Z -> list Z -> ST P unit;
  provider_GetState : ST P Z;
  provider_SetState : Z -> ST P unit
}.

(** The gate is a provider; the parameters are those of its methods. *)
Definition gate_provider {S} `{OwnershipStore S} (ctx : option error)
    (locator_BindGate locator_UnbindGate : Z -> option error)
    (answer : list call -> call -> option error) (sched : list cref -> list cref)
    (remoteIP : cref -> res (list Z)) : Provider (Gate.Gate S) := {|
  provider_Bind := Gate.Bind ctx locator_BindGate;
  provider_Unbind := Gate.Unbind ctx locator_UnbindGate;
  provider_GetIP := Gate.GetIP remoteIP;
  provider_IsOnline := Gate.IsOnline;
  provider_Stat := Gate.Stat;
  provider_Disconnect := Gate.Disconnect answer;
  provider_DisconnectCurrent := Gate.DisconnectCurrent ctx answer;
  provider_Push := Gate.Push ctx answer;
  provider_Multicast := Gate.Multicast answer sched;
  provider_Broadcast := Gate.Broadcast answer sched;
  provider_Publish := Gate.Publish answer sched;
  provider_Subscribe := Gate.Subscribe;
  provider_Unsubscribe := Gate.Unsubscribe;
  provider_GetState := Gate.GetState;
  provider_SetState := Gate.SetState
|}.

Module GateServer.
Import Server.Server.
Section GateServer.
Context {P : Type} `{Provider P}.
Context (queue : list nbuf -> option error) (malloc : list nbuf -> Writer.Writer.Writer).

Abbreviation reply := (Server.reply queue malloc).

Definition bind (data : list Z) : ST (Server P) unit :=
  let! (seq, cid, uid) := st_lift (DecodeBindReq data) in
  let! r := st_try (on_provider (provider_Bind cid uid)) in
  reply seq (err_of r) (fun w => EncodeBindRes w seq (ErrorToCode (err_of r))).

Definition unbind (data : list Z) : ST (Server P) unit :=
  let! (seq, uid) := st_lift (DecodeUnbindReq data) in
  let! r := st_try (on_provider (provider_Unbind uid)) in
  reply seq (err_of r) (fun w => EncodeUnbindRes w seq (ErrorToCode (err_of r))).

Definition getIP (data : list Z) : ST (Server P) unit :=
  let! (seq, kind, target) := st_lift (DecodeGetIPReq data) in
  let! r := st_try (on_provider (provider_GetIP kind target)) in
  reply seq (err_of r)
    (fun w => EncodeGetIPRes w seq (ErrorToCode (err_of r)) [val_of [] r]).

Definition stat (data : list Z) : ST (Server P) unit :=
  let! (seq, kind) := st_lift (DecodeStatReq data) in
  let! r := st_try (on_provider (provider_Stat kind)) in
  reply seq (err_of r)
    (fun w => EncodeStatRes w seq (ErrorToCode (err_of r)) [u64 (val_of 0 r)]).

Definition isOnline (data : list Z) : ST (Server P) unit :=
  let! (seq, kind, target) := st_lift (DecodeIsOnlineReq data) in
  let! r := st_try (on_provider (provider_IsOnline kind target)) in
  reply seq (err_of r)
    (fun w => EncodeIsOnlineRes w seq (ErrorToCode (err_of r)) (val_of false r)).

Definition disconnect (data : list Z) : ST (Server P) unit :=
  let! (seq, kind, target, force, token) := st_lift (DecodeDisconnectReqWithToken data) in
  let! r := st_try (on_provider
              (if bool_decide (token = zero_token)
               then provider_Disconnect kind target force
               else provider_DisconnectCurrent kind target token force)) in
  reply seq (err_of r) (fun w => EncodeDisconnectRes w seq (ErrorToCode (err_of r))).

Definition push (data : list Z) : ST (Server P) unit :=
  let! (seq, kind, target, disconnect, token, message) := st_lift (DecodePushReq data) in
  let! r := st_try (on_provider (provider_Push kind target disconnect token message)) in
  reply seq (err_of r) (fun w => EncodePushRes w seq (ErrorToCode (err_of r))).

Definition multicast (data : list Z) : ST (Server P) unit :=
  let! (seq, kind, targets, disconnect, message) := st_lift (DecodeMulticastReq data) in
  let! r := st_try (on_provider (provider_Multicast kind targets disconnect message)) in
  reply seq (err_of r)
    (fun w => EncodeMulticastRes w seq (ErrorToCode (err_of r)) [u64 (val_of 0 r)]).

Definition broadcast (data : list Z) : ST (Server P) unit :=
  let! (seq, kind, disconnect, message) := st_lift (DecodeBroadcastReq data) in
  let! r := st_try (on_provider (provider_Broadcast kind disconnect message)) in
  reply seq (err_of r)
    (fun w => EncodeBroadcastRes w seq (ErrorToCode (err_of r)) [u64 (val_of 0 r)]).

Definition publish (data : list Z) : ST (Server P) unit :=
  let! (seq, channel, disconnect, message) := st_lift (DecodePublishReq data) in
  let! r := st_try (on_provider (provider_Publish channel disconnect message)) in
  reply seq (err_of r)
    (fun w => EncodePublishRes w seq (ErrorToCode (err_of r)) [u64 (val_of 0 r)]).

Definition subscribe (data : list Z) : ST (Server P) unit :=
  let! (seq, kind, targets, channel) := st_lift (DecodeSubscribeReq data) in
  let! r := st_try (on_provider (provider_Subscribe kind targets channel)) in
  reply seq (err_of r) (fun w => EncodeSubscribeRes w seq (ErrorToCode (err_of r))).

Definition unsubscribe (data : list Z) : ST (Server P) unit :=
  let! (seq, kind, targets, channel) := st_lift (DecodeUnsubscribeReq data) in
  let! r := st_try (on_provider (provider_Unsubscribe kind targets channel)) in
  reply seq (err_of r) (fun w => EncodeUnsubscribeRes w seq (ErrorToCode (err_of r))).

Definition getState (data : list Z) : ST (Server P) unit :=
  let! seq := st_lift (DecodeGetStateReq data) in
  let! r := st_try (on_provider provider_GetState) in
  reply seq (err_of r)
    (fun w => EncodeGetStateRes w seq (ErrorToCode (err_of r)) (val_of 0 r)).

Definition setState (data : list Z) : ST (Server P) unit :=
  let! (seq, state) := st_lift (DecodeSetStateReq data) in
  let! r := st_try (on_provider (provider_SetState state)) in
  reply seq (err_of r) (fun w => EncodeSetStateRes w seq (ErrorToCode (err_of r))).

(** The table after NewServer and init: routes are single bytes *)
Definition init (r : Z) : option (list Z -> ST (Server P) unit) :=
  if r =? route Handshake then Some (handshake queue malloc)
  else if r =? route Bind then Some bind
  else if r =? route Unbind then Some unbind
  else if r =? route GetIP then Some getIP
  else if r =? route Stat then Some stat
  else if r =? route IsOnline then Some isOnline
  else if r =? route Disconnect then Some disconnect
  else if r =? route Push then Some push
  else if r =? route Multicast then Some multicast
  else if r =? route Broadcast then Some broadcast
  else if r =? route Publish then Some publish
  else if r =? route Subscribe then Some subscribe
  else if r =? route Unsubscribe then Some unsubscribe
  else if r =? route GetState then Some getState
  else if r =? route SetState then Some setState
  else None.
End GateServer.
End GateServer.

(** ** client.go *)

Module GateClient.

(** [seq] is the client's counter; [env] whatever Call and Send act upon *)
Record Client (E : Type) := mkClient { seq : Z; env : E }.
Arguments mkClient {E} seq env.
Arguments seq {E} c.
Arguments env {E} c.

Section Client.
Context {E : Type}.
Context (Call : Z -> nbuf -> ST E (list Z)).
(** the optional argument picks the connection *)
Context (Send : nbuf -> list Z -> ST E unit).
(** the writer of the next request *)
Context (malloc : Z -> Writer.Writer.Writer).

Definition call (seq : Z) (buf : res nbuf) : ST (Client E) (list Z) := fun c =>
  match buf with
  | Ok b => let '(r, e) := Call seq b (env c) in (r, mkClient (GateClient.seq c) e)
  | Err e => (Err e, c)
  | Panic => (Panic, c)
  end.

Definition send (buf : res nbuf) (idx : list Z) : ST (Client E) unit := fun c =>
  match buf with
  | Ok b => let '(r, e) := Send b idx (env c) in (r, mkClient (GateClient.seq c) e)
  | Err e => (Err e, c)
  | Panic => (Panic, c)
  end.

(** the loop runs a second time only when the counter wraps to 0 *)
Definition doGenSequence : ST (Client E) Z := fun c =>
  let s := u64 (seq c + 1) in
  let s := if s =? 0 then u64 (s + 1) else s in
  (Ok s, mkClient s (env c)).

(** return v, codes.CodeToError(code) *)
Definition result {A} (code : Z) (v : A) : ST (Client E) A :=
  match CodeToError code with None => st_ret v | Some e => st_err e end.

Definition Bind (cid uid : Z) : ST (Client E) unit :=
  let! seq := doGenSequence in
  let! res := call seq (EncodeBindReq (malloc seq) seq cid uid) in
  let! code := st_lift (DecodeBindRes res) in
  result code tt.

Definition Unbind (uid : Z) : ST (Client E) unit :=
  let! seq := doGenSequence in
  let! res := call seq (EncodeUnbindReq (malloc seq) seq uid) in
  let! code := st_lift (DecodeUnbindRes res) in
  result code tt.

Definition GetIP (kind target : Z) : ST (Client E) (list Z) :=
  let! seq := doGenSequence in
  let! res := call seq (EncodeGetIPReq (malloc seq) seq kind target) in
  let! (code, ip) := st_lift (DecodeGetIPRes res) in
  result code ip.

Definition Stat (kind : Z) : ST (Client E) Z :=
  let! seq := doGenSequence in
  let! res := call seq (EncodeStatReq (malloc seq) seq kind) in
  let! (code, total) := st_lift (DecodeStatRes res) in
  result code (i64 total).

Definition IsOnline (kind target : Z) : ST (Client E) bool :=
  let! seq := doGenSequence in
  let! res := call seq (EncodeIsOnlineReq (malloc seq) seq kind target) in
  let! (code, isOnline) := st_lift (DecodeIsOnlineRes res) in
  result code isOnline.

Definition Disconnect (kind target : Z) (force : bool) : ST (Client E) unit :=
  let! seq := doGenSequence in
  let! res := call seq (EncodeDisconnectReq (malloc seq) seq kind target force) in
  let! code := st_lift (DecodeDisconnectRes res) in
  result code tt.

Definition DisconnectCurrent (kind target : Z) (token : Token) (force : bool)
    : ST (Client E) unit :=
  let! seq := doGenSequence in
  let! res := call seq (EncodeDisconnectCurrentReq (malloc seq) seq kind target force token) in
  let! code := st_lift (DecodeDisconnectRes res) in
  result code tt.

Definition Push (kind target : Z) (disconnect : bool) (token : Token) (message : mountable)
    (ack : bool) : ST (Client E) unit :=
  if ack then
    let! seq := doGenSequence in
    let! res := call seq (EncodePushReq (malloc seq) seq kind target disconnect token message) in
    let! code := st_lift (DecodePushRes res) in
    result code tt
  else send (EncodePushReq (malloc 0) 0 kind target disconnect token message) [target].

Definition Multicast (kind : Z) (targets : list Z) (disconnect : bool) (message : mountable)
    (ack : bool) : ST (Client E) Z :=
  if ack then
    let! seq := doGenSequence in
    let! res := call seq (EncodeMulticastReq (malloc seq) seq kind targets disconnect message) in
    let! (code, total) := st_lift (DecodeMulticastRes res) in
    result code (i64 total)
  else send (EncodeMulticastReq (malloc 0) 0 kind targets disconnect message) [] ;;; st_ret 0.

Definition Broadcast (kind : Z) (disconnect : bool) (message : mountable) (ack : bool)
    : ST (Client E) Z :=
  if ack then
    let! seq := doGenSequence in
    let! res := call seq (EncodeBroadcastReq (malloc seq) seq kind disconnect message) in
    let! (code, total) := st_lift (DecodeBroadcastRes res) in
    result code (i64 total)
  else send (EncodeBroadcastReq (malloc 0) 0 kind disconnect message) [] ;;; st_ret 0.

Definition Publish (channel : list Z) (disconnect : bool) (message : mountable) (ack : bool)
    : ST (Client E) Z :=
  if Z.shiftl 1 8 - 1 <? len channel then st_err ErrInvalidArgument else
  if ack then
    let! seq := doGenSequence in
    let! res := call seq (EncodePublishReq (malloc seq) seq channel disconnect message) in
    let! (code, total) := st_lift (DecodePublishRes res) in
    result code (i64 total)
  else send (EncodePublishReq (malloc 0) 0 channel disconnect message) [] ;;; st_ret 0.

Definition Subscribe (kind : Z) (targets channel : list Z) : ST (Client E) unit :=
  if Z.shiftl 1 8 - 1 <? len channel then st_err ErrInvalidArgument else
  let! seq := doGenSequence in
  let! res := call seq (EncodeSubscribeReq (malloc seq) seq kind targets channel) in
  let! code := st_lift (DecodeSubscribeRes res) in
  result code tt.

Definition Unsubscribe (kind : Z) (targets channel : list Z) : ST (Client E) unit :=
  if Z.shiftl 1 8 - 1 <? len channel then st_err ErrInvalidArgument else
  let! seq := doGenSequence in
  let! res := call seq (EncodeUnsubscribeReq (malloc seq) seq kind targets channel) in
  let! code := st_lift (DecodeUnsubscribeRes res) in
  result code tt.

Definition GetState : ST (Client E) Z :=
  let! seq := doGenSequence in
  let! res := call seq (EncodeGetStateReq (malloc seq) seq) in
  let! (code, state) := st_lift (DecodeGetStateRes res) in
  result code state.

Definition SetState (state : Z) : ST (Client E) unit :=
  let! seq := doGenSequence in
  let! res := call seq (EncodeSetStateReq (malloc seq) seq state) in
  let! code := st_lift (DecodeSetStateRes res) in
  result code tt.
End Client.
End GateClient.
