(* ===== verification/GateRpc.v ===== *)
(** What the transport server and client of a gate promise: requests are served
    in order, and calling a remote gate is calling the gate, up to the error
    codes of the wire. *)
From stdpp Require Import base numbers list.
From Stdlib Require Import ZArith Lia.
From S2P Require Import Prelude Binary Types Reader Writer Nocopy Packet Protocol Requests.
From S2P Require Import RequestCodec Net Responses ResponseCodec Robust Session Gate Server GateServer.
Import Protocol.Protocol.
Import Server.Server (Server, mkServer, provider, conn, chWrite, ConnClosed, ConnOpened).

Open Scope Z_scope.
Open Scope go_scope.

(** ** Calls and their results, independent of how they travel *)

Inductive reply :=
| Done
| Total (n : Z)
| Address (ip : list Z)
| Online (b : bool)
| State (s : Z).

Definition st_map {S A B} (f : A -> B) (m : ST S A) : ST S B := fun s =>
  match m s with
  | (Ok a, s') => (Ok (f a), s')
  | (Err e, s') => (Err e, s')
  | (Panic, s') => (Panic, s')
  end.

Abbreviation unit_call m := (st_map (fun _ : unit => Done) m).

(** The provider's method for a request; None for the routes of a node *)
Definition local {P} `{Provider P} (q : request) : option (ST P reply) :=
  match q with
  | RBind c u => Some (unit_call (provider_Bind c u))
  | RUnbind u => Some (unit_call (provider_Unbind u))
  | RGetIP k t => Some (st_map Address (provider_GetIP k t))
  | RStat k => Some (st_map Total (provider_Stat k))
  | RIsOnline k t => Some (st_map Online (provider_IsOnline k t))
  | RDisconnect k t f => Some (unit_call (provider_Disconnect k t f))
  | RDisconnectCurrent k t f tk =>
      Some (unit_call (if bool_decide (tk = zero_token) then provider_Disconnect k t f
                  else provider_DisconnectCurrent k t tk f))
  | RPush k t d tk m => Some (unit_call (provider_Push k t d tk m))
  | RMulticast k ts d m => Some (st_map Total (provider_Multicast k ts d m))
  | RBroadcast k d m => Some (st_map Total (provider_Broadcast k d m))
  | RPublish c d m => Some (st_map Total (provider_Publish c d m))
  | RSubscribe k ts c => Some (unit_call (provider_Subscribe k ts c))
  | RUnsubscribe k ts c => Some (unit_call (provider_Unsubscribe k ts c))
  | RGetState => Some (st_map State provider_GetState)
  | RSetState s => Some (unit_call (provider_SetState s))
  | _ => None
  end.

Definition total_of (r : reply + error) : Z :=
  match r with inl (Total n) => n | _ => 0 end.
Definition address_of (r : reply + error) : list Z :=
  match r with inl (Address ip) => ip | _ => [] end.
Definition online_of (r : reply + error) : bool :=
  match r with inl (Online b) => b | _ => false end.
Definition state_of (r : reply + error) : Z :=
  match r with inl (State s) => s | _ => 0 end.

(** The answer a request gets for a result of its call *)
Definition answer_of (q : request) (r : reply + error) : response :=
  let code := ErrorToCode (Server.err_of r) in
  match q with
  | RBind _ _ => SBind code
  | RUnbind _ => SUnbind code
  | RGetIP _ _ => SGetIP code (address_of r)
  | RStat _ => SStat code (u64 (total_of r))
  | RIsOnline _ _ => SIsOnline code (online_of r)
  | RDisconnect _ _ _ | RDisconnectCurrent _ _ _ _ => SDisconnect code
  | RPush _ _ _ _ _ => SPush code
  | RMulticast _ _ _ _ => SMulticast code (u64 (total_of r))
  | RBroadcast _ _ _ => SBroadcast code (u64 (total_of r))
  | RPublish _ _ _ => SPublish code (u64 (total_of r))
  | RSubscribe _ _ _ => SSubscribe code
  | RUnsubscribe _ _ _ => SUnsubscribe code
  | RGetState => SGetState code (state_of r)
  | RSetState _ => SSetState code
  | RHandshake _ _ => SHandshake code
  | RTrigger _ _ _ _ => STrigger code
  | RDeliver _ _ _ _ _ => SDeliver code
  end.

Definition as_sum {A} (r : res A) : option (A + error) :=
  match r with Ok a => Some (inl a) | Err e => Some (inr e) | Panic => None end.

(** The bytes of a request on the wire *)
Definition wire (seq : Z) (q : request) : list Z :=
  frame_of (header_of q) (route_of q) seq (body_of q).

Definition sendable (seq : Z) (q : request) : Prop :=
  inU 64 seq /\ request_ok q /\ 14 + len (body_of q) < 2 ^ 32.

Lemma read_wire seq q rest :
  sendable seq q -> ReadMessage (wire seq q ++ rest) = (Ok (false, route (route_of q), seq, wire seq q), rest).
Proof.
  intros (Hs & _ & Hlen). rewrite <- (wrapU_id 64 seq Hs) at 2.
  apply ReadMessage_frame_of; [apply header_data|lia].
Qed.

(** Every encoder of an answer succeeds on a fresh writer. *)
Lemma frame_total m w bs : fresh w -> appends m bs tt -> exists b, frame m w [] = Ok b.
Proof. intros Hw Hm. destruct (frame_single m w bs Hw Hm) as (b & ? & _). by exists b. Qed.

Ltac framed :=
  eapply frame_total; [assumption|]; eapply appends_bind; [apply appends_head|]; writes.

Lemma encode_res_total w seq p : fresh w -> exists b, encode_res w seq p = Ok b.
Proof.
  intros Hw. destruct p; cbn [encode_res].
  all: match goal with |- exists _, ?f _ _ _ = _ => unfold f | |- exists _, ?f _ _ _ _ = _ => unfold f end.
  all: cbv zeta; unfold Responses.nonzero_first, Responses.nonempty_first.
  all: repeat case_match; try discriminate.
  all: try framed.
Qed.

(** A frame read is a prefix of the stream, four bytes at least. *)
Lemma read_full_prefix n s bs s' :
  0 <= n -> read_full n s = (Ok bs, s') -> s = bs ++ s' /\ len bs = n.
Proof.
  unfold read_full. intros Hn. destruct (Z.leb_spec n (len s)); intros; simplify_eq.
  rewrite take_drop. split; [done|]. unfold len in *. rewrite length_take. lia.
Qed.

Lemma ReadMessage_prefix s hb r q data s' :
  ReadMessage s = (Ok (hb, r, q, data), s') ->
  s = data ++ s' /\ 4 <= len data <= 2 ^ 32.
Proof.
  unfold ReadMessage, st_bind. destruct (read_full defaultSizeBytes s) as [[hd| |] s1] eqn:E1;
    try done. apply read_full_prefix in E1 as [-> Hh]; [|done].
  destruct (_ =? 0); [done|]. set (n := u32 _).
  assert (inU 32 n) as [? ?] by (by apply wrapU_in).
  destruct (Z.ltb_spec n defaultSizeBytes); [done|].
  destruct (read_full (n - defaultSizeBytes) s1) as [[body| |] s2] eqn:E2; try done.
  apply read_full_prefix in E2 as [-> Hb]; [|lia].
  unfold st_lift. destruct (ParseBuffer (hd ++ body) []) as [[[? ?] ?]| |]; try done.
  unfold st_ret. intros. simplify_eq. rewrite app_assoc, len_app. unfold defaultSizeBytes in *.
  split; [done|lia].
Qed.

(** ** One request, one call *)

Section Serve.
Context {P : Type} `{Provider P}.
Context (queue : list nbuf -> option error) (malloc : list nbuf -> Writer.Writer.Writer).

Abbreviation init := (GateServer.init queue malloc).

(** What handling a request amounts to, given the result of the call *)
Definition handled (seq : Z) (q : request) (out : res reply * P) (c : Server.Conn)
    (y : res unit * Server P) : Prop :=
  match as_sum out.1 with
  | None => y = (Panic, mkServer out.2 c)
  | Some r =>
      if seq =? 0 then y.1 <> Panic /\ y.2 = mkServer out.2 c
      else y = Server.send queue malloc (fun w => encode_res w seq (answer_of q r))
                 (mkServer out.2 c)
  end.

Lemma handle_core {A} (m : ST P A) (f : A -> reply) seq q enc x :
  (forall r w, enc r w = encode_res w seq (answer_of q (match r with inl a => inl (f a) | inr e => inr e end))) ->
  handled seq q (st_map f m (provider x)) (conn x)
    ((let! r := st_try (Server.on_provider m) in
      Server.reply queue malloc seq (Server.err_of r) (enc r)) x).
Proof.
  intros He. unfold handled, st_map, st_bind, st_try, Server.on_provider.
  destruct (m (provider x)) as [[a|e|] p']; cbn [fst snd as_sum]; [| |done].
  all: unfold Server.reply; destruct (seq =? 0).
  - split; [done|done].
  - unfold Server.send, st_bind, Server.writer, st_lift. by rewrite He.
  - split; [done|done].
  - unfold Server.send, st_bind, Server.writer, st_lift. by rewrite He.
Qed.

Ltac decoded E :=
  lazymatch type of E with
  | res_bind ?d _ = _ => destruct d eqn:?; cbn [res_bind] in E; [|done|done]
  end;
  repeat match type of E with context [let '(_, _) := ?p in _] => destruct p end;
  injection E; intros; subst; clear E.

(** The routes a gate serves, besides the handshake *)
Definition gate_route (r : Route) : bool :=
  match r with Handshake | Trigger | Deliver => false | _ => true end.

(** A handler decodes the request, makes its call and answers. *)
Lemma handle_decoded r data seq q m x :
  gate_route r = true -> decode r data = Ok (seq, q) -> local q = Some m ->
  exists h, init (route r) = Some h /\ handled seq q (m (provider x)) (conn x) (h data x).
Proof.
  intros Hr E Hm.
  destruct r; try discriminate Hr; cbn [decode] in E; (eexists; split; [reflexivity|]).
  all: decoded E; cbn [local] in Hm; apply (inj Some) in Hm as <-.
  all: match goal with |- handled _ _ _ _ (?h _ _ _ _ _ _) => unfold h end.
  all: match goal with E : ?d = Ok _ |- _ =>
    unfold st_lift at 1; unfold st_bind at 1; rewrite E end.
  all: apply (handle_core _ _ _ _ (fun r w => _)); by intros [[]|] ?.
Qed.

(** A request that does not decode changes nothing. *)
Lemma handle_failed r data e x :
  gate_route r = true -> decode r data = Err e ->
  exists h, init (route r) = Some h /\ h data x = (Err e, x).
Proof.
  intros Hr E.
  destruct r; try discriminate Hr; cbn [decode] in E; (eexists; split; [reflexivity|]).
  all: match goal with |- ?h _ _ _ _ _ _ = _ => unfold h end.
  all: unfold st_lift at 1; unfold st_bind at 1.
  all: lazymatch type of E with res_bind ?d _ = _ => destruct d eqn:?; cbn [res_bind] in E end.
  all: repeat match type of E with context [let '(_, _) := ?p in _] => destruct p end.
  all: by simplify_eq.
Qed.

Lemma handle_request seq q m x :
  sendable seq q -> local (received q) = Some m ->
  exists h, init (route (route_of q)) = Some h /\
    handled seq q (m (provider x)) (conn x) (h (wire seq q) x).
Proof.
  intros (Hs & Hok & Hlen) Hm.
  destruct (handle_decoded (route_of q) (wire seq q) seq (received q) m x) as (h & Hi & Hh).
  - by destruct q.
  - by apply decode_frame.
  - done.
  - exists h. split; [done|]. by destruct q.
Qed.

(** ** A stream of requests *)

Context (now : list Z -> Z) (interrupted : list Z -> bool).

Abbreviation read_step := (Server.read_step init now interrupted).
Abbreviation read := (Server.read init now interrupted).

(** The calls of a list of requests, in order, and their results *)
Fixpoint performs (qs : list (Z * request)) : ST P (list (reply + error)) :=
  match qs with
  | [] => st_ret []
  | (_, q) :: qs' =>
      match local (received q) with
      | None => st_panic
      | Some m => let! r := st_try m in let! rs := performs qs' in st_ret (r :: rs)
      end
  end.

(** The buffers queued for them: one per request that wants an answer *)
Inductive answers : list (Z * request) -> list (reply + error) -> list nbuf -> Prop :=
| answers_nil : answers [] [] []
| answers_silent q qs r rs bs : answers qs rs bs -> answers ((0, q) :: qs) (r :: rs) bs
| answers_reply seq q qs r rs w b bs :
    seq <> 0 -> fresh w -> encode_res w seq (answer_of q r) = Ok b ->
    answers qs rs bs -> answers ((seq, q) :: qs) (r :: rs) (b :: bs).

Definition opened (c : Server.Conn) : Prop := Server.state c = ConnOpened.

(** *** Any stream at all *)

(** The provider keeps an invariant under which no call panics. *)
Definition sound (I : P -> Prop) : Prop :=
  forall q m, local q = Some m -> stable I m (fun _ => True).

Lemma send_safe enc (x : Server P) :
  enc (malloc (chWrite (conn x))) <> Panic ->
  (Server.send queue malloc enc x).1 <> Panic.
Proof.
  intros He. unfold Server.send, st_bind, Server.writer, st_lift.
  destruct (enc _); [|done|done]. unfold Server.on_conn, Server.Send.
  destruct (_ =? ConnClosed); [done|]. by destruct (queue _).
Qed.

Lemma init_route z h : init z = Some h -> exists r, z = route r.
Proof.
  unfold GateServer.init.
  repeat match goal with |- (if ?a =? ?b then _ else _) = _ -> _ =>
    destruct (Z.eqb_spec a b); [by eauto|] end. done.
Qed.

Lemma send_provider enc (x : Server P) :
  provider (Server.send queue malloc enc x).2 = provider x.
Proof.
  unfold Server.send, st_bind, Server.writer, st_lift.
  destruct (enc _); [|done|done]. unfold Server.on_conn, Server.Send.
  destruct (_ =? ConnClosed); [done|]. by destruct (queue _).
Qed.

Lemma handled_safe seq q out c y :
  (forall h, fresh (malloc h)) -> out.1 <> Panic ->
  handled seq q out c y -> y.1 <> Panic /\ provider y.2 = out.2.
Proof.
  intros Hw Ho. unfold handled. destruct (as_sum out.1) as [r|] eqn:E;
    [|by destruct out as [[] ?]].
  destruct (seq =? 0); [by intros [? ->]|]. intros ->. split; [|apply send_provider].
  apply send_safe. edestruct encode_res_total as [b ->]; done.
Qed.

Lemma decode_safe r data :
  Forall is_byte data -> len data <= 2 ^ 32 -> decode r data <> Panic.
Proof. intros. by apply decode_request_safe. Qed.

Lemma decode_local r data seq q :
  gate_route r = true -> decode r data = Ok (seq, q) -> exists m, local q = Some m.
Proof. intros Hr E. destruct r; try discriminate Hr; cbn [decode] in E; decoded E; by eexists. Qed.

Lemma handler_safe I z h data x :
  (forall h, fresh (malloc h)) -> sound I -> I (provider x) -> init z = Some h ->
  Forall is_byte data -> len data <= 2 ^ 32 ->
  (h data x).1 <> Panic /\ I (provider (h data x).2).
Proof.
  intros Hw Hp HI Hi Hb Hl. destruct (init_route z h Hi) as [r ->].
  pose proof (decode_safe r data Hb Hl) as Hd. destruct (gate_route r) eqn:Hr.
  - destruct (decode r data) as [[seq q]|e|] eqn:E; [| |done].
    + destruct (decode_local r data seq q Hr E) as [m Hm].
      destruct (handle_decoded r data seq q m x Hr E Hm) as (h' & Hi' & Hh).
      assert (h' = h) as -> by congruence. pose proof (Hp q m Hm (provider x) HI) as Hn.
      assert ((m (provider x)).1 <> Panic /\ I (m (provider x)).2) as [Hn1 HI']
        by (destruct (m (provider x)) as [[] ?]; naive_solver).
      destruct (handled_safe _ _ _ _ _ Hw Hn1 Hh) as [? ->]. done.
    + destruct (handle_failed r data e x Hr E) as (h' & Hi' & Hh).
      assert (h' = h) as -> by congruence. by rewrite Hh.
  - destruct r; try discriminate Hr; [|done|done]. cbn in Hi. apply (inj Some) in Hi as <-.
    unfold Server.handshake, st_bind, st_lift. cbn [decode] in Hd.
    destruct (Requests.DecodeHandshakeReq data) as [[[? ?] ?]| |]; [|done|done].
    assert (forall enc y, I (provider y) -> I (provider (Server.send queue malloc enc y).2)) as K
      by (intros; by rewrite send_provider).
    split; [apply send_safe|by apply K].
    destruct (encode_res_total (malloc (chWrite (conn x))) z (SHandshake OK))
      as [b Eb]; [done|]. cbn [encode_res] in Eb. cbn. by rewrite Eb.
Qed.

Lemma read_step_turn I s x :
  (forall h, fresh (malloc h)) -> sound I -> I (provider x) -> Forall is_byte s ->
  let '(t, s', y) := read_step s x in
  I (provider y) /\
  match t with
  | Server.Continue => exists pre, s = pre ++ s' /\ 4 <= len pre
  | Server.Return => True
  | Server.Crash => st_run ReadMessage s = Panic
  end.
Proof.
  intros Hw Hp HI Hb. unfold Server.read_step, st_run.
  destruct (Server.state (conn x) =? ConnClosed); [done|].
  destruct (ReadMessage s) as [rm s'] eqn:E. set (y := if interrupted s' then _ else x).
  assert (provider y = provider x) as Hy by (unfold y; by destruct (interrupted s')).
  destruct rm as [[[[hb r] q] data]| |]; [|by rewrite <- Hy in HI|by rewrite <- Hy in HI].
  apply ReadMessage_prefix in E as [-> Hl]. apply Forall_app in Hb as [Hb _].
  rewrite <- Hy in HI. destruct (Server.state (conn y) =? ConnClosed); [done|]. cbv zeta.
  assert (exists pre, data ++ s' = pre ++ s' /\ 4 <= len pre) as Hpre
    by (exists data; split; [done|lia]).
  destruct hb; [done|]. destruct (init r) as [h|] eqn:Hi; [|done].
  set (y' := mkServer _ _).
  destruct (handler_safe I r h data y' Hw Hp HI Hi Hb ltac:(lia)) as [Hs HI'].
  by destruct (h data y') as [[] ?].
Qed.

Lemma read_ends I fuel : forall s x,
  (forall h, fresh (malloc h)) -> sound I -> I (provider x) -> Forall is_byte s ->
  len s < Z.of_nat fuel ->
  exists t s' y, read fuel s x = Some (t, s', y) /\ I (provider y) /\
    (t = Server.Return \/
     t = Server.Crash /\ exists pre suf, s = pre ++ suf /\ st_run ReadMessage suf = Panic).
Proof.
  induction fuel as [|n IH]; intros s x Hw Hp HI Hb Hn; [pose proof (len_nonneg s); lia|].
  cbn [Server.read]. pose proof (read_step_turn I s x Hw Hp HI Hb) as Ht.
  destruct (read_step s x) as [[[] s'] y]; destruct Ht as [HI' Ht].
  - destruct Ht as (pre & -> & Hpre). rewrite len_app in Hn. apply Forall_app in Hb as [_ Hb].
    destruct (IH s' y Hw Hp HI' Hb ltac:(lia)) as (t & s2 & z & E & Hz & Hc). exists t, s2, z.
    split; [done|]. split; [done|]. destruct Hc as [|(? & p2 & suf & -> & ?)]; [by left|right].
    split; [done|]. exists (pre ++ p2), suf. by rewrite <- app_assoc.
  - eexists _, _, _. split; [done|]. split; [done|by left].
  - eexists _, _, _. split; [done|]. split; [done|right]. split; [done|]. by exists [], s.
Qed.

(** *** Well-formed requests *)

Hypothesis queue_takes : forall h, queue h = None.
Hypothesis malloc_fresh : forall h, fresh (malloc h).
Hypothesis undisturbed : forall s, interrupted s = false.

Lemma send_ok seq p (y : Server P) :
  opened (conn y) ->
  exists b y', Server.send queue malloc (fun w => encode_res w seq p) y = (Ok tt, y') /\
    encode_res (malloc (chWrite (conn y))) seq p = Ok b /\
    provider y' = provider y /\ opened (conn y') /\ chWrite (conn y') = chWrite (conn y) ++ [b].
Proof.
  intros Ho. destruct (encode_res_total (malloc (chWrite (conn y))) seq p) as [b Eb]; [done|].
  unfold Server.send, st_bind, Server.writer, st_lift. rewrite Eb.
  unfold Server.on_conn, Server.Send. rewrite Ho. change (ConnOpened =? ConnClosed) with false.
  rewrite queue_takes. by eexists _, _.
Qed.

(** One turn of the loop serves one request. *)
Lemma step_request seq q m x rest r p' :
  sendable seq q -> local (received q) = Some m -> opened (conn x) ->
  st_try m (provider x) = (Ok r, p') ->
  exists y, read_step (wire seq q ++ rest) x = (Server.Continue, rest, y) /\
    provider y = p' /\ opened (conn y) /\
    if seq =? 0 then chWrite (conn y) = chWrite (conn x)
    else exists b, chWrite (conn y) = chWrite (conn x) ++ [b] /\
           encode_res (malloc (chWrite (conn x))) seq (answer_of q r) = Ok b.
Proof.
  intros Hq Hm Ho Hr. unfold Server.read_step. rewrite Ho.
  change (ConnOpened =? ConnClosed) with false. rewrite read_wire by done.
  rewrite undisturbed, Ho. change (ConnOpened =? ConnClosed) with false. cbv iota zeta.
  set (x1 := mkServer (provider x) (Server.touch (now rest) (conn x))).
  assert (opened (conn x1)) as Ho1 by done.
  destruct (handle_request seq q m x1 Hq Hm) as (h & -> & Hh).
  unfold handled in Hh. unfold st_try in Hr.
  change (provider x1) with (provider x) in Hh.
  assert (exists o, m (provider x) = (o, p') /\ as_sum o = Some r) as (o & Em & Es)
    by (destruct (m (provider x)) as [[] ?]; simplify_eq; eauto).
  rewrite Em in Hh. cbn [fst snd] in Hh. rewrite Es in Hh.
  destruct (seq =? 0).
  - destruct Hh as [Hn Hy]. destruct (h (wire seq q) x1) as [[] y]; simpl in *; subst;
      try done; by eexists.
  - destruct (send_ok seq (answer_of q r) (mkServer p' (conn x1)))
      as (b & y & Es' & Eb & Hp & Hoy & Hc); [done|]. rewrite Hh, Es'. eauto 10.
Qed.

(** At the end of the stream the loop closes the connection. *)
Lemma step_end x :
  opened (conn x) ->
  read_step [] x = (Server.Return, [], mkServer (provider x) (Server.close (conn x))).
Proof.
  intros Ho. unfold Server.read_step. rewrite Ho.
  change (ConnOpened =? ConnClosed) with false. cbv iota.
  assert (ReadMessage [] = (Err EOF, [])) as -> by reflexivity.
  by rewrite undisturbed.
Qed.

Lemma close_opened c :
  opened c -> Server.state (Server.close c) = ConnClosed /\ chWrite (Server.close c) = chWrite c.
Proof. intros Ho. unfold Server.close. by rewrite Ho. Qed.

Lemma read_requests qs : forall x rs p',
  opened (conn x) -> Forall (fun '(seq, q) => sendable seq q) qs ->
  performs qs (provider x) = (Ok rs, p') ->
  exists y bs, read (S (length qs)) (concat (map (fun '(seq, q) => wire seq q) qs)) x
      = Some (Server.Return, [], y) /\
    provider y = p' /\ Server.state (conn y) = ConnClosed /\
    chWrite (conn y) = chWrite (conn x) ++ bs /\ answers qs rs bs.
Proof.
  induction qs as [|[seq q] qs IH]; intros x rs p' Ho Hqs Hp.
  - cbn [performs] in Hp. unfold st_ret in Hp. simplify_eq. destruct (close_opened (conn x) Ho).
    eexists _, []. cbn [length map concat Server.read]. rewrite step_end by done.
    split; [done|]. rewrite app_nil_r. repeat split; try done. constructor.
  - apply Forall_cons in Hqs as [Hq Hqs]. cbn [performs] in Hp.
    destruct (local (received q)) as [m|] eqn:Hm; [|done].
    unfold st_bind at 1 in Hp. destruct (st_try m (provider x)) as [[r| |] p1] eqn:Hr; try done.
    unfold st_bind in Hp. destruct (performs qs p1) as [[rs'| |] p2] eqn:Hrs; try done.
    unfold st_ret in Hp. simplify_eq.
    destruct (step_request seq q m x (concat (map (fun '(seq, q) => wire seq q) qs)) r p1)
      as (y & Ey & Hpy & Hoy & Hcy); try done.
    destruct (IH y rs' p') as (z & bs & Ez & ? & ? & Hcz & Ha); [done|done|by rewrite Hpy|].
    cbn [length]. change (read (S (S (length qs)))) with
      (fun s x => match read_step s x with (Server.Continue, s', x') => read (S (length qs)) s' x'
                  | r => Some r end). cbn [map concat]. cbv beta. rewrite Ey.
    destruct (Z.eqb_spec seq 0) as [->|Hne].
    + exists z, bs. rewrite <- Hcy. by repeat (split; [done|]); constructor.
    + destruct Hcy as (b & Hcy & Eb). exists z, (b :: bs).
      rewrite Hcz, Hcy, <- app_assoc. repeat (split; [done|]). by econstructor.
Qed.

(** ** A remote call over a connection without faults *)

Import GateClient (Client, mkClient).

(** The answer the client's reading goroutine finds for [seq] among the buffers
    queued since [n] *)
Definition awaited (seq : Z) (n : nat) (x : Server P) : res (list Z) :=
  match drop n (chWrite (conn x)) with
  | [] => Err ErrConnectionHanged
  | b :: _ =>
      match NocopyBuffer.Bytes b with
      | Ok bytes =>
          match st_run ReadMessage bytes with
          | Ok (_, _, s, data) => if s =? seq then Ok data else Err ErrConnectionHanged
          | Err e => Err e
          | Panic => Panic
          end
      | Err e => Err e
      | Panic => Panic
      end
  end.

(** client.Client's Call when the peer is this server: the buffer is written to
    the connection, served, and the answer read back *)
Definition direct_Call (seq : Z) (b : nbuf) : ST (Server P) (list Z) := fun x =>
  match NocopyBuffer.Bytes b with
  | Ok data =>
      match read_step data x with
      | (Server.Continue, _, x') => (awaited seq (length (chWrite (conn x))) x', x')
      | (_, _, x') => (Err ErrConnectionHanged, x')
      end
  | Err e => (Err e, x)
  | Panic => (Panic, x)
  end.

Definition direct_Send (b : nbuf) (idx : list Z) : ST (Server P) unit := fun x =>
  match NocopyBuffer.Bytes b with
  | Ok data => (Ok tt, (read_step data x).2)
  | Err e => (Err e, x)
  | Panic => (Panic, x)
  end.

(** The client's method for a request; [m] carries the message *)
Definition remote (wr : Z -> Writer.Writer.Writer) (q : request) (m : mountable)
    : option (ST (Client (Server P)) reply) :=
  match q with
  | RBind c u => Some (unit_call (GateClient.Bind direct_Call wr c u))
  | RUnbind u => Some (unit_call (GateClient.Unbind direct_Call wr u))
  | RGetIP k t => Some (st_map Address (GateClient.GetIP direct_Call wr k t))
  | RStat k => Some (st_map Total (GateClient.Stat direct_Call wr k))
  | RIsOnline k t => Some (st_map Online (GateClient.IsOnline direct_Call wr k t))
  | RDisconnect k t f => Some (unit_call (GateClient.Disconnect direct_Call wr k t f))
  | RDisconnectCurrent k t f tk =>
      Some (unit_call (GateClient.DisconnectCurrent direct_Call wr k t tk f))
  | RPush k t d tk _ => Some (unit_call (GateClient.Push direct_Call direct_Send wr k t d tk m true))
  | RMulticast k ts d _ =>
      Some (st_map Total (GateClient.Multicast direct_Call direct_Send wr k ts d m true))
  | RBroadcast k d _ =>
      Some (st_map Total (GateClient.Broadcast direct_Call direct_Send wr k d m true))
  | RPublish c d _ =>
      Some (st_map Total (GateClient.Publish direct_Call direct_Send wr c d m true))
  | RSubscribe k ts c => Some (unit_call (GateClient.Subscribe direct_Call wr k ts c))
  | RUnsubscribe k ts c => Some (unit_call (GateClient.Unsubscribe direct_Call wr k ts c))
  | RGetState => Some (st_map State (GateClient.GetState direct_Call wr))
  | RSetState s => Some (unit_call (GateClient.SetState direct_Call wr s))
  | _ => None
  end.

(** The results that survive the wire: the answers with a sound codec, totals
    of 64 bits, IPv4 addresses, states of one byte *)
Definition intact (q : request) (r : reply + error) : Prop :=
  match q, r with
  | RStat _, inl (Total n) => n = 0
  | RStat _, inr _ | RPublish _ _ _, inr _ => False
  | RPublish _ _ _, inl (Total n) => n <> 0 /\ inS 64 n
  | RMulticast _ _ _ _, inl (Total n) | RBroadcast _ _ _, inl (Total n) => inS 64 n
  | RGetIP _ _, inl (Address ip) => ip = [] \/ Net.Net.Long2IP (Net.Net.IP2Long ip) = ip
  | RGetState, inl (State s) => inU 8 s
  | _, _ => True
  end.

(** What the caller sees of a result: of the errors, ErrNotFoundSession alone
    keeps its identity. *)
Definition over_wire (r : reply + error) : res reply :=
  match r with
  | inl v => Ok v
  | inr e => match CodeToError (ErrorToCode (Some e)) with Some e' => Err e' | None => Ok Done end
  end.

Lemma code_range e : inU 16 (ErrorToCode e).
Proof. destruct e as [[]|]; split; by vm_compute. Qed.

Lemma u64_nonzero n : inS 64 n -> n <> 0 -> u64 n <> 0.
Proof.
  unfold inS, wrapU. intros Hn Hz E. change (2 ^ (64 - 1)) with 9223372036854775808 in Hn.
  apply Z.mod_divide in E as [k Hk]; [|done]. change (2 ^ 64) with 18446744073709551616 in Hk. nia.
Qed.

(** The result has the shape of the call. *)
Definition shaped (q : request) (r : reply + error) : Prop :=
  match r with
  | inr _ => True
  | inl v =>
      match q with
      | RStat _ | RMulticast _ _ _ _ | RBroadcast _ _ _ | RPublish _ _ _ => exists n, v = Total n
      | RGetIP _ _ => exists ip, v = Address ip
      | RIsOnline _ _ => exists b, v = Online b
      | RGetState => exists s, v = State s
      | _ => v = Done
      end
  end.

Lemma local_shaped q m p r p' :
  local q = Some m -> st_try m p = (Ok r, p') -> shaped q r.
Proof.
  intros Hm E. unfold st_try in E.
  destruct q; try done; cbn [local] in Hm; apply (inj Some) in Hm as <-; unfold st_map in E.
  all: repeat case_match; simplify_eq; simpl; eauto.
Qed.

Lemma answer_ok q r : intact q r -> shaped q r -> response_ok (answer_of q r).
Proof.
  intros Hi Hs. split; [destruct q; apply code_range|].
  destruct q; try done; destruct r as [v|e]; try done; cbn [shaped intact answer_of] in *.
  all: try (destruct Hs as [n ->]); cbn in *; try (by apply wrapU_in); try done.
  - by subst.
  - destruct Hi. split; [done|]. split; [by apply u64_nonzero|by apply wrapU_in].
Qed.

Lemma direct_ok seq q mm b x r p' :
  sendable seq q -> seq <> 0 -> local (received q) = Some mm -> opened (conn x) ->
  st_try mm (provider x) = (Ok r, p') -> response_ok (answer_of q r) ->
  NocopyBuffer.Bytes b = Ok (wire seq q) ->
  exists x', provider x' = p' /\ opened (conn x') /\
    direct_Call seq b x
    = (Ok (frame_of dataBit (res_route (answer_of q r)) seq (res_body (answer_of q r))), x').
Proof.
  intros Hq Hz Hm Ho Hr Ha Hb. unfold direct_Call. rewrite Hb.
  destruct (step_request seq q mm x [] r p') as (y & Ey & Hp & Hoy & Hc); [done..|].
  rewrite app_nil_r in Ey. rewrite Ey. rewrite (proj2 (Z.eqb_neq _ _) Hz) in Hc.
  destruct Hc as (b' & Hc & Eb). exists y. split; [done|]. split; [done|]. f_equal.
  unfold awaited. rewrite Hc, drop_app_length.
  destruct (encode_res_frame (malloc (chWrite (conn x))) seq (answer_of q r))
    as (b2 & Eb2 & Ebytes); [done|done|]. rewrite Eb in Eb2. simplify_eq. rewrite Ebytes.
  pose proof (read_res seq (answer_of q r) [] (proj1 Hq)) as Er. rewrite app_nil_r in Er.
  unfold st_run. rewrite Er. cbn [fst]. by rewrite Z.eqb_refl.
Qed.

Lemma sequence_ok {E} (c : Client E) :
  exists s, GateClient.doGenSequence c = (Ok s, mkClient s (GateClient.env c)) /\
    inU 64 s /\ s <> 0.
Proof.
  unfold GateClient.doGenSequence. destruct (Z.eqb_spec (u64 (GateClient.seq c + 1)) 0) as [->|Hn].
  - eexists. split; [done|]. by vm_compute.
  - eexists. split; [done|]. split; [by apply wrapU_in|done].
Qed.

(** The channel names the client lets through *)
Definition named (q : request) : Prop :=
  match q with RSubscribe _ _ c | RUnsubscribe _ _ c => len c <= 255 | _ => True end.

Lemma call_returns {A} (enc : Z -> res nbuf) (k : list Z -> ST (Client (Server P)) A) cl s b F x' :
  GateClient.doGenSequence cl = (Ok s, mkClient s (GateClient.env cl)) ->
  enc s = Ok b -> direct_Call s b (GateClient.env cl) = (Ok F, x') ->
  (let! seq := GateClient.doGenSequence in
   let! res := GateClient.call direct_Call seq (enc seq) in k res) cl = k F (mkClient s x').
Proof.
  intros Es Eb Ec. unfold st_bind at 1 2, GateClient.call. rewrite Es, Eb.
  cbn [GateClient.env GateClient.seq]. by rewrite Ec.
Qed.

Lemma received_result {A E} (f : A -> reply) r v (st : Client E) :
  (forall y, r = inl y -> f v = y) ->
  (let (o, s') := GateClient.result (ErrorToCode (Server.err_of r)) v st in
   match o with Ok a => (Ok (f a), s') | Err e => (Err e, s') | Panic => (Panic, s') end)
  = (over_wire r, st).
Proof.
  intros Hv. destruct r as [y|e]; [|by destruct e]. cbn. by rewrite (Hv y).
Qed.

(** A remote call returns what the call at the gate returns, and the gate is
    left as that call leaves it. *)
Lemma remote_ok wr q m mm rm cl r p' :
  (forall n, fresh (wr n)) -> carries q m -> request_ok q -> 14 + len (body_of q) < 2 ^ 32 ->
  named q -> opened (conn (GateClient.env cl)) ->
  local (received q) = Some mm -> remote wr q m = Some rm ->
  st_try mm (provider (GateClient.env cl)) = (Ok r, p') -> intact q r ->
  exists s x', rm cl = (over_wire r, mkClient s x') /\ provider x' = p' /\ opened (conn x').
Proof.
  intros Hwr Hm Hok Hlen Hn Ho Hloc Hrem Hr Hi.
  assert (shaped q r) as Hsh.
  { pose proof (local_shaped _ _ _ _ _ Hloc Hr). by destruct q. }
  pose proof (answer_ok q r Hi Hsh) as Ha.
  destruct (sequence_ok cl) as (s & Es & Hs & Hz).
  destruct (encode_frame (wr s) s q m (Hwr s) Hm) as (b & Eb & Ebytes).
  destruct (direct_ok s q mm b (GateClient.env cl) r p') as (x' & Hp & Hox & Ec); [done..|].
  pose proof (decode_res_frame s (answer_of q r) Ha) as Ed.
  exists s, x'. split; [|done]. clear Ha Ebytes Hr Hp Hox.
  generalize dependent (frame_of dataBit (res_route (answer_of q r)) s (res_body (answer_of q r))).
  intros F Ec Ed.
  destruct q; try done; cbn [remote] in Hrem; apply (inj Some) in Hrem as <-.
  all: unfold st_map, GateClient.Bind, GateClient.Unbind, GateClient.GetIP, GateClient.Stat,
    GateClient.IsOnline, GateClient.Disconnect, GateClient.DisconnectCurrent, GateClient.Push,
    GateClient.Multicast, GateClient.Broadcast, GateClient.Publish, GateClient.Subscribe,
    GateClient.Unsubscribe, GateClient.GetState, GateClient.SetState.
  all: change (Z.shiftl 1 8 - 1) with 255 in *;
    try rewrite (proj2 (Z.ltb_ge 255 _)) by (cbn [request_ok named] in *; lia).
  all: cbn [encode] in Eb; erewrite call_returns; [|exact Es|exact Eb|exact Ec].
  all: clear Eb Ec Es; cbn [answer_of res_route decode_res res_received] in Ed.
  all: unfold st_bind, st_lift;
    match type of Ed with res_bind ?d _ = _ =>
      destruct d as [v|e|]; cbn [res_bind] in Ed; [|discriminate Ed|discriminate Ed] end.
  all: repeat match type of Ed with context [let '(_, _) := ?p in _] => destruct p end.
  all: injection Ed; intros; subst; apply received_result; intros y ->.
  all: cbn [shaped intact] in Hsh, Hi; try (destruct Hsh as [? ->]); subst; try done.
  all: change (ErrorToCode (Server.err_of (inl _)) =? OK) with true; cbn [andb total_of address_of].
  - destruct Hi as [->|Hi]; [done|]. destruct x; [done|]. by rewrite Hi.
  - by rewrite wrapS_wrapU, wrapS_id.
  - by rewrite wrapS_wrapU, wrapS_id.
  - destruct Hi. by rewrite wrapS_wrapU, wrapS_id.
Qed.
End Serve.
