(* ===== verification/GateSafe.v ===== *)
(** The gate keeps its invariant and never panics, whichever provider method is
    called: with it, a gate's transport server survives whatever a peer sends
    it, except the frames that break the frame reader. *)
From stdpp Require Import base numbers list gmap.
From Stdlib Require Import ZArith Lia.
From S2P Require Import Prelude Binary Types Writer Nocopy Packet Protocol RequestCodec.
From S2P Require Import Session SessionOk SessionClaims Ownership Gate GateOk.
From S2P Require Import Server GateServer GateRpc.
Import Session.Session.

Open Scope Z_scope.
Open Scope go_scope.

Abbreviation any := (fun _ => True).

(** ** The session table *)

Section SessionSafe.
Context (answer : list call -> call -> option error).

Lemma stable_same {A} (m : ST World A) :
  (forall w, wf w -> (m w).1 <> Panic) -> (forall w, same_table w (m w).2) -> stable wf m any.
Proof.
  intros Hp Ht w Hw. specialize (Hp w Hw). specialize (Ht w).
  destruct (m w) as [[a|e|] w']; simpl in *; [split; [done|]| |done];
    by eapply wf_same_table.
Qed.

Lemma stable_conn kind target {A} (k : cref -> ST World A) Q :
  (forall c, stable wf (k c) Q) -> stable wf (let! c := conn_ kind target in k c) Q.
Proof.
  intros Hk w Hw. unfold st_bind, conn_.
  destruct (lookup_conn (sess w) kind target) eqn:E; [by apply Hk|done|].
  unfold lookup_conn in E. repeat case_match; done.
Qed.

Lemma stable_object kind target {A} (k : cref -> conn -> ST World A) Q :
  (forall c o, stable wf (k c o) Q) ->
  stable wf (let! c := conn_ kind target in let! o := deref c in k c o) Q.
Proof.
  intros Hk w Hw. unfold st_bind, conn_.
  destruct (lookup_conn (sess w) kind target) eqn:E; [|done|].
  - destruct (lookup_conn_heap w kind target a Hw E) as [o Ho]. unfold deref. rewrite Ho.
    by apply Hk.
  - unfold lookup_conn in E. repeat case_match; done.
Qed.

Lemma stable_get {A} (f : Session -> A) : stable wf (get f) any.
Proof. by intros w. Qed.

Lemma stable_invoke x : stable wf (invoke answer x) any.
Proof.
  apply stable_same; [|intros w; apply (invoke_table answer)]. intros w _. unfold invoke. by destruct (answer _ _).
Qed.

Lemma stable_index kind {A} (k : gmap Z cref -> ST World A) Q :
  (forall m, stable wf (k m) Q) ->
  stable wf (let! m := (fun w => (index (sess w) kind, w)) in k m) Q.
Proof.
  intros Hk w Hw. unfold st_bind. destruct (index (sess w) kind) eqn:E; [by apply Hk|done|].
  unfold index in E. repeat case_match; done.
Qed.

Lemma stable_fan_out d m cs : stable wf (fan_out answer d m cs) any.
Proof.
  apply stable_same; [|intros w; apply (fan_out_table answer)]. intros w _. unfold fan_out.
  destruct (push_all answer d m cs w) as [[n [e|]] w']; [by destruct (n =? 0)|done].
Qed.

Lemma stable_Bind cid uid : uid <> 0 -> stable wf (Bind cid uid) any.
Proof.
  intros Hu w Hw. destruct (conns (sess w) !! cid) as [c|] eqn:Hc; [|by rewrite Bind_missing].
  destruct (wf_conn_inv w _ _ Hw Hc) as (o & Ho & <- & _).
  rewrite (Bind_eq w _ uid c o) by done. destruct (UID o =? uid); [done|].
  split; [done|by apply wf_after_bind].
Qed.

Lemma stable_BindToken cid uid token :
  inU 64 (Generation token) -> stable wf (BindToken cid uid token) any.
Proof.
  intros Hg w Hw. pose proof (run_wf answer w (OBindToken cid uid token) Hw Hg) as Hr.
  cbn [run] in Hr. unfold effect in Hr.
  destruct (BindToken cid uid token w) as [[a|e|] w'] eqn:E; try done. exfalso.
  revert E. unfold BindToken.
  destruct (Z.leb_spec uid 0), (Z.eqb_spec (Types.UID token) uid),
    (Z.eqb_spec (Generation token) 0); try done. cbn [orb negb].
  destruct (conns (sess w) !! cid) as [c|] eqn:Hc.
  - destruct (wf_conn_inv w _ _ Hw Hc) as (o & Ho & <- & _). intros E.
    pose proof (BindToken_eq w (ID o) uid token c o Hw Hc Ho) as E'. unfold BindToken in E'.
    rewrite (proj2 (Z.leb_gt _ _)), (proj2 (Z.eqb_eq _ _)), (proj2 (Z.eqb_neq _ _)) in E' by done.
    cbn [orb negb] in E'. rewrite E' in E by done. done.
  - unfold st_bind, conn_, lookup_conn. simpl. by rewrite Hc.
Qed.

Lemma stable_Unbind uid : stable wf (Unbind uid) any.
Proof.
  intros w Hw. destruct (users (sess w) !! uid) as [c|] eqn:Hc; [|by rewrite Unbind_missing].
  destruct (wf_users w Hw _ _ Hc) as (_ & o & Ho & _).
  rewrite (Unbind_eq w uid c o) by done. split; [done|by apply wf_after_unbind].
Qed.

Lemma stable_Subscribe kind targets ch : stable wf (Subscribe kind targets ch) any.
Proof.
  intros w Hw. destruct (Subscribe_ok w kind targets ch Hw) as (r & w' & -> & Hr & ? & _).
  by destruct r.
Qed.

Lemma stable_Unsubscribe kind targets ch : stable wf (Unsubscribe kind targets ch) any.
Proof.
  intros w Hw. destruct (Unsubscribe_ok w kind targets ch Hw) as (r & w' & -> & Hr & ? & _).
  by destruct r.
Qed.

Lemma stable_Token kind target : stable wf (Token_ kind target) any.
Proof. apply stable_object. intros. apply stable_get. Qed.

Lemma stable_IsCurrent t : stable wf (IsCurrent t) any.
Proof.
  intros w Hw. unfold IsCurrent. destruct (_ || _); [done|]. unfold st_bind, get.
  destruct (users (sess w) !! Types.UID t) as [c|] eqn:E; [|done].
  destruct (wf_users w Hw _ _ E) as (_ & o & Ho & _). unfold deref. by rewrite Ho.
Qed.

End SessionSafe.

#[export] Hint Resolve stable_conn stable_object stable_get stable_invoke stable_index
  stable_fan_out stable_Bind stable_BindToken stable_Unbind stable_Subscribe stable_Unsubscribe
  stable_Token stable_IsCurrent : stable.

(** ** The gate *)

Section GateSafe.
Context {S : Type} `{OwnershipLaws S}.
Context (ctx : option error) (bindLoc unbindLoc : Z -> option error).
Context (answer : list call -> call -> option error).

(** The session table is well formed and so is the store, if there is one. *)
Definition gate_inv (stored : bool) (g : Gate.Gate S) : Prop :=
  wf (Gate.world g) /\
  match Gate.store g with Some s => stored = true /\ store_inv s | None => stored = false end.

Lemma stable_on_session {A} b (m : ST World A) Q :
  stable wf m Q -> stable (gate_inv b) (Gate.on_session m) Q.
Proof.
  intros Hm g [Hw Hs]. unfold Gate.on_session. specialize (Hm _ Hw).
  destruct (m (Gate.world g)) as [[a|e|] w]; [|done|done]. by destruct Hm.
Qed.

Lemma stable_on_store {A} (m : ST S A) Q :
  stable store_inv m Q -> stable (gate_inv true) (Gate.on_store m) Q.
Proof.
  intros Hm g [Hw Hs]. unfold Gate.on_store. destruct (Gate.store g) as [s|]; [|done].
  destruct Hs as [_ Hs]. specialize (Hm _ Hs).
  destruct (m s) as [[a|e|] s']; [|done|done]. by destruct Hm.
Qed.

Lemma stable_has_store {A} b (k : bool -> ST (Gate.Gate S) A) Q :
  stable (gate_inv b) (k b) Q -> stable (gate_inv b) (let! x := Gate.has_store in k x) Q.
Proof.
  intros Hk g Hg. unfold st_bind, Gate.has_store.
  replace (match Gate.store g with None => false | Some _ => true end) with b; [by apply Hk|].
  destruct Hg as [_ Hs]. destruct (Gate.store g); [by destruct Hs|done].
Qed.

Lemma stable_emit b x : stable (gate_inv b) (Gate.emit x) any.
Proof. by intros g Hg. Qed.

Lemma stable_Acquire uid :
  stable store_inv (Acquire ctx uid) (fun t => inU 64 (Generation t) /\ 0 < uid).
Proof.
  intros s Hs. destruct (store_no_panic ctx uid zero_token s) as (Hp & _).
  destruct (Acquire ctx uid s) as [[t|e|] s'] eqn:E; [| |done].
  - destruct (Acquire_ok _ _ _ _ _ Hs E) as (? & ? & _ & ? & ? & _).
    split; [|done]. unfold inU. lia.
  - by apply Acquire_err in E as ->.
Qed.

Lemma stable_Release uid t : stable store_inv (Release ctx uid t) any.
Proof.
  intros s Hs. destruct (store_no_panic ctx uid t s) as (_ & _ & Hp).
  destruct (Release ctx uid t s) as [[b|e|] s'] eqn:E; [| |done].
  - by destruct (Release_ok _ _ _ _ _ _ Hs E).
  - by apply Release_err in E as ->.
Qed.

Lemma stable_Current uid : stable store_inv (Current ctx uid) any.
Proof.
  intros s Hs. destruct (store_no_panic ctx uid zero_token s) as (_ & Hp & _).
  destruct (Current ctx uid s) as [[b|e|] s'] eqn:E; [| |done].
  - by destruct (Current_ok _ _ _ _ _ E) as [-> _].
  - by apply Current_err in E as ->.
Qed.

Lemma stable_try_any {T A} (I : T -> Prop) (m : ST T A) : stable I m any -> stable I (st_try m) any.
Proof. intros Hm. eapply stable_weaken; [|by apply stable_try]. done. Qed.

(** Walk through a call: each step is known to be stable. *)
Ltac stable_step :=
  cbv beta zeta;
  lazymatch goal with
  | |- stable _ (st_ret _) _ => by apply stable_ret
  | |- stable _ (st_err _) _ => apply stable_err
  | |- stable _ (st_raise _) _ => apply stable_raise; by repeat case_match
  | |- stable _ (let! _ := Gate.has_store in _) _ => apply stable_has_store
  | |- stable _ (let! c := conn_ _ _ in let! o := deref c in _) _ =>
      apply stable_object; intros ? ?
  | |- stable _ (let! c := conn_ _ _ in _) _ => apply stable_conn; intros ?
  | |- stable _ (st_bind (fun w => (index _ _, w)) _) _ => apply stable_index; intros ?
  | |- stable _ (st_bind (Gate.on_store (Acquire _ _)) _) _ =>
      eapply stable_bind; [apply stable_on_store, stable_Acquire|intros ? [? ?]]
  | |- stable _ (st_bind _ _) _ => apply (stable_bind _ _ _ any); [|intros ? _]
  | |- stable _ (st_try _) _ => apply stable_try_any
  | |- stable _ (Gate.on_session _) _ => apply stable_on_session
  | |- stable _ (Gate.on_store _) _ => apply stable_on_store
  | |- stable _ (if ?b then _ else _) _ => destruct b eqn:?; try discriminate
  | |- stable _ (let '(_, _) := ?p in _) _ => destruct p
  | |- stable _ (match ?x with _ => _ end) _ => destruct x
  | |- _ => solve [auto with stable]
  end.
Ltac stables := repeat stable_step.

#[local] Hint Resolve stable_emit stable_Acquire stable_Release stable_Current : stable.

Lemma stable_bindSession b cid uid :
  uid <> 0 -> stable (gate_inv b) (Gate.bindSession ctx cid uid) any.
Proof. intros Hu. unfold Gate.bindSession. apply stable_has_store. destruct b; stables. Qed.

Lemma stable_releaseSession b token : stable (gate_inv b) (Gate.releaseSession ctx token) any.
Proof. unfold Gate.releaseSession. apply stable_has_store. destruct b; stables. Qed.

Lemma stable_check_owner b token : stable (gate_inv b) (Gate.check_owner ctx token) any.
Proof. unfold Gate.check_owner. apply stable_has_store. destruct b; stables. Qed.

Lemma stable_bindGate b cid uid : stable (gate_inv b) (Gate.bindGate bindLoc cid uid) any.
Proof. unfold Gate.bindGate, Gate.trigger. stables. Qed.

Lemma stable_unbindGate b cid uid : stable (gate_inv b) (Gate.unbindGate unbindLoc cid uid) any.
Proof. unfold Gate.unbindGate. stables. Qed.

#[local] Hint Resolve stable_bindSession stable_releaseSession stable_check_owner stable_bindGate
  stable_unbindGate : stable.

Lemma stable_GateBind b cid uid : stable (gate_inv b) (Gate.Bind ctx bindLoc cid uid) any.
Proof.
  unfold Gate.Bind. destruct (_ || _) eqn:E; [stables|].
  apply orb_false_iff in E as [_ E]. apply Z.leb_gt in E.
  assert (uid <> 0) by lia. stables.
Qed.

Lemma stable_GateUnbind b uid : stable (gate_inv b) (Gate.Unbind ctx unbindLoc uid) any.
Proof. unfold Gate.Unbind. stables. Qed.

Lemma stable_map {T A B} (I : T -> Prop) (f : A -> B) (m : ST T A) :
  stable I m any -> stable I (st_map f m) any.
Proof. intros Hm s Hs. unfold st_map. specialize (Hm s Hs). by destruct (m s) as [[]]. Qed.

Context (sched : list cref -> list cref) (remoteIP : cref -> res (list Z)).
Hypothesis remote_safe : forall c, remoteIP c <> Panic.

Lemma gate_sound b :
  @sound _ (gate_provider ctx bindLoc unbindLoc answer sched remoteIP) (gate_inv b).
Proof.
  intros q m Hm. destruct q; try done; cbn in Hm; apply (inj Some) in Hm as <-; apply stable_map.
  - apply stable_GateBind.
  - apply stable_GateUnbind.
  - apply stable_on_session, stable_conn. intros c. apply stable_lift.
    specialize (remote_safe c). by destruct (remoteIP c).
  - unfold Gate.Stat, Stat. stables.
  - unfold Gate.IsOnline, Has. stables.
  - unfold Gate.Disconnect, Close. stables.
  - unfold Gate.Disconnect, Close, Gate.DisconnectCurrent, CloseCurrent. stables.
  - unfold Gate.Push, SendCurrent, Push. stables.
  - unfold Gate.Multicast, Multicast. stables.
  - unfold Gate.Broadcast, Broadcast. stables.
  - unfold Gate.Publish, Publish. stables.
  - unfold Gate.Subscribe. stables.
  - unfold Gate.Unsubscribe. stables.
  - by intros g.
  - by intros g.
Qed.
End GateSafe.
