(* ===== verification/RpcClaims.v ===== *)
(** What the transport between nodes and gates promises, with a gate behind the
    server as the running example. *)
From stdpp Require Import base numbers list gmap.
From Stdlib Require Import ZArith Lia.
From S2P Require Import Prelude Binary Types Writer Nocopy Packet Protocol RequestCodec.
From S2P Require Import ResponseCodec Session SessionOk SessionClaims Ownership Gate GateOk.
From S2P Require Import Server GateServer GateRpc GateSafe.
Import Server.Server (Server, mkServer, provider, conn, chWrite, ConnClosed).

Open Scope Z_scope.
Open Scope go_scope.


(** Requests are served in order: from a stream of well-formed requests the
    reading goroutine makes exactly their calls on the provider, one after the
    other, queues exactly one answer for each request with a sequence number
    and none for the others, and closes the connection at the end of the
    stream; one turn per request and one more are enough. *)
Theorem serves_in_order {P} `{Provider P} (queue : list nbuf -> option error)
    (malloc : list nbuf -> Writer.Writer.Writer) (now : list Z -> Z) (interrupted : list Z -> bool)
    (qs : list (Z * request)) (x : Server P) (rs : list (reply + error)) (p' : P)
    (Hq : forall h, queue h = None) (Hm : forall h, fresh (malloc h))
    (Hi : forall s, interrupted s = false) (Ho : opened (conn x))
    (Hqs : Forall (fun '(seq, q) => sendable seq q) qs)
    (Hp : performs qs (provider x) = (Ok rs, p')) :
  exists y bs,
    Server.read (GateServer.init queue malloc) now interrupted (S (length qs))
      (concat (map (fun '(seq, q) => wire seq q) qs)) x = Some (Server.Return, [], y) /\
    provider y = p' /\ Server.state (conn y) = ConnClosed /\
    chWrite (conn y) = chWrite (conn x) ++ bs /\ answers qs rs bs.
Proof. by apply read_requests. Qed.


(** ** Witnesses: a gate with two connections and an empty store *)

Definition gate_as_provider : Provider (Gate.Gate MemoryOwnershipStore.MemoryOwnershipStore) :=
  gate_provider None (fun _ => None) (fun _ => None) accepting (fun l => l) (fun _ => Ok []).

Definition queue0 : list nbuf -> option error := fun _ => None.
Definition malloc0 : list nbuf -> Writer.Writer.Writer :=
  fun _ => Writer.Writer.NewWriterWithCapacity [16%nat].
Definition wr0 : Z -> Writer.Writer.Writer := fun _ => Writer.Writer.NewWriterWithCapacity [16%nat].
Definition server0 : Server (Gate.Gate MemoryOwnershipStore.MemoryOwnershipStore) :=
  mkServer gate0 (Server.newConn 0).

Lemma fresh0 : fresh (Writer.Writer.NewWriterWithCapacity [16%nat]).
Proof. split; [split|]; simpl; lia. Qed.


(** The same request on the wire, then one that wants no answer *)
Definition stream0 : list (Z * request) :=
  [(5, RBind 7 9); (0, RSubscribe Kind.User [9] [104; 105])].

Lemma serves_in_order_witness :
  let '(r, p') := @performs _ gate_as_provider stream0 gate0 in
  exists rs y bs, r = Ok rs /\
    Server.read (@GateServer.init _ gate_as_provider queue0 malloc0) (fun _ => 0) (fun _ => false) 3
      (concat (map (fun '(seq, q) => wire seq q) stream0)) server0 = Some (Server.Return, [], y) /\
    provider y = p' /\ Server.state (conn y) = ConnClosed /\
    chWrite (conn y) = [] ++ bs /\ answers stream0 rs bs.
Proof.
  destruct (@performs _ gate_as_provider stream0 gate0) as [r p'] eqn:E.
  assert (exists rs, r = Ok rs) as [rs ->].
  { assert ((@performs _ gate_as_provider stream0 gate0).1 = Ok [inl Done; inl Done]) as E1
      by (vm_compute; reflexivity). rewrite E in E1. by eexists. }
  destruct (@serves_in_order _ gate_as_provider queue0 malloc0 (fun _ => 0) (fun _ => false)
    stream0 server0 rs p') as (y & bs & Hy).
  - done.
  - intros ?. apply fresh0.
  - done.
  - done.
  - repeat constructor; unfold inU, inS; vm_compute; congruence.
  - exact E.
  - exists rs, y, bs. split; [done|]. exact Hy.
Defined.

