(* ===== verification/Call.v ===== *)
(** internal/transporter/internal/client: a pending call (message.go), the table
    of calls that wait for an answer (pending.go), and the goroutines that share
    them: the callers (Client.Call in client.go, the handshake in conn.go), the
    writing goroutine (doWrite) and the reading one (read).

    Every access to shared memory (a compare-and-swap, a locked map operation, a
    channel operation) is one step of one goroutine; [exec t a s] is the step of
    goroutine [t] with outcome [a].  Goroutines come and go with reconnections,
    so there may be any number of each kind. *)
From stdpp Require Import base numbers list gmap gmultiset.
From Stdlib Require Import ZArith Lia.
From S2P Require Import Prelude.

Open Scope Z_scope.

(** ** pending.go *)

Module Pending.

(** Each partition is a map under its own lock; calls are references. *)
Abbreviation pending := (list (gmap Z nat)).

Definition newPending : pending := replicate 20 ∅.

(** p.partitions[seq%20] *)
Definition partition (p : pending) (seq : Z) : gmap Z nat :=
  default ∅ (p !! Z.to_nat (seq mod Z.of_nat (length p))).

Definition set_partition (p : pending) (seq : Z) (m : gmap Z nat) : pending :=
  <[Z.to_nat (seq mod Z.of_nat (length p)) := m]> p.

Definition extract (p : pending) (seq : Z) : option nat * pending :=
  match partition p seq !! seq with
  | Some call => (Some call, set_partition p seq (delete seq (partition p seq)))
  | None => (None, p)
  end.

Definition store (p : pending) (seq : Z) (call : nat) : pending :=
  set_partition p seq (<[seq := call]> (partition p seq)).

Definition delete (p : pending) (seq : Z) : pending :=
  set_partition p seq (base.delete seq (partition p seq)).

(** What the table holds for a sequence number *)
Definition find (p : pending) (seq : Z) : option nat := partition p seq !! seq.

Definition wf (p : pending) : Prop := length p = 20%nat.

Lemma wf_newPending : wf newPending.
Proof. apply length_replicate. Qed.

Lemma wf_set p seq m : wf p -> wf (set_partition p seq m).
Proof. unfold wf, set_partition. by rewrite length_insert. Qed.

Lemma partition_set p seq seq' m :
  wf p ->
  partition (set_partition p seq m) seq'
  = if decide (seq' mod 20 = seq mod 20) then m else partition p seq'.
Proof.
  intros Hp. unfold partition, set_partition. rewrite length_insert, Hp.
  change (Z.of_nat 20) with 20. pose proof (Z.mod_pos_bound seq 20).
  pose proof (Z.mod_pos_bound seq' 20). destruct (decide _) as [->|Hn].
  - rewrite list_lookup_insert_eq; [done|]. unfold wf in Hp. lia.
  - rewrite list_lookup_insert_ne by lia. done.
Qed.

Lemma partition_mod p seq seq' :
  wf p -> seq' mod 20 = seq mod 20 -> partition p seq' = partition p seq.
Proof. intros Hp E. unfold partition. rewrite Hp. change (Z.of_nat 20) with 20. by rewrite E. Qed.

(** The partitions behave as one map. *)
Lemma find_store p seq seq' c :
  wf p -> find (store p seq c) seq' = if decide (seq' = seq) then Some c else find p seq'.
Proof.
  intros Hp. unfold find, store. rewrite partition_set by done.
  destruct (decide (seq' = seq)) as [->|Hn].
  - rewrite decide_True by done. by rewrite lookup_insert_eq.
  - destruct (decide _) as [E|]; [|done]. rewrite lookup_insert_ne by done.
    by rewrite (partition_mod p seq seq').
Qed.

Lemma find_delete p seq seq' :
  wf p -> find (delete p seq) seq' = if decide (seq' = seq) then None else find p seq'.
Proof.
  intros Hp. unfold find, delete. rewrite partition_set by done.
  destruct (decide (seq' = seq)) as [->|Hn].
  - rewrite decide_True by done. by rewrite lookup_delete_eq.
  - destruct (decide _) as [E|]; [|done]. rewrite lookup_delete_ne by done.
    by rewrite (partition_mod p seq seq').
Qed.

Lemma extract_eq p seq :
  wf p -> extract p seq = (find p seq, if find p seq then delete p seq else p).
Proof. intros Hp. unfold extract, find, delete. by destruct (partition p seq !! seq). Qed.

Lemma find_new seq : find newPending seq = None.
Proof.
  unfold find, partition, newPending.
  destruct (replicate 20 (∅ : gmap Z nat) !! _) as [m|] eqn:E; [|reflexivity].
  apply lookup_replicate in E as [-> _]. reflexivity.
Qed.

Lemma wf_store p seq c : wf p -> wf (store p seq c).
Proof. apply wf_set. Qed.

Lemma wf_delete p seq : wf p -> wf (delete p seq).
Proof. apply wf_set. Qed.
End Pending.

(** ** message.go *)

Inductive callst := statePending | stateSent | stateCanceled | stateDelivered | stateFailed.

#[export] Instance callst_eq_dec : EqDecision callst.
Proof. solve_decision. Defined.

(** make(chan buffer.Buffer, 1); a buffer is a reference *)
Inductive chan := Open (content : option nat) | Closed.

Record callState := mkCall { seq : Z; call : chan; state : callst }.

Definition newCallState (seq : Z) : callState := mkCall seq (Open None) statePending.

(** ** The goroutines *)

(** What Call returns: the answer, or one of its errors *)
Inductive outcome := Got (b : nat) | ErrHanged | ErrCtx | ErrWrite.

(** Where a goroutine stands; [c] is the call and [b] the buffer it holds.
    [W*] is doWrite, [R*] is read and deliver, [H*] is handshake, [K*] is the
    waiting side of Call and of handshake, with cancel. *)
Inductive pc :=
| WIdle | WStore (c : nat) | WWrite (c : nat) | WDelete (c : nat) | WFail (c : nat)
| WClose (c : nat) | WExit
| RIdle | RDeliver (b c : nat) | RSend (b c : nat)
| HStore (c : nat) | HWrite (c : nat) | HDelete (c : nat) | HFail (c : nat)
| KWait (c : nat) | KDelete (c : nat) | KDrain (c : nat) | KDone (c : nat) (r : outcome).

Record sys := mkSys {
  calls : gmap nat callState;
  pend : Pending.pending;
  queue : list nat;
  threads : gmap nat pc;
  received : list (nat * Z);
  released : list nat;
  panicked : bool
}.

Definition start : sys := mkSys ∅ Pending.newPending [] ∅ [] [] false.

Inductive action :=
| ACall (c : nat) (q : Z)
| AHandshake (c : nat)
| ASpawnWriter
| ASpawnReader
| ARead (b : nat) (q : Z)
| AWrite (ok : bool)
| ADone
| ARun.

Definition goto (t : nat) (p : pc) (s : sys) : sys :=
  mkSys (calls s) (pend s) (queue s) (<[t := p]> (threads s)) (received s) (released s) (panicked s).
Definition set_call (c : nat) (k : callState) (s : sys) : sys :=
  mkSys (<[c := k]> (calls s)) (pend s) (queue s) (threads s) (received s) (released s) (panicked s).
Definition set_pend (p : Pending.pending) (s : sys) : sys :=
  mkSys (calls s) p (queue s) (threads s) (received s) (released s) (panicked s).
Definition set_queue (q : list nat) (s : sys) : sys :=
  mkSys (calls s) (pend s) q (threads s) (received s) (released s) (panicked s).
Definition receive (b : nat) (q : Z) (s : sys) : sys :=
  mkSys (calls s) (pend s) (queue s) (threads s) ((b, q) :: received s) (released s) (panicked s).
Definition release (b : nat) (s : sys) : sys :=
  mkSys (calls s) (pend s) (queue s) (threads s) (received s) (b :: released s) (panicked s).
Definition panic (s : sys) : sys :=
  mkSys (calls s) (pend s) (queue s) (threads s) (received s) (released s) true.

Definition with_state (k : callState) (x : callst) : callState := mkCall (seq k) (call k) x.
Definition with_chan (k : callState) (x : chan) : callState := mkCall (seq k) x (state k).

(** state.CompareAndSwap(old, new): the call afterwards, when it succeeds *)
Definition CompareAndSwap (k : callState) (old new : callst) : option callState :=
  if decide (state k = old) then Some (with_state k new) else None.

(** deliver, up to the send on the channel *)
Definition deliver (t b c : nat) (k : callState) (s : sys) : sys :=
  match CompareAndSwap k stateSent stateDelivered with
  | Some k' => goto t (RSend b c) (set_call c k' s)
  | None => goto t RIdle (release b s)
  end.

(** s.call <- buf: blocks on a full channel, panics on a closed one *)
Definition send (t b c : nat) (k : callState) (s : sys) : option sys :=
  match call k with
  | Open None => Some (goto t RIdle (set_call c (with_chan k (Open (Some b))) s))
  | Open (Some _) => None
  | Closed => Some (panic s)
  end.

(** fail, up to the close of the channel *)
Definition fail (t c : nat) (k : callState) (s : sys) : sys :=
  match CompareAndSwap k stateSent stateFailed with
  | Some k' => goto t (WClose c) (set_call c k' s)
  | None => goto t WExit s
  end.

(** close(s.call) *)
Definition close (t c : nat) (k : callState) (s : sys) : sys :=
  match call k with
  | Open _ => goto t WExit (set_call c (with_chan k Closed) s)
  | Closed => panic s
  end.

(** cancel: the round of the loop that takes effect *)
Definition cancel (t c : nat) (k : callState) (s : sys) : sys :=
  match state k with
  | statePending => goto t (KDone c ErrCtx) (set_call c (with_state k stateCanceled) s)
  | stateSent => goto t (KDelete c) (set_call c (with_state k stateCanceled) s)
  | stateDelivered => goto t (KDrain c) s
  | stateFailed | stateCanceled => goto t (KDone c ErrCtx) s
  end.

(** the select of Call: case res, ok := <-call.call *)
Definition await (t c : nat) (k : callState) (s : sys) : option sys :=
  match call k with
  | Open None => None
  | Open (Some b) => Some (goto t (KDone c (Got b)) (set_call c (with_chan k (Open None)) s))
  | Closed => Some (goto t (KDone c ErrHanged) s)
  end.

(** cancel on a delivered call: if buf, ok := <-s.call; ok { buf.Release() } *)
Definition drain (t c : nat) (k : callState) (s : sys) : option sys :=
  match call k with
  | Open None => None
  | Open (Some b) =>
      Some (goto t (KDone c ErrCtx) (release b (set_call c (with_chan k (Open None)) s)))
  | Closed => Some (goto t (KDone c ErrCtx) s)
  end.

(** doWrite, up to pending.store: a call that was canceled is skipped *)
Definition doWrite (t c : nat) (k : callState) (s : sys) : sys :=
  match CompareAndSwap k statePending stateSent with
  | Some k' => goto t (WStore c) (set_call c k' s)
  | None => goto t WIdle s
  end.

(** read, up to deliver: the buffer's sequence number selects the call *)
Definition read (t b : nat) (q : Z) (s : sys) : sys :=
  let '(found, p) := Pending.extract (pend s) q in
  let s := set_pend p (receive b q s) in
  match found with
  | Some c => goto t (RDeliver b c) s
  | None => goto t RIdle (release b s)
  end.

(** Client.Call once conn.send has queued the message *)
Definition Call (t c : nat) (q : Z) (s : sys) : sys :=
  goto t (KWait c) (set_queue (queue s ++ [c]) (set_call c (newCallState q) s)).

(** handshake up to pending.store: the call starts as sent, with number 1 *)
Definition handshake (t c : nat) (s : sys) : sys :=
  goto t (HStore c) (set_call c (with_state (newCallState 1) stateSent) s).

Definition on_call (c : nat) (f : callState -> sys -> option sys) (s : sys) : option sys :=
  match calls s !! c with Some k => f k s | None => None end.

Definition exec (t : nat) (a : action) (s : sys) : option sys :=
  match threads s !! t, a with
  | None, ACall c q => if calls s !! c then None else Some (Call t c q s)
  | None, AHandshake c => if calls s !! c then None else Some (handshake t c s)
  | None, ASpawnWriter => Some (goto t WIdle s)
  | None, ASpawnReader => Some (goto t RIdle s)
  | Some WIdle, ARun =>
      match queue s with
      | [] => None
      | c :: q => on_call c (fun k s => Some (doWrite t c k (set_queue q s))) s
      end
  | Some (WStore c), ARun =>
      on_call c (fun k s =>
        Some (goto t (WWrite c) (set_pend (Pending.store (pend s) (seq k) c) s))) s
  | Some (WWrite c), AWrite ok => Some (goto t (if ok : bool then WIdle else WDelete c) s)
  | Some (WDelete c), ARun =>
      on_call c (fun k s =>
        Some (goto t (WFail c) (set_pend (Pending.delete (pend s) (seq k)) s))) s
  | Some (WFail c), ARun => on_call c (fun k s => Some (fail t c k s)) s
  | Some (WClose c), ARun => on_call c (fun k s => Some (close t c k s)) s
  | Some RIdle, ARead b q =>
      if decide (b ∈ (received s).*1) then None else Some (read t b q s)
  | Some (RDeliver b c), ARun => on_call c (fun k s => Some (deliver t b c k s)) s
  | Some (RSend b c), ARun => on_call c (send t b c) s
  | Some (HStore c), ARun =>
      on_call c (fun k s =>
        Some (goto t (HWrite c) (set_pend (Pending.store (pend s) (seq k) c) s))) s
  | Some (HWrite c), AWrite ok => Some (goto t (if ok : bool then KWait c else HDelete c) s)
  | Some (HDelete c), ARun =>
      on_call c (fun k s =>
        Some (goto t (HFail c) (set_pend (Pending.delete (pend s) (seq k)) s))) s
  | Some (HFail c), ARun =>
      on_call c (fun k s =>
        Some (goto t (KDone c ErrWrite) (set_call c (with_state k stateFailed) s))) s
  | Some (KWait c), ARun => on_call c (await t c) s
  | Some (KWait c), ADone => on_call c (fun k s => Some (cancel t c k s)) s
  | Some (KDelete c), ARun =>
      on_call c (fun k s =>
        Some (goto t (KDone c ErrCtx) (set_pend (Pending.delete (pend s) (seq k)) s))) s
  | Some (KDrain c), ARun => on_call c (drain t c) s
  | _, _ => None
  end.

(** Any interleaving of the goroutines *)
Inductive reachable : sys -> Prop :=
| reach_start : reachable start
| reach_exec s t a s' : reachable s -> exec t a s = Some s' -> reachable s'.
