(* ===== verification/CallOk.v ===== *)
(** The invariant of pending calls under any interleaving, and what it gives:
    no goroutine panics, every answer is accounted for exactly once and reaches
    the call it answers, and a canceled call never waits for nothing. *)
From stdpp Require Import base numbers list gmap gmultiset.
From Stdlib Require Import ZArith Lia.
From S2P Require Import Prelude Call.

Open Scope Z_scope.

(** ** Roles *)

(** the goroutine is about to send on, or to close, the call's channel *)
Definition holds (p : pc) (c : nat) : Prop :=
  match p with RSend _ c' | WClose c' => c' = c | _ => False end.

(** the goroutine made the call *)
Definition owns (p : pc) (c : nat) : Prop :=
  match p with
  | HStore c' | HWrite c' | HDelete c' | HFail c' | KWait c' | KDelete c' | KDrain c'
  | KDone c' _ => c' = c
  | _ => False
  end.

(** the goroutine will take what the channel gets *)
Definition waits (p : pc) (c : nat) : Prop :=
  match p with KWait c' | KDrain c' | HStore c' | HWrite c' => c' = c | _ => False end.

Definition mentions (p : pc) (c : nat) : Prop :=
  match p with
  | WStore c' | WWrite c' | WDelete c' | WFail c' | WClose c' | RDeliver _ c' | RSend _ c'
  | HStore c' | HWrite c' | HDelete c' | HFail c' | KWait c' | KDelete c' | KDrain c'
  | KDone c' _ => c' = c
  | WIdle | WExit | RIdle => False
  end.

(** the buffer a goroutine holds for a call *)
Definition carries (p : pc) (c b : nat) : Prop :=
  match p with RDeliver b' c' | RSend b' c' | KDone c' (Got b') => c' = c /\ b' = b | _ => False end.

Definition unsettled (x : callst) : Prop :=
  x = statePending \/ x = stateSent \/ x = stateCanceled.

Record inv (s : sys) : Prop := {
  inv_pend : Pending.wf (pend s);
  inv_quiet : panicked s = false;
  inv_known t p c : threads s !! t = Some p -> mentions p c -> is_Some (calls s !! c);
  inv_queued c : c ∈ queue s -> is_Some (calls s !! c);
  inv_fresh c k : calls s !! c = Some k -> unsettled (state k) -> call k = Open None;
  inv_hold t p c k : threads s !! t = Some p -> holds p c -> calls s !! c = Some k ->
    call k = Open None /\ ~ unsettled (state k);
  inv_once t t' p p' c : threads s !! t = Some p -> threads s !! t' = Some p' ->
    holds p c -> holds p' c -> t = t';
  inv_owner t t' p p' c : threads s !! t = Some p -> threads s !! t' = Some p' ->
    owns p c -> owns p' c -> t = t';
  inv_drain t c k : threads s !! t = Some (KDrain c) -> calls s !! c = Some k ->
    state k = stateDelivered;
  inv_wait t p c k : threads s !! t = Some p -> waits p c -> calls s !! c = Some k ->
    state k = stateDelivered -> call k = Open None ->
    exists t' b, threads s !! t' = Some (RSend b c);
  inv_table q c : Pending.find (pend s) q = Some c -> exists k, calls s !! c = Some k /\ seq k = q;
  inv_seq t p c b k : threads s !! t = Some p -> carries p c b -> calls s !! c = Some k ->
    (b, seq k) ∈ received s;
  inv_chan c k b : calls s !! c = Some k -> call k = Open (Some b) -> (b, seq k) ∈ received s
}.

Lemma inv_start : inv start.
Proof.
  split; unfold start; cbn [calls threads pend queue panicked received]; try done.
  - intros c Hc. by apply not_elem_of_nil in Hc.
  - intros q c. by rewrite Pending.find_new.
Qed.

(** Lookups after an update, case by case *)
Ltac lookups :=
  repeat match goal with
  | H : <[_ := _]> _ !! _ = Some _ |- _ => apply lookup_insert_Some in H as [[? ?]|[? H]]
  | H : Some _ = Some _ |- _ => injection H as ?
  | H : _ /\ _ |- _ => destruct H
  | H : carries _ _ _ |- _ => progress simpl in H
  | H : holds _ _ |- _ => progress simpl in H
  | H : owns _ _ |- _ => progress simpl in H
  | H : waits _ _ |- _ => progress simpl in H
  | H : mentions _ _ |- _ => progress simpl in H
  end; subst; simpl in *; try done.

Lemma CAS_Some k old new k' :
  CompareAndSwap k old new = Some k' -> state k = old /\ k' = with_state k new.
Proof. unfold CompareAndSwap. destruct (decide _); [|done]. by intros [= <-]. Qed.

Lemma CAS_None k old new : CompareAndSwap k old new = None -> state k <> old.
Proof. unfold CompareAndSwap. by destruct (decide _). Qed.

(** The step of a goroutine, case by case *)
Ltac steps H :=
  unfold exec in H;
  repeat match type of H with
  | context [match ?x with _ => _ end] => destruct x eqn:?
  end; try discriminate H;
  unfold on_call, doWrite, fail, close, deliver, send, read, cancel, await, drain, Call, handshake
    in H;
  repeat match type of H with
  | context [match ?x with _ => _ end] => destruct x eqn:?
  end; try discriminate H;
  apply (inj Some) in H; subst;
  repeat match goal with
  | E : CompareAndSwap _ _ _ = Some _ |- _ => apply CAS_Some in E as [? ->]
  | E : CompareAndSwap _ _ _ = None |- _ => apply CAS_None in E
  end.

Lemma exec_pend t a s s' : inv s -> exec t a s = Some s' -> Pending.wf (pend s').
Proof.
  intros Hi H. pose proof (inv_pend s Hi). steps H; simpl; auto using Pending.wf_store, Pending.wf_delete.
  all: rewrite Pending.extract_eq in * by done; simplify_eq; case_match; auto using Pending.wf_delete.
Qed.

(** Calls are never forgotten, and keep their number. *)
Lemma exec_calls t a s s' c k :
  exec t a s = Some s' -> calls s !! c = Some k ->
  exists k', calls s' !! c = Some k' /\ seq k' = seq k.
Proof.
  intros H Hc. steps H; simpl; eauto.
  all: match goal with |- exists _, <[?d := _]> _ !! _ = _ /\ _ => destruct (decide (d = c)) as [->|] end.
  all: rewrite ?lookup_insert_eq, ?lookup_insert_ne by done; simplify_eq/=; eauto.
Qed.

Lemma exec_is_some t a s s' c :
  exec t a s = Some s' -> is_Some (calls s !! c) -> is_Some (calls s' !! c).
Proof. intros H [k Hk]. destruct (exec_calls t a s s' c k H Hk) as (k' & ? & _). eauto. Qed.

Lemma exec_queued t a s s' c :
  inv s -> exec t a s = Some s' -> c ∈ queue s' -> is_Some (calls s' !! c).
Proof.
  intros Hi H Hc. pose proof (inv_queued s Hi) as Hq.
  destruct (decide (c ∈ queue s)) as [Hin|Hn]; [eapply exec_is_some; eauto|].
  steps H; simpl in *; try done; try (exfalso; set_solver).
  assert (c = c0) as -> by set_solver. rewrite lookup_insert_eq. eauto.
Qed.

(** A step moves one goroutine. *)
Lemma exec_other t a s s' t' :
  exec t a s = Some s' -> t' <> t -> threads s' !! t' = threads s !! t'.
Proof. intros H Hn. steps H; simpl; by rewrite ?lookup_insert_ne. Qed.

Lemma exec_known t a s s' t' p c :
  inv s -> exec t a s = Some s' -> threads s' !! t' = Some p -> mentions p c ->
  is_Some (calls s' !! c).
Proof.
  intros Hi H Ht Hm. pose proof (inv_known s Hi) as Hk. pose proof (inv_pend s Hi) as Hp.
  destruct (decide (t' = t)) as [->|Hn];
    [|rewrite (exec_other t a s s' t' H Hn) in Ht; eapply exec_is_some; eauto].
  pose proof (fun c => exec_is_some t a s s' c H) as Hs.
  pose proof (inv_table s Hi) as Htab. pose proof (inv_queued s Hi) as Hqu.
  steps H; simpl in *; rewrite ?lookup_insert_eq in Ht; simplify_eq/=.
  all: try (by rewrite ?lookup_insert_eq; eauto).
  all: try (by apply Hs; eauto).
  all: try (by eapply Hk; [eassumption|simpl]).
  rewrite Pending.extract_eq in * by done. simplify_eq.
  edestruct Htab as (k & ? & _); [eassumption|]. eauto.
Qed.

Lemma exec_quiet t a s s' : inv s -> exec t a s = Some s' -> panicked s' = false.
Proof.
  intros Hi H. pose proof (inv_quiet s Hi). pose proof (inv_hold s Hi) as Hh.
  steps H; simpl; try done.
  all: edestruct Hh as [Hc _]; [eassumption|simpl; reflexivity|eassumption|congruence].
Qed.

Lemma exec_fresh t a s s' c k :
  inv s -> exec t a s = Some s' -> calls s' !! c = Some k -> unsettled (state k) ->
  call k = Open None.
Proof.
  intros Hi H Hc Hu. pose proof (inv_fresh s Hi) as Hf. pose proof (inv_hold s Hi) as Hh.
  unfold unsettled in *. steps H; simpl in *; eauto.
  all: apply lookup_insert_Some in Hc as [[? <-]|[? Hc]]; simpl in *; eauto.
  all: try (by destruct_or!).
  all: try (by eapply Hf; [eassumption|auto]).
  all: edestruct Hh as [_ Hx]; [eassumption|simpl; reflexivity|eassumption|tauto].
Qed.

Lemma holds_mentions p c : holds p c -> mentions p c.
Proof. by destruct p. Qed.

Lemma owns_mentions p c : owns p c -> mentions p c.
Proof. by destruct p. Qed.

(** A goroutine other than [t] that holds a call keeps [t] away from it. *)
Lemma exec_hold t a s s' t' p c k :
  inv s -> exec t a s = Some s' -> threads s' !! t' = Some p -> holds p c ->
  calls s' !! c = Some k -> call k = Open None /\ ~ unsettled (state k).
Proof.
  intros Hi H Ht Hp Hc. pose proof (inv_fresh s Hi) as Hf. pose proof (inv_hold s Hi) as Hh.
  pose proof (inv_once s Hi) as Ho. pose proof (inv_known s Hi) as Hk. unfold unsettled in *.
  steps H; simpl in *.
  all: try (apply lookup_insert_Some in Ht as [[? <-]|[? Ht]]; simpl in Hp; try done; subst).
  all: try (apply lookup_insert_Some in Hc as [[? <-]|[? Hc]]; simpl in *; subst); try done.
  all: try (by eapply Hh; eauto).
  all: try solve [split; [eapply Hf; eauto|intuition congruence]].
  all: try (match goal with Ht : threads _ !! ?t' = Some ?p, E : calls _ !! _ = Some ?k |- _ =>
              destruct (Hh t' p _ k Ht Hp E) as [? ?] end; intuition congruence).
  all: try (exfalso; match goal with Ht : threads _ !! ?t' = Some ?p |- _ =>
              destruct (Hk t' p _ Ht (holds_mentions _ _ Hp)); congruence end).
  all: exfalso; match goal with
         E : threads _ !! ?t = Some ?p0, Ht : threads _ !! ?t' = Some ?p, Hn : ?t <> ?t' |- _ =>
         apply Hn; exact (Ho t t' p0 p _ E Ht eq_refl Hp) end.
Qed.

Lemma exec_once_new t a s s' t2 p1 p2 c :
  inv s -> exec t a s = Some s' -> threads s' !! t = Some p1 -> threads s !! t2 = Some p2 ->
  t2 <> t -> holds p1 c -> holds p2 c -> False.
Proof.
  intros Hi H Ht1 Ht2 Hn Hp1 Hp2. pose proof (inv_hold s Hi) as Hh. pose proof (inv_once s Hi) as Ho.
  unfold unsettled in *. steps H; simpl in *; rewrite ?lookup_insert_eq in *; simplify_eq/=.
  all: try (match goal with E : calls _ !! _ = Some ?k |- _ =>
              destruct (Hh _ _ _ k Ht2 Hp2 E) as [? ?] end; intuition congruence).
  all: match goal with Hn : _ <> ?t, E : threads _ !! ?t = Some ?p0 |- _ =>
         apply Hn; exact (Ho _ t _ p0 _ Ht2 E Hp2 eq_refl) end.
Qed.

Lemma exec_once t a s s' t1 t2 p1 p2 c :
  inv s -> exec t a s = Some s' -> threads s' !! t1 = Some p1 -> threads s' !! t2 = Some p2 ->
  holds p1 c -> holds p2 c -> t1 = t2.
Proof.
  intros Hi H Ht1 Ht2 Hp1 Hp2.
  destruct (decide (t1 = t)) as [->|N1], (decide (t2 = t)) as [->|N2]; [done|..].
  - rewrite (exec_other t a s s') in Ht2 by done. by destruct (exec_once_new t a s s' t2 p1 p2 c).
  - rewrite (exec_other t a s s') in Ht1 by done. by destruct (exec_once_new t a s s' t1 p2 p1 c).
  - rewrite (exec_other t a s s') in Ht1, Ht2 by done. by eapply (inv_once s Hi).
Qed.

Lemma exec_owner_new t a s s' t2 p1 p2 c :
  inv s -> exec t a s = Some s' -> threads s' !! t = Some p1 -> threads s !! t2 = Some p2 ->
  t2 <> t -> owns p1 c -> owns p2 c -> False.
Proof.
  intros Hi H Ht1 Ht2 Hn Hp1 Hp2. pose proof (inv_known s Hi) as Hk. pose proof (inv_owner s Hi) as Ho.
  steps H; simpl in *; rewrite ?lookup_insert_eq in *; simplify_eq/=.
  all: try (destruct (Hk _ _ _ Ht2 (owns_mentions _ _ Hp2)); congruence).
  all: match goal with Hn : _ <> ?t, E : threads _ !! ?t = Some ?p0 |- _ =>
         apply Hn; exact (Ho _ t _ p0 _ Ht2 E Hp2 eq_refl) end.
Qed.

Lemma exec_owner t a s s' t1 t2 p1 p2 c :
  inv s -> exec t a s = Some s' -> threads s' !! t1 = Some p1 -> threads s' !! t2 = Some p2 ->
  owns p1 c -> owns p2 c -> t1 = t2.
Proof.
  intros Hi H Ht1 Ht2 Hp1 Hp2.
  destruct (decide (t1 = t)) as [->|N1], (decide (t2 = t)) as [->|N2]; [done|..].
  - rewrite (exec_other t a s s') in Ht2 by done. by destruct (exec_owner_new t a s s' t2 p1 p2 c).
  - rewrite (exec_other t a s s') in Ht1 by done. by destruct (exec_owner_new t a s s' t1 p2 p1 c).
  - rewrite (exec_other t a s s') in Ht1, Ht2 by done. by eapply (inv_owner s Hi).
Qed.

Lemma exec_table t a s s' q c :
  inv s -> exec t a s = Some s' -> Pending.find (pend s') q = Some c ->
  exists k, calls s' !! c = Some k /\ seq k = q.
Proof.
  intros Hi H Hf. pose proof (inv_pend s Hi) as Hp. pose proof (inv_table s Hi) as Ht.
  assert (Pending.find (pend s) q = Some c \/ exists k, calls s !! c = Some k /\ seq k = q) as Hor.
  { steps H; simpl in *; auto.
    all: rewrite ?Pending.extract_eq in * by done; simplify_eq; repeat case_match; auto.
    all: rewrite ?Pending.find_store, ?Pending.find_delete in Hf by done.
    all: repeat case_decide; simplify_eq; eauto. }
  assert (exists k, calls s !! c = Some k /\ seq k = q) as (k & Hk & <-) by naive_solver.
  destruct (exec_calls t a s s' c k H Hk) as (k' & ? & ?). eauto.
Qed.

Lemma exec_drain t a s s' t' c k :
  inv s -> exec t a s = Some s' -> threads s' !! t' = Some (KDrain c) -> calls s' !! c = Some k ->
  state k = stateDelivered.
Proof.
  intros Hi H Ht Hc. pose proof (inv_drain s Hi) as Hd. pose proof (inv_owner s Hi) as Ho.
  pose proof (inv_known s Hi) as Hk.
  destruct (decide (t' = t)) as [->|Hn].
  - steps H; simpl in *; rewrite ?lookup_insert_eq in *; simplify_eq/=; done.
  - rewrite (exec_other t a s s') in Ht by done.
    steps H; simpl in *; try (by eapply Hd).
    all: apply lookup_insert_Some in Hc as [[? <-]|[? Hc]]; simpl in *; subst; try (by eapply Hd).
    all: try (destruct (Hk _ _ _ Ht eq_refl); congruence).
    all: try (match goal with E : calls _ !! _ = Some ?k |- _ =>
           pose proof (Hd _ _ k Ht E) end; congruence).
    all: exfalso; match goal with Hn : _ <> ?t, E : threads _ !! ?t = Some ?p0 |- _ =>
         apply Hn; exact (Ho _ t _ p0 _ Ht E eq_refl eq_refl) end.
Qed.

Lemma waits_owns p c : waits p c -> owns p c.
Proof. by destruct p. Qed.

(** The sender of a call is still there unless the step is its own. *)
Lemma keep_sender t a s s' c :
  exec t a s = Some s' -> (forall b, threads s !! t <> Some (RSend b c)) ->
  (exists t' b, threads s !! t' = Some (RSend b c)) ->
  exists t' b, threads s' !! t' = Some (RSend b c).
Proof.
  intros H Hn (t' & b & Ht'). exists t', b. rewrite (exec_other t a s s'); [done|done|].
  intros ->. by apply (Hn b).
Qed.

Lemma exec_wait t a s s' t' p c k :
  inv s -> exec t a s = Some s' -> threads s' !! t' = Some p -> waits p c ->
  calls s' !! c = Some k -> state k = stateDelivered -> call k = Open None ->
  exists t' b, threads s' !! t' = Some (RSend b c).
Proof.
  intros Hi H Ht Hp Hc Hst Hch. pose proof (inv_wait s Hi) as Hw. pose proof (inv_owner s Hi) as Ho.
  pose proof (inv_known s Hi) as Hk. pose proof (keep_sender t a s s' c H) as Hkeep.
  destruct (decide (t' = t)) as [->|Hn].
  - steps H; simpl in *; rewrite ?lookup_insert_eq in *; simplify_eq/=; try done.
    all: try (rewrite lookup_insert_eq in Hc; simplify_eq/=).
    all: apply Hkeep; [intros; congruence|eapply Hw; [eassumption|simpl; reflexivity|eassumption..]].
  - rewrite (exec_other t a s s' t' H Hn) in Ht.
    steps H; simpl in *.
    all: try (by apply Hkeep; [intros; congruence|eapply Hw; eauto]).
    all: apply lookup_insert_Some in Hc as [[? <-]|[? Hc]]; simpl in *; subst; try done.
    all: try (by apply Hkeep; [intros; congruence|eapply Hw; eauto]).
    all: try (destruct (Hk _ _ _ Ht (owns_mentions _ _ (waits_owns _ _ Hp))); congruence).
    + exists t, b. by rewrite lookup_insert_eq.
    + exfalso. apply Hn. exact (Ho _ t _ _ _ Ht Heqo (waits_owns _ _ Hp) eq_refl).
    + exfalso. apply Hn. exact (Ho _ t _ _ _ Ht Heqo (waits_owns _ _ Hp) eq_refl).
Qed.

Lemma carries_mentions p c b : carries p c b -> mentions p c.
Proof. destruct p; try done; simpl; try tauto. by destruct r; [intros [-> _]|..]. Qed.

(** Numbers of received buffers do not change. *)
Lemma exec_received t a s s' x : exec t a s = Some s' -> x ∈ received s -> x ∈ received s'.
Proof. intros H Hx. steps H; simpl; try done; set_solver. Qed.

Lemma exec_seq t a s s' t' p c b k :
  inv s -> exec t a s = Some s' -> threads s' !! t' = Some p -> carries p c b ->
  calls s' !! c = Some k -> (b, seq k) ∈ received s'.
Proof.
  intros Hi H Ht Hp Hc. pose proof (inv_seq s Hi) as Hs. pose proof (inv_chan s Hi) as Hch.
  pose proof (inv_pend s Hi) as Hpd. pose proof (inv_table s Hi) as Htab.
  pose proof (fun x => exec_received t a s s' x H) as Hrec.
  assert (forall d k0, calls s !! d = Some k0 -> calls s' !! d = Some k -> d = c -> seq k0 = seq k) as Hseq.
  { intros d k0 Hd Hd' ->. destruct (exec_calls t a s s' c k0 H Hd) as (k' & ? & ?). congruence. }
  destruct (decide (t' = t)) as [->|Hn].
  - steps H; simpl in *; rewrite ?lookup_insert_eq in Ht; simplify_eq/=; try done.
    all: destruct Hp as [-> ->].
    + rewrite Pending.extract_eq in * by done. simplify_eq.
      destruct (Htab q c) as (k0 & Hk0 & <-); [done|]. simplify_eq. left.
    + erewrite <- (Hseq c); [|eassumption|eassumption|done].
      by eapply Hs; [exact Heqo|simpl|eassumption].
    + by eapply Hs; [exact Heqo|simpl|eassumption].
    + erewrite <- (Hseq c); [|eassumption|eassumption|done]. by eapply Hch.
  - rewrite (exec_other t a s s' t' H Hn) in Ht.
    destruct (inv_known s Hi t' p c Ht (carries_mentions _ _ _ Hp)) as [k0 Hk0].
    apply Hrec. rewrite <- (Hseq c k0 Hk0 Hc eq_refl). by eapply Hs.
Qed.

Lemma exec_chan t a s s' c k b :
  inv s -> exec t a s = Some s' -> calls s' !! c = Some k -> call k = Open (Some b) ->
  (b, seq k) ∈ received s'.
Proof.
  intros Hi H Hc Hb. pose proof (inv_seq s Hi) as Hs. pose proof (inv_chan s Hi) as Hch.
  pose proof (fun x => exec_received t a s s' x H) as Hrec.
  steps H; simpl in *; try (by apply Hrec; eapply Hch).
  all: apply lookup_insert_Some in Hc as [[? <-]|[? Hc]]; simpl in *; subst; try done.
  all: try (by apply Hrec; eapply Hch).
  simplify_eq. by eapply Hs; [eassumption|simpl|eassumption].
Qed.

Lemma inv_exec t a s s' : inv s -> exec t a s = Some s' -> inv s'.
Proof.
  intros Hi H. split; intros.
  - by eapply exec_pend.
  - by eapply exec_quiet.
  - by eapply exec_known.
  - by eapply exec_queued.
  - by eapply exec_fresh.
  - by eapply exec_hold.
  - by eapply exec_once.
  - by eapply exec_owner.
  - by eapply exec_drain.
  - by eapply exec_wait.
  - by eapply exec_table.
  - by eapply exec_seq.
  - by eapply exec_chan.
Qed.

Lemma reachable_inv s : reachable s -> inv s.
Proof. induction 1; [apply inv_start|by eapply inv_exec]. Qed.

(** ** Every answer is in one place *)

Definition contents {A} (f : A -> gmultiset nat) (m : gmap nat A) : gmultiset nat :=
  map_fold (fun _ x acc => f x ⊎ acc) ∅ m.

Lemma contents_new {A} (f : A -> gmultiset nat) m i x :
  m !! i = None -> contents f (<[i := x]> m) = f x ⊎ contents f m.
Proof. intros Hi. unfold contents. rewrite map_fold_insert_L; [done| |done]. intros. multiset_solver. Qed.

Lemma contents_insert {A} (f : A -> gmultiset nat) m i x y :
  m !! i = Some y -> f y ⊎ contents f (<[i := x]> m) = f x ⊎ contents f m.
Proof.
  intros Hi. rewrite <- (insert_delete_id m i y Hi) at 2. rewrite <- (insert_delete_eq m i x).
  rewrite !contents_new by apply lookup_delete_eq. multiset_solver.
Qed.

(** the buffer a goroutine has in hand or returned to its caller *)
Definition in_hand (p : pc) : gmultiset nat :=
  match p with RDeliver b _ | RSend b _ | KDone _ (Got b) => {[+ b +]} | _ => ∅ end.

Definition in_channel (k : callState) : gmultiset nat :=
  match call k with Open (Some b) => {[+ b +]} | _ => ∅ end.

(** Where the buffers read so far are: released, with a goroutine or its
    caller, or in the channel of a call *)
Definition accounted (s : sys) : gmultiset nat :=
  list_to_set_disj (released s) ⊎ contents in_hand (threads s) ⊎ contents in_channel (calls s).

Definition conserved (s : sys) : Prop :=
  NoDup (received s).*1 /\ accounted s = list_to_set_disj (received s).*1.

Lemma exec_conserved t a s s' : inv s -> exec t a s = Some s' -> conserved s -> conserved s'.
Proof.
  intros Hi H [Hn Ha]. split.
  { steps H; simpl; try done. all: by constructor. }
  unfold accounted in *. steps H; simpl.
  all: try match goal with E : threads ?s !! ?t = Some ?p0 |- context [<[?t := ?p]> (threads ?s)] =>
    pose proof (contents_insert in_hand (threads s) t p p0 E) end.
  all: try match goal with E : threads ?s !! ?t = None |- context [<[?t := ?p]> (threads ?s)] =>
    pose proof (contents_new in_hand (threads s) t p E) end.
  all: try match goal with E : calls ?s !! ?c = Some ?k0 |- context [<[?c := ?k]> (calls ?s)] =>
    pose proof (contents_insert in_channel (calls s) c k k0 E) end.
  all: try match goal with E : calls ?s !! ?c = None |- context [<[?c := ?k]> (calls ?s)] =>
    pose proof (contents_new in_channel (calls s) c k E) end.
  all: unfold in_channel in *; simpl in *.
  all: try match goal with E : call _ = _ |- _ => rewrite E in * end.
  all: try multiset_solver.
  - destruct (inv_hold s Hi t (WClose c) c c0) as [Hc _]; [done..|].
    assert (content = None) as -> by congruence. multiset_solver.
  - change (list_fmap _ _ fst (received s)) with ((received s).*1). multiset_solver.
Qed.

Lemma reachable_conserved s : reachable s -> conserved s.
Proof.
  induction 1 as [|s t a s' Hr IH H]; [|eapply exec_conserved; eauto using reachable_inv].
  split; [constructor|reflexivity].
Qed.
