(* ===== verification/CallClaims.v ===== *)
(** What the pending calls of the transport client promise, and two
    interleavings in which they do not behave. *)
From stdpp Require Import base numbers list gmap gmultiset.
From Stdlib Require Import ZArith Lia.
From S2P Require Import Prelude Call CallOk.

Open Scope Z_scope.

(** ** A call that is over *)

(** no goroutine is about to send on the call's channel *)
Definition unsent (s : sys) (c : nat) : Prop := forall t b, threads s !! t <> Some (RSend b c).

Definition empty_chan (k : callState) : Prop := forall b, call k <> Open (Some b).

(** The call holds no answer and will get none. *)
Definition finished (s : sys) (c : nat) : Prop :=
  exists k, calls s !! c = Some k /\ state k <> statePending /\ state k <> stateSent /\
    empty_chan k /\ unsent s c.

Lemma unsent_exec t a s s' c k :
  exec t a s = Some s' -> unsent s c -> calls s !! c = Some k -> state k <> stateSent -> unsent s' c.
Proof.
  intros H Hu Hc Hk t' b Ht'. destruct (decide (t' = t)) as [->|Hn].
  - pose proof (Hu t b) as Hu'.
    steps H; simpl in *; rewrite ?lookup_insert_eq in Ht'; simplify_eq/=; done.
  - rewrite (exec_other t a s s' t' H Hn) in Ht'. by apply (Hu t' b).
Qed.

Lemma finished_exec t a s s' c : exec t a s = Some s' -> finished s c -> finished s' c.
Proof.
  intros H (k & Hc & Hp & Hs & He & Hu). pose proof (unsent_exec t a s s' c k H Hu Hc Hs) as Hu'.
  assert (forall k', calls s' !! c = Some k' -> state k' <> statePending -> state k' <> stateSent ->
    empty_chan k' -> finished s' c) as Hfin by (intros k'; exists k'; auto).
  unfold empty_chan in *.
  steps H; simpl in *; try (by eapply Hfin).
  all: match type of Hfin with context [<[?d := _]> _ !! _] =>
         destruct (decide (d = c)) as [->|Hd]; [|by eapply Hfin; rewrite ?lookup_insert_ne by done] end.
  all: eapply Hfin; [by apply lookup_insert_eq|simplify_eq/=; try congruence..].
  all: try (intros; simplify_eq/=; by try eapply He).
  by destruct (Hu t b).
Qed.

(** A call that is settled and whose channel is not in use is over. *)
Lemma settled_finished s c k :
  inv s -> calls s !! c = Some k -> state k = stateCanceled \/ ~ unsettled (state k) /\
  call k <> Open None /\ empty_chan k -> finished s c.
Proof.
  intros Hi Hc Hk. exists k. pose proof (inv_fresh s Hi c k Hc) as Hf. unfold unsettled in *.
  assert (forall t b, threads s !! t = Some (RSend b c) -> call k = Open None /\ ~ unsettled (state k))
    as Hh by (intros t b Ht; by apply (inv_hold s Hi t (RSend b c) c k)). unfold unsettled in *.
  destruct Hk as [Hk|(Hk & Hch & He)].
  - rewrite Hk in *. repeat split; try done.
    + intros b Hb. rewrite Hf in Hb by auto. done.
    + intros t b Ht. destruct (Hh t b Ht). tauto.
  - repeat split; try tauto. intros t b Ht. destruct (Hh t b Ht). tauto.
Qed.

Record tidy (s : sys) : Prop := {
  tidy_done t c r : threads s !! t = Some (KDone c r) -> r <> ErrWrite -> finished s c;
  tidy_delete t c : threads s !! t = Some (KDelete c) -> finished s c;
  tidy_failed c k : calls s !! c = Some k -> state k = stateFailed ->
    finished s c \/ exists t, threads s !! t = Some (KDone c ErrWrite)
}.

Lemma tidy_start : tidy start.
Proof. by split. Qed.

Lemma failed_exec t a s s' c k :
  inv s -> tidy s -> exec t a s = Some s' -> calls s' !! c = Some k -> state k = stateFailed ->
  finished s' c \/ exists t, threads s' !! t = Some (KDone c ErrWrite).
Proof.
  intros Hi Hty H Hc Hk.
  destruct (calls s !! c) as [k0|] eqn:Hc0; last first.
  { steps H; simpl in *; try congruence.
    all: apply lookup_insert_Some in Hc as [[? <-]|[? Hc]]; subst; simpl in *; congruence. }
  destruct (decide (state k0 = stateFailed)) as [E|Hn].
  { destruct (tidy_failed s Hty c k0 Hc0 E) as [Hf|[t' Ht']];
      [left; by eapply finished_exec|right; exists t'].
    rewrite (exec_other t a s s'); [done|done|]. intros ->. unfold exec in H. rewrite Ht' in H.
    by destruct a. }
  pose proof (inv_fresh s Hi c k0 Hc0) as Hf.
  steps H; simpl in *; try congruence.
  all: apply lookup_insert_Some in Hc as [[? <-]|[? Hc]]; subst; simpl in *; try congruence.
  - left. assert (k0 = c1) as -> by congruence. exists (with_state c1 stateFailed). simpl. rewrite lookup_insert_eq.
    repeat split; try done.
    + intros b Hb. simpl in Hb. rewrite Hf in Hb by (unfold unsettled; auto). done.
    + intros t' b Ht'. simpl in Ht'. apply lookup_insert_Some in Ht' as [[? ?]|[? Ht']]; [done|].
      destruct (inv_hold s Hi t' (RSend b c) c c1) as [_ Hu]; [done..|]. apply Hu.
      unfold unsettled. auto.
  - right. exists t. by rewrite lookup_insert_eq.
Qed.

(** Taking the answer out of the channel ends the call. *)
Lemma taken_finished s t c k b r s' :
  inv s -> calls s !! c = Some k -> call k = Open (Some b) ->
  calls s' = <[c := with_chan k (Open None)]> (calls s) ->
  threads s' = <[t := KDone c r]> (threads s) -> finished s' c.
Proof.
  intros Hi Hc Hb Hcalls Hthreads. pose proof (inv_fresh s Hi c k Hc) as Hf.
  exists (with_chan k (Open None)). rewrite Hcalls, lookup_insert_eq.
  unfold unsettled in Hf. repeat split; try done; simpl.
  - intros E. rewrite Hf in Hb by auto. done.
  - intros E. rewrite Hf in Hb by auto. done.
  - intros t' b' Ht'. rewrite Hthreads in Ht'.
    apply lookup_insert_Some in Ht' as [[? ?]|[? Ht']]; [done|].
    destruct (inv_hold s Hi t' (RSend b' c) c k) as [? _]; [done..|]. congruence.
Qed.

Lemma closed_finished s c k : inv s -> calls s !! c = Some k -> call k = Closed -> finished s c.
Proof.
  intros Hi Hc Hk. eapply settled_finished; [done|done|right]. unfold empty_chan. rewrite Hk.
  split; [|done]. intros Hu. by rewrite (inv_fresh s Hi c k Hc Hu) in Hk.
Qed.

Lemma done_exec t a s s' c r :
  inv s -> tidy s -> exec t a s = Some s' ->
  threads s' !! t = Some (KDone c r) -> r <> ErrWrite -> finished s' c.
Proof.
  intros Hi Hty H Ht Hr. pose proof (inv_exec t a s s' Hi H) as Hi'.
  pose proof (fun c => finished_exec t a s s' c H) as Hfe.
  pose proof (inv_owner s Hi) as How.
  assert (forall d k, calls s !! d = Some k -> threads s !! t = Some (KWait d) ->
    state k = stateFailed \/ state k = stateCanceled -> finished s d) as Hfs.
  { intros d k Hd Hw [E|E].
    - destruct (tidy_failed s Hty d k Hd E) as [?|[t' Ht']]; [done|].
      rewrite (How t t' _ _ d Hw Ht') in Hw by done. congruence.
    - eapply settled_finished; eauto. }
  steps H; simpl in *; rewrite ?lookup_insert_eq in Ht; simplify_eq/=.
  - eapply settled_finished; [done|apply lookup_insert_eq|by left].
  - apply Hfe. eauto.
  - apply Hfe. eauto.
  - eapply (taken_finished s t); [exact Hi|eassumption|eassumption|reflexivity|reflexivity].
  - apply Hfe. eapply (closed_finished s); [exact Hi|eassumption..].
  - apply Hfe. by eapply tidy_delete.
  - eapply (taken_finished s t); [exact Hi|eassumption|eassumption|reflexivity|reflexivity].
  - apply Hfe. eapply (closed_finished s); [exact Hi|eassumption..].
Qed.

Lemma delete_exec t a s s' c :
  inv s -> exec t a s = Some s' -> threads s' !! t = Some (KDelete c) -> finished s' c.
Proof.
  intros Hi H Ht. pose proof (inv_exec t a s s' Hi H) as Hi'.
  steps H; simpl in *; rewrite ?lookup_insert_eq in Ht; simplify_eq/=.
  eapply settled_finished; [done|apply lookup_insert_eq|by left].
Qed.

Lemma tidy_exec t a s s' : inv s -> tidy s -> exec t a s = Some s' -> tidy s'.
Proof.
  intros Hi Hty H. pose proof (fun c => finished_exec t a s s' c H) as Hfe. split.
  - intros t' c r Ht Hr. destruct (decide (t' = t)) as [->|Hn]; [by eapply done_exec|].
    rewrite (exec_other t a s s') in Ht by done. apply Hfe. by eapply tidy_done.
  - intros t' c Ht. destruct (decide (t' = t)) as [->|Hn]; [by eapply delete_exec|].
    rewrite (exec_other t a s s') in Ht by done. apply Hfe. by eapply tidy_delete.
  - intros c k. by eapply failed_exec.
Qed.

Lemma reachable_tidy s : reachable s -> tidy s.
Proof.
  induction 1 as [|s t a s' Hr IH H]; [apply tidy_start|].
  eapply tidy_exec; eauto using reachable_inv.
Qed.

(** ** Exactly once *)

Lemma NoDup_multiplicity (l : list nat) b :
  NoDup l -> (multiplicity b (list_to_set_disj l : gmultiset nat) <= 1)%nat.
Proof.
  induction 1 as [|x l Hx Hl IH]; [by apply Nat.le_0_l|]. cbn [list_to_set_disj].
  rewrite multiplicity_disj_union. destruct (decide (x = b)) as [->|Hn].
  - rewrite <- elem_of_list_to_set_disj in Hx. apply not_elem_of_multiplicity in Hx.
    rewrite Hx, multiplicity_singleton. destruct (decide (b = b)); lia.
  - by rewrite multiplicity_singleton_ne.
Qed.

Lemma in_contents {A} (f : A -> gmultiset nat) m i x b :
  m !! i = Some x -> f x = {[+ b +]} ->
  multiplicity b (contents f m) = S (multiplicity b (contents f (delete i m))).
Proof.
  intros Hi Hf. rewrite <- (insert_delete_id m i x Hi) at 1.
  rewrite contents_new by apply lookup_delete_eq.
  rewrite multiplicity_disj_union, Hf, multiplicity_singleton. by rewrite decide_True by done.
Qed.

(** A returned answer is nowhere else. *)
Lemma got_once s t c b :
  conserved s -> threads s !! t = Some (KDone c (Got b)) ->
  b ∉ released s /\ forall t' c', threads s !! t' = Some (KDone c' (Got b)) -> t' = t.
Proof.
  intros [Hn Ha] Ht. pose proof (NoDup_multiplicity _ b Hn) as Hm. rewrite <- Ha in Hm.
  unfold accounted in Hm. rewrite !multiplicity_disj_union in Hm.
  rewrite (in_contents in_hand (threads s) t _ b Ht) in Hm by done. split.
  - intros Hb. rewrite <- (elem_of_list_to_set_disj b), elem_of_multiplicity in Hb. lia.
  - intros t' c' Ht'. destruct (decide (t' = t)) as [|Hne]; [done|].
    rewrite (in_contents in_hand (delete t (threads s)) t' (KDone c' (Got b)) b) in Hm;
      [lia|by rewrite lookup_delete_ne|done].
Qed.


(** Running the goroutines one after the other *)
Fixpoint runs (l : list (nat * action)) (s : sys) : option sys :=
  match l with
  | [] => Some s
  | (t, a) :: l' => match exec t a s with Some s' => runs l' s' | None => None end
  end.

Lemma runs_reachable l : forall s s', reachable s -> runs l s = Some s' -> reachable s'.
Proof.
  induction l as [|[t a] l IH]; intros s s' Hr H; [by injection H as <-|].
  cbn [runs] in H. destruct (exec t a s) as [s1|] eqn:E; [|done].
  eapply IH; [|done]. by eapply reach_exec.
Qed.

(** A call that is answered *)
Definition answered_call : list (nat * action) :=
  [(0, ASpawnWriter); (1, ASpawnReader); (2, ACall 5 3); (0, ARun); (0, ARun); (0, AWrite true);
   (1, ARead 7 3); (1, ARun); (1, ARun); (2, ARun)]%nat.


(** A caller that gives up on a delivered call does not wait in vain: the
    answer is in the channel already, or a reading goroutine is about to put it
    there and can; after at most that step, the caller takes the answer,
    releases it and returns. *)
Theorem cancel_never_stuck (s : sys) (t c : nat)
    (Hr : reachable s) (Ht : threads s !! t = Some (KDrain c)) :
  exists l s', (length l <= 1)%nat /\ runs (l ++ [(t, ARun)]) s = Some s' /\
    threads s' !! t = Some (KDone c ErrCtx).
Proof.
  pose proof (reachable_inv s Hr) as Hi.
  destruct (inv_known s Hi t _ c Ht eq_refl) as [k Hk].
  pose proof (inv_drain s Hi t c k Ht Hk) as Hst.
  destruct (call k) as [[b|]|] eqn:Hc.
  - exists []. simpl. unfold exec. rewrite Ht. unfold on_call, drain. rewrite Hk, Hc.
    eexists. split; [lia|]. split; [done|]. simpl. by rewrite lookup_insert_eq.
  - destruct (inv_wait s Hi t _ c k Ht eq_refl Hk Hst Hc) as (t' & b & Ht').
    assert (t <> t') by congruence.
    exists [(t', ARun)]. simpl. unfold exec at 1. rewrite Ht'. unfold on_call, send. rewrite Hk, Hc.
    unfold exec. simpl. rewrite lookup_insert_ne, Ht by done. unfold on_call, drain. simpl.
    rewrite lookup_insert_eq. simpl. eexists. split; [lia|]. split; [done|].
    simpl. by rewrite lookup_insert_eq.
  - exists []. simpl. unfold exec. rewrite Ht. unfold on_call, drain. rewrite Hk, Hc.
    eexists. split; [lia|]. split; [done|]. simpl. by rewrite lookup_insert_eq.
Qed.

(** The caller gives up between the answer's arrival and its delivery. *)
Definition late_cancel : list (nat * action) :=
  [(0, ASpawnWriter); (1, ASpawnReader); (2, ACall 5 3); (0, ARun); (0, ARun); (0, AWrite true);
   (1, ARead 7 3); (1, ARun); (2, ADone)]%nat.

Lemma cancel_never_stuck_witness :
  exists s, runs late_cancel start = Some s /\
    exists l s', (length l <= 1)%nat /\ runs (l ++ [(2%nat, ARun)]) s = Some s' /\
      threads s' !! 2%nat = Some (KDone 5 ErrCtx).
Proof.
  destruct (runs late_cancel start) as [s|] eqn:E; [|vm_compute in E; discriminate].
  exists s. split; [done|]. apply (cancel_never_stuck s 2 5).
  - exact (runs_reachable late_cancel start s reach_start E).
  - assert (option_map (fun s => threads s !! 2%nat) (runs late_cancel start)
            = Some (Some (KDrain 5))) as Ht by (vm_compute; reflexivity).
    rewrite E in Ht. by injection Ht.
Defined.

(** A call that has returned is over for good: whatever the goroutines do
    afterwards, its channel holds no answer and none will be sent to it, so no
    pooled buffer is left behind with it (a handshake whose own write failed
    apart). *)
Theorem returned_call_over (s s' : sys) (t c : nat) (r : outcome) (l : list (nat * action))
    (Hr : reachable s) (Ht : threads s !! t = Some (KDone c r)) (Hw : r <> ErrWrite)
    (Hl : runs l s = Some s') : finished s' c.
Proof.
  pose proof (tidy_done s (reachable_tidy s Hr) t c r Ht Hw) as Hf. clear Ht Hr.
  revert s Hl Hf. induction l as [|[u a] l IH]; intros s Hl Hf; [by injection Hl as <-|].
  cbn [runs] in Hl. destruct (exec u a s) as [s1|] eqn:E; [|done].
  eapply IH; [done|]. by eapply finished_exec.
Qed.

(** The call is canceled; its answer arrives afterwards. *)
Definition canceled_call : list (nat * action) :=
  [(0, ASpawnWriter); (1, ASpawnReader); (2, ACall 5 3); (0, ARun); (0, ARun); (0, AWrite true);
   (2, ADone); (2, ARun)]%nat.

Lemma returned_call_over_witness :
  exists s s', runs canceled_call start = Some s /\ runs [(1%nat, ARead 7 3)] s = Some s' /\
    finished s' 5.
Proof.
  destruct (runs canceled_call start) as [s|] eqn:E; [|vm_compute in E; discriminate].
  assert (option_map (fun s => (threads s !! 2%nat, threads s !! 1%nat, received s))
            (runs canceled_call start)
          = Some (Some (KDone 5 ErrCtx), Some RIdle, [])) as Ht by (vm_compute; reflexivity).
  rewrite E in Ht. injection Ht as H2 H1 H0.
  destruct (runs [(1%nat, ARead 7 3)] s) as [s'|] eqn:E'.
  - exists s, s'. split; [done|]. split; [done|].
    apply (returned_call_over s s' 2 5 ErrCtx [(1%nat, ARead 7 3)]); try done.
    exact (runs_reachable canceled_call start s reach_start E).
  - exfalso. cbn [runs] in E'. unfold exec in E'. rewrite H1, H0 in E'. by simpl in E'.
Defined.

(** ** Two interleavings *)

(** A cancellation between the two steps of doWrite leaves an entry behind:
    the caller's delete comes before the writer's store, so the canceled call
    stays in the table with every goroutine idle or done, until an answer with
    its number happens to arrive. *)
Theorem canceled_entry_leaks :
  exists s, reachable s /\ threads s = {[0%nat := WIdle; 1%nat := KDone 5 ErrCtx]} /\
    Pending.find (pend s) 3 = Some 5%nat /\ queue s = [] /\
    exists k, calls s !! 5%nat = Some k /\ state k = stateCanceled.
Proof.
  assert (exists s, runs [(0, ASpawnWriter); (1, ACall 5 3); (0, ARun); (1, ADone); (1, ARun);
    (0, ARun); (0, AWrite true)]%nat start = Some s) as [s E] by (by eexists; vm_compute).
  exists s. split; [exact (runs_reachable _ start s reach_start E)|].
  vm_compute in E. injection E as <-. vm_compute. eauto 10.
Qed.

(** The handshake of a reconnection shares number 1 with the first call of
    the client: when that call is still waiting and gives up, it removes the
    handshake's entry; the answer to the handshake is then dropped and the
    handshake can only time out. *)
Theorem handshake_answer_lost :
  exists s k, reachable s /\ threads s !! 3%nat = Some (KWait 6) /\
    calls s !! 6%nat = Some k /\ state k = stateSent /\
    received s = [(7%nat, 1)] /\ released s = [7%nat] /\ Pending.find (pend s) 1 = None.
Proof.
  assert (exists s, runs [(0, ASpawnWriter); (1, ASpawnReader); (2, ACall 5 1); (0, ARun); (0, ARun);
    (0, AWrite true); (3, AHandshake 6); (3, ARun); (3, AWrite true); (2, ADone); (2, ARun);
    (1, ARead 7 1)]%nat start = Some s) as [s E] by (by eexists; vm_compute).
  exists s, (mkCall 1 (Open None) stateSent).
  split; [exact (runs_reachable _ start s reach_start E)|].
  vm_compute in E. injection E as <-. vm_compute. eauto 10.
Qed.
