(* ===== verification/Dispatcher.v ===== *)
(** internal/dispatcher: which endpoint a message for a route goes to
    (abstract.go, event.go, route.go, dispatcher.go), with core/endpoint and
    the service instances of registry/registry.go it is fed with.

    A dispatcher holds routes and events as objects: a dispatch changes the
    counter or the weights of its route and nothing else.  The endpoints of a
    route are kept twice, in the lists by state and in the table by instance;
    through the table only fields that never change are read, so it holds
    copies.  Parsing an URL (net/url) and the random numbers (math/rand) are
    parameters. *)
From stdpp Require Import base numbers list gmap strings.
From Stdlib Require Import ZArith Lia.
From S2P Require Import Prelude Types.

Open Scope Z_scope.
Open Scope go_scope.

(** ** registry.go *)

Module Registry.
Record Route := mkRoute {
  ID : Z;
  Internal : bool;
  Stateful : bool;
  Authorized : bool
}.

Record ServiceInstance := mkInstance {
  InsID : string;
  Name : string;
  Kind : string;
  Alias : string;
  State : string;
  Events : list Z;
  Routes : list Route;
  Services : list string;
  Endpoint : string;
  Weight : Z;
  Metadata : option (gmap string string)
}.
End Registry.
Import Registry (ServiceInstance).

(** ** core/endpoint *)

(** What the code reads of an url.URL: its fields and Query().Get("is_secure") *)
Record URL := mkURL { Scheme : string; Host : string; SecureField : string }.

Module Endpoint.
Record Endpoint := mkEndpoint { raw : URL; isSecure : bool }.

Definition ParseEndpoint (Parse : string -> res URL) (endpoint : string) : res Endpoint :=
  do raw <- Parse endpoint;
  Ok (mkEndpoint raw (bool_decide (SecureField raw = "true"%string))).

Definition NewEndpoint (scheme address : string) (isSecure : bool) : Endpoint :=
  mkEndpoint (mkURL scheme address (if isSecure then "true" else "false")) isSecure.

Definition Target (e : Endpoint) : string := "direct://" +:+ Host (raw e).
Definition Address (e : Endpoint) : string := Host (raw e).

#[global] Instance URL_eq_dec : EqDecision URL.
Proof. solve_decision. Defined.
#[global] Instance Endpoint_eq_dec : EqDecision Endpoint.
Proof. solve_decision. Defined.
End Endpoint.
Import Endpoint (Endpoint).

Module Dispatcher.

(** *** abstract.go *)

Record serviceEndpoint := mkSE {
  insID : string;
  state : string;
  endpoint : Endpoint;
  weight : Z;
  currWeight : Z
}.

Record abstract := mkAbstract {
  endpoints1 : list serviceEndpoint;
  endpoints2 : list serviceEndpoint;
  endpoints3 : list serviceEndpoint;
  endpoints4 : list serviceEndpoint;
  endpoints5 : gmap string serviceEndpoint
}.

Definition newAbstract : abstract := mkAbstract [] [] [] [] ∅.

Definition addServiceEndpoint (se : serviceEndpoint) (a : abstract) : abstract :=
  let '(mkAbstract e1 e2 e3 e4 e5) := a in
  let e5' := <[insID se := se]> e5 in
  if bool_decide (state se = Cluster.StateString Cluster.Work)
  then mkAbstract (e1 ++ [se]) e2 e3 e4 e5'
  else if bool_decide (state se = Cluster.StateString Cluster.Busy)
  then mkAbstract e1 (e2 ++ [se]) e3 e4 e5'
  else if bool_decide (state se = Cluster.StateString Cluster.Hang)
  then mkAbstract e1 e2 (e3 ++ [se]) e4 e5'
  else if bool_decide (state se = Cluster.StateString Cluster.Shut)
  then mkAbstract e1 e2 e3 (e4 ++ [se]) e5'
  else mkAbstract e1 e2 e3 e4 e5'.

(** *** route.go *)

Record Route := mkRoute {
  route_abs : abstract;
  route : Registry.Route;
  group : string;
  counter : Z
}.

Definition newRoute (group : string) (route : Registry.Route) : Route :=
  mkRoute newAbstract route group 0.

Definition ID (r : Route) : Z := Registry.ID (route r).
Definition Internal (r : Route) : bool := Registry.Internal (route r).
Definition Stateful (r : Route) : bool := Registry.Stateful (route r).
Definition Authorized (r : Route) : bool := Registry.Authorized (route r).

Definition directDispatch (id : string) : ST Route Endpoint := fun r =>
  match endpoints5 (route_abs r) !! id with
  | None => (Err ErrNotFoundEndpoint, r)
  | Some sep => (Ok (endpoint sep), r)
  end.

(** l[i].endpoint *)
Definition endpoint_at (l : list serviceEndpoint) (i : Z) : res Endpoint :=
  do se <- go_index l i; Ok (endpoint se).

(** rand n is the answer of rand.IntN(n) *)
Definition randomDispatch (rand : Z -> Z) : ST Route Endpoint := fun r =>
  let l1 := endpoints1 (route_abs r) in
  let l2 := endpoints2 (route_abs r) in
  if 0 <? len l1 then (endpoint_at l1 (rand (len l1)), r)
  else if 0 <? len l2 then (endpoint_at l2 (rand (len l2)), r)
  else (Err ErrNotFoundEndpoint, r).

(** the counter is taken first, then the list is indexed *)
Definition round_robin (l : list serviceEndpoint) : ST Route Endpoint := fun r =>
  let c := u64 (counter r + 1) in
  (endpoint_at l (c mod len l), mkRoute (route_abs r) (route r) (group r) c).

Definition roundRobinDispatch : ST Route Endpoint := fun r =>
  let l1 := endpoints1 (route_abs r) in
  let l2 := endpoints2 (route_abs r) in
  if 0 <? len l1 then round_robin l1 r
  else if 0 <? len l2 then round_robin l2 r
  else (Err ErrNotFoundEndpoint, r).

Definition set_currWeight (z : Z) (se : serviceEndpoint) : serviceEndpoint :=
  mkSE (insID se) (state se) (endpoint se) (weight se) z.

(** One turn of the loop of weightRoundRobinDispatch: selected is an index *)
Definition wrr_turn (x : list serviceEndpoint * option nat * Z) (i : nat)
    : list serviceEndpoint * option nat * Z :=
  let '(l, selected, totalWeight) := x in
  match l !! i with
  | None => x
  | Some se =>
      let se := set_currWeight (i64 (currWeight se + weight se)) se in
      let l := <[i := se]> l in
      let totalWeight := i64 (totalWeight + weight se) in
      let selected :=
        match selected ≫= (fun j => l !! j) with
        | None => Some i
        | Some sel => if currWeight sel <? currWeight se then Some i else selected
        end in
      (l, selected, totalWeight)
  end.

(** The loop over one list, and what follows it *)
Definition wrr_select (l : list serviceEndpoint) : res Endpoint * list serviceEndpoint :=
  let '(l, selected, totalWeight) := fold_left wrr_turn (seq 0 (length l)) (l, None, 0) in
  match selected with
  | None => (Panic, l)
  | Some j =>
      match l !! j with
      | None => (Panic, l)
      | Some se => (Ok (endpoint se),
                    <[j := set_currWeight (i64 (currWeight se - totalWeight)) se]> l)
      end
  end.

Definition weightRoundRobinDispatch : ST Route Endpoint := fun r =>
  let '(mkAbstract e1 e2 e3 e4 e5) := route_abs r in
  if 0 <? len e1 then
    let '(x, e1') := wrr_select e1 in
    (x, mkRoute (mkAbstract e1' e2 e3 e4 e5) (route r) (group r) (counter r))
  else if 0 <? len e2 then
    let '(x, e2') := wrr_select e2 in
    (x, mkRoute (mkAbstract e1 e2' e3 e4 e5) (route r) (group r) (counter r))
  else (Err ErrNotFoundEndpoint, r).

(** cluster.Dispatch *)
Definition Random : string := "random".
Definition RoundRobin : string := "rr".
Definition WeightRoundRobin : string := "wrr".

(** insID is the optional argument; dispatch the dispatcher's strategy *)
Definition FindEndpoint (dispatch : string) (rand : Z -> Z) (id : list string)
    : ST Route Endpoint :=
  match id with
  | x :: _ =>
      if bool_decide (x = ""%string) then
        if bool_decide (dispatch = RoundRobin) then roundRobinDispatch
        else if bool_decide (dispatch = WeightRoundRobin) then weightRoundRobinDispatch
        else randomDispatch rand
      else directDispatch x
  | [] =>
      if bool_decide (dispatch = RoundRobin) then roundRobinDispatch
      else if bool_decide (dispatch = WeightRoundRobin) then weightRoundRobinDispatch
      else randomDispatch rand
  end.

(** *** event.go *)

Record Event := mkEvent { event_abs : abstract; event : Z }.

Definition newEvent (event : Z) : Event := mkEvent newAbstract event.

(** for _, se := range l; false when fn asked to stop *)
Fixpoint visit {S} (fn : string -> Endpoint -> ST S bool) (l : list serviceEndpoint) : ST S bool :=
  match l with
  | [] => st_ret true
  | se :: l' => let! go := fn (insID se) (endpoint se) in
                if go : bool then visit fn l' else st_ret false
  end.

Definition Event_VisitEndpoints {S} (fn : string -> Endpoint -> ST S bool) (e : Event)
    : ST S unit :=
  let a := event_abs e in
  let! go := visit fn (endpoints1 a) in
  if negb go then st_ret tt else
  let! go := visit fn (endpoints2 a) in
  if negb go then st_ret tt else
  let! go := visit fn (endpoints3 a) in
  if negb go then st_ret tt else
  let! _ := visit fn (endpoints4 a) in st_ret tt.

(** *** dispatcher.go *)

Record Dispatcher := mkDispatcher {
  dispatch : string;
  routes : gmap Z Route;
  events : gmap Z Event;
  endpoints : gmap string Endpoint;
  instances : gmap string ServiceInstance
}.

Definition NewDispatcher (dispatch : string) : Dispatcher :=
  mkDispatcher dispatch ∅ ∅ ∅ ∅.

Definition EndpointCount (d : Dispatcher) : Z := Z.of_nat (size (endpoints d)).

Definition Dispatcher_FindEndpoint (id : string) (d : Dispatcher) : res Endpoint :=
  match endpoints d !! id with None => Err ErrNotFoundEndpoint | Some ep => Ok ep end.

Definition FindRoute (id : Z) (d : Dispatcher) : res Route :=
  match routes d !! id with None => Err ErrNotFoundRoute | Some r => Ok r end.

Definition FindEvent (id : Z) (d : Dispatcher) : res Event :=
  match events d !! id with None => Err ErrNotFoundEvent | Some e => Ok e end.

(** A method of the route object found under an identifier *)
Definition on_route {A} (id : Z) (m : ST Route A) : ST Dispatcher A := fun d =>
  match routes d !! id with
  | None => (Err ErrNotFoundRoute, d)
  | Some r =>
      let '(x, r') := m r in
      (x, mkDispatcher (dispatch d) (<[id := r']> (routes d)) (events d) (endpoints d)
            (instances d))
  end.

Section ReplaceServices.
Context (Parse : string -> res URL).

Definition new_endpoint (service : ServiceInstance) (ep : Endpoint) : serviceEndpoint :=
  mkSE (Registry.InsID service) (Registry.State service) ep (Registry.Weight service) 0.

Definition add_route (service : ServiceInstance) (ep : Endpoint) (rs : gmap Z Route)
    (item : Registry.Route) : gmap Z Route :=
  let r := match rs !! Registry.ID item with
           | Some r => r
           | None => newRoute (Registry.Alias service) item
           end in
  <[Registry.ID item :=
      mkRoute (addServiceEndpoint (new_endpoint service ep) (route_abs r)) (route r) (group r)
        (counter r)]> rs.

Definition add_event (service : ServiceInstance) (ep : Endpoint) (es : gmap Z Event) (evt : Z)
    : gmap Z Event :=
  let e := match es !! evt with Some e => e | None => newEvent evt end in
  <[evt := mkEvent (addServiceEndpoint (new_endpoint service ep) (event_abs e)) (event e)]> es.

(** One turn of the loop over the services; a service that does not parse is logged *)
Definition add_service (d : Dispatcher) (service : ServiceInstance) : Dispatcher :=
  match Endpoint.ParseEndpoint Parse (Registry.Endpoint service) with
  | Ok ep =>
      mkDispatcher (dispatch d)
        (fold_left (add_route service ep) (Registry.Routes service) (routes d))
        (fold_left (add_event service ep) (Registry.Events service) (events d))
        (<[Registry.InsID service := ep]> (endpoints d))
        (<[Registry.InsID service := service]> (instances d))
  | _ => d
  end.

(** The new tables are built aside and put in place under the lock. *)
Definition ReplaceServices (services : list ServiceInstance) (d : Dispatcher) : Dispatcher :=
  fold_left add_service services (NewDispatcher (dispatch d)).
End ReplaceServices.
End Dispatcher.
