(* ===== verification/DispatcherOk.v ===== *)
(** What the dispatcher promises: the tables built from the service list, the
    states a dispatch may choose from, and the fairness of the two rotations. *)
From stdpp Require Import base numbers list gmap strings sorting.
From Stdlib Require Import ZArith Lia Permutation.
From S2P Require Import Prelude Types Dispatcher.
Import Dispatcher.Dispatcher Endpoint (Endpoint).

Open Scope Z_scope.
Open Scope go_scope.

(** ** Sums *)

Definition sumZ (l : list Z) : Z := foldr Z.add 0 l.

Lemma sumZ_app l k : sumZ (l ++ k) = sumZ l + sumZ k.
Proof. unfold sumZ. induction l as [|x l IH]; simpl in *; lia. Qed.

Lemma sumZ_lower c l : Forall (Z.le c) l -> len l * c <= sumZ l.
Proof.
  unfold len, sumZ. induction 1 as [|x l Hx _ IH]; [simpl; lia|].
  rewrite length_cons. cbn [foldr]. lia.
Qed.

(** One element is at most what the others leave. *)
Lemma sumZ_elem c l i x :
  Forall (Z.le c) l -> l !! i = Some x -> x + (len l - 1) * c <= sumZ l.
Proof.
  intros Hl Hi. rewrite <- (take_drop_middle l i x Hi) in *.
  apply Forall_app in Hl as [H1 H2]. inversion_clear H2 as [|? ? _ H3].
  apply sumZ_lower in H1, H3. rewrite sumZ_app, len_app, len_cons. simpl. fold (sumZ (drop (S i) l)).
  nia.
Qed.

Lemma sumZ_insert l i x y :
  l !! i = Some x -> sumZ (<[i := y]> l) = sumZ l + y - x.
Proof.
  intros Hi. assert (i < length l)%nat by eauto using lookup_lt_Some.
  rewrite insert_take_drop by done. rewrite <- (take_drop_middle l i x Hi) at 3.
  rewrite !sumZ_app. simpl. fold (sumZ (drop (S i) l)). lia.
Qed.

Lemma sumZ_mono l k : Forall2 Z.le l k -> sumZ l <= sumZ k.
Proof. unfold sumZ. induction 1; simpl; lia. Qed.

(** Pointwise below and equal in sum: equal *)
Lemma sumZ_pointwise l k : Forall2 Z.le l k -> sumZ l = sumZ k -> l = k.
Proof.
  induction 1 as [|x y l k Hxy Hlk IH]; [done|]. simpl. fold (sumZ l) (sumZ k). intros Hs.
  apply sumZ_mono in Hlk. assert (x = y) by lia. subst. f_equal. apply IH. lia.
Qed.

(** ** Weighted round robin

    [wrr_ok W l]: the list between two dispatches.  The running weights add up
    to nothing, none is as low as -W, and the machine integers do not wrap. *)

Definition weights (l : list serviceEndpoint) : list Z := map weight l.
Definition currWeights (l : list serviceEndpoint) : list Z := map currWeight l.

Record wrr_ok (W : Z) (l : list serviceEndpoint) : Prop := {
  wrr_pos : 0 < W;
  wrr_total : sumZ (weights l) = W;
  wrr_weights : Forall (Z.le 0) (weights l);
  wrr_balance : sumZ (currWeights l) = 0;
  wrr_floor : Forall (Z.le (1 - W)) (currWeights l);
  wrr_small : len l * W < 2 ^ 62
}.

Definition bump (se : serviceEndpoint) : serviceEndpoint :=
  set_currWeight (currWeight se + weight se) se.

Lemma wrr_ok_bounds W l i se :
  wrr_ok W l -> l !! i = Some se ->
  0 <= weight se <= W /\ 1 - W <= currWeight se < len l * W /\ 0 < len l.
Proof.
  intros [HW Ht Hw Hb Hf Hs] Hi.
  assert (weights l !! i = Some (weight se)) as Hwi by (unfold weights; by rewrite list_lookup_fmap, Hi).
  assert (currWeights l !! i = Some (currWeight se)) as Hci
    by (unfold currWeights; by rewrite list_lookup_fmap, Hi).
  pose proof (sumZ_elem 0 _ _ _ Hw Hwi). pose proof (sumZ_elem _ _ _ _ Hf Hci).
  assert (len (currWeights l) = len l) as Hl by (unfold len, currWeights; by rewrite length_map).
  rewrite Forall_lookup in Hw, Hf. specialize (Hw _ _ Hwi). specialize (Hf _ _ Hci).
  assert (0 < len l) by (apply lookup_lt_Some in Hi; unfold len; lia).
  rewrite Hl in *. nia.
Qed.

Lemma wrr_no_wrap W l i se :
  wrr_ok W l -> l !! i = Some se -> i64 (currWeight se + weight se) = currWeight se + weight se.
Proof.
  intros H Hi. destruct (wrr_ok_bounds W l i se H Hi) as (? & ? & ?).
  apply wrapS_id; [lia|]. destruct H. unfold inS. nia.
Qed.

Lemma partial_total W l k :
  wrr_ok W l -> 0 <= sumZ (weights (take k l)) <= W.
Proof.
  intros [? Ht Hw _ _ _]. rewrite <- (take_drop k l) in Ht, Hw at 1.
  unfold weights in *. rewrite map_app in Ht, Hw. rewrite sumZ_app in Ht.
  apply Forall_app in Hw as [H1 H2]. apply sumZ_lower in H1, H2. lia.
Qed.

Lemma wrr_total_no_wrap W l k se :
  wrr_ok W l -> l !! k = Some se ->
  i64 (sumZ (weights (take k l)) + weight se) = sumZ (weights (take (S k) l)).
Proof.
  intros H Hk. pose proof (partial_total W l (S k) H) as Hp. revert Hp.
  rewrite (take_S_r l k se Hk). unfold weights. rewrite map_app, sumZ_app. simpl. rewrite Z.add_0_r.
  intros Hp. destruct H as [? _ _ _ _ Hs]. apply lookup_lt_Some in Hk.
  apply wrapS_id; [lia|]. unfold inS, len in *. nia.
Qed.

(** The list in the middle of the loop *)
Definition raised (k : nat) (l : list serviceEndpoint) : list serviceEndpoint :=
  map bump (take k l) ++ drop k l.

Lemma raised_lookup k l i se :
  l !! i = Some se -> raised k l !! i = Some (if decide (i < k)%nat then bump se else se).
Proof.
  intros Hi. unfold raised. pose proof (lookup_lt_Some _ _ _ Hi).
  assert (length (map bump (take k l)) = min k (length l)) as Hl
    by (by rewrite length_map, length_take).
  destruct (decide (i < k)%nat).
  - rewrite lookup_app_l by lia. change (map bump) with (fmap (M := list) bump).
    by rewrite list_lookup_fmap, lookup_take_lt, Hi by lia.
  - rewrite lookup_app_r by lia. rewrite Hl, lookup_drop, <- Hi. f_equal. lia.
Qed.

Lemma raised_insert k l se :
  l !! k = Some se -> <[k := bump se]> (raised k l) = raised (S k) l.
Proof.
  intros Hk. pose proof (lookup_lt_Some _ _ _ Hk). unfold raised.
  assert (length (map bump (take k l)) = k) as Hl by (rewrite length_map, length_take; lia).
  rewrite insert_app_r_alt by lia. rewrite Hl, Nat.sub_diag, (drop_S l se k Hk). simpl.
  by rewrite (take_S_r l k se Hk), map_app, <- app_assoc.
Qed.

(** The loop after [k] turns: the first [k] are raised, and a largest of them is selected. *)
Definition largest (k : nat) (l : list serviceEndpoint) (sel : option nat) : Prop :=
  match sel with
  | None => k = O
  | Some j => exists se, l !! j = Some se /\ (j < k)%nat /\
      forall i se', (i < k)%nat -> l !! i = Some se' ->
      currWeight (bump se') <= currWeight (bump se)
  end.

Lemma largest_S k l sel se :
  l !! k = Some se -> largest k l sel ->
  largest (S k) l
    (match sel ≫= (fun j => raised (S k) l !! j) with
     | None => Some k
     | Some s => if currWeight s <? currWeight (bump se) then Some k else sel
     end).
Proof.
  intros Hk. assert (forall i se', (i < S k)%nat -> l !! i = Some se' ->
    (i < k)%nat \/ se' = se) as Hcases.
  { intros i se' Hi Hs. destruct (decide (i = k)); [right|left]; [congruence|lia]. }
  intros Hs. destruct sel as [j|]; cbn [mbind option_bind].
  - destruct Hs as (sj & Hj & Hjk & Hmax).
    rewrite (raised_lookup (S k) l j sj Hj), decide_True by lia.
    destruct (Z.ltb_spec (currWeight (bump sj)) (currWeight (bump se))) as [Hlt|Hge]; unfold largest.
    + exists se. split_and!; [done|lia|]. intros i se' Hi Hs.
      destruct (Hcases i se' Hi Hs) as [Hi'| ->]; [|lia].
      specialize (Hmax i se' Hi' Hs). lia.
    + exists sj. split_and!; [done|lia|]. intros i se' Hi Hs.
      destruct (Hcases i se' Hi Hs) as [Hi'| ->]; [by eapply Hmax|lia].
  - simpl in Hs. subst k. unfold largest. exists se. split_and!; [done|lia|]. intros i se' Hi Hs.
    destruct (Hcases i se' Hi Hs) as [| ->]; lia.
Qed.

Lemma wrr_loop W l k :
  wrr_ok W l -> (k <= length l)%nat ->
  exists sel, fold_left wrr_turn (seq 0 k) (l, None, 0)
    = (raised k l, sel, sumZ (weights (take k l))) /\ largest k l sel.
Proof.
  intros H. induction k as [|k IH]; intros Hk; [by exists None|].
  destruct IH as (sel & IH & Hsel); [lia|].
  destruct (lookup_lt_is_Some_2 l k) as [se Hse]; [lia|].
  rewrite seq_S, fold_left_app, IH. cbn [fold_left Nat.add wrr_turn].
  rewrite (raised_lookup k l k se Hse), decide_False by lia.
  rewrite (wrr_no_wrap W l k se H Hse). change (set_currWeight _ se) with (bump se).
  rewrite (raised_insert k l se Hse). change (weight (bump se)) with (weight se).
  rewrite (wrr_total_no_wrap W l k se H Hse).
  eexists. split; [done|]. by apply largest_S.
Qed.

(** One dispatch: some endpoint [j] pays the total weight, everyone gains his own. *)
Definition pay (W : Z) (j i : nat) (se : serviceEndpoint) : serviceEndpoint :=
  set_currWeight (currWeight se + weight se - (if decide (i = j) then W else 0)) se.

Lemma wrr_select_ok W l :
  wrr_ok W l ->
  exists j se, l !! j = Some se /\ 1 <= currWeight se + weight se /\
    wrr_select l = (Ok (endpoint se), imap (pay W j) l).
Proof.
  intros H. destruct (wrr_loop W l (length l) H (le_n _)) as (sel & Hloop & Hsel).
  unfold wrr_select. rewrite Hloop. unfold raised in *. rewrite firstn_all, drop_all, app_nil_r in *.
  rewrite (wrr_total W l H).
  destruct sel as [j|].
  2:{ simpl in Hsel. destruct l; [|done]. destruct H as [? Ht]. simpl in Ht. lia. }
  destruct Hsel as (se & Hj & _ & Hmax). exists j, se. split; [done|].
  assert (1 <= currWeight se + weight se) as Hpos.
  { destruct (decide (1 <= currWeight se + weight se)) as [|Hneg]; [done|]. exfalso.
    assert (sumZ (weights l) + sumZ (currWeights l) <= 0); [|destruct H; lia].
    assert (Forall (fun s => currWeight s + weight s <= 0) l) as Hall.
    { apply Forall_lookup. intros i s Hi. specialize (Hmax i s (lookup_lt_Some _ _ _ Hi) Hi).
      simpl in Hmax. lia. }
    clear -Hall. induction Hall; simpl; [lia|]. unfold sumZ in *. lia. }
  split; [done|]. change (map bump) with (fmap (M := list) bump). rewrite list_lookup_fmap, Hj.
  cbn [fmap option_fmap option_map]. f_equal. apply list_eq. intros i.
  rewrite list_lookup_imap.
  destruct (wrr_ok_bounds W l j se H Hj) as (? & ? & ?).
  destruct (decide (i = j)) as [->|Hne].
  - rewrite list_lookup_insert_eq by (rewrite length_fmap; eauto using lookup_lt_Some).
    rewrite Hj. simpl. unfold pay. rewrite decide_True by done. f_equal. unfold set_currWeight. simpl.
    f_equal. apply wrapS_id; [lia|]. destruct H. unfold inS. nia.
  - rewrite list_lookup_insert_ne by done. rewrite list_lookup_fmap. destruct (l !! i); simpl; [|done].
    unfold pay. rewrite decide_False by done. unfold bump. do 2 f_equal. lia.
Qed.

Lemma pay_weights W j l : weights (imap (pay W j) l) = weights l.
Proof.
  unfold weights. apply list_eq. intros i. change (map weight) with (fmap (M := list) weight).
  rewrite !list_lookup_fmap, list_lookup_imap. by destruct (l !! i).
Qed.

Lemma pay_currWeights W j l i se :
  l !! i = Some se ->
  currWeights (imap (pay W j) l) !! i
  = Some (currWeight se + weight se - if decide (i = j) then W else 0).
Proof.
  intros Hi. unfold currWeights. change (map currWeight) with (fmap (M := list) currWeight).
  by rewrite list_lookup_fmap, list_lookup_imap, Hi.
Qed.

(** With offset k, the payer is index j - k. *)
Lemma pay_sum W l j :
  (j < length l)%nat ->
  sumZ (currWeights (imap (pay W j) l)) = sumZ (currWeights l) + sumZ (weights l) - W.
Proof.
  revert j. induction l as [|s l IH]; intros j Hj; [simpl in Hj; lia|].
  simpl imap. unfold currWeights, weights in *. simpl. fold (sumZ (map currWeight l)).
  fold (sumZ (map weight l)).
  destruct j as [|j].
  - simpl. fold (sumZ (map currWeight (imap (pay W 0 ∘ S) l))).
    assert (map currWeight (imap (pay W 0 ∘ S) l) = map (fun s => currWeight s + weight s) l) as ->.
    { clear. generalize 1%nat. intros _. apply list_eq. intros i.
      change (map currWeight) with (fmap (M := list) currWeight).
      rewrite list_lookup_fmap, list_lookup_imap.
      change (map (λ s0 : serviceEndpoint, currWeight s0 + weight s0) l)
        with ((λ s0 : serviceEndpoint, currWeight s0 + weight s0) <$> l).
      rewrite list_lookup_fmap. destruct (l !! i); simpl; [|done]. f_equal. lia. }
    assert (forall k : list serviceEndpoint, sumZ (map (fun s => currWeight s + weight s) k)
            = sumZ (map currWeight k) + sumZ (map weight k)) as ->.
    { intros k. unfold sumZ. induction k; simpl in *; lia. }
    lia.
  - simpl in Hj. specialize (IH j ltac:(lia)).
    assert (imap (pay W (S j) ∘ S) l = imap (pay W j) l) as ->.
    { apply imap_ext. intros i x _. unfold pay, compose. do 2 f_equal.
      repeat case_decide; congruence || lia. }
    fold (sumZ (map currWeight (imap (pay W j) l))). rewrite decide_False by done. lia.
Qed.

Lemma wrr_pay_ok W l j se :
  wrr_ok W l -> l !! j = Some se -> 1 <= currWeight se + weight se -> wrr_ok W (imap (pay W j) l).
Proof.
  intros H Hj Hpos. destruct H as [HW Ht Hw Hb Hf Hs]. split.
  - done.
  - by rewrite pay_weights.
  - by rewrite pay_weights.
  - rewrite pay_sum by eauto using lookup_lt_Some. lia.
  - apply Forall_lookup. intros i c Hc.
    assert (is_Some (l !! i)) as [s Hi].
    { apply lookup_lt_is_Some. apply lookup_lt_Some in Hc. unfold currWeights in Hc.
      by rewrite length_map, length_imap in Hc. }
    rewrite (pay_currWeights W j l i s Hi) in Hc. injection Hc as <-.
    rewrite Forall_lookup in Hw, Hf.
    assert (0 <= weight s) by (apply (Hw i); unfold weights; by rewrite list_lookup_fmap, Hi).
    assert (1 - W <= currWeight s) by (apply (Hf i); unfold currWeights; by rewrite list_lookup_fmap, Hi).
    case_decide as Hij; [|lia]. assert (s = se) by congruence. subst s. lia.
  - unfold len in *. by rewrite length_imap.
Qed.

(** The rotation of one list, [n] times over: [js] are the chosen positions. *)
Fixpoint wrr_run (n : nat) (l : list serviceEndpoint)
    : res (list Endpoint) * list serviceEndpoint :=
  match n with
  | O => (Ok [], l)
  | S n' => match wrr_select l with
            | (Ok e, l') => match wrr_run n' l' with
                            | (Ok es, l'') => (Ok (e :: es), l'')
                            | r => r
                            end
            | (Err e, l') => (Err e, l')
            | (Panic, l') => (Panic, l')
            end
  end.

Definition times_chosen (i : nat) (js : list nat) : Z := Z.of_nat (count_occ Nat.eq_dec js i).

Definition account (W : Z) (js : list nat) (i : nat) (se : serviceEndpoint) : serviceEndpoint :=
  set_currWeight (currWeight se + len js * weight se - W * times_chosen i js) se.

Lemma account_cons W j js l :
  imap (account W js) (imap (pay W j) l) = imap (account W (j :: js)) l.
Proof.
  apply list_eq. intros i. rewrite !list_lookup_imap. destruct (l !! i) as [s|]; [|done]. simpl.
  unfold account, pay, times_chosen, set_currWeight. simpl. do 2 f_equal.
  rewrite len_cons. destruct (Nat.eq_dec j i), (decide (i = j)); subst; try congruence; lia.
Qed.

Lemma wrr_run_ok W n l :
  wrr_ok W l ->
  exists js, length js = n /\ Forall (fun j => (j < length l)%nat) js /\
    wrr_run n l = (Ok (omap (fun j => endpoint <$> l !! j) js), imap (account W js) l) /\
    wrr_ok W (imap (account W js) l).
Proof.
  revert l. induction n as [|n IH]; intros l H.
  { exists []. assert (imap (account W []) l = l) as ->.
    { apply list_eq. intros i. rewrite list_lookup_imap. destruct (l !! i) as [[]|]; [|done].
      unfold account, set_currWeight, times_chosen, len. simpl. do 2 f_equal. lia. }
    done. }
  destruct (wrr_select_ok W l H) as (j & se & Hj & Hpos & Hsel).
  pose proof (wrr_pay_ok W l j se H Hj Hpos) as H'.
  destruct (IH _ H') as (js & Hlen & Hjs & Hrun & Hok).
  exists (j :: js). rewrite <- account_cons. rewrite length_imap in Hjs.
  split_and!; [simpl; lia|constructor; [eauto using lookup_lt_Some|done]| |done].
  simpl wrr_run. rewrite Hsel, Hrun. simpl. rewrite Hj. simpl. do 3 f_equal.
  apply list_omap_ext. clear -l. induction js; constructor; [|done].
  rewrite list_lookup_imap. by destruct (l !! _).
Qed.

(** How often each is chosen, all together *)
Lemma chosen_cons j js k m :
  sumZ (map (fun i => times_chosen i (j :: js)) (seq k m))
  = (if decide (k <= j < k + m)%nat then 1 else 0) +
    sumZ (map (fun i => times_chosen i js) (seq k m)).
Proof.
  revert k. induction m as [|m IH]; intros k; [rewrite decide_False by lia; done|].
  specialize (IH (S k)). unfold sumZ, times_chosen in *. cbn [seq map foldr]. rewrite IH.
  cbn [count_occ]. destruct (Nat.eq_dec j k); repeat case_decide; lia.
Qed.

Lemma chosen_total (n : nat) js :
  Forall (fun j => (j < n)%nat) js -> sumZ (map (fun i => times_chosen i js) (seq 0 n)) = len js.
Proof.
  induction 1 as [|j js Hj _ IH].
  - assert (forall k, sumZ (map (fun i => times_chosen i []) (seq k n)) = 0) as H; [|by rewrite H].
    unfold sumZ, times_chosen. induction n as [|n IH]; intros k; simpl in *; [done|]. by rewrite IH.
  - rewrite chosen_cons, decide_True, IH, len_cons by lia. lia.
Qed.

(** After W dispatches from rest everyone was chosen as often as he weighs. *)
Definition at_rest (l : list serviceEndpoint) : Prop := Forall (fun se => currWeight se = 0) l.

Lemma chosen_exactly W l js :
  wrr_ok W l -> at_rest l -> len js = W -> Forall (fun j => (j < length l)%nat) js ->
  wrr_ok W (imap (account W js) l) ->
  map (fun i => times_chosen i js) (seq 0 (length l)) = weights l.
Proof.
  intros H H0 HW Hjs H'. apply sumZ_pointwise.
  2:{ rewrite chosen_total by done. destruct H. lia. }
  apply Forall2_same_length_lookup_2.
  { unfold weights. by rewrite !length_map, length_seq. }
  intros i c w Hc Hw. unfold weights in Hw.
  rewrite list_lookup_fmap in Hw. apply fmap_Some in Hw as (s & Hi & ->).
  pose proof (lookup_lt_Some _ _ _ Hi).
  rewrite list_lookup_fmap, lookup_seq_lt in Hc by done. simpl in Hc. injection Hc as <-.
  pose proof (wrr_floor W _ H') as Hf. rewrite Forall_lookup in Hf.
  specialize (Hf i (currWeight (account W js i s))).
  unfold currWeights in Hf. rewrite list_lookup_fmap, list_lookup_imap, Hi in Hf.
  specialize (Hf eq_refl). simpl in Hf. rewrite HW in Hf.
  assert (currWeight s = 0) as E by (by eapply Forall_lookup_1 in H0). rewrite E in Hf.
  pose proof (wrr_pos W l H). nia.
Qed.

(** Counting positions is counting endpoints. *)
Definition shares (l : list serviceEndpoint) : list Endpoint :=
  concat (map (fun se => replicate (Z.to_nat (weight se)) (endpoint se)) l).

Lemma count_replicate n x y :
  count_occ Nat.eq_dec (replicate n x) y = if decide (x = y) then n else O.
Proof.
  induction n as [|n IH]; simpl; [by destruct (decide _)|].
  rewrite IH. destruct (Nat.eq_dec x y), (decide (x = y)); congruence.
Qed.

Lemma count_concat (f : nat -> nat) k n x :
  count_occ Nat.eq_dec (concat (map (fun i => replicate (f i) i) (seq k n))) x
  = if decide (k <= x < k + n)%nat then f x else O.
Proof.
  revert k. induction n as [|n IH]; intros k; [rewrite decide_False by lia; done|].
  cbn [seq map concat]. rewrite count_occ_app, IH, count_replicate.
  repeat case_decide; subst; lia.
Qed.

(** A list of positions, sorted into groups *)
Lemma grouped n js :
  Forall (fun j => (j < n)%nat) js ->
  js ≡ₚ concat (map (fun i => replicate (Z.to_nat (times_chosen i js)) i) (seq 0 n)).
Proof.
  intros H. apply (Permutation_count_occ Nat.eq_dec). intros x. rewrite count_concat.
  unfold times_chosen. rewrite Nat2Z.id. case_decide as Hx; [done|].
  apply count_occ_not_In. rewrite <- list_elem_of_In. intros Hin.
  rewrite Forall_forall in H. specialize (H x Hin). lia.
Qed.

Lemma omap_concat {A B} (f : A -> option B) (ls : list (list A)) :
  omap f (concat ls) = concat (map (omap f) ls).
Proof. induction ls as [|l ls IH]; simpl; [done|]. by rewrite omap_app, IH. Qed.

Lemma omap_replicate {A B} (f : A -> option B) n x :
  omap f (replicate n x) = match f x with Some y => replicate n y | None => [] end.
Proof. induction n as [|n IH]; csimpl; [by destruct (f x)|]. rewrite IH. by destruct (f x). Qed.

Lemma chosen_shares W l js :
  wrr_ok W l -> Forall (fun j => (j < length l)%nat) js ->
  map (fun i => times_chosen i js) (seq 0 (length l)) = weights l ->
  omap (fun j => endpoint <$> l !! j) js ≡ₚ shares l.
Proof.
  intros H Hjs Hw. rewrite (grouped (length l) js Hjs) at 1. rewrite omap_concat, map_map.
  unfold shares. apply reflexive_eq. f_equal. apply list_eq. intros i.
  rewrite !list_lookup_fmap. destruct (l !! i) as [s|] eqn:Hi; simpl.
  2:{ rewrite lookup_seq_ge; [done|]. by apply lookup_ge_None. }
  pose proof (lookup_lt_Some _ _ _ Hi). rewrite lookup_seq_lt by done. simpl.
  rewrite omap_replicate, Hi. simpl. do 3 f_equal.
  assert (map (fun i => times_chosen i js) (seq 0 (length l)) !! i = Some (weight s)) as E.
  { rewrite Hw. unfold weights. by rewrite list_lookup_fmap, Hi. }
  rewrite list_lookup_fmap, lookup_seq_lt in E by done. simpl in E. congruence.
Qed.

(** ** Dispatches of a route *)

(** The endpoints a dispatch without a preferred instance chooses from *)
Definition pool (r : Route) : list serviceEndpoint :=
  match endpoints1 (route_abs r) with [] => endpoints2 (route_abs r) | l => l end.

Definition set_pool (l : list serviceEndpoint) (r : Route) : Route :=
  let '(mkAbstract e1 e2 e3 e4 e5) := route_abs r in
  mkRoute (match e1 with [] => mkAbstract e1 l e3 e4 e5 | _ => mkAbstract l e2 e3 e4 e5 end)
    (route r) (group r) (counter r).

Lemma wrr_dispatch r :
  pool r <> [] ->
  weightRoundRobinDispatch r = ((wrr_select (pool r)).1, set_pool (wrr_select (pool r)).2 r).
Proof.
  destruct r as [[e1 e2 e3 e4 e5] ri g c]. unfold weightRoundRobinDispatch, pool, set_pool. simpl.
  destruct e1 as [|x e1]; [destruct e2 as [|x e2]; [done|]|]; intros _.
  - change (0 <? len []) with false. cbv iota.
    rewrite (proj2 (Z.ltb_lt 0 (len (x :: e2)))) by (rewrite len_cons; pose proof (len_nonneg e2); lia).
    by destruct (wrr_select _).
  - rewrite (proj2 (Z.ltb_lt 0 (len (x :: e1)))) by (rewrite len_cons; pose proof (len_nonneg e1); lia).
    by destruct (wrr_select _).
Qed.

Lemma pool_set_pool l r : l <> [] -> pool r <> [] -> pool (set_pool l r) = l.
Proof.
  destruct r as [[e1 e2 e3 e4 e5] ri g c]. unfold pool, set_pool. simpl. by destruct e1, l.
Qed.

Lemma set_pool_set_pool l k r :
  l <> [] -> pool r <> [] -> set_pool k (set_pool l r) = set_pool k r.
Proof.
  destruct r as [[e1 e2 e3 e4 e5] ri g c]. unfold pool, set_pool. simpl. by destruct e1, l.
Qed.

Lemma set_pool_pool r : set_pool (pool r) r = r.
Proof. destruct r as [[e1 e2 e3 e4 e5] ri g c]. unfold pool, set_pool. simpl. by destruct e1. Qed.

Lemma wrr_ok_nonempty W l : wrr_ok W l -> l <> [].
Proof. intros [? Ht] ->. simpl in Ht. lia. Qed.

Lemma wrr_times W n r :
  wrr_ok W (pool r) ->
  st_times n weightRoundRobinDispatch r
  = ((wrr_run n (pool r)).1, set_pool (wrr_run n (pool r)).2 r).
Proof.
  revert r. induction n as [|n IH]; intros r H; [simpl; by rewrite set_pool_pool|].
  pose proof (wrr_ok_nonempty W _ H) as Hne.
  destruct (wrr_select_ok W _ H) as (j & se & Hj & Hpos & Hsel).
  pose proof (wrr_pay_ok W _ j se H Hj Hpos) as H'. pose proof (wrr_ok_nonempty W _ H') as Hne'.
  cbn [st_times wrr_run]. unfold st_bind at 1. rewrite wrr_dispatch by done. rewrite Hsel.
  cbn [fst snd]. unfold st_bind at 1. rewrite IH by (by rewrite pool_set_pool).
  rewrite pool_set_pool by done. rewrite set_pool_set_pool by done.
  by destruct (wrr_run n _) as [[es| |] l'].
Qed.

Lemma account_rest W l js :
  at_rest l -> len js = W -> map (fun i => times_chosen i js) (seq 0 (length l)) = weights l ->
  imap (account W js) l = l.
Proof.
  intros H0 HW Hw. apply list_eq. intros i. rewrite list_lookup_imap.
  destruct (l !! i) as [s|] eqn:Hi; [|done]. simpl. f_equal.
  pose proof (lookup_lt_Some _ _ _ Hi).
  assert (times_chosen i js = weight s) as E.
  { assert (map (fun i => times_chosen i js) (seq 0 (length l)) !! i = Some (weight s)) as E.
    { rewrite Hw. unfold weights. by rewrite list_lookup_fmap, Hi. }
    rewrite list_lookup_fmap, lookup_seq_lt in E by done. simpl in E. congruence. }
  assert (currWeight s = 0) as E0 by (by eapply Forall_lookup_1 in H0).
  unfold account, set_currWeight. rewrite E, E0, HW. destruct s. simpl in *. f_equal. lia.
Qed.

(** C31: Weighted round robin is exact.  Over as many dispatches as the weights
    add up to, every endpoint is chosen as often as its weight says, whatever
    the order, and the route is back where it started. *)
Theorem wrr_fair r W :
  W = sumZ (weights (pool r)) -> 0 < W -> len (pool r) * W < 2 ^ 62 ->
  Forall (fun se => 0 <= weight se /\ currWeight se = 0) (pool r) ->
  exists es, st_times (Z.to_nat W) weightRoundRobinDispatch r = (Ok es, r) /\
             es ≡ₚ shares (pool r).
Proof.
  intros HW Hpos Hsmall Hl.
  assert (at_rest (pool r)) as H0 by (eapply Forall_impl; [exact Hl|by intros ? [? ?]]).
  assert (wrr_ok W (pool r)) as H.
  { split; [done|done| | | |done].
    - unfold weights. apply Forall_map. eapply Forall_impl; [exact Hl|by intros ? [? ?]].
    - clear -H0. unfold currWeights, sumZ. induction H0 as [|? ? E]; simpl; [done|]. rewrite E. lia.
    - unfold currWeights. apply Forall_map. eapply Forall_impl; [exact H0|].
      intros ? E. simpl in *. rewrite E. lia. }
  destruct (wrr_run_ok W (Z.to_nat W) _ H) as (js & Hlen & Hjs & Hrun & Hok).
  assert (len js = W) as HjW by (unfold len; lia).
  pose proof (chosen_exactly W _ js H H0 HjW Hjs Hok) as Hc.
  rewrite (wrr_times W) by done. rewrite Hrun. cbn [fst snd].
  rewrite (account_rest W _ js H0 HjW Hc), set_pool_pool.
  eexists. split; [done|]. by apply (chosen_shares W).
Qed.

(** ** Round robin *)

Definition set_counter (c : Z) (r : Route) : Route :=
  mkRoute (route_abs r) (route r) (group r) c.

Lemma rr_dispatch r :
  pool r <> [] -> roundRobinDispatch r = round_robin (pool r) r.
Proof.
  destruct r as [[e1 e2 e3 e4 e5] ri g c]. unfold roundRobinDispatch, pool. simpl.
  destruct e1 as [|x e1]; [destruct e2 as [|x e2]; [done|]|]; intros _.
  - change (0 <? len []) with false. cbv iota.
    by rewrite (proj2 (Z.ltb_lt 0 (len (x :: e2)))) by (rewrite len_cons; pose proof (len_nonneg e2); lia).
  - by rewrite (proj2 (Z.ltb_lt 0 (len (x :: e1)))) by (rewrite len_cons; pose proof (len_nonneg e1); lia).
Qed.

Lemma len_pos {A} (l : list A) : l <> [] -> 0 < len l.
Proof. destruct l; [done|]. intros _. rewrite len_cons. pose proof (len_nonneg l). lia. Qed.

Lemma endpoint_at_ok l i :
  0 <= i < len l -> exists se, l !! Z.to_nat i = Some se /\ endpoint_at l i = Ok (endpoint se).
Proof.
  intros Hi. destruct (lookup_lt_is_Some_2 l (Z.to_nat i)) as [se Hse].
  { unfold len in Hi. lia. }
  exists se. split; [done|]. unfold endpoint_at, go_index.
  rewrite (proj2 (Z.leb_le _ _)), (proj2 (Z.ltb_lt _ _)) by lia. simpl. by rewrite Hse.
Qed.

(** The [i]-th of [k] dispatches chooses the position i places after the counter. *)
Lemma rr_times r k :
  pool r <> [] -> 0 <= counter r -> counter r + Z.of_nat k < 2 ^ 64 ->
  exists es, st_times k roundRobinDispatch r
             = (Ok es, set_counter (counter r + Z.of_nat k) r) /\ length es = k /\
  forall i, (i < k)%nat ->
    es !! i = endpoint <$> pool r !! Z.to_nat ((counter r + 1 + Z.of_nat i) mod len (pool r)).
Proof.
  intros Hne. revert r Hne. induction k as [|k IH]; intros r Hne Hc Hk.
  { exists []. split_and!; [|done|intros; lia]. unfold set_counter. simpl. rewrite Z.add_0_r. by destruct r. }
  pose proof (len_pos _ Hne) as Hlen.
  assert (u64 (counter r + 1) = counter r + 1) as Hw by (apply wrapU_id; unfold inU; lia).
  set (r' := set_counter (counter r + 1) r).
  destruct (IH r' Hne) as (es & Hes & Hl & Hi); [simpl; lia|simpl; lia|].
  destruct (endpoint_at_ok (pool r) ((counter r + 1) mod len (pool r))) as (se & Hse & He).
  { apply Z.mod_pos_bound. lia. }
  exists (endpoint se :: es). split_and!.
  - cbn [st_times]. unfold st_bind at 1. rewrite rr_dispatch by done. unfold round_robin at 1.
    rewrite Hw, He. unfold st_bind at 1. change (mkRoute _ _ _ (counter r + 1)) with r'. rewrite Hes.
    unfold st_ret, set_counter. simpl. do 2 f_equal. lia.
  - simpl. lia.
  - intros i Hik. destruct i as [|i].
    + simpl. rewrite Z.add_0_r, Hse. done.
    + cbn [lookup list_lookup]. rewrite Hi by lia. replace (counter r + 1 + Z.of_nat (S i)) with (counter r + 1 + 1 + Z.of_nat i) by lia. done.
Qed.

(** Positions taken modulo the length are a rotation. *)
Lemma rotation {A} (l : list A) (es : list A) (s : Z) :
  l <> [] -> length es = length l ->
  (forall i, (i < length l)%nat -> es !! i = l !! Z.to_nat ((s + Z.of_nat i) mod len l)) ->
  es ≡ₚ l.
Proof.
  intros Hne Hlen H. pose proof (len_pos l Hne) as Hpos.
  pose proof (Z.mod_pos_bound s (len l) Hpos) as Hk.
  remember (Z.to_nat (s mod len l)) as k eqn:Ek'.
  assert (Z.of_nat k = s mod len l) as Ek by (rewrite Ek', Z2Nat.id; lia).
  assert (k < length l)%nat by (unfold len in *; lia). clear Ek'.
  assert (es = drop k l ++ take k l) as ->.
  2:{ rewrite (Permutation_app_comm (drop k l)). by rewrite take_drop. }
  apply list_eq_same_length with (length l); [|done|].
  { rewrite length_app, length_drop, length_take. lia. }
  intros i x y Hi. rewrite H by done.
  assert ((s + Z.of_nat i) mod len l = (Z.of_nat k + Z.of_nat i) mod len l) as ->.
  { rewrite Ek. by rewrite Zplus_mod_idemp_l. }
  clear Ek Hk. unfold len in *. destruct (decide (i < length l - k)%nat) as [Hlt|Hge].
  - rewrite Z.mod_small by lia. rewrite lookup_app_l by (rewrite length_drop; lia).
    rewrite lookup_drop. replace (Z.to_nat _) with (k + i)%nat by lia. congruence.
  - rewrite lookup_app_r by (rewrite length_drop; lia). rewrite length_drop.
    replace ((Z.of_nat k + Z.of_nat i) mod Z.of_nat (length l))
      with (Z.of_nat k + Z.of_nat i - Z.of_nat (length l)).
    2:{ apply Z.mod_unique with 1; lia. }
    rewrite lookup_take_lt by lia. replace (Z.to_nat _) with (i - (length l - k))%nat by lia. congruence.
Qed.

(** Round robin takes turns.  In as many dispatches as there are endpoints
    to choose from, each is chosen exactly once, wherever the counter stands. *)
Theorem rr_takes_turns r :
  let n := len (pool r) in
  pool r <> [] -> 0 <= counter r -> counter r + n < 2 ^ 64 ->
  exists es, st_times (Z.to_nat n) roundRobinDispatch r = (Ok es, set_counter (counter r + n) r) /\
             es ≡ₚ map endpoint (pool r).
Proof.
  intros n Hne Hc Hn. unfold n. rewrite len_to_nat.
  destruct (rr_times r (length (pool r)) Hne Hc Hn) as (es & Hes & Hl & Hi).
  exists es. split; [done|]. apply (rotation _ _ (counter r + 1)).
  - by destruct (pool r).
  - by rewrite length_map.
  - intros i. rewrite length_map. intros Hil. rewrite Hi by done.
    change (map endpoint) with (fmap (M := list) endpoint). rewrite list_lookup_fmap.
    unfold len. by rewrite length_fmap.
Qed.
