(* ===== verification/DispatcherClaims.v ===== *)
(** The dispatcher as its clients see it: what ReplaceServices makes of a list
    of services, and which of them a dispatch may choose. *)
From stdpp Require Import base numbers list gmap strings sorting.
From Stdlib Require Import ZArith Lia.
From S2P Require Import Prelude Types Dispatcher DispatcherOk.
Import Dispatcher.Dispatcher Endpoint (Endpoint) Registry (ServiceInstance).

Open Scope Z_scope.
Open Scope go_scope.

(** ** The endpoints of a route, whatever the rotation has done to the weights *)

Definition still (l : list serviceEndpoint) : list serviceEndpoint := map (set_currWeight 0) l.

Definition sel_valid (x : list serviceEndpoint * option nat * Z) (n : nat) : Prop :=
  match x.1.2 with None => n = O | Some j => (j < length x.1.1)%nat end.

Lemma still_insert l i se z :
  l !! i = Some se -> still (<[i := set_currWeight z se]> l) = still l.
Proof.
  intros Hi. unfold still. change (map (set_currWeight 0)) with (fmap (M := list) (set_currWeight 0)).
  rewrite list_fmap_insert. apply list_insert_id. by rewrite list_lookup_fmap, Hi.
Qed.

Lemma wrr_turn_still x i :
  (i < length x.1.1)%nat ->
  still (wrr_turn x i).1.1 = still x.1.1 /\ length (wrr_turn x i).1.1 = length x.1.1 /\
  (sel_valid x i -> sel_valid (wrr_turn x i) (S i)).
Proof.
  destruct x as [[l sel] tot]. simpl. intros Hi. destruct (lookup_lt_is_Some_2 l i Hi) as [se Hse].
  rewrite Hse. simpl. split_and!.
  - by apply still_insert.
  - apply length_insert.
  - unfold sel_valid. simpl. rewrite length_insert. repeat case_match; try done; naive_solver.
Qed.

Lemma wrr_fold_still n l :
  (n <= length l)%nat ->
  let x := fold_left wrr_turn (seq 0 n) (l, None, 0) in
  still x.1.1 = still l /\ length x.1.1 = length l /\ sel_valid x n.
Proof.
  induction n as [|n IH]; intros Hn; [done|]. destruct IH as (H1 & H2 & H3); [lia|].
  rewrite seq_S, fold_left_app. simpl in *. set (x := fold_left _ _ _) in *.
  destruct (wrr_turn_still x n) as (? & ? & ?); [lia|]. split_and!; [congruence|congruence|auto].
Qed.

Lemma wrr_select_still l :
  l <> [] -> exists se, se ∈ still l /\ (wrr_select l).1 = Ok (endpoint se) /\
  still (wrr_select l).2 = still l.
Proof.
  intros Hne. pose proof (wrr_fold_still (length l) l (le_n _)) as (H1 & H2 & H3).
  unfold wrr_select. destruct (fold_left _ _ _) as [[l' sel] tot]. simpl in *.
  unfold sel_valid in H3. simpl in H3. destruct sel as [j|].
  2:{ by destruct l. }
  destruct (lookup_lt_is_Some_2 l' j) as [se Hse]; [done|]. rewrite Hse. simpl.
  exists (set_currWeight 0 se). split_and!; [|done|].
  - rewrite <- H1. unfold still. apply list_elem_of_fmap_2. by eapply list_elem_of_lookup_2.
  - by rewrite (still_insert l' j se).
Qed.

(** What a dispatch without a preferred instance does to a route *)
Definition quiet (r : Route) : Route :=
  let '(mkAbstract e1 e2 e3 e4 e5) := route_abs r in
  mkRoute (mkAbstract (still e1) (still e2) e3 e4 e5) (route r) (group r) 0.

Lemma pool_quiet r : pool (quiet r) = still (pool r).
Proof. destruct r as [[e1 e2 e3 e4 e5] ri g c]. unfold pool. simpl. by destruct e1. Qed.

Definition any (pref : list string) : bool :=
  match pref with [] => true | x :: _ => bool_decide (x = ""%string) end.

Definition good_rand (rand : Z -> Z) : Prop := forall n, 0 < n -> 0 <= rand n < n.

Lemma random_dispatch rand r :
  pool r <> [] -> randomDispatch rand r = (endpoint_at (pool r) (rand (len (pool r))), r).
Proof.
  destruct r as [[e1 e2 e3 e4 e5] ri g c]. unfold randomDispatch, pool. simpl.
  destruct e1 as [|x e1]; [destruct e2 as [|x e2]; [done|]|]; intros Hne.
  - change (0 <? len []) with false. cbv iota.
    by rewrite (proj2 (Z.ltb_lt 0 (len (x :: e2)))) by (by apply len_pos).
  - by rewrite (proj2 (Z.ltb_lt 0 (len (x :: e1)))) by (by apply len_pos).
Qed.

Lemma empty_pool dispatch rand pref r :
  any pref = true -> pool r = [] -> FindEndpoint dispatch rand pref r = (Err ErrNotFoundEndpoint, r).
Proof.
  intros Hp Hr. assert (endpoints1 (route_abs r) = [] /\ endpoints2 (route_abs r) = []) as [H1 H2].
  { unfold pool in Hr. by destruct (endpoints1 (route_abs r)). }
  assert (roundRobinDispatch r = (Err ErrNotFoundEndpoint, r) /\
          weightRoundRobinDispatch r = (Err ErrNotFoundEndpoint, r) /\
          randomDispatch rand r = (Err ErrNotFoundEndpoint, r)) as (E1 & E2 & E3).
  { unfold roundRobinDispatch, weightRoundRobinDispatch, randomDispatch. rewrite H1, H2.
    destruct (route_abs r) as [e1 e2 ? ? ?]. simpl in *. by subst. }
  unfold FindEndpoint, any in *. destruct pref as [|x pref]; [|rewrite Hp];
    repeat case_bool_decide; congruence.
Qed.

Lemma quiet_wrr l r :
  still l = still (pool r) -> quiet (set_pool l r) = quiet r.
Proof.
  destruct r as [[e1 e2 e3 e4 e5] ri g c]. unfold pool, set_pool, quiet. simpl.
  destruct e1 as [|x e1]; simpl; intros E; [by rewrite E|]. unfold still in E. simpl in E.
  unfold still. by rewrite E.
Qed.

(** A dispatch chooses from the pool and leaves the route as it was, but for
    the rotation. *)
Lemma find_any dispatch rand pref r :
  good_rand rand -> any pref = true -> pool r <> [] ->
  exists se, se ∈ still (pool r) /\ (FindEndpoint dispatch rand pref r).1 = Ok (endpoint se) /\
             quiet (FindEndpoint dispatch rand pref r).2 = quiet r.
Proof.
  intros Hrand Hp Hne. pose proof (len_pos _ Hne) as Hpos.
  assert (forall i, 0 <= i < len (pool r) -> exists se, se ∈ still (pool r) /\
    endpoint_at (pool r) i = Ok (endpoint se)) as Hat.
  { intros i Hi. destruct (endpoint_at_ok (pool r) i Hi) as (se & Hse & ->).
    exists (set_currWeight 0 se). split; [|done]. unfold still.
    apply list_elem_of_fmap_2. by eapply list_elem_of_lookup_2. }
  assert (FindEndpoint dispatch rand pref r =
    if bool_decide (dispatch = RoundRobin) then roundRobinDispatch r
    else if bool_decide (dispatch = WeightRoundRobin) then weightRoundRobinDispatch r
    else randomDispatch rand r) as ->.
  { unfold FindEndpoint, any in *. destruct pref as [|x pref]; [|rewrite Hp];
      repeat case_bool_decide; done. }
  case_bool_decide; [|case_bool_decide].
  - rewrite rr_dispatch by done. unfold round_robin. simpl.
    destruct (Hat (u64 (counter r + 1) mod len (pool r))) as (se & ? & ->).
    { apply Z.mod_pos_bound. lia. }
    exists se. split_and!; [done|done|]. by destruct r as [[e1 e2 e3 e4 e5] ri g c].
  - rewrite wrr_dispatch by done. simpl.
    destruct (wrr_select_still _ Hne) as (se & ? & ? & ?). exists se.
    split_and!; [done|done|]. by apply quiet_wrr.
  - rewrite random_dispatch by done. simpl.
    destruct (Hat (rand (len (pool r)))) as (se & ? & ->); [by apply Hrand|]. by exists se.
Qed.

(** ** The tables of ReplaceServices *)

Definition abs_of (l : list serviceEndpoint) : abstract :=
  fold_left (fun a se => addServiceEndpoint se a) l newAbstract.

Definition in_state (s : Z) (se : serviceEndpoint) : Prop := state se = Cluster.StateString s.
#[global] Instance in_state_dec s se : Decision (in_state s se).
Proof. unfold in_state. apply _. Defined.

Lemma abs_of_snoc l se : abs_of (l ++ [se]) = addServiceEndpoint se (abs_of l).
Proof. unfold abs_of. by rewrite fold_left_app. Qed.

Lemma abs_of_lists l :
  endpoints1 (abs_of l) = filter (in_state Cluster.Work) l /\
  endpoints2 (abs_of l) = filter (in_state Cluster.Busy) l.
Proof.
  induction l as [|se l IH] using rev_ind; [done|]. rewrite abs_of_snoc, !filter_app.
  destruct (abs_of l) as [e1 e2 e3 e4 e5]. simpl in *. destruct IH as [-> ->].
  rewrite !filter_cons, !filter_nil. unfold addServiceEndpoint.
  repeat case_bool_decide; repeat case_decide; unfold in_state in *; simpl in *;
    rewrite ?app_nil_r; try done.
  all: exfalso; match goal with H : state ?s = _, H' : state ?s = _ |- _ =>
         rewrite H in H'; discriminate end.
Qed.

Lemma abs_of_direct l id :
  endpoints5 (abs_of l) !! id = last (filter (fun se => insID se = id) l).
Proof.
  induction l as [|se l IH] using rev_ind; [done|].
  rewrite abs_of_snoc, filter_app, filter_cons, filter_nil.
  assert (endpoints5 (addServiceEndpoint se (abs_of l)) = <[insID se := se]> (endpoints5 (abs_of l))) as ->.
  { destruct (abs_of l). unfold addServiceEndpoint. by repeat case_bool_decide. }
  case_decide as H.
  - rewrite last_snoc. rewrite <- H. apply lookup_insert_eq.
  - rewrite lookup_insert_ne by done. by rewrite app_nil_r.
Qed.

Section Replace.
Context (Parse : string -> res URL).

(** What one service, and a list of services, offers for a route *)
Definition offered (rid : Z) (s : ServiceInstance)
    : list (Registry.Route * string * serviceEndpoint) :=
  match Endpoint.ParseEndpoint Parse (Registry.Endpoint s) with
  | Ok ep => map (fun item => (item, Registry.Alias s, new_endpoint s ep))
               (filter (fun item => Registry.ID item = rid) (Registry.Routes s))
  | _ => []
  end.

Definition offers (rid : Z) (services : list ServiceInstance) := concat (map (offered rid) services).

(** The first offer names the route and its group, all of them serve it. *)
Definition route_of (l : list (Registry.Route * string * serviceEndpoint)) : option Route :=
  match l with
  | [] => None
  | (item, alias, _) :: _ => Some (mkRoute (abs_of (map snd l)) item alias 0)
  end.

Lemma route_of_snoc l item alias se :
  route_of (l ++ [(item, alias, se)])
  = Some (match route_of l with
          | Some r => mkRoute (addServiceEndpoint se (route_abs r)) (route r) (group r) (counter r)
          | None => mkRoute (addServiceEndpoint se newAbstract) item alias 0
          end).
Proof.
  destruct l as [|[[i a] s] l]; [done|]. simpl. rewrite map_app. simpl.
  do 2 f_equal. apply (abs_of_snoc (s :: map snd l)).
Qed.

Lemma add_routes_lookup s ep items rs rid l :
  rs !! rid = route_of l ->
  fold_left (add_route s ep) items rs !! rid
  = route_of (l ++ map (fun item => (item, Registry.Alias s, new_endpoint s ep))
                     (filter (fun item => Registry.ID item = rid) items)).
Proof.
  revert rs l. induction items as [|item items IH]; intros rs l Hl; simpl.
  { by rewrite app_nil_r. }
  rewrite filter_cons. case_decide as Hid.
  - rewrite (IH _ (l ++ [(item, Registry.Alias s, new_endpoint s ep)])).
    { by rewrite <- app_assoc. }
    unfold add_route. rewrite Hid, lookup_insert_eq, route_of_snoc, Hl. by destruct (route_of l).
  - apply IH. unfold add_route. by rewrite lookup_insert_ne.
Qed.

Lemma replace_routes_gen services d rid l :
  routes d !! rid = route_of l ->
  routes (fold_left (add_service Parse) services d) !! rid = route_of (l ++ offers rid services).
Proof.
  revert d l. induction services as [|s services IH]; intros d l Hl; simpl.
  { unfold offers. simpl. by rewrite app_nil_r. }
  rewrite (IH _ (l ++ offered rid s)). { unfold offers. simpl. by rewrite app_assoc. }
  unfold add_service, offered. destruct (Endpoint.ParseEndpoint _ _) as [ep| |]; simpl.
  - by apply add_routes_lookup.
  - by rewrite app_nil_r.
  - by rewrite app_nil_r.
Qed.

Lemma replace_routes services d rid :
  routes (ReplaceServices Parse services d) !! rid = route_of (offers rid services).
Proof. by apply (replace_routes_gen services _ rid []). Qed.


Lemma fold_dispatch services d :
  dispatch (fold_left (add_service Parse) services d) = dispatch d.
Proof.
  revert d. induction services as [|s ss IH]; intros d; simpl; [done|]. rewrite IH.
  unfold add_service. by destruct (Endpoint.ParseEndpoint _ _).
Qed.

Lemma replace_endpoints services d id :
  endpoints (ReplaceServices Parse services d) !! id
  = last (omap (fun s => match Endpoint.ParseEndpoint Parse (Registry.Endpoint s) with
                         | Ok ep => if decide (Registry.InsID s = id) then Some ep else None
                         | _ => None
                         end) services).
Proof.
  unfold ReplaceServices. set (d0 := NewDispatcher _).
  assert (endpoints d0 !! id = None) as H0 by done. generalize d0 H0. clear.
  induction services as [|s ss IH] using rev_ind; intros d H; [done|].
  rewrite fold_left_app, omap_app. simpl. unfold add_service.
  destruct (Endpoint.ParseEndpoint _ _) as [ep| |] eqn:E; simpl.
  - case_decide as Hid.
    + by rewrite Hid, lookup_insert_eq, last_snoc.
    + rewrite lookup_insert_ne by done. rewrite app_nil_r. by apply IH.
  - rewrite app_nil_r. by apply IH.
  - rewrite app_nil_r. by apply IH.
Qed.

Lemma offers_elem rid services item alias se :
  (item, alias, se) ∈ offers rid services <->
  exists s ep, s ∈ services /\ Endpoint.ParseEndpoint Parse (Registry.Endpoint s) = Ok ep /\
    item ∈ Registry.Routes s /\ Registry.ID item = rid /\ alias = Registry.Alias s /\
    se = new_endpoint s ep.
Proof.
  unfold offers. rewrite list_elem_of_In, in_concat. setoid_rewrite in_map_iff. split.
  - intros (x & (s & <- & Hs) & Hx). unfold offered in Hx.
    destruct (Endpoint.ParseEndpoint _ _) as [ep| |] eqn:E; [|done|done].
    apply in_map_iff in Hx as (i & Hi & Hin). simplify_eq.
    apply list_elem_of_In, list_elem_of_filter in Hin as [? ?].
    apply list_elem_of_In in Hs. eauto 10.
  - intros (s & ep & Hs & E & Hi & Hid & -> & ->). exists (offered rid s). split.
    { exists s. split; [done|]. by rewrite <- list_elem_of_In. }
    unfold offered. rewrite E. apply in_map_iff. exists item. split; [done|].
    rewrite <- list_elem_of_In. by apply list_elem_of_filter.
Qed.
End Replace.

(** ** What a dispatch may answer *)

(** The routes are those of the services, up to the rotations *)
Definition tables_of (Parse : string -> res URL) (services : list ServiceInstance)
    (d : Dispatcher) : Prop :=
  forall rid, quiet <$> routes d !! rid = quiet <$> route_of (offers Parse rid services).

(** Some service with this endpoint offers the route and satisfies P. *)
Definition offered_by (Parse : string -> res URL) (services : list ServiceInstance) (rid : Z)
    (P : ServiceInstance -> Prop) (ep : Endpoint) : Prop :=
  exists s, s ∈ services /\ Endpoint.ParseEndpoint Parse (Registry.Endpoint s) = Ok ep /\
    (exists item, item ∈ Registry.Routes s /\ Registry.ID item = rid) /\ P s.

Definition is_in (st : Z) (s : ServiceInstance) : Prop :=
  Registry.State s = Cluster.StateString st.

(** The answer a dispatch may give: without a preferred instance a working
    endpoint, or a busy one when none is working; with one, its endpoint
    whatever its state. *)
Definition may_answer (Parse : string -> res URL) (services : list ServiceInstance) (rid : Z)
    (pref : list string) (r : res Endpoint) : Prop :=
  let offered_in P ep := offered_by Parse services rid P ep in
  let none st := forall ep, ~ offered_in (is_in st) ep in
  match r with
  | Ok ep =>
      if any pref
      then offered_in (is_in Cluster.Work) ep \/
           offered_in (is_in Cluster.Busy) ep /\ none Cluster.Work
      else offered_in (fun s => [Registry.InsID s] = take 1 pref) ep
  | Err ErrNotFoundRoute => forall ep, ~ offered_in (fun _ => True) ep
  | Err ErrNotFoundEndpoint =>
      if any pref then none Cluster.Work /\ none Cluster.Busy
      else forall ep, ~ offered_in (fun s => [Registry.InsID s] = take 1 pref) ep
  | _ => False
  end.

Section Answers.
Context (Parse : string -> res URL) (services : list ServiceInstance).
Abbreviation offers := (offers Parse).

Lemma offered_by_iff rid P Q ep :
  (forall s e, Q (new_endpoint s e) <-> P s) ->
  offered_by Parse services rid P ep <->
  exists se, se ∈ map snd (offers rid services) /\ endpoint se = ep /\ Q se.
Proof.
  intros HQ. split.
  - intros (s & Hs & E & (item & Hi & Hid) & HP). exists (new_endpoint s ep).
    split_and!; [|done|by apply HQ]. apply list_elem_of_fmap.
    exists (item, Registry.Alias s, new_endpoint s ep). split; [done|]. apply offers_elem. eauto 10.
  - intros (se & Hse & <- & HQs). apply list_elem_of_fmap in Hse as ([[item a] se'] & -> & Hin).
    apply offers_elem in Hin as (s & ep & Hs & E & Hi & Hid & -> & ->). simpl.
    exists s. split_and!; [done|done|eauto|by eapply HQ].
Qed.

Lemma is_in_iff st s e : in_state st (new_endpoint s e) <-> is_in st s.
Proof. done. Qed.

Lemma pool_elem l se :
  se ∈ pool (mkRoute (abs_of l) (Registry.mkRoute 0 false false false) "" 0) ->
  se ∈ l /\ (in_state Cluster.Work se \/
             in_state Cluster.Busy se /\ forall x, x ∈ l -> ~ in_state Cluster.Work x).
Proof.
  unfold pool. simpl. destruct (abs_of_lists l) as [-> ->].
  destruct (filter (in_state Cluster.Work) l) as [|x k] eqn:E.
  - intros [? ?]%list_elem_of_filter. split; [done|]. right. split; [done|].
    intros x Hx Hw. assert (x ∈ filter (in_state Cluster.Work) l) as Hin
      by (by apply list_elem_of_filter). rewrite E in Hin. by apply not_elem_of_nil in Hin.
  - rewrite <- E. intros [? ?]%list_elem_of_filter. auto.
Qed.

Lemma pool_nil l :
  pool (mkRoute (abs_of l) (Registry.mkRoute 0 false false false) "" 0) = [] ->
  forall x, x ∈ l -> ~ in_state Cluster.Work x /\ ~ in_state Cluster.Busy x.
Proof.
  unfold pool. simpl. destruct (abs_of_lists l) as [-> ->].
  destruct (filter (in_state Cluster.Work) l) as [|x k] eqn:E; [|done]. intros E2 x Hx.
  split; intros Hs.
  - assert (x ∈ filter (in_state Cluster.Work) l) as Hin by (by apply list_elem_of_filter).
    rewrite E in Hin. by apply not_elem_of_nil in Hin.
  - assert (x ∈ filter (in_state Cluster.Busy) l) as Hin by (by apply list_elem_of_filter).
    rewrite E2 in Hin. by apply not_elem_of_nil in Hin.
Qed.

(** The route object behind an identifier, and the offers it stands for *)
Lemma route_found d rid r :
  tables_of Parse services d -> routes d !! rid = Some r ->
  let l := map snd (offers rid services) in
  l <> [] /\ still (pool r) = still (pool (mkRoute (abs_of l) (Registry.mkRoute 0 false false false) "" 0)) /\
  endpoints5 (route_abs r) = endpoints5 (abs_of l).
Proof.
  intros Ht Hr l. specialize (Ht rid). rewrite Hr in Ht. simpl in Ht.
  destruct (offers rid services) as [|[[item alias] se] os] eqn:Eo; [done|].
  split; [done|]. cbn [route_of fmap option_fmap option_map] in Ht. injection Ht as Hq.
  assert (pool (quiet r) = pool (quiet (mkRoute (abs_of l) item alias 0))) as E by (by rewrite Hq).
  rewrite !pool_quiet in E. split; [exact E|].
  assert (forall x, endpoints5 (route_abs (quiet x)) = endpoints5 (route_abs x)) as H5.
  { intros x. unfold quiet. by destruct x as [[] ? ? ?]. }
  rewrite <- (H5 r), Hq, H5. done.
Qed.

Lemma answer_any d rid r pref rand :
  tables_of Parse services d -> routes d !! rid = Some r -> good_rand rand -> any pref = true ->
  may_answer Parse services rid pref (FindEndpoint (dispatch d) rand pref r).1.
Proof.
  intros Ht Hr Hrand Hp. destruct (route_found d rid r Ht Hr) as (Hne & Hst & _).
  set (l := map snd _) in *. unfold may_answer.
  destruct (pool r) as [|x k] eqn:Epool.
  - rewrite empty_pool by done. simpl. rewrite Hp.
    assert (pool (mkRoute (abs_of l) (Registry.mkRoute 0 false false false) "" 0) = []) as E.
    { symmetry in Hst. unfold still in Hst. by apply fmap_nil_inv in Hst. }
    split; intros ep Hep; apply (offered_by_iff rid _ _ ep (is_in_iff _)) in Hep as (se & Hse & _ & Hs);
      destruct (pool_nil l E se Hse); contradiction.
  - destruct (find_any (dispatch d) rand pref r Hrand Hp) as (se & Hse & -> & _); [by rewrite Epool|].
    rewrite Hp. rewrite Epool, Hst in Hse. unfold still in Hse.
    apply list_elem_of_fmap in Hse as (se0 & -> & Hse0).
    apply pool_elem in Hse0 as [Hin [Hw|[Hb Hnw]]].
    + left. apply (offered_by_iff rid _ _ _ (is_in_iff _)). eauto.
    + right. split; [apply (offered_by_iff rid _ _ _ (is_in_iff _)); eauto|].
      intros ep Hep. apply (offered_by_iff rid _ _ ep (is_in_iff _)) in Hep as (se & Hse & _ & Hs).
      by apply (Hnw se).
Qed.

Lemma insID_iff (pref : list string) s e :
  [insID (new_endpoint s e)] = take 1 pref <-> [Registry.InsID s] = take 1 pref.
Proof. done. Qed.

Lemma answer_direct d rid r pref rand :
  tables_of Parse services d -> routes d !! rid = Some r -> any pref = false ->
  may_answer Parse services rid pref (FindEndpoint (dispatch d) rand pref r).1.
Proof.
  intros Ht Hr Hp. destruct (route_found d rid r Ht Hr) as (Hne & _ & H5).
  set (l := map snd _) in *. destruct pref as [|id pref]; [done|].
  assert (FindEndpoint (dispatch d) rand (id :: pref) r = directDispatch id r) as ->.
  { unfold FindEndpoint. unfold any in Hp. by rewrite Hp. }
  unfold directDispatch, may_answer. rewrite Hp, H5, abs_of_direct.
  pose proof (fun ep => offered_by_iff rid _ (fun se => [insID se] = take 1 (id :: pref)) ep
                (insID_iff (id :: pref))) as Hiff.
  destruct (last (filter _ l)) as [se|] eqn:E; simpl.
  - apply Hiff. apply last_Some_elem_of in E. apply list_elem_of_filter in E as [Hid Hin].
    exists se. split_and!; [done|done|]. by rewrite Hid.
  - intros ep (se & Hse & _ & Hs)%Hiff. apply last_None in E.
    assert (se ∈ filter (fun se => insID se = id) l) as Hin.
    { apply list_elem_of_filter. split; [|done]. by injection Hs as ->. }
    rewrite E in Hin. by apply not_elem_of_nil in Hin.
Qed.

Lemma answer_noroute d rid :
  tables_of Parse services d -> routes d !! rid = None ->
  forall ep, ~ offered_by Parse services rid (fun _ => True) ep.
Proof.
  intros Ht Hr ep Hep. specialize (Ht rid). rewrite Hr in Ht.
  apply (offered_by_iff rid _ (fun _ => True) ep) in Hep as (se & Hse & _); [|done].
  destruct (offers rid services) as [|[[? ?] ?] os]; [by apply not_elem_of_nil in Hse|done].
Qed.

Lemma dispatch_tables d rid pref rand :
  tables_of Parse services d -> good_rand rand ->
  tables_of Parse services (on_route rid (FindEndpoint (dispatch d) rand pref) d).2.
Proof.
  intros Ht Hrand rid'. unfold on_route. destruct (routes d !! rid) as [r|] eqn:Hr; [|apply Ht].
  assert (quiet (FindEndpoint (dispatch d) rand pref r).2 = quiet r) as Hq.
  { destruct (any pref) eqn:Hp.
    - destruct (pool r) as [|x k] eqn:Epool; [by rewrite empty_pool|].
      destruct (find_any (dispatch d) rand pref r Hrand Hp) as (? & _ & _ & ?); [by rewrite Epool|done].
    - unfold FindEndpoint. unfold any in Hp. destruct pref as [|id pref]; [done|]. rewrite Hp.
      unfold directDispatch. by case_match. }
  destruct (FindEndpoint _ _ _ _) as [x r']. simpl in *.
  destruct (decide (rid = rid')) as [<-|Hne].
  - rewrite lookup_insert_eq. simpl. rewrite Hq. specialize (Ht rid). by rewrite Hr in Ht.
  - rewrite lookup_insert_ne by done. apply Ht.
Qed.
End Answers.

(** The dispatcher serves the services it was given.  After ReplaceServices
    and any dispatches, a dispatch of a route without a preferred instance goes
    to a working instance that offers the route, to a busy one when none works,
    and never to one that hangs or is shut; a preferred instance is reached in
    any state if it offers the route; errors say that there is none. *)
Theorem dispatch_serves Parse services d0 :
  tables_of Parse services (ReplaceServices Parse services d0) /\
  forall d rid pref rand, tables_of Parse services d -> good_rand rand ->
    let r := on_route rid (FindEndpoint (dispatch d) rand pref) d in
    tables_of Parse services r.2 /\ may_answer Parse services rid pref r.1.
Proof.
  split.
  { intros rid. by rewrite replace_routes. }
  intros d rid pref rand Ht Hrand r. split; [by apply dispatch_tables|].
  unfold r, on_route. destruct (routes d !! rid) as [x|] eqn:Hr; [|exact (answer_noroute Parse services d rid Ht Hr)].
  assert (may_answer Parse services rid pref (FindEndpoint (dispatch d) rand pref x).1) as H.
  { destruct (any pref) eqn:Hp; [by apply answer_any|by apply answer_direct]. }
  by destruct (FindEndpoint _ _ _ _).
Qed.

(** Two working instances, a busy one and one that hangs, all for route 1 *)
Definition sample_parse (s : string) : res URL := Ok (mkURL "grpc" s "").
Definition sample_service (id st : string) (w : Z) : ServiceInstance :=
  Registry.mkInstance id "node" "node" "game" st [1] [Registry.mkRoute 1 false false false] []
    ("127.0.0.1:" +:+ id) w None.
Definition sample_services : list ServiceInstance :=
  [sample_service "1" "work" 2; sample_service "2" "busy" 5; sample_service "3" "work" 1;
   sample_service "4" "hang" 9].
Definition sample_dispatcher : Dispatcher :=
  ReplaceServices sample_parse sample_services (NewDispatcher WeightRoundRobin).

Lemma dispatch_serves_witness :
  may_answer sample_parse sample_services 1 []
    (on_route 1 (FindEndpoint WeightRoundRobin (fun _ => 0) []) sample_dispatcher).1.
Proof.
  refine (proj2 (proj2 (dispatch_serves sample_parse sample_services (NewDispatcher WeightRoundRobin))
    sample_dispatcher 1 [] (fun _ => 0) _ _)).
  - intros rid. unfold sample_dispatcher. by rewrite replace_routes.
  - intros n Hn. lia.
Defined.

Definition sample_route : Route := default (newRoute "" (Registry.mkRoute 0 false false false))
  (routes sample_dispatcher !! 1).

Lemma wrr_fair_witness :
  exists es, st_times 3 weightRoundRobinDispatch sample_route = (Ok es, sample_route) /\
             es ≡ₚ shares (pool sample_route).
Proof.
  apply (wrr_fair sample_route 3).
  - vm_compute. reflexivity.
  - reflexivity.
  - vm_compute. reflexivity.
  - vm_compute. repeat constructor; discriminate.
Defined.

Lemma rr_takes_turns_witness :
  exists es, st_times 2 roundRobinDispatch sample_route = (Ok es, set_counter 2 sample_route) /\
             es ≡ₚ map endpoint (pool sample_route).
Proof.
  apply (rr_takes_turns sample_route).
  - vm_compute. discriminate.
  - vm_compute. discriminate.
  - vm_compute. reflexivity.
Defined.
