(* ===== verification/SourceHints.v ===== *)
(** internal/link/source_hints.go: a bounded cache of routing hints.

    The cache is a map into the elements of a container/list; an element is
    named by a number, [values] holds what it points to and [order] the list,
    front first.  The theorems say that this pair of structures is the cache
    of the least recently used: a list of distinct keys, most recent first,
    cut at the capacity. *)
From stdpp Require Import base numbers list gmap strings.
From Stdlib Require Import ZArith Lia.
From S2P Require Import Prelude.

Open Scope Z_scope.
Open Scope go_scope.

Module SourceHints.

(** sourceHintKey is a pair of user and name *)
Abbreviation sourceHintKey := (Z * string)%type.

Record sourceHint := mkHint { key : sourceHintKey; node : string }.

Record sourceHints := mkHints {
  capacity : Z;
  revision : Z;
  entries : gmap sourceHintKey nat;
  order : list nat;
  values : gmap nat sourceHint;
  allocated : nat
}.

Definition newSourceHints (capacity : Z) : res sourceHints :=
  if capacity <=? 0 then Panic else Ok (mkHints capacity 0 ∅ [] ∅ 0).

(** container/list *)
Definition unlink (e : nat) (l : list nat) : list nat := filter (fun x => x <> e) l.
Definition MoveToFront (e : nat) (h : sourceHints) : sourceHints :=
  mkHints (capacity h) (revision h) (entries h) (e :: unlink e (order h)) (values h) (allocated h).

Definition load (uid : Z) (name : string) : ST sourceHints (string * bool * Z) := fun h =>
  match entries h !! (uid, name) with
  | Some e =>
      let h := MoveToFront e h in
      match values h !! e with
      | Some v => (Ok (node v, true, revision h), h)
      | None => (Panic, h)
      end
  | None => (Ok (""%string, false, revision h), h)
  end.

(** the element at the back is dropped when the cache is full *)
Definition evict (h : sourceHints) : res sourceHints :=
  if Z.of_nat (size (entries h)) =? capacity h then
    match last (order h) with
    | None => Panic
    | Some e => match values h !! e with
                | None => Panic
                | Some v => Ok (mkHints (capacity h) (revision h) (delete (key v) (entries h))
                                  (unlink e (order h)) (values h) (allocated h))
                end
    end
  else Ok h.

Definition putLocked (k : sourceHintKey) (n : string) : ST sourceHints unit := fun h =>
  if bool_decide (n = ""%string) then (Ok tt, h) else
  match entries h !! k with
  | Some e =>
      let h := mkHints (capacity h) (revision h) (entries h) (order h)
                 (<[e := mkHint k n]> (values h)) (allocated h) in
      (Ok tt, MoveToFront e h)
  | None =>
      match evict h with
      | Ok h => let e := allocated h in
                (Ok tt, mkHints (capacity h) (revision h) (<[k := e]> (entries h)) (e :: order h)
                          (<[e := mkHint k n]> (values h)) (S e))
      | Err x => (Err x, h)
      | Panic => (Panic, h)
      end
  end.

Definition bump_revision : ST sourceHints unit := fun h =>
  (Ok tt, mkHints (capacity h) (u64 (revision h + 1)) (entries h) (order h) (values h) (allocated h)).

Definition store (uid : Z) (name node : string) : ST sourceHints unit :=
  bump_revision ;;; putLocked (uid, name) node.

Definition fill (uid : Z) (name node : string) (revision : Z) : ST sourceHints unit := fun h =>
  if revision =? SourceHints.revision h then putLocked (uid, name) node h else (Ok tt, h).

Definition invalidate (uid : Z) (name : string) : ST sourceHints unit :=
  bump_revision ;;;
  fun h => match entries h !! (uid, name) with
           | Some e => (Ok tt, mkHints (capacity h) (revision h) (delete (uid, name) (entries h))
                                 (unlink e (order h)) (values h) (allocated h))
           | None => (Ok tt, h)
           end.

Definition count (h : sourceHints) : Z := Z.of_nat (size (entries h)).
End SourceHints.

(** ** The cache as a list: the operations on recency lists *)

Module LRU.
Abbreviation hint := ((Z * string) * string)%type.

Record lru := mkLRU { cap : nat; rev : Z; items : list hint }.

Definition without (k : Z * string) (l : list hint) : list hint := filter (fun x => x.1 <> k) l.
Definition get (k : Z * string) (l : list hint) : option string :=
  snd <$> head (filter (fun x => x.1 = k) l).

Definition use (k : Z * string) (n : string) (a : lru) : lru :=
  mkLRU (cap a) (rev a) (take (cap a) ((k, n) :: without k (items a))).
Definition put (k : Z * string) (n : string) (a : lru) : lru :=
  if bool_decide (n = ""%string) then a else use k n a.
Definition next (a : lru) : lru := mkLRU (cap a) (u64 (rev a + 1)) (items a).
Definition drop (k : Z * string) (a : lru) : lru := mkLRU (cap a) (rev a) (without k (items a)).
End LRU.

(** ** What the callers do to a cache, and what they see *)

Inductive hint_op :=
| OLoad (uid : Z) (name : string)
| OStore (uid : Z) (name node : string)
| OFill (uid : Z) (name node : string) (revision : Z)
| OInvalidate (uid : Z) (name : string)
| OCount.

Inductive hint_answer :=
| ANone
| ALoad (node : string) (ok : bool) (revision : Z)
| ACount (n : Z).

Definition hints_step (o : hint_op) : ST SourceHints.sourceHints hint_answer :=
  match o with
  | OLoad u n => let! (x, ok, r) := SourceHints.load u n in st_ret (ALoad x ok r)
  | OStore u n x => SourceHints.store u n x ;;; st_ret ANone
  | OFill u n x r => SourceHints.fill u n x r ;;; st_ret ANone
  | OInvalidate u n => SourceHints.invalidate u n ;;; st_ret ANone
  | OCount => let! h := st_get in st_ret (ACount (SourceHints.count h))
  end.

Definition lru_step (o : hint_op) (a : LRU.lru) : hint_answer * LRU.lru :=
  match o with
  | OLoad u n => match LRU.get (u, n) (LRU.items a) with
                 | Some x => (ALoad x true (LRU.rev a), LRU.use (u, n) x a)
                 | None => (ALoad "" false (LRU.rev a), a)
                 end
  | OStore u n x => (ANone, LRU.put (u, n) x (LRU.next a))
  | OFill u n x r => (ANone, if r =? LRU.rev a then LRU.put (u, n) x a else a)
  | OInvalidate u n => (ANone, LRU.drop (u, n) (LRU.next a))
  | OCount => (ACount (len (LRU.items a)), a)
  end.

Fixpoint hints_run (os : list hint_op) : ST SourceHints.sourceHints (list hint_answer) :=
  match os with
  | [] => st_ret []
  | o :: os' => let! x := hints_step o in let! xs := hints_run os' in st_ret (x :: xs)
  end.

Fixpoint lru_run (os : list hint_op) (a : LRU.lru) : list hint_answer * LRU.lru :=
  match os with
  | [] => ([], a)
  | o :: os' => let '(x, a1) := lru_step o a in let '(xs, a2) := lru_run os' a1 in (x :: xs, a2)
  end.

(** ** The two structures are one list *)
Import SourceHints.

Definition view (vs : gmap nat sourceHint) (o : list nat) : list LRU.hint :=
  omap (fun e => (fun v => (key v, node v)) <$> vs !! e) o.

Arguments view : simpl never.

Definition abs (h : sourceHints) : LRU.lru :=
  LRU.mkLRU (Z.to_nat (capacity h)) (revision h) (view (values h) (order h)).

(** An element of the list is the element of its key, and conversely. *)
Record hints_ok (h : sourceHints) : Prop := {
  ok_capacity : 0 < capacity h;
  ok_nodup : NoDup (order h);
  ok_order e : e ∈ order h -> (e < allocated h)%nat /\
    exists v, values h !! e = Some v /\ entries h !! key v = Some e;
  ok_entries k e : entries h !! k = Some e -> e ∈ order h /\
    exists v, values h !! e = Some v /\ key v = k;
  ok_size : size (entries h) = length (order h);
  ok_bound : Z.of_nat (length (order h)) <= capacity h
}.

Lemma elem_of_unlink e x o : x ∈ unlink e o <-> x ∈ o /\ x <> e.
Proof. unfold unlink. rewrite list_elem_of_filter. naive_solver. Qed.

Lemma unlink_notin e o : e ∉ o -> unlink e o = o.
Proof.
  unfold unlink. induction o as [|x o IH]; intros H; [done|]. apply not_elem_of_cons in H as [? ?].
  rewrite filter_cons_True by done. by rewrite IH.
Qed.

Lemma unlink_split e o :
  NoDup o -> e ∈ o -> exists o1 o2, o = o1 ++ e :: o2 /\ unlink e o = o1 ++ o2 /\ e ∉ o1 /\ e ∉ o2.
Proof.
  intros Hnd (o1 & o2 & ->)%list_elem_of_split. exists o1, o2.
  apply NoDup_app in Hnd as (_ & Hd & Hnd2). apply NoDup_cons in Hnd2 as [Hn2 _].
  assert (e ∉ o1) as Hn1. { intros He. apply (Hd e He). by left. }
  split_and!; [done| |done|done]. unfold unlink. rewrite filter_app, filter_cons_False by naive_solver.
  fold (unlink e o1) (unlink e o2). by rewrite !unlink_notin.
Qed.

Lemma length_unlink e o : NoDup o -> e ∈ o -> length o = S (length (unlink e o)).
Proof.
  intros Hnd He. destruct (unlink_split e o Hnd He) as (o1 & o2 & -> & -> & _).
  rewrite !length_app. simpl. lia.
Qed.

Lemma view_app vs o1 o2 : view vs (o1 ++ o2) = view vs o1 ++ view vs o2.
Proof. apply omap_app. Qed.

Lemma view_cons vs e o v : vs !! e = Some v -> view vs (e :: o) = (key v, node v) :: view vs o.
Proof. intros H. unfold view. csimpl. by rewrite H. Qed.

(** A value nobody lists does not show. *)
Lemma view_fresh vs e v o : e ∉ o -> view (<[e := v]> vs) o = view vs o.
Proof.
  induction o as [|x o IH]; intros H; [done|]. apply not_elem_of_cons in H as [? ?].
  unfold view in *. csimpl. rewrite lookup_insert_ne by done. by rewrite IH.
Qed.

Lemma without_app k l1 l2 : LRU.without k (l1 ++ l2) = LRU.without k l1 ++ LRU.without k l2.
Proof. apply filter_app. Qed.

Lemma without_same k n l : LRU.without k ((k, n) :: l) = LRU.without k l.
Proof. apply filter_cons_False. simpl. naive_solver. Qed.

Section View.
Context (h : sourceHints) (H : hints_ok h).

Lemma view_elem e v o :
  (forall x, x ∈ o -> x ∈ order h) -> values h !! e = Some v -> entries h !! key v = Some e ->
  e ∉ o -> LRU.without (key v) (view (values h) o) = view (values h) o.
Proof.
  intros Hsub Hv He. induction o as [|x o IH]; intros Hn; [done|].
  apply not_elem_of_cons in Hn as [Hx Hn].
  destruct (ok_order h H x (Hsub x ltac:(by left))) as (_ & w & Hw & Hk).
  rewrite (view_cons _ _ _ w Hw). unfold LRU.without. rewrite filter_cons_True.
  - f_equal. apply IH; [|done]. intros y Hy. apply Hsub. by right.
  - simpl. intros E. rewrite E in Hk. congruence.
Qed.

(** Unlinking an element is dropping its key. *)
Lemma view_unlink k e :
  entries h !! k = Some e -> view (values h) (unlink e (order h)) = LRU.without k (view (values h) (order h)).
Proof.
  intros He. destruct (ok_entries h H k e He) as (Hin & v & Hv & <-).
  destruct (unlink_split e _ (ok_nodup h H) Hin) as (o1 & o2 & Ho & Hu & H1 & H2).
  assert (forall x, x ∈ o1 \/ x ∈ o2 -> x ∈ order h) as Hsub.
  { intros x Hx. rewrite Ho. apply elem_of_app. destruct Hx; [by left|right; by right]. }
  rewrite Hu, Ho, !view_app, (view_cons _ _ _ v Hv), without_app, without_same.
  assert (entries h !! key v = Some e) as Hk by done.
  rewrite !(view_elem e v) by (try done; intros x ?; apply Hsub; auto). done.
Qed.

Lemma view_missing k : entries h !! k = None -> LRU.without k (view (values h) (order h)) = view (values h) (order h).
Proof.
  intros He. assert (forall x, x ∈ order h -> x ∈ order h) as Hsub by done. revert Hsub.
  generalize (order h) at 1 3 4. intros o. induction o as [|x o IH]; intros Hsub; [done|].
  destruct (ok_order h H x (Hsub x ltac:(by left))) as (_ & w & Hw & Hk).
  rewrite (view_cons _ _ _ w Hw). unfold LRU.without. rewrite filter_cons_True by (simpl; intros E; rewrite E in Hk; congruence).
  f_equal. apply IH. intros y Hy. apply Hsub. by right.
Qed.

(** A key is found in the list exactly when the map has it. *)
Lemma view_get k :
  LRU.get k (view (values h) (order h))
  = (fun v => node v) <$> (entries h !! k ≫= fun e => values h !! e).
Proof.
  unfold LRU.get. destruct (entries h !! k) as [e|] eqn:He; simpl.
  - destruct (ok_entries h H k e He) as (Hin & v & Hv & Hk). rewrite Hv. simpl.
    destruct (unlink_split e _ (ok_nodup h H) Hin) as (o1 & o2 & Ho & _ & H1 & _).
    rewrite Ho, view_app, (view_cons _ _ _ v Hv), filter_app.
    assert (filter (fun x => x.1 = k) (view (values h) o1) = []) as ->.
    { apply filter_none. intros [k' n] Hx Hk'. simpl in Hk'. subst k'.
      unfold view in Hx. apply list_elem_of_omap in Hx as (x & Hxo & Hx).
      apply fmap_Some in Hx as (w & Hw & E). injection E as E1 E2.
      destruct (ok_order h H x) as (_ & w' & Hw' & Hke). { rewrite Ho. apply elem_of_app. by left. }
      rewrite Hw in Hw'. injection Hw' as <-. rewrite <- E1, He in Hke. congruence. }
    rewrite filter_cons_True by done. simpl. done.
  - assert (filter (fun x => x.1 = k) (view (values h) (order h)) = []) as ->; [|done].
    apply filter_none. intros [k' n] Hx Hk'. simpl in Hk'. subst k'.
    unfold view in Hx. apply list_elem_of_omap in Hx as (x & Hxo & Hx).
    apply fmap_Some in Hx as (w & Hw & E). injection E as E1 E2.
    destruct (ok_order h H x Hxo) as (_ & w' & Hw' & Hke). congruence.
Qed.

Lemma view_length : length (view (values h) (order h)) = length (order h).
Proof.
  assert (forall x, x ∈ order h -> x ∈ order h) as Hsub by done. revert Hsub.
  generalize (order h) at 1 3 4. intros o. induction o as [|x o IH]; intros Hsub; [done|].
  destruct (ok_order h H x (Hsub x ltac:(by left))) as (_ & w & Hw & _).
  rewrite (view_cons _ _ _ w Hw). simpl. f_equal. apply IH. intros y Hy. apply Hsub. by right.
Qed.
End View.

(** *** Each operation *)

Lemma move_ok k e h :
  hints_ok h -> entries h !! k = Some e -> hints_ok (MoveToFront e h).
Proof.
  intros H He. destruct (ok_entries h H k e He) as (Hin & v & Hv & Hk).
  pose proof (length_unlink e _ (ok_nodup h H) Hin) as Hl.
  assert (forall x, x ∈ e :: unlink e (order h) <-> x ∈ order h) as Hmem.
  { intros x. rewrite elem_of_cons, elem_of_unlink. destruct (decide (x = e)) as [->|]; naive_solver. }
  split; simpl.
  - apply H.
  - apply NoDup_cons. split; [rewrite elem_of_unlink; naive_solver|]. apply NoDup_filter, H.
  - intros x Hx%Hmem. by apply (ok_order h H).
  - intros k' e' He'. rewrite Hmem. by apply (ok_entries h H).
  - rewrite <- Hl. apply H.
  - rewrite <- Hl. apply H.
Qed.

Lemma take_without k n h :
  hints_ok h -> is_Some (entries h !! k) ->
  take (Z.to_nat (capacity h)) ((k, n) :: LRU.without k (view (values h) (order h)))
  = (k, n) :: LRU.without k (view (values h) (order h)).
Proof.
  intros H [e He]. apply take_ge. rewrite length_cons, <- (view_unlink h H k e He).
  destruct (ok_entries h H k e He) as (Hin & _).
  assert (length (view (values h) (unlink e (order h))) <= length (unlink e (order h)))%nat.
  { unfold view. clear. induction (unlink e (order h)); csimpl; [lia|]. case_match; simpl; lia. }
  pose proof (length_unlink e _ (ok_nodup h H) Hin). pose proof (ok_bound h H). lia.
Qed.

Lemma load_sim u n h :
  hints_ok h ->
  let '(x, a) := lru_step (OLoad u n) (abs h) in
  exists h', hints_step (OLoad u n) h = (Ok x, h') /\ hints_ok h' /\ abs h' = a.
Proof.
  intros H. cbn [lru_step hints_step]. change (LRU.items (abs h)) with (view (values h) (order h)).
  rewrite (view_get h H). unfold load, st_bind. destruct (entries h !! (u, n)) as [e|] eqn:He; simpl.
  - destruct (ok_entries h H _ _ He) as (Hin & v & Hv & Hk). rewrite Hv. simpl.
    eexists. split; [done|]. split; [by eapply move_ok|]. unfold abs, LRU.use. simpl.
    rewrite take_without by eauto. rewrite (view_cons _ _ _ v Hv), Hk, (view_unlink h H (u, n) e He). done.
  - by exists h.
Qed.

(** The value of an element in the map may change, its key not. *)
Lemma set_ok k e n h :
  hints_ok h -> entries h !! k = Some e ->
  hints_ok (mkHints (capacity h) (revision h) (entries h) (order h) (<[e := mkHint k n]> (values h)) (allocated h)).
Proof.
  intros H He. destruct (ok_entries h H k e He) as (Hin & v & Hv & Hk). split; simpl; try apply H.
  - intros x Hx. destruct (ok_order h H x Hx) as (? & w & Hw & Hwe). split; [done|].
    destruct (decide (x = e)) as [->|]; [rewrite lookup_insert_eq; by eexists|].
    rewrite lookup_insert_ne by done. eauto.
  - intros k' e' He'. destruct (ok_entries h H k' e' He') as (? & w & Hw & Hwk). split; [done|].
    destruct (decide (e' = e)) as [->|].
    + rewrite lookup_insert_eq. eexists. split; [done|]. simpl.
      destruct (ok_order h H e Hin) as (_ & w' & ? & ?). congruence.
    + rewrite lookup_insert_ne by done. eauto.
Qed.

Lemma view_set k e n h :
  hints_ok h -> entries h !! k = Some e ->
  view (<[e := mkHint k n]> (values h)) (e :: unlink e (order h))
  = (k, n) :: LRU.without k (view (values h) (order h)).
Proof.
  intros H He. rewrite (view_cons _ _ _ (mkHint k n)) by apply lookup_insert_eq. simpl. f_equal.
  rewrite view_fresh by (rewrite elem_of_unlink; naive_solver). by apply view_unlink.
Qed.

(** Unlinking an element and its key *)
Lemma unlink_ok k e h :
  hints_ok h -> entries h !! k = Some e ->
  hints_ok (mkHints (capacity h) (revision h) (delete k (entries h)) (unlink e (order h)) (values h) (allocated h)).
Proof.
  intros H He. destruct (ok_entries h H k e He) as (Hin & v & Hv & Hk).
  pose proof (length_unlink e _ (ok_nodup h H) Hin) as Hl. split; simpl.
  - apply H.
  - apply NoDup_filter, H.
  - intros x [Hx Hne]%elem_of_unlink. destruct (ok_order h H x Hx) as (? & w & Hw & Hwe).
    split; [done|]. exists w. split; [done|]. rewrite lookup_delete_ne; [done|]. congruence.
  - intros k' e' [Hne He']%lookup_delete_Some. rewrite elem_of_unlink.
    destruct (ok_entries h H k' e' He') as (? & w & ? & ?). split; [|eauto]. split; [done|].
    intros ->. destruct (ok_order h H e Hin) as (_ & w' & ? & ?). congruence.
  - rewrite map_size_delete, He. pose proof (ok_size h H). lia.
  - pose proof (ok_bound h H). lia.
Qed.

Lemma evict_sim h :
  hints_ok h -> exists h', evict h = Ok h' /\ hints_ok h' /\ capacity h' = capacity h /\
    revision h' = revision h /\ values h' = values h /\ allocated h' = allocated h /\
    Z.of_nat (length (order h')) < capacity h /\ (forall x, x ∈ order h' -> x ∈ order h) /\
    (forall k, entries h !! k = None -> entries h' !! k = None) /\
    view (values h) (order h') = take (Z.to_nat (capacity h) - 1) (view (values h) (order h)).
Proof.
  intros H. unfold evict. rewrite (ok_size h H). pose proof (ok_bound h H). pose proof (ok_capacity h H).
  destruct (Z.eqb_spec (Z.of_nat (length (order h))) (capacity h)) as [E|E].
  2:{ exists h. split_and!; try done; [lia|]. rewrite take_ge; [done|].
      rewrite (view_length h H). lia. }
  destruct (last (order h)) as [e|] eqn:Hlast.
  2:{ apply last_None in Hlast. rewrite Hlast in E. simpl in E. lia. }
  apply last_Some in Hlast as [o Ho].
  assert (e ∈ order h) as Hin by (rewrite Ho; apply elem_of_app; right; by left).
  destruct (ok_order h H e Hin) as (_ & v & Hv & Hk). rewrite Hv.
  pose proof (length_unlink e _ (ok_nodup h H) Hin) as Hl.
  eexists. split; [done|]. split; [by apply unlink_ok|]. simpl.
  split_and!; try done.
  - lia.
  - intros x [? _]%elem_of_unlink. done.
  - intros k Hnone. rewrite lookup_delete. by case_decide.
  - assert (unlink e (order h) = o) as Hu.
    { pose proof (ok_nodup h H) as Hnd. rewrite Ho in Hnd |- *. apply NoDup_app in Hnd as (_ & Hd & _).
      unfold unlink. rewrite filter_app, filter_cons_False, filter_nil, app_nil_r by naive_solver.
      apply unlink_notin. intros He. apply (Hd e He). by left. }
    pose proof (view_length h H) as Hvl. rewrite Hu. rewrite Ho in Hvl |- *. rewrite view_app in *.
    rewrite (view_cons _ _ _ v Hv) in *. unfold view in *. simpl in *.
    rewrite !length_app in Hvl. simpl in Hvl. rewrite Ho, length_app in E. simpl in E.
    rewrite take_app_length'; [done|]. lia.
Qed.

Lemma put_sim k n h :
  hints_ok h -> exists h', putLocked k n h = (Ok tt, h') /\ hints_ok h' /\ abs h' = LRU.put k n (abs h).
Proof.
  intros H. unfold putLocked, LRU.put. case_bool_decide; [by exists h|].
  destruct (entries h !! k) as [e|] eqn:He.
  - eexists. split; [done|]. split; [eapply move_ok; [by apply set_ok|done]|].
    unfold abs, LRU.use. simpl. rewrite take_without by eauto. by rewrite view_set.
  - destruct (evict_sim h H) as (h' & -> & H' & Hc & Hr & Hv & Ha & Hl & Hsub & Hnone & Hview).
    specialize (Hnone k He).
    assert (allocated h' ∉ order h') as Hfresh.
    { intros Hin. destruct (ok_order h' H' _ Hin). lia. }
    eexists. split; [done|]. split.
    + split; simpl.
      * apply H'.
      * apply NoDup_cons. split; [done|apply H'].
      * intros x [->|Hx]%elem_of_cons.
        -- split; [lia|]. eexists. rewrite lookup_insert_eq. split; [done|]. apply lookup_insert_eq.
        -- destruct (ok_order h' H' x Hx) as (? & w & ? & ?). split; [lia|]. exists w.
           rewrite lookup_insert_ne by lia. split; [done|].
           rewrite lookup_insert_ne; [done|]. congruence.
      * intros k' e'. destruct (decide (k = k')) as [<-|Hne].
        -- rewrite lookup_insert_eq. intros [= <-]. split; [by left|]. eexists.
           rewrite lookup_insert_eq. done.
        -- rewrite lookup_insert_ne by done. intros He'.
           destruct (ok_entries h' H' k' e' He') as (Hin & w & ? & ?). split; [by right|].
           exists w. rewrite lookup_insert_ne by (intros <-; contradiction). done.
      * rewrite map_size_insert_None by done. f_equal. apply H'.
      * lia.
    + unfold abs, LRU.use. simpl. rewrite Hc, Hr, Hv. f_equal.
      rewrite (view_cons _ _ _ (mkHint k n)) by apply lookup_insert_eq. simpl.
      rewrite view_fresh by done. rewrite Hview, (view_missing h H k He).
      pose proof (ok_capacity h H). destruct (Z.to_nat (capacity h)) as [|c] eqn:Ec; [lia|].
      simpl. by rewrite Nat.sub_0_r.
Qed.

Lemma next_ok h :
  hints_ok h -> hints_ok (mkHints (capacity h) (u64 (revision h + 1)) (entries h) (order h) (values h) (allocated h)).
Proof. intros H. split; apply H. Qed.

Lemma hints_step_sim o h :
  hints_ok h ->
  let '(x, a) := lru_step o (abs h) in
  exists h', hints_step o h = (Ok x, h') /\ hints_ok h' /\ abs h' = a.
Proof.
  intros H. destruct o as [u n|u n x|u n x r|u n|].
  - by apply load_sim.
  - cbn [lru_step hints_step]. unfold store, bump_revision, st_bind.
    destruct (put_sim (u, n) x _ (next_ok h H)) as (h' & -> & ? & ?). by exists h'.
  - cbn [lru_step hints_step]. unfold fill, st_bind. simpl. destruct (_ =? _); [|by exists h].
    destruct (put_sim (u, n) x h H) as (h' & -> & ? & ?). by exists h'.
  - cbn [lru_step hints_step]. unfold invalidate, bump_revision, st_bind.
    pose proof (next_ok h H) as H'. set (h1 := mkHints _ _ _ _ _ _) in *.
    change (entries h) with (entries h1).
    destruct (entries h1 !! (u, n)) as [e|] eqn:He; simpl.
    + eexists. split; [done|]. split; [by apply (unlink_ok (u, n) e h1)|].
      unfold abs, LRU.drop, LRU.next. simpl. f_equal. by apply (view_unlink h H).
    + eexists. split; [done|]. split; [done|]. unfold abs, LRU.drop, LRU.next. simpl. f_equal.
      symmetry. by apply (view_missing h H).
  - cbn [lru_step hints_step]. exists h. split; [|done]. unfold st_bind, st_get, st_ret, count.
    do 3 f_equal. rewrite (ok_size h H). unfold len, abs. simpl. by rewrite (view_length h H).
Qed.

Lemma hints_run_sim os h :
  hints_ok h ->
  let '(xs, a) := lru_run os (abs h) in
  exists h', hints_run os h = (Ok xs, h') /\ hints_ok h' /\ abs h' = a.
Proof.
  revert h. induction os as [|o os IH]; intros h H; [by exists h|]. cbn [lru_run hints_run].
  pose proof (hints_step_sim o h H) as Hs. destruct (lru_step o (abs h)) as [x a1].
  destruct Hs as (h1 & Hs & H1 & <-). specialize (IH h1 H1).
  destruct (lru_run os (abs h1)) as [xs a2]. destruct IH as (h2 & Hr & H2 & <-).
  exists h2. unfold st_bind. rewrite Hs, Hr. done.
Qed.

Lemma new_hints_ok cap h :
  newSourceHints cap = Ok h -> h = mkHints cap 0 ∅ [] ∅ 0 /\ hints_ok h.
Proof.
  unfold newSourceHints. destruct (Z.leb_spec cap 0); [done|]. intros [= <-]. split; [done|].
  split; simpl; try done.
  - constructor.
  - by intros e ?%not_elem_of_nil.
  - lia.
Qed.

(** C29: The hint cache is an LRU cache.  Under any sequence of operations on a
    new cache nothing panics, every answer is that of a list of hints kept most
    recent first and cut at the capacity, and the cache never holds more. *)
Theorem hints_refine_lru cap os h :
  newSourceHints cap = Ok h ->
  let '(xs, a) := lru_run os (LRU.mkLRU (Z.to_nat cap) 0 []) in
  exists h', hints_run os h = (Ok xs, h') /\ abs h' = a /\ count h' <= cap.
Proof.
  intros [-> H0]%new_hints_ok. set (h0 := mkHints _ _ _ _ _ _) in *.
  pose proof (hints_run_sim os h0 H0) as Hr. change (abs h0) with (LRU.mkLRU (Z.to_nat cap) 0 []) in Hr.
  destruct (lru_run os _) as [xs a] eqn:E. destruct Hr as (h' & Hr & H' & Ha).
  exists h'. split_and!; [done|done|]. unfold count. rewrite (ok_size h' H').
  assert (capacity h' = cap) as <-; [|apply H'].
  assert (LRU.cap a = Z.to_nat cap) as Hc.
  { clear -E. remember (LRU.mkLRU (Z.to_nat cap) 0 []) as a0 eqn:E0.
    assert (LRU.cap a0 = Z.to_nat cap) as H0 by (by rewrite E0). clear E0.
    revert a0 xs E H0. induction os as [|o os IH]; intros a0 xs E H0; cbn [lru_run] in E; [by simplify_eq|].
    destruct (lru_step o a0) as [x a1] eqn:E1. destruct (lru_run os a1) as [ys a2] eqn:E2.
    simplify_eq. eapply IH; [done|]. rewrite <- H0. clear -E1.
    destruct o; simpl in E1; repeat case_match; simplify_eq; try done; unfold LRU.put; by case_bool_decide. }
  pose proof (ok_capacity h' H'). rewrite <- Ha in Hc. simpl in Hc. lia.
Qed.

Lemma hints_refine_lru_witness :
  let os := [OStore 1 "game" "n1"; OStore 2 "game" "n2"; OLoad 1 "game"; OStore 3 "game" "n3";
             OLoad 2 "game"; OCount] in
  exists h', hints_run os (mkHints 2 0 ∅ [] ∅ 0)
    = (Ok [ANone; ANone; ALoad "n1" true 2; ANone; ALoad "" false 3; ACount 2], h') /\
    abs h' = LRU.mkLRU 2 3 [((3, "game"%string), "n3"%string); ((1, "game"%string), "n1"%string)] /\
    count h' <= 2.
Proof. intros os. exact (hints_refine_lru 2 os (mkHints 2 0 ∅ [] ∅ 0) eq_refl). Defined.

(** ** Answers that come too late *)

(** Operations that move the revision *)
Definition moves (o : hint_op) : bool :=
  match o with OStore _ _ _ | OInvalidate _ _ => true | _ => false end.

Lemma lru_run_rev os a :
  inU 64 (LRU.rev a) ->
  LRU.rev (lru_run os a).2 = u64 (LRU.rev a + Z.of_nat (length (filter moves os))) /\
  inU 64 (LRU.rev (lru_run os a).2).
Proof.
  revert a. induction os as [|o os IH]; intros a Ha.
  { simpl. rewrite Z.add_0_r, wrapU_id by done. done. }
  cbn [lru_run]. destruct (lru_step o a) as [x a1] eqn:E1.
  assert (LRU.rev a1 = if moves o then u64 (LRU.rev a + 1) else LRU.rev a) as Hr.
  { destruct o; simpl in E1; repeat case_match; simplify_eq; try done; unfold LRU.put; by case_bool_decide. }
  assert (inU 64 (LRU.rev a1)) as Ha1 by (rewrite Hr; case_match; [by apply wrapU_in|done]).
  destruct (IH a1 Ha1) as [IH1 IH2]. destruct (lru_run os a1) as [xs a2]. simpl in *.
  split; [|done]. rewrite IH1, Hr, filter_cons. case_decide; destruct (moves o); try done.
  rewrite length_cons. unfold wrapU. rewrite Zplus_mod_idemp_l. f_equal. lia.
Qed.

(** An answer that comes too late is not cached.  A revision read by a load
    is no longer accepted by fill after any operations among which there is a
    store or an invalidation. *)
Theorem stale_fill_ignored h u n v os h1 xs node :
  hints_ok h -> inU 64 (revision h) ->
  (hints_step (OLoad u n) h).1 = Ok (ALoad "" false v) ->
  hints_run os h = (Ok xs, h1) -> (0 < length (filter moves os))%nat ->
  Z.of_nat (length (filter moves os)) < 2 ^ 64 ->
  hints_step (OFill u n node v) h1 = (Ok ANone, h1).
Proof.
  intros H Hu Hload Hrun Hpos Hlt.
  assert (v = revision h) as ->.
  { cbn in Hload. unfold load, st_bind in Hload.
    destruct (entries h !! (u, n)); [|by simplify_eq/=].
    destruct (values _ !! _); by simplify_eq/=. }
  pose proof (hints_run_sim os h H) as Hs. destruct (lru_run_rev os (abs h) Hu) as [Hr _].
  destruct (lru_run os (abs h)) as [ys a]. destruct Hs as (h' & Hs & _ & <-).
  rewrite Hrun in Hs. simplify_eq. simpl in Hr.
  cbn [hints_step]. unfold fill, st_bind. destruct (Z.eqb_spec (revision h) (revision h')) as [E|]; [|done].
  exfalso. rewrite Hr in E. unfold inU in Hu. unfold wrapU in E.
  destruct (decide (revision h + Z.of_nat (length (filter moves os)) < 2 ^ 64)).
  - rewrite Z.mod_small in E by lia. lia.
  - replace (revision h + Z.of_nat (length (filter moves os)))
      with (revision h + Z.of_nat (length (filter moves os)) - 2 ^ 64 + 1 * 2 ^ 64) in E by lia.
    rewrite Z_mod_plus_full, Z.mod_small in E by lia. lia.
Qed.

Lemma stale_fill_ignored_witness :
  let h0 := mkHints 2 0 ∅ [] ∅ 0 in
  let h1 := (hints_run [OInvalidate 1 "game"] h0).2 in
  hints_step (OFill 1 "game" "old" 0) h1 = (Ok ANone, h1).
Proof.
  apply (stale_fill_ignored (mkHints 2 0 ∅ [] ∅ 0) 1 "game" 0 [OInvalidate 1 "game"] _ [ANone]).
  - split; simpl; try done; [constructor|by intros e ?%not_elem_of_nil].
  - split; [discriminate|reflexivity].
  - reflexivity.
  - reflexivity.
  - vm_compute. lia.
  - reflexivity.
Defined.
