(* ===== verification/Link.v ===== *)
(** internal/link: what the gate linker and the node linker share (types.go,
    options.go) and the code outside them they call.

    A linker asks the locator, the registry and remote gates and nodes.  Such a
    call is a value of [call], indexed by the type of its answer; the answers
    are a parameter that may depend on all calls made before, so it stands for
    any behaviour of the cluster.  Clients are named by the address they were
    built for.  The message a linker sends is one object, which is read when a
    request is framed and released once by the transport for every request it
    was framed into; the calls record it as it was at that moment. *)
From stdpp Require Import base numbers list gmap strings.
From Stdlib Require Import ZArith Lia.
From S2P Require Import Prelude Types Reader Writer Nocopy Packet Dispatcher SourceHints.
Import Dispatcher.Dispatcher Endpoint (Endpoint, Address) Registry (ServiceInstance).

Open Scope Z_scope.
Open Scope go_scope.

Inductive call : Type -> Type :=
(* the locator *)
| LocatorLocateGate (uid : Z) : call string
| LocatorLocateNode (uid : Z) (name : string) : call string
| LocatorLocateNodes (uid : Z) : call (gmap string string)
| LocatorBindNode (uid : Z) (name nid : string) : call unit
| LocatorUnbindNode (uid : Z) (name nid : string) : call unit
(* the registry *)
| RegistryServices (kind : string) : call (list ServiceInstance)
(* builder.Build *)
| Build (addr : string) : call unit
(* the client of a gate *)
| GateBind (addr : string) (cid uid : Z) : call unit
| GateUnbind (addr : string) (uid : Z) : call unit
| GateGetIP (addr : string) (kind target : Z) : call string
| GateStat (addr : string) (kind : Z) : call Z
| GateIsOnline (addr : string) (kind target : Z) : call bool
| GateDisconnect (addr : string) (kind target : Z) (force : bool) : call unit
| GateDisconnectCurrent (addr : string) (kind target : Z) (token : Token) (force : bool) : call unit
| GatePush (addr : string) (kind target : Z) (disconnect : bool) (token : Token) (message : nbuf)
    (ack : bool) : call unit
| GateMulticast (addr : string) (kind : Z) (targets : list Z) (disconnect : bool) (message : nbuf)
    (ack : bool) : call Z
| GateBroadcast (addr : string) (kind : Z) (disconnect : bool) (message : nbuf) (ack : bool) : call Z
| GatePublish (addr channel : string) (disconnect : bool) (message : nbuf) (ack : bool) : call Z
| GateSubscribe (addr : string) (kind : Z) (targets : list Z) (channel : string) : call unit
| GateUnsubscribe (addr : string) (kind : Z) (targets : list Z) (channel : string) : call unit
| GateGetState (addr : string) : call Z
| GateSetState (addr : string) (state : Z) : call unit
(* the client of a node *)
| NodeTrigger (addr : string) (event cid uid : Z) (token : Token) : call unit
| NodeDeliver (addr : string) (cid uid : Z) (token : Token) (metadata : Cluster.RequestMetadata)
    (buf : nbuf) : call unit
| NodeGetState (addr : string) : call Z
| NodeSetState (addr : string) (state : Z) : call unit.

(** A call that was made *)
Definition made : Type := {A : Type & call A}.
Definition call_of {A} (c : call A) : made := existT A c.

Module Link.

(** cluster.Message; the data is nil, bytes, or a value for the codec *)
Inductive data := Nil | Raw (bs : list Z) | Value (v : Z).
Record Message := mkMessage { Seq : Z; Route : Z; Data : data }.

(** What a linker reads of its options; the locator and the handlers may be missing *)
Record Options := mkOptions {
  SourceHintCapacity : Z;
  ID : string;
  Kind : Z;
  HasLocator : bool;
  Dispatch : string;
  HasWaitHandler : bool;
  HasDoneHandler : bool
}.

(** Where calls happen: the endpoints known, the message at hand, the calls made *)
Record env := mkEnv { disp : Dispatcher; message : nbuf; log : list made }.

Section Env.
(** the answers of the cluster *)
Context (answer : forall A, list made -> call A -> res A).

Definition ask {A} (c : call A) : ST env A := fun e =>
  (answer A (log e) c, mkEnv (disp e) (message e) (log e ++ [call_of c])).

(** A request that carries the message: framed, then released by the transport *)
Definition send {A} (c : nbuf -> call A) : ST env A := fun e =>
  (answer A (log e) (c (message e)),
   mkEnv (disp e) (NocopyBuffer.Release (message e)).1 (log e ++ [call_of (c (message e))])).

Definition Release : ST env unit := fun e =>
  (Ok tt, mkEnv (disp e) (NocopyBuffer.Release (message e)).1 (log e)).

Definition Delay (n : Z) : ST env unit := fun e =>
  (Ok tt, mkEnv (disp e) (NocopyBuffer.Delay (message e) n) (log e)).

(** for range n { message.Release() } *)
Fixpoint release_times (n : nat) : ST env unit :=
  match n with O => st_ret tt | S n' => Release ;;; release_times n' end.

Definition on_dispatcher {A} (m : ST Dispatcher A) : ST env A := fun e =>
  let '(r, d) := m (disp e) in (r, mkEnv d (message e) (log e)).

Definition read_dispatcher {A} (f : Dispatcher -> res A) : ST env A := fun e => (f (disp e), e).

(** l.builder.Build(ep.Address()), the client named by its address *)
Definition build (ep : Endpoint) : ST env string :=
  ask (Build (Address ep)) ;;; st_ret (Address ep).

(** ** Messages *)
Context (packer : Packet.defaultPacker).
Context (malloc : list made -> Writer.Writer).
Context (Marshal : Z -> res (list Z)) (Encryptor : option (list Z -> res (list Z))).

Definition PackBuffer (m : data) (encrypt : bool) : res (list Z) :=
  match m with
  | Nil => Ok []
  | Raw v => Ok v
  | Value v =>
      do data <- Marshal v;
      match Encryptor with
      | Some Encrypt => if encrypt then Encrypt data else Ok data
      | None => Ok data
      end
  end.

(** The chain becomes the message at hand. *)
Definition PackMessage (m : Message) (encrypt : bool) : ST env unit := fun e =>
  match PackBuffer (Data m) encrypt with
  | Ok buf =>
      match Packet.PackBuffer packer (malloc (log e)) (Packet.mkMessage (Seq m) (Route m) buf) with
      | Ok b => (Ok tt, mkEnv (disp e) b (log e))
      | Err x => (Err x, e)
      | Panic => (Panic, e)
      end
  | Err x => (Err x, e)
  | Panic => (Panic, e)
  end.

(** ** Goroutines of an errgroup, in the order in which they finish

    The result is the sum of what they returned and the first error. *)
Fixpoint fan_out {S X} (f : X -> ST S Z) (xs : list X) (total : Z) (err : option error)
    : ST S (Z * option error) :=
  match xs with
  | [] => st_ret (total, err)
  | x :: xs' =>
      let! r := st_try (f x) in
      match r with
      | inl n => fan_out f xs' (i64 (total + n)) err
      | inr e => fan_out f xs' total (match err with None => Some e | Some _ => err end)
      end
  end.
End Env.

(** err != nil *)
Definition raise {S A} (v : A) (err : option error) : ST S A :=
  match err with None => st_ret v | Some e => st_err e end.

(** FetchGateList, FetchNodeList: the services in one of the states, all without any *)
Definition fetch_list (states : list Z) (services : list ServiceInstance) : list ServiceInstance :=
  match states with
  | [] => services
  | _ => filter (fun s => Registry.State s ∈ map Cluster.StateString states) services
  end.
End Link.

(** ** Lemmas about the linkers that do not depend on which one it is: what a call
    adds to the log, and calls that keep a predicate of the state. *)
(** ** [keeps I m]: the call leaves a state of I behind, however it ends *)

Definition keeps {S A} (I : S -> Prop) (m : ST S A) : Prop := forall s, I s -> I (m s).2.

Create HintDb keeps.

Section Keeps.
Context {S : Type} (I : S -> Prop).

Lemma keeps_ret {A} (a : A) : keeps I (st_ret a).
Proof. by intros s. Qed.
Lemma keeps_err {A} e : keeps I (st_err (A := A) e).
Proof. by intros s. Qed.
Lemma keeps_panic {A} : keeps I (st_panic (A := A)).
Proof. by intros s. Qed.

Lemma keeps_bind {A B} (m : ST S A) (k : A -> ST S B) :
  keeps I m -> (forall a, keeps I (k a)) -> keeps I (st_bind m k).
Proof.
  intros Hm Hk s Hs. specialize (Hm s Hs). unfold st_bind.
  destruct (m s) as [[a|e|] s']; [|done|done]. by apply Hk.
Qed.

Lemma keeps_try {A} (m : ST S A) : keeps I m -> keeps I (st_try m).
Proof. intros Hm s Hs. specialize (Hm s Hs). unfold st_try. by destruct (m s) as [[a|e|] s']. Qed.

Lemma keeps_lift {A} (r : res A) : keeps I (st_lift r).
Proof. by intros s. Qed.

Lemma keeps_fan_out {X} (f : X -> ST S Z) xs total err :
  (forall x, keeps I (f x)) -> keeps I (Link.fan_out f xs total err).
Proof.
  intros Hf. revert total err. induction xs as [|x xs IH]; intros total err; [apply keeps_ret|].
  apply keeps_bind; [by apply keeps_try|]. intros [n|e]; apply IH.
Qed.
End Keeps.

#[export] Hint Resolve keeps_ret keeps_err keeps_panic keeps_try keeps_lift keeps_fan_out : keeps.

(** Take a call apart down to its primitive steps *)
Ltac keeps_steps :=
  repeat first
    [ done
    | solve [auto with keeps]
    | progress intros
    | apply keeps_bind
    | apply keeps_try
    | match goal with
      | |- keeps _ (if ?b then _ else _) => destruct b
      | |- keeps _ (match ?x with _ => _ end) => destruct x
      | |- keeps _ (let '(_, _) := ?x in _) => destruct x
      end ].

(** ** What a call adds to the log *)

(** Every entry of [l'] beyond [l] satisfies P. *)
Definition grows (P : made -> Prop) (l l' : list made) : Prop :=
  exists new, l' = l ++ new /\ Forall P new.

#[export] Instance grows_po P : PreOrder (grows P).
Proof.
  split.
  - intros l. exists []. by rewrite app_nil_r.
  - intros l1 l2 l3 (n1 & -> & H1) (n2 & -> & H2). exists (n1 ++ n2).
    rewrite app_assoc. split; [done|]. by apply Forall_app.
Qed.

Lemma grows_weaken P Q l l' : (forall c, P c -> Q c) -> grows P l l' -> grows Q l l'.
Proof. intros HPQ (n & -> & H). exists n. split; [done|]. by eapply Forall_impl. Qed.

Lemma grows_one P l c : P c -> grows P l (l ++ [c]).
Proof. intros H. exists [c]. by repeat constructor. Qed.

(** The bytes a chain of one raw block sends *)
Lemma raw_bytes b : NocopyBuffer.Bytes (NocopyBuffer.NewNocopyBuffer [MBlock (BRaw b)]) = Ok b.
Proof. reflexivity. Qed.
