(* ===== verification/GateLink.v ===== *)
(** internal/link/gate.go: the calls a node makes of the gates.

    A user is found through the hints (or the legacy table of sources), then
    through the locator; a call to the wrong gate is repeated once. *)
From stdpp Require Import base numbers list gmap strings.
From Stdlib Require Import ZArith Lia.
From S2P Require Import Prelude Types Reader Writer Nocopy Packet Dispatcher SourceHints Link.
Import Dispatcher.Dispatcher Endpoint (Endpoint, Address) Registry (ServiceInstance).

Open Scope Z_scope.
Open Scope go_scope.

(** locate.Event *)
Record LocateEvent := mkLocateEvent {
  ev_uid : Z;
  ev_type : Z;
  ev_insID : string;
  ev_insName : string
}.
Definition BindGateEvent : Z := 1.
Definition BindNodeEvent : Z := 2.
Definition UnbindGateEvent : Z := 3.
Definition UnbindNodeEvent : Z := 4.

Module GateLinker.
Import Link.

Record GateLinker := mkGateLinker {
  sources : gmap Z string;
  hints : option SourceHints.sourceHints;
  env_ : env
}.

Definition on_env {A} (m : ST env A) : ST GateLinker A := fun l =>
  let '(r, e) := m (env_ l) in (r, mkGateLinker (sources l) (hints l) e).

(** a method of l.hints, which the caller found not to be nil *)
Definition on_hints {A} (m : ST SourceHints.sourceHints A) : ST GateLinker A := fun l =>
  match hints l with
  | None => (Panic, l)
  | Some h => let '(r, h') := m h in (r, mkGateLinker (sources l) (Some h') (env_ l))
  end.

Definition has_hints : ST GateLinker bool := fun l =>
  (Ok (match hints l with None => false | Some _ => true end), l).

Definition on_sources {A} (f : gmap Z string -> A * gmap Z string) : ST GateLinker A := fun l =>
  let '(a, s) := f (sources l) in (Ok a, mkGateLinker s (hints l) (env_ l)).

Section GateLinker.
Context (opts : Options).
Context (answer : forall A, list made -> call A -> res A).
Context (packer : Packet.defaultPacker) (malloc : list made -> Writer.Writer).
Context (Marshal : Z -> res (list Z)) (Encryptor : option (list Z -> res (list Z))).
(** the order in which the goroutines of a fan-out run *)
Context (order : list Z -> list Z) (order_endpoints : list Endpoint -> list Endpoint).

Abbreviation ask := (fun c => on_env (Link.ask answer c)).
Abbreviation send := (fun c => on_env (Link.send answer c)).
Abbreviation pack := (fun m => on_env (Link.PackMessage packer malloc Marshal Encryptor m true)).

Definition NewGateLinker (nb : nbuf) : res GateLinker :=
  if SourceHintCapacity opts <? 0 then Panic else
  let e := mkEnv (NewDispatcher (Dispatch opts)) nb [] in
  if 0 <? SourceHintCapacity opts
  then do h <- SourceHints.newSourceHints (SourceHintCapacity opts); Ok (mkGateLinker ∅ (Some h) e)
  else Ok (mkGateLinker ∅ None e).

Definition HasGate (gid : string) (l : GateLinker) : bool :=
  match Dispatcher_FindEndpoint gid (disp (env_ l)) with Ok _ => true | _ => false end.

Definition storeGateHint (uid : Z) (gid : string) : ST GateLinker unit :=
  let! h := has_hints in
  if h : bool then on_hints (SourceHints.store uid "gate" gid)
  else on_sources (fun s => (tt, <[uid := gid]> s)).

Definition deleteGateHint (uid : Z) : ST GateLinker unit :=
  let! h := has_hints in
  if h : bool then on_hints (SourceHints.invalidate uid "gate")
  else on_sources (fun s => (tt, delete uid s)).

(** the locator's answer, which must name a gate *)
Definition locate (uid : Z) : ST GateLinker string :=
  let! gid := ask (LocatorLocateGate uid) in
  if bool_decide (gid = ""%string) then st_err ErrNotFoundUserLocation else st_ret gid.

Definition LocateGate (uid : Z) : ST GateLinker string :=
  if negb (HasLocator opts) then st_err ErrNotFoundLocator else
  let! h := has_hints in
  if h : bool then
    let! (cached, ok, revision) := on_hints (SourceHints.load uid "gate") in
    if ok : bool then st_ret cached else
    let! gid := locate uid in
    on_hints (SourceHints.fill uid "gate" gid revision) ;;; st_ret gid
  else
    let! val := on_sources (fun s => (s !! uid, s)) in
    match val with
    | Some gid => if bool_decide (gid <> ""%string) then st_ret gid
                  else let! gid := locate uid in storeGateHint uid gid ;;; st_ret gid
    | None => let! gid := locate uid in storeGateHint uid gid ;;; st_ret gid
    end.

Definition AskGate (gid : string) (uid : Z) : ST GateLinker (string * bool) :=
  let! insID := LocateGate uid in st_ret (insID, bool_decide (insID = gid)).

Definition doBuildClient (gid : string) : ST GateLinker string :=
  if bool_decide (gid = ""%string) then st_err ErrInvalidGID else
  let! ep := on_env (read_dispatcher (Dispatcher_FindEndpoint gid)) in
  on_env (build answer ep).

(** *** doRPC *)
Section RPC.
Context {R : Type}.
Context (uid : Z).
(** the handlers are given the client, the number of the attempt and the most attempts *)
Context (successHandler : string -> Z -> Z -> ST GateLinker (bool * option R * option error)).
Context (failedHandler : Z -> Z -> ST GateLinker unit).

(** The attempts still to be made; LocateGate assigns err before it is looked at. *)
Fixpoint attempts (total : Z) (idx : list Z) (prev : string) (reply : option R) (err : option error)
    : ST GateLinker (option R * option error) :=
  match idx with
  | [] => st_ret (reply, err)
  | i :: idx' =>
      let! located := st_try (LocateGate uid) in
      match located with
      | inr e => failedHandler (i + 1) total ;;; st_ret (None, Some e)
      | inl gid =>
          if bool_decide (gid = prev) then
            failedHandler (i + 1) total ;;; st_ret (reply, None)
          else
            let! built := st_try (doBuildClient gid) in
            match built with
            | inr e => failedHandler (i + 1) total ;;; st_ret (None, Some e)
            | inl client =>
                let! (continued, reply, err) := successHandler client (i + 1) total in
                if negb continued then st_ret (reply, err)
                else deleteGateHint uid ;;; attempts total idx' gid reply err
            end
      end
  end.

Definition doRPC : ST GateLinker (option R * option error) := attempts 2 [0; 1] "" None None.
End RPC.

Definition no_handler (index total : Z) : ST GateLinker unit := st_ret tt.

(** a handler's result: continue on ErrNotFoundSession *)
Definition outcome {A R} (reply : A -> option R) (failed : option R) (m : ST GateLinker A)
    : ST GateLinker (bool * option R * option error) :=
  let! r := st_try m in
  match r with
  | inr e => st_ret (bool_decide (e = ErrNotFoundSession), failed, Some e)
  | inl a => st_ret (false, reply a, None)
  end.

Definition BindGate (gid : string) (cid uid : Z) : ST GateLinker unit :=
  let! client := doBuildClient gid in
  ask (GateBind client cid uid) ;;;
  storeGateHint uid gid.

Definition UnbindGate (uid : Z) : ST GateLinker unit :=
  let! (_, err) := doRPC uid
    (fun client _ _ => outcome (fun _ => None) (@None unit) (ask (GateUnbind client uid))) no_handler in
  match err with
  | Some e => st_err e
  | None => deleteGateHint uid
  end.

Definition FetchGateList (states : list Z) : ST GateLinker (list ServiceInstance) :=
  let! services := ask (RegistryServices (Cluster.KindString Cluster.Gate)) in
  st_ret (fetch_list states services).

Definition GetState (gid : string) : ST GateLinker Z :=
  let! client := doBuildClient gid in ask (GateGetState client).
Definition SetState (gid : string) (state : Z) : ST GateLinker unit :=
  let! client := doBuildClient gid in ask (GateSetState client state).

(** *** GetIP, IsOnline: v.(T) panics on nil *)
Definition assert_type {R} (v : option R) : ST GateLinker R :=
  match v with Some r => st_ret r | None => st_panic end.

Definition doDirectGetIP (gid : string) (kind target : Z) : ST GateLinker string :=
  let! client := doBuildClient gid in ask (GateGetIP client kind target).

Definition doIndirectGetIP (uid : Z) : ST GateLinker string :=
  let! (v, err) := doRPC uid
    (fun client _ _ => outcome Some (Some ""%string) (ask (GateGetIP client Kind.User uid)))
    no_handler in
  match err with Some e => st_err e | None => assert_type v end.

Definition GetIP (gid : string) (kind target : Z) : ST GateLinker string :=
  if kind =? Kind.Conn then doDirectGetIP gid kind target
  else if kind =? Kind.User then
    if bool_decide (gid = ""%string) then doIndirectGetIP target else doDirectGetIP gid kind target
  else st_err ErrInvalidSessionKind.

Definition doDirectIsOnline (gid : string) (kind target : Z) : ST GateLinker bool :=
  let! client := doBuildClient gid in ask (GateIsOnline client kind target).

Definition doIndirectIsOnline (kind target : Z) : ST GateLinker bool :=
  let! (v, err) := doRPC target
    (fun client _ _ => outcome Some (Some false) (ask (GateIsOnline client kind target)))
    no_handler in
  match err with Some e => st_err e | None => assert_type v end.

Definition IsOnline (gid : string) (kind target : Z) : ST GateLinker bool :=
  if kind =? Kind.Conn then doDirectIsOnline gid kind target
  else if kind =? Kind.User then
    if bool_decide (gid = ""%string) then doIndirectIsOnline kind target
    else doDirectIsOnline gid kind target
  else st_err ErrInvalidSessionKind.

(** *** Stat *)
Definition all_endpoints : ST GateLinker (list Endpoint) := fun l =>
  (Ok (order_endpoints (map snd (map_to_list (endpoints (disp (env_ l)))))), l).

Definition Stat (kind : Z) : ST GateLinker Z :=
  let! eps := all_endpoints in
  let! (total, err) := fan_out (fun ep =>
    let! client := on_env (build answer ep) in ask (GateStat client kind)) eps 0 None in
  if 0 <? total then st_ret total else raise total err.

(** *** Disconnect *)
Definition disconnect_call (client : string) (kind target : Z) (token : Token) (force : bool)
    : ST GateLinker unit :=
  if bool_decide (token <> zero_token)
  then ask (GateDisconnectCurrent client kind target token force)
  else ask (GateDisconnect client kind target force).

Definition doDirectDisconnect (gid : string) (kind target : Z) (token : Token) (force : bool)
    : ST GateLinker unit :=
  let! client := doBuildClient gid in
  disconnect_call client kind target token force.

Definition doIndirectDisconnect (uid : Z) (token : Token) (force : bool) : ST GateLinker unit :=
  let! (_, err) := doRPC uid
    (fun client _ _ => outcome (fun _ => None) (@None unit)
       (disconnect_call client Kind.User uid token force)) no_handler in
  raise tt err.

Definition Disconnect (gid : string) (kind target : Z) (token : Token) (force : bool)
    : ST GateLinker unit :=
  if kind =? Kind.Conn then doDirectDisconnect gid kind target token force
  else if kind =? Kind.User then
    if bool_decide (gid = ""%string) then doIndirectDisconnect target token force
    else doDirectDisconnect gid kind target token force
  else st_err ErrInvalidSessionKind.

(** *** Push *)
Definition releases (index total : Z) : ST GateLinker unit :=
  on_env (release_times (Z.to_nat (total - index))).

Definition doPush (kind target : Z) (disconnect : bool) (token : Token) (ack : bool)
    : ST GateLinker unit :=
  let! (_, err) := doRPC target
    (fun client index total =>
       let! r := st_try (send (fun m => GatePush client kind target disconnect token m ack)) in
       let err := match r with inl _ => None | inr e => Some e end in
       if ack : bool then
         if bool_decide (err = Some ErrNotFoundSession) then st_ret (true, @None unit, err)
         else releases index total ;;; st_ret (false, None, err)
       else st_ret (false, None, err))
    releases in
  raise tt err.

Definition push_direct (gid : string) (kind target : Z) (disconnect : bool) (token : Token)
    (m : Message) (ack : bool) : ST GateLinker unit :=
  let! client := doBuildClient gid in
  pack m ;;;
  send (fun b => GatePush client kind target disconnect token b ack).

Definition Push (gid : string) (kind target : Z) (token : Token) (m : Message)
    (disconnect ack : bool) : ST GateLinker unit :=
  if kind =? Kind.Conn then push_direct gid kind target disconnect token m ack
  else if kind =? Kind.User then
    if bool_decide (gid <> ""%string) then push_direct gid kind target disconnect token m ack
    else pack m ;;; doPush kind target disconnect token ack
  else st_err ErrInvalidSessionKind.

(** *** Multicast *)
Definition doDirectMulticast (gid : string) (kind : Z) (targets : list Z) (m : Message)
    (disconnect ack : bool) : ST GateLinker Z :=
  match targets with
  | [] => st_err ErrReceiveTargetEmpty
  | [target] =>
      let! client := doBuildClient gid in
      pack m ;;;
      send (fun b => GatePush client kind target disconnect zero_token b ack) ;;;
      st_ret (if ack then 1 else 0)
  | _ =>
      let! client := doBuildClient gid in
      pack m ;;;
      send (fun b => GateMulticast client kind targets disconnect b ack)
  end.

Definition doMulticast (kind : Z) (targets : list Z) (disconnect ack : bool) : ST GateLinker Z :=
  let! (total, err) := fan_out (fun target =>
    doPush kind target disconnect zero_token ack ;;; st_ret 1) (order targets) 0 None in
  if total =? 0 then raise 0 err else st_ret total.

Definition doIndirectMulticast (kind : Z) (targets : list Z) (m : Message) (disconnect ack : bool)
    : ST GateLinker Z :=
  let n := len targets in
  match targets with
  | [] => st_err ErrReceiveTargetEmpty
  | target :: rest =>
      pack m ;;;
      if ack then
        on_env (Delay (i32 (n * 2))) ;;;
        match rest with
        | [] => doPush kind target disconnect zero_token ack ;;; st_ret 1
        | _ => doMulticast kind targets disconnect ack
        end
      else
        match rest with
        | [] => doPush kind target disconnect zero_token ack ;;; st_ret 0
        | _ => on_env (Delay (i32 n)) ;;; let! _ := doMulticast kind targets disconnect ack in st_ret 0
        end
  end.

Definition Multicast (gid : string) (kind : Z) (targets : list Z) (m : Message)
    (disconnect ack : bool) : ST GateLinker Z :=
  if kind =? Kind.Conn then doDirectMulticast gid kind targets m disconnect ack
  else if kind =? Kind.User then
    if bool_decide (gid = ""%string) then doIndirectMulticast kind targets m disconnect ack
    else doDirectMulticast gid kind targets m disconnect ack
  else st_err ErrInvalidSessionKind.

(** *** Broadcast, Publish: one request per gate *)
Definition to_all (f : Endpoint -> ST GateLinker Z) (m : Message) : ST GateLinker Z :=
  let! eps := all_endpoints in
  match eps with
  | [] => st_ret 0
  | [ep] => pack m ;;; f ep
  | _ =>
      pack m ;;;
      on_env (Delay (i32 (len eps))) ;;;
      let! (total, err) := fan_out f eps 0 None in
      if total =? 0 then raise 0 err else st_ret total
  end.

Definition doBroadcast (kind : Z) (disconnect ack : bool) (ep : Endpoint) : ST GateLinker Z :=
  let! built := st_try (on_env (build answer ep)) in
  match built with
  | inr e => on_env Release ;;; st_err e
  | inl client => send (fun b => GateBroadcast client kind disconnect b ack)
  end.

Definition Broadcast (kind : Z) (m : Message) (disconnect ack : bool) : ST GateLinker Z :=
  to_all (doBroadcast kind disconnect ack) m.

(** the client refuses a long channel before it frames the request *)
Definition doPublish (channel : string) (disconnect ack : bool) (ep : Endpoint) : ST GateLinker Z :=
  let! built := st_try (on_env (build answer ep)) in
  match built with
  | inr e => on_env Release ;;; st_err e
  | inl client =>
      if 255 <? Z.of_nat (String.length channel) then st_err ErrInvalidArgument
      else send (fun b => GatePublish client channel disconnect b ack)
  end.

Definition Publish (channel : string) (m : Message) (disconnect ack : bool) : ST GateLinker Z :=
  to_all (doPublish channel disconnect ack) m.

(** *** Subscribe, Unsubscribe *)
Definition doDirectSubscribe (gid : string) (kind : Z) (targets : list Z) (channel : string)
    : ST GateLinker unit :=
  match targets with
  | [] => st_err ErrReceiveTargetEmpty
  | _ => let! client := doBuildClient gid in ask (GateSubscribe client kind targets channel)
  end.

(** a handler that never asks for another attempt *)
Definition once (m : ST GateLinker unit) : ST GateLinker (bool * option unit * option error) :=
  let! r := st_try m in
  st_ret (false, None, match r with inl _ => None | inr e => Some e end).

(** one doRPC per target; Wait returns the first error *)
Definition each_target (f : string -> Z -> ST GateLinker unit) (targets : list Z)
    : ST GateLinker unit :=
  let! (_, err) := fan_out (fun target =>
    let! (_, err) := doRPC target (fun client _ _ => once (f client target)) no_handler in
    raise 0 err) (order targets) 0 None in
  raise tt err.

Definition doIndirectSubscribe (kind : Z) (targets : list Z) (channel : string)
    : ST GateLinker unit :=
  match targets with
  | [] => st_err ErrReceiveTargetEmpty
  | _ => each_target (fun client t => ask (GateSubscribe client kind [t] channel)) targets
  end.

Definition Subscribe (gid : string) (kind : Z) (targets : list Z) (channel : string)
    : ST GateLinker unit :=
  if kind =? Kind.Conn then doDirectSubscribe gid kind targets channel
  else if kind =? Kind.User then
    if bool_decide (gid = ""%string) then doIndirectSubscribe kind targets channel
    else doDirectSubscribe gid kind targets channel
  else st_err ErrInvalidSessionKind.

Definition doDirectUnsubscribe (gid : string) (kind : Z) (targets : list Z) (channel : string)
    : ST GateLinker unit :=
  match targets with
  | [] => st_err ErrReceiveTargetEmpty
  | _ => let! client := doBuildClient gid in ask (GateUnsubscribe client kind targets channel)
  end.

Definition doIndirectUnsubscribe (kind : Z) (targets : list Z) (channel : string)
    : ST GateLinker unit :=
  match targets with
  | [] => st_err ErrReceiveTargetEmpty
  | _ => each_target (fun client t => ask (GateUnsubscribe client kind [t] channel)) targets
  end.

Definition Unsubscribe (gid : string) (kind : Z) (targets : list Z) (channel : string)
    : ST GateLinker unit :=
  if kind =? Kind.Conn then doDirectUnsubscribe gid kind targets channel
  else if kind =? Kind.User then
    if bool_decide (gid = ""%string) then doIndirectUnsubscribe kind targets channel
    else doDirectUnsubscribe gid kind targets channel
  else st_err ErrInvalidSessionKind.

(** *** What the watchers do with an event, and with a list of services *)
Definition applySourceEvent (ev : LocateEvent) : ST GateLinker unit :=
  if negb (ev_type ev =? BindGateEvent) && negb (ev_type ev =? UnbindGateEvent) then st_ret tt else
  let! h := has_hints in
  if h : bool then on_hints (SourceHints.invalidate (ev_uid ev) "gate")
  else if ev_type ev =? BindGateEvent then storeGateHint (ev_uid ev) (ev_insID ev)
  else deleteGateHint (ev_uid ev).

Definition SourceHintCount (l : GateLinker) : Z :=
  match hints l with None => 0 | Some h => SourceHints.count h end.
End GateLinker.

Definition replace_services (Parse : string -> res URL) (services : list ServiceInstance)
    : ST GateLinker unit :=
  on_env (on_dispatcher (fun d => (Ok tt, ReplaceServices Parse services d))).
End GateLinker.
