(* ===== verification/NodeLink.v ===== *)
(** internal/link/node.go: the calls made of the nodes, by gates and by nodes.

    The linker keeps where users are: in the bounded hints, and, without hints
    or for users of this very node, in the table of sources.  [owned] is what
    the wait and done handlers count: node.addOwnedSource and
    node.doneOwnedSource (cluster/node/node.go). *)
From stdpp Require Import base numbers list gmap strings.
From Stdlib Require Import ZArith Lia.
From S2P Require Import Prelude Types Reader Writer Nocopy Packet Dispatcher SourceHints Link GateLink.
Import Dispatcher.Dispatcher Endpoint (Endpoint, Address) Registry (ServiceInstance).

Open Scope Z_scope.
Open Scope go_scope.

Module NodeLinker.
Import Link.

(** DeliverArgs.Buffer *)
Inductive payload := PBytes (bs : list Z) | PBuffer (b : nbuf) | PMessage (m : Message) | POther.

Record DeliverArgs := mkDeliverArgs {
  NID : string;
  CID : Z;
  UID : Z;
  Token_ : Token;
  Metadata : Cluster.RequestMetadata;
  RouteID : Z;
  Buffer : payload
}.

Record NodeLinker := mkNodeLinker {
  sources : gmap Z (gmap string string);
  hints : option SourceHints.sourceHints;
  owned : Z;
  env_ : env
}.

Definition on_env {A} (m : ST env A) : ST NodeLinker A := fun l =>
  let '(r, e) := m (env_ l) in (r, mkNodeLinker (sources l) (hints l) (owned l) e).

Definition on_hints {A} (m : ST SourceHints.sourceHints A) : ST NodeLinker A := fun l =>
  match hints l with
  | None => (Panic, l)
  | Some h => let '(r, h') := m h in (r, mkNodeLinker (sources l) (Some h') (owned l) (env_ l))
  end.

Definition has_hints : ST NodeLinker bool := fun l =>
  (Ok (match hints l with None => false | Some _ => true end), l).

Definition on_sources {A} (f : gmap Z (gmap string string) -> A * gmap Z (gmap string string))
    : ST NodeLinker A := fun l =>
  let '(a, s) := f (sources l) in (Ok a, mkNodeLinker s (hints l) (owned l) (env_ l)).

Section NodeLinker.
Context (opts : Options).
Context (answer : forall A, list made -> call A -> res A).
Context (packer : Packet.defaultPacker) (malloc : list made -> Writer.Writer).
Context (Marshal : Z -> res (list Z)) (Encryptor : option (list Z -> res (list Z))).
Context (rand : list made -> Z -> Z).

Abbreviation ask := (fun c => on_env (Link.ask answer c)).
Abbreviation send := (fun c => on_env (Link.send answer c)).

Definition NewNodeLinker (nb : nbuf) : res NodeLinker :=
  if SourceHintCapacity opts <? 0 then Panic else
  let e := mkEnv (NewDispatcher (Dispatch opts)) nb [] in
  if 0 <? SourceHintCapacity opts
  then do h <- SourceHints.newSourceHints (SourceHintCapacity opts); Ok (mkNodeLinker ∅ (Some h) 0 e)
  else Ok (mkNodeLinker ∅ None 0 e).

Definition InvalidateSessionSourceHints (uid : Z) : ST NodeLinker unit :=
  if (uid <=? 0) || negb (Kind opts =? Cluster.Gate) then st_ret tt else
  let! h := has_hints in
  if h : bool then on_hints (SourceHints.invalidate uid "game")
  else on_sources (fun s => (tt, delete uid s)).

Definition HasNode (nid : string) (l : NodeLinker) : bool :=
  match Dispatcher_FindEndpoint nid (disp (env_ l)) with Ok _ => true | _ => false end.

(** *** The table of sources *)

(** the handlers, when there are any *)
Definition WaitHandler : ST NodeLinker unit := fun l =>
  (Ok tt, if HasWaitHandler opts
          then mkNodeLinker (sources l) (hints l) (owned l + 1) (env_ l) else l).
Definition DoneHandler : ST NodeLinker unit := fun l =>
  (Ok tt, if HasDoneHandler opts
          then mkNodeLinker (sources l) (hints l) (owned l - 1) (env_ l) else l).

(** what happens under the lock: wait, done and the new table *)
Definition store_locked (uid : Z) (name nid : string) (s : gmap Z (gmap string string))
    : (bool * bool) * gmap Z (gmap string string) :=
  match s !! uid with
  | Some m =>
      match m !! name with
      | Some oldNID =>
          if bool_decide (oldNID = nid) then ((false, false), s)
          else
            let s' := <[uid := <[name := nid]> m]> s in
            if bool_decide (ID opts = oldNID) then ((false, true), s')
            else if bool_decide (ID opts = nid) then ((true, false), s')
            else ((false, false), s')
      | None => ((bool_decide (ID opts = nid), false), <[uid := <[name := nid]> m]> s)
      end
  | None => ((bool_decide (ID opts = nid), false), <[uid := {[name := nid]}]> s)
  end.

Definition storeLegacySource (uid : Z) (name nid : string) : ST NodeLinker unit :=
  let! (wait, done) := on_sources (store_locked uid name nid) in
  (if wait : bool then WaitHandler else st_ret tt) ;;;
  (if done : bool then DoneHandler else st_ret tt).

Definition doStoreSource (uid : Z) (name nid : string) : ST NodeLinker unit :=
  let! h := has_hints in
  if h : bool then on_hints (SourceHints.store uid name nid) else storeLegacySource uid name nid.

Definition delete_locked (uid : Z) (name nid : string) (s : gmap Z (gmap string string))
    : bool * gmap Z (gmap string string) :=
  match s !! uid with
  | None => (false, s)
  | Some m =>
      match m !! name with
      | None => (false, s)
      | Some oldNID =>
          if bool_decide (oldNID <> nid) then (false, s) else
          (bool_decide (oldNID = ID opts),
           if Z.of_nat (size m) =? 1 then delete uid s else <[uid := delete name m]> s)
      end
  end.

Definition deleteLegacySource (uid : Z) (name nid : string) : ST NodeLinker unit :=
  let! done := on_sources (delete_locked uid name nid) in
  if done : bool then DoneHandler else st_ret tt.

Definition doDeleteSource (uid : Z) (name nid : string) : ST NodeLinker unit :=
  let! h := has_hints in
  if h : bool then on_hints (SourceHints.invalidate uid name) else deleteLegacySource uid name nid.

Definition doLoadSource (uid : Z) (name : string) : ST NodeLinker (option string) :=
  let! h := has_hints in
  if h : bool then
    let! (nid, ok, _) := on_hints (SourceHints.load uid name) in
    st_ret (if ok : bool then Some nid else None)
  else on_sources (fun s => (s !! uid ≫= fun m => m !! name, s)).

Definition LocalBoundUserIDs (name nid : string) (l : NodeLinker) : list Z :=
  map fst (filter (fun x => default ""%string (x.2 !! name) = nid) (map_to_list (sources l))).

(** *** Where a user is *)

(** the locator's answer, which must name a node *)
Definition locate (uid : Z) (name : string) : ST NodeLinker string :=
  let! nid := ask (LocatorLocateNode uid name) in
  if bool_decide (nid = ""%string) then st_err ErrNotFoundUserLocation else st_ret nid.

Definition LocateNode (uid : Z) (name : string) : ST NodeLinker string :=
  if negb (HasLocator opts) then st_err ErrNotFoundLocator else
  let! h := has_hints in
  if h : bool then
    let! (cached, ok, revision) := on_hints (SourceHints.load uid name) in
    if ok : bool then st_ret cached else
    let! nid := locate uid name in
    on_hints (SourceHints.fill uid name nid revision) ;;; st_ret nid
  else
    let! known := doLoadSource uid name in
    match known with
    | Some nid => st_ret nid
    | None => let! nid := locate uid name in doStoreSource uid name nid ;;; st_ret nid
    end.

(** the error result carries what was found, too *)
Definition AskNode (uid : Z) (name nid : string) : ST NodeLinker (string * bool) :=
  let! h := has_hints in
  if h : bool then
    let! found := LocateNode uid name in st_ret (found, bool_decide (found = nid))
  else
    if negb (HasLocator opts) then st_err ErrNotFoundLocator else
    let! known := doLoadSource uid name in
    match known with
    | Some insID => st_ret (insID, bool_decide (insID = nid))
    | None => let! insID := locate uid name in
              doStoreSource uid name insID ;;; st_ret (insID, bool_decide (insID = nid))
    end.

Definition LocateNodes (uid : Z) : ST NodeLinker (gmap string string) :=
  if negb (HasLocator opts) then st_err ErrNotFoundLocator else ask (LocatorLocateNodes uid).

(** route.FindEndpoint(nid) on the route object in the dispatcher's table *)
Definition find_endpoint (route : Z) (nid : string) : ST NodeLinker Endpoint := fun l =>
  on_env (on_dispatcher (fun d =>
    on_route route (FindEndpoint (dispatch d) (rand (log (env_ l))) [nid]) d)) l.

Definition ResolveStatelessAffinityNode (routeID uid : Z) (grp : string) : ST NodeLinker string :=
  if (uid <=? 0) || bool_decide (grp = ""%string) then st_ret ""%string else
  let! route := on_env (read_dispatcher (FindRoute routeID)) in
  if Stateful route || Authorized route || bool_decide (group route <> grp)
  then st_ret ""%string else
  if negb (HasLocator opts) then st_err ErrNotFoundLocator else
  let! located := st_try (ask (LocatorLocateNode uid grp)) in
  match located with
  | inr e => if bool_decide (e = ErrNotFoundUserLocation) then st_ret ""%string else st_err e
  | inl nid =>
      if bool_decide (nid = ""%string) then st_ret ""%string else
      let! ep := st_try (find_endpoint routeID nid) in
      match ep with
      | inr e => if bool_decide (e = ErrNotFoundEndpoint) then st_ret ""%string else st_err e
      | inl _ => st_ret nid
      end
  end.

Definition BindNode (uid : Z) (name nid : string) : ST NodeLinker unit :=
  if negb (HasLocator opts) then st_err ErrNotFoundLocator else
  ask (LocatorBindNode uid name nid) ;;;
  let! h := has_hints in
  (if h && bool_decide (nid = ID opts) then storeLegacySource uid name nid else st_ret tt) ;;;
  doStoreSource uid name nid.

Definition UnbindNode (uid : Z) (name nid : string) : ST NodeLinker unit :=
  if negb (HasLocator opts) then st_err ErrNotFoundLocator else
  ask (LocatorUnbindNode uid name nid) ;;;
  let! h := has_hints in
  (if h : bool then deleteLegacySource uid name nid else st_ret tt) ;;;
  doDeleteSource uid name nid.

Definition FetchNodeList (states : list Z) : ST NodeLinker (list ServiceInstance) :=
  let! services := ask (RegistryServices (Cluster.KindString Cluster.Node)) in
  st_ret (fetch_list states services).

(** *** doRPC *)
Definition doBuildClient (nid : string) : ST NodeLinker string :=
  if bool_decide (nid = ""%string) then st_err ErrInvalidNID else
  let! ep := on_env (read_dispatcher (Dispatcher_FindEndpoint nid)) in
  on_env (build answer ep).

Section RPC.
(** X: the variables of the caller that fn assigns to; its reply is always nil *)
Context {X : Type}.
Context (uid : Z) (route : Dispatcher.Dispatcher.Route).
Context (fn : string -> X -> ST NodeLinker (bool * option error * X)).

(** for range n; prev and err are the variables of the function *)
Fixpoint attempts (n : nat) (prev : string) (err : option error) (x : X)
    : ST NodeLinker (option error * X) :=
  match n with
  | O => st_ret (err, x)
  | S n' =>
      let! located := (if Stateful route
                       then st_try (LocateNode uid (group route)) else st_ret (inl ""%string)) in
      match located with
      | inr e => st_ret (Some e, x)
      | inl nid =>
          if Stateful route && bool_decide (nid = prev) then st_ret (None, x) else
          let prev := if Stateful route then nid else prev in
          let! found := st_try (find_endpoint (Dispatcher.Dispatcher.ID route) nid) in
          match found with
          | inr e => st_ret (Some e, x)
          | inl ep =>
              let! built := st_try (on_env (build answer ep)) in
              match built with
              | inr e =>
                  if Stateful route && bool_decide (prev <> ""%string)
                  then doDeleteSource uid (group route) prev ;;; attempts n' prev (Some e) x
                  else st_ret (Some e, x)
              | inl client =>
                  let! (continued, err, x) := fn client x in
                  if continued : bool then
                    (if Stateful route then doDeleteSource uid (group route) prev else st_ret tt) ;;;
                    attempts n' prev err x
                  else st_ret (err, x)
              end
          end
      end
  end.
End RPC.

Definition doRPC {X} (routeID uid : Z) (fn : string -> X -> ST NodeLinker (bool * option error * X))
    (x : X) : ST NodeLinker (option error * X) :=
  let! found := st_try (on_env (read_dispatcher (FindRoute routeID))) in
  match found with
  | inr e => st_ret (Some e, x)
  | inl route =>
      if (uid =? 0) && (Stateful route || Authorized route) then st_ret (Some ErrIllegalRequest, x)
      else if (Kind opts =? Cluster.Gate) && Internal route then st_ret (Some ErrIllegalRequest, x)
      else attempts uid route fn 2 "" None x
  end.

(** *** Deliver *)
Definition set_buffer (b : nbuf) : ST NodeLinker unit :=
  on_env (fun e => (Ok tt, mkEnv (disp e) b (log e))).

(** The switch on the payload; retryBytes is set for plain bytes.  When packing
    fails, Release is called on the nil buffer it returned. *)
Definition open_payload (p : payload) : ST NodeLinker (option (list Z)) :=
  match p with
  | PBytes b => set_buffer (NocopyBuffer.NewNocopyBuffer [MBlock (BRaw b)]) ;;; st_ret (Some b)
  | PBuffer b => set_buffer b ;;; st_ret None
  | PMessage m =>
      let! packed := st_try (on_env (Link.PackMessage packer malloc Marshal Encryptor m false)) in
      match packed with inl _ => st_ret None | inr _ => st_panic end
  | POther => st_err ErrInvalidMessage
  end.

Definition deliver_call (client : string) (args : DeliverArgs) : ST NodeLinker unit :=
  send (fun b => NodeDeliver client (CID args) (UID args) (Token_ args) (Metadata args) b).

(** the function given to doRPC; isDeliver and deliverTries are its variables *)
Definition deliver_attempt (args : DeliverArgs) (retryBytes : option (list Z)) (client : string)
    (x : bool * Z) : ST NodeLinker (bool * option error * (bool * Z)) :=
  let deliverTries := x.2 + 1 in
  let! r := st_try (deliver_call client args) in
  match r, retryBytes with
  | inr e, Some b =>
      if deliverTries =? 1
      then set_buffer (NocopyBuffer.NewNocopyBuffer [MBlock (BRaw b)]) ;;;
           st_ret (true, Some e, (true, deliverTries))
      else st_ret (false, Some e, (true, deliverTries))
  | inr e, None => st_ret (false, Some e, (true, deliverTries))
  | inl _, _ => st_ret (false, None, (true, deliverTries))
  end.

Definition deliver (args : DeliverArgs) (strict : bool) : ST NodeLinker unit :=
  let! retryBytes := open_payload (Buffer args) in
  if bool_decide (NID args <> ""%string) then
    let! built := st_try (doBuildClient (NID args)) in
    match built with
    | inr e => on_env Release ;;; st_err e
    | inl client => deliver_call client args
    end
  else
    let! (err, (isDeliver, _)) := doRPC (RouteID args) (UID args)
                                    (deliver_attempt args retryBytes) (false, 0) in
    match err with
    | None => st_ret tt
    | Some e =>
        (if isDeliver : bool then st_ret tt else on_env Release) ;;;
        if strict || bool_decide (e <> ErrNotFoundUserLocation) then st_err e else st_ret tt
    end.

Definition Deliver (args : DeliverArgs) : ST NodeLinker unit := deliver args false.
Definition DeliverRequest (args : DeliverArgs) : ST NodeLinker unit := deliver args true.

(** *** Trigger: one goroutine per endpoint, whose errors nobody waits for *)
Definition Trigger (event cid uid : Z) (token : Token) : ST NodeLinker unit :=
  let! e := on_env (read_dispatcher (FindEvent event)) in
  Event_VisitEndpoints (fun _ ep =>
    let! _ := st_try (let! client := on_env (build answer ep) in
                      ask (NodeTrigger client event cid uid token)) in
    st_ret true) e.

Definition GetState (nid : string) : ST NodeLinker Z :=
  let! client := doBuildClient nid in ask (NodeGetState client).
Definition SetState (nid : string) (state : Z) : ST NodeLinker unit :=
  let! client := doBuildClient nid in ask (NodeSetState client state).

(** *** What the watchers do *)
Definition applySourceEvent (ev : LocateEvent) : ST NodeLinker unit :=
  if negb (ev_type ev =? BindNodeEvent) && negb (ev_type ev =? UnbindNodeEvent) then st_ret tt else
  let! h := has_hints in
  if h : bool then on_hints (SourceHints.invalidate (ev_uid ev) (ev_insName ev))
  else if ev_type ev =? BindNodeEvent
  then doStoreSource (ev_uid ev) (ev_insName ev) (ev_insID ev)
  else doDeleteSource (ev_uid ev) (ev_insName ev) (ev_insID ev).

Definition SourceHintCount (l : NodeLinker) : Z :=
  match hints l with None => 0 | Some h => SourceHints.count h end.
End NodeLinker.

Definition replace_services (Parse : string -> res URL) (services : list ServiceInstance)
    : ST NodeLinker unit :=
  on_env (on_dispatcher (fun d => (Ok tt, ReplaceServices Parse services d))).
End NodeLinker.
