(* ===== verification/NodeLinkOk.v ===== *)
(** What the node linker promises: the count of the users this node owns, and
    deliveries that reach one node at most once. *)
From stdpp Require Import base numbers list gmap strings.
From Stdlib Require Import ZArith Lia.
From S2P Require Import Prelude Types Reader Writer Nocopy Packet Dispatcher SourceHints Link GateLink.
From S2P Require Import NodeLink Link.
Import Link NodeLinker.

Open Scope Z_scope.
Open Scope go_scope.

(** ** The users this node owns

    [count_owned id s]: how many entries of the table name the node [id]. *)

Definition own (id : string) (m : gmap string string) : Z :=
  Z.of_nat (size (filter (fun kv => kv.2 = id) m)).

Definition count_owned (id : string) (s : gmap Z (gmap string string)) : Z :=
  map_fold (fun _ m acc => own id m + acc) 0 s.

Definition mine (id x : string) : Z := if decide (x = id) then 1 else 0.

Lemma own_insert id m n x :
  m !! n = None -> own id (<[n := x]> m) = own id m + mine id x.
Proof.
  intros Hn. unfold own, mine. case_decide as Hx.
  - rewrite map_filter_insert_True by done. rewrite map_size_insert_None; [lia|].
    apply map_lookup_filter_None. by left.
  - rewrite map_filter_insert_not' by naive_solver. lia.
Qed.

Lemma own_delete id m n x :
  m !! n = Some x -> own id (delete n m) = own id m - mine id x.
Proof.
  intros Hn. rewrite <- (insert_delete_id m n x Hn) at 2.
  rewrite own_insert by apply lookup_delete_eq. lia.
Qed.

Lemma own_replace id m n x y :
  m !! n = Some x -> own id (<[n := y]> m) = own id m - mine id x + mine id y.
Proof.
  intros Hn. rewrite <- insert_delete_eq, own_insert by apply lookup_delete_eq.
  by rewrite (own_delete id m n x).
Qed.

Lemma count_insert id s u m :
  s !! u = None -> count_owned id (<[u := m]> s) = own id m + count_owned id s.
Proof. intros Hu. unfold count_owned. rewrite map_fold_insert_L; [done| |done]. intros. lia. Qed.

Lemma count_delete id s u m :
  s !! u = Some m -> count_owned id (delete u s) = count_owned id s - own id m.
Proof.
  intros Hu. unfold count_owned. rewrite (map_fold_delete_L _ _ u m s); [lia| |done]. intros. lia.
Qed.

Lemma count_replace id s u m m' :
  s !! u = Some m -> count_owned id (<[u := m']> s) = count_owned id s - own id m + own id m'.
Proof.
  intros Hu. rewrite <- insert_delete_eq, count_insert by apply lookup_delete_eq.
  rewrite (count_delete id s u m) by done. lia.
Qed.

Lemma own_singleton id n x : own id {[n := x]} = mine id x.
Proof. rewrite <- insert_empty, own_insert by apply lookup_empty. unfold own. by rewrite map_filter_empty. Qed.

Lemma own_only id m n x : m !! n = Some x -> Z.of_nat (size m) = 1 -> own id m = mine id x.
Proof.
  intros Hn Hs. assert (delete n m = ∅) as E.
  { apply map_size_empty_iff. rewrite map_size_delete_Some by eauto. lia. }
  rewrite <- (insert_delete_id m n x Hn), E, insert_empty. apply own_singleton.
Qed.

Section Owned.
Context (opts : Options) (Hwait : HasWaitHandler opts = true) (Hdone : HasDoneHandler opts = true).
Context (answer : forall A, list made -> call A -> res A).

Definition accounted (l : NodeLinker) : Prop := owned l = count_owned (ID opts) (sources l).

(** The new table, and the handlers that are called *)
Lemma store_locked_count u n x s :
  let '((wait, done), s') := store_locked opts u n x s in
  count_owned (ID opts) s' = count_owned (ID opts) s + Z.b2z wait - Z.b2z done.
Proof.
  unfold store_locked. destruct (s !! u) as [m|] eqn:Hu; [destruct (m !! n) as [old|] eqn:Hn|].
  - case_bool_decide; [simpl; lia|].
    repeat case_bool_decide; rewrite (count_replace _ s u m) by done;
      rewrite (own_replace _ m n old) by done; unfold mine; repeat case_decide; subst; simpl; try congruence; lia.
  - rewrite (count_replace _ s u m), (own_insert _ m n) by done.
    unfold mine. case_bool_decide; case_decide; simpl; try congruence; lia.
  - rewrite count_insert, own_singleton by done.
    unfold mine. case_bool_decide; case_decide; simpl; try congruence; lia.
Qed.

Lemma delete_locked_count u n x s :
  let '(done, s') := delete_locked opts u n x s in
  count_owned (ID opts) s' = count_owned (ID opts) s - Z.b2z done.
Proof.
  unfold delete_locked. destruct (s !! u) as [m|] eqn:Hu; [|simpl; lia].
  destruct (m !! n) as [old|] eqn:Hn; [|simpl; lia]. case_bool_decide; [simpl; lia|].
  assert (Z.b2z (bool_decide (old = ID opts)) = mine (ID opts) old) as ->
    by (unfold mine; case_bool_decide; by case_decide).
  destruct (Z.eqb_spec (Z.of_nat (size m)) 1) as [E|].
  - rewrite (count_delete _ s u m) by done. rewrite (own_only _ m n old) by done. lia.
  - rewrite (count_replace _ s u m) by done. rewrite (own_delete _ m n old) by done. lia.
Qed.

Lemma storeLegacy_keeps u n x : keeps accounted (storeLegacySource opts u n x).
Proof.
  intros l Hl. unfold storeLegacySource, st_bind, on_sources, accounted in *.
  pose proof (store_locked_count u n x (sources l)) as Hc.
  destruct (store_locked opts u n x (sources l)) as [[wait done] s'].
  unfold WaitHandler, DoneHandler. rewrite Hwait, Hdone.
  destruct wait, done; simpl in *; lia.
Qed.

Lemma deleteLegacy_keeps u n x : keeps accounted (deleteLegacySource opts u n x).
Proof.
  intros l Hl. unfold deleteLegacySource, st_bind, on_sources, accounted in *.
  pose proof (delete_locked_count u n x (sources l)) as Hc.
  destruct (delete_locked opts u n x (sources l)) as [done s'].
  unfold DoneHandler. rewrite Hdone. destruct done; simpl in *; lia.
Qed.

(** Everything else does not touch the table. *)
Lemma on_env_keeps {A} (m : ST env A) : keeps accounted (on_env m).
Proof. intros l Hl. unfold on_env. by destruct (m (env_ l)). Qed.

Lemma on_hints_keeps {A} (m : ST SourceHints.sourceHints A) : keeps accounted (on_hints m).
Proof. intros l Hl. unfold on_hints. destruct (hints l) as [h|]; [by destruct (m h)|done]. Qed.

Lemma has_hints_keeps : keeps accounted has_hints.
Proof. by intros l. Qed.

Lemma read_sources_keeps {A} (f : gmap Z (gmap string string) -> A) :
  keeps accounted (on_sources (fun s => (f s, s))).
Proof. by intros l. Qed.

#[local] Hint Resolve storeLegacy_keeps deleteLegacy_keeps on_env_keeps on_hints_keeps
  has_hints_keeps read_sources_keeps : keeps.

Lemma doStoreSource_keeps u n x : keeps accounted (doStoreSource opts u n x).
Proof. unfold doStoreSource. keeps_steps. Qed.
Lemma doDeleteSource_keeps u n x : keeps accounted (doDeleteSource opts u n x).
Proof. unfold doDeleteSource. keeps_steps. Qed.
Lemma doLoadSource_keeps u n : keeps accounted (doLoadSource u n).
Proof. unfold doLoadSource. keeps_steps. Qed.
#[local] Hint Resolve doStoreSource_keeps doDeleteSource_keeps doLoadSource_keeps : keeps.

Lemma locate_keeps u n : keeps accounted (NodeLinker.locate answer u n).
Proof. unfold NodeLinker.locate. keeps_steps. Qed.
#[local] Hint Resolve locate_keeps : keeps.
Lemma LocateNode_keeps u n : keeps accounted (LocateNode opts answer u n).
Proof. unfold LocateNode. keeps_steps. Qed.
#[local] Hint Resolve LocateNode_keeps : keeps.

Lemma find_endpoint_keeps rand r n : keeps accounted (find_endpoint rand r n).
Proof. intros l Hl. by apply on_env_keeps. Qed.
#[local] Hint Resolve find_endpoint_keeps : keeps.

Lemma deliver_keeps packer malloc Marshal Encryptor rand args strict :
  keeps accounted (deliver opts answer packer malloc Marshal Encryptor rand args strict).
Proof.
  unfold deliver, open_payload, doBuildClient, set_buffer, deliver_call, doRPC. keeps_steps.
Qed.

Lemma Trigger_keeps e c u t : keeps accounted (Trigger answer e c u t).
Proof.
  unfold Trigger, Dispatcher.Dispatcher.Event_VisitEndpoints.
  assert (forall fn l, (forall i ep, keeps accounted (fn i ep)) ->
    keeps accounted (Dispatcher.Dispatcher.visit fn l)) as Hvisit.
  { intros fn l Hfn. induction l as [|se l IH]; [apply keeps_ret|].
    cbn [Dispatcher.Dispatcher.visit]. keeps_steps. }
  keeps_steps; apply Hvisit; keeps_steps.
Qed.
#[local] Hint Resolve deliver_keeps Trigger_keeps : keeps.

(** ** Every public call *)

Inductive node_op :=
| OpBindNode (uid : Z) (name nid : string)
| OpUnbindNode (uid : Z) (name nid : string)
| OpLocateNode (uid : Z) (name : string)
| OpAskNode (uid : Z) (name nid : string)
| OpResolve (route uid : Z) (group : string)
| OpDeliver (args : DeliverArgs) (strict : bool)
| OpTrigger (event cid uid : Z) (token : Token)
| OpInvalidate (uid : Z)
| OpEvent (ev : LocateEvent)
| OpServices (services : list Dispatcher.Registry.ServiceInstance).

Context (packer : Packet.defaultPacker) (malloc : list made -> Writer.Writer).
Context (Marshal : Z -> res (list Z)) (Encryptor : option (list Z -> res (list Z))).
Context (rand : list made -> Z -> Z) (Parse : string -> res Dispatcher.URL).

Definition drop {A} (m : ST NodeLinker A) : ST NodeLinker unit := m ;;; st_ret tt.

Definition perform (o : node_op) : ST NodeLinker unit :=
  match o with
  | OpBindNode u n i => BindNode opts answer u n i
  | OpUnbindNode u n i => UnbindNode opts answer u n i
  | OpLocateNode u n => drop (LocateNode opts answer u n)
  | OpAskNode u n i => drop (AskNode opts answer u n i)
  | OpResolve r u g => drop (ResolveStatelessAffinityNode opts answer rand r u g)
  | OpDeliver a s => deliver opts answer packer malloc Marshal Encryptor rand a s
  | OpTrigger e c u t => Trigger answer e c u t
  | OpInvalidate u => InvalidateSessionSourceHints opts u
  | OpEvent ev => applySourceEvent opts ev
  | OpServices ss => replace_services Parse ss
  end.

(** One call after another, whatever they return *)
Definition perform_all (os : list node_op) (l : NodeLinker) : NodeLinker :=
  fold_left (fun l o => (perform o l).2) os l.

Lemma perform_keeps o : Kind opts <> Cluster.Gate -> keeps accounted (perform o).
Proof.
  intros Hk. apply Z.eqb_neq in Hk.
  destruct o; cbn [perform]; unfold drop.
  - unfold BindNode. keeps_steps.
  - unfold UnbindNode. keeps_steps.
  - keeps_steps.
  - unfold AskNode. keeps_steps.
  - unfold ResolveStatelessAffinityNode. keeps_steps.
  - keeps_steps.
  - keeps_steps.
  - unfold InvalidateSessionSourceHints. rewrite Hk, orb_true_r. apply keeps_ret.
  - unfold applySourceEvent. keeps_steps.
  - unfold replace_services. keeps_steps.
Qed.
End Owned.


(** ** Deliveries *)

Definition is_deliver (c : made) : bool :=
  match projT2 c with NodeDeliver _ _ _ _ _ _ => true | _ => false end.
Definition quiet (c : made) : Prop := is_deliver c = false.

Section Deliver.
Context (opts : Options).
Context (answer : forall A, list made -> call A -> res A).

(** What a delivery does to the cluster, after the calls [pre]: quiet calls and
    failed requests, and after a request that succeeded nothing.  [d] tells
    whether one succeeded, [k] counts the requests. *)
Inductive delivery (args : DeliverArgs) (b : nbuf) : list made -> list made -> bool -> nat -> Prop :=
| delivery_end pre q :
    Forall quiet q -> delivery args b pre q false 0
| delivery_ok pre q addr :
    let c := NodeDeliver addr (CID args) (UID args) (Token_ args) (Metadata args) b in
    Forall quiet q -> answer unit (pre ++ q) c = Ok tt ->
    delivery args b pre (q ++ [call_of c]) true 1
| delivery_failed pre q addr rest d k :
    let c := NodeDeliver addr (CID args) (UID args) (Token_ args) (Metadata args) b in
    Forall quiet q -> answer unit (pre ++ q) c <> Ok tt ->
    delivery args b (pre ++ q ++ [call_of c]) rest d k ->
    delivery args b pre (q ++ call_of c :: rest) d (S k).

(** Quiet calls first *)
Lemma delivery_quiet args b pre q new d k :
  Forall quiet q -> delivery args b (pre ++ q) new d k -> delivery args b pre (q ++ new) d k.
Proof.
  intros Hq H. inversion H; subst.
  - constructor. by apply Forall_app.
  - rewrite app_assoc. constructor; [by apply Forall_app|by rewrite app_assoc].
  - rewrite app_assoc. econstructor; [by apply Forall_app|by rewrite app_assoc|].
    by rewrite <- !app_assoc in *.
Qed.

(** Calls that only ask and leave the message alone *)
Definition since (pre : list made) (b : nbuf) (l : NodeLinker) : Prop :=
  grows quiet pre (log (env_ l)) /\ message (env_ l) = b.

Definition silent {A} (m : ST NodeLinker A) : Prop := forall pre b, keeps (since pre b) m.

Section Silent.
Context (pre : list made) (b : nbuf).

Lemma ask_since {A} (c : call A) :
  quiet (call_of c) -> keeps (since pre b) (on_env (Link.ask answer c)).
Proof.
  intros Hc l [Hg Hm]. split; [|done]. simpl. etransitivity; [exact Hg|]. by apply grows_one.
Qed.
Lemma hints_since {A} (m : ST SourceHints.sourceHints A) : keeps (since pre b) (on_hints m).
Proof. intros l Hl. unfold on_hints. destruct (hints l) as [h|]; [by destruct (m h)|done]. Qed.
Lemma has_hints_since : keeps (since pre b) has_hints.
Proof. by intros l. Qed.
Lemma sources_since {A} (f : gmap Z (gmap string string) -> A * gmap Z (gmap string string)) :
  keeps (since pre b) (on_sources f).
Proof. intros l Hl. unfold on_sources. by destruct (f (sources l)). Qed.
Lemma wait_since : keeps (since pre b) (WaitHandler opts).
Proof. intros l Hl. unfold WaitHandler. by destruct (HasWaitHandler opts). Qed.
Lemma done_since : keeps (since pre b) (DoneHandler opts).
Proof. intros l Hl. unfold DoneHandler. by destruct (HasDoneHandler opts). Qed.
Lemma dispatcher_since {A} (m : ST Dispatcher.Dispatcher.Dispatcher A) :
  keeps (since pre b) (on_env (on_dispatcher m)).
Proof. intros l Hl. unfold on_env, on_dispatcher. by destruct (m _). Qed.
Lemma read_since {A} (f : Dispatcher.Dispatcher.Dispatcher -> res A) :
  keeps (since pre b) (on_env (read_dispatcher f)).
Proof. by intros l Hl. Qed.
Lemma build_since ep : keeps (since pre b) (on_env (build answer ep)).
Proof.
  intros l [Hg Hm]. unfold on_env, build, st_bind, Link.ask.
  destruct (answer _ _ _); simpl; (split; [|done]);
    (etransitivity; [exact Hg|by apply grows_one]).
Qed.
Lemma find_endpoint_since rand r n : keeps (since pre b) (find_endpoint rand r n).
Proof. intros l Hl. by apply dispatcher_since. Qed.
#[local] Hint Resolve ask_since hints_since has_hints_since sources_since wait_since done_since
  dispatcher_since read_since build_since find_endpoint_since : keeps.
#[local] Hint Extern 1 (quiet _) => reflexivity : keeps.

Lemma doStoreSource_since u n x : keeps (since pre b) (doStoreSource opts u n x).
Proof. unfold doStoreSource, storeLegacySource. keeps_steps. Qed.
Lemma doDeleteSource_since u n x : keeps (since pre b) (doDeleteSource opts u n x).
Proof. unfold doDeleteSource, deleteLegacySource. keeps_steps. Qed.
Lemma doLoadSource_since u n : keeps (since pre b) (doLoadSource u n).
Proof. unfold doLoadSource. keeps_steps. Qed.
#[local] Hint Resolve doStoreSource_since doDeleteSource_since doLoadSource_since : keeps.

Lemma locate_since u n : keeps (since pre b) (NodeLinker.locate answer u n).
Proof. unfold NodeLinker.locate. keeps_steps. Qed.
#[local] Hint Resolve locate_since : keeps.
Lemma LocateNode_since u n : keeps (since pre b) (LocateNode opts answer u n).
Proof. unfold LocateNode. keeps_steps. Qed.
End Silent.

(** ** One attempt after another *)

(** The calls a step adds are a delivery. *)
Definition delivers {A} (args : DeliverArgs) (b : nbuf) (bound : nat) (ok : A -> Prop)
    (m : ST NodeLinker A) : Prop :=
  forall l, message (env_ l) = b ->
  exists new d k, log (env_ (m l).2) = log (env_ l) ++ new /\
    delivery args b (log (env_ l)) new d k /\ (k <= bound)%nat /\
    (d = true -> exists a, (m l).1 = Ok a /\ ok a).

Lemma delivers_none {A} args b ok (m : ST NodeLinker A) bound :
  (forall pre, keeps (since pre b) m) -> delivers args b bound ok m.
Proof.
  intros Hm l Hb. destruct (Hm (log (env_ l)) l) as [(new & Hl & Hq) _].
  { split; [reflexivity|done]. }
  exists new, false, O. split_and!; [done|by constructor|lia|done].
Qed.

(** A silent step before a delivery *)
Lemma delivers_bind {A B} args b bound (ok : B -> Prop) (m : ST NodeLinker A) (f : A -> ST NodeLinker B) :
  (forall pre, keeps (since pre b) m) -> (forall a, delivers args b bound ok (f a)) ->
  delivers args b bound ok (st_bind m f).
Proof.
  intros Hm Hf l Hb. destruct (Hm (log (env_ l)) l) as [(q & Hl & Hq) Hb'].
  { split; [reflexivity|done]. }
  unfold st_bind. destruct (m l) as [[a|e|] l1]; simpl in *.
  - destruct (Hf a l1 Hb') as (new & d & k & Hn & Hd & Hk & Hok). exists (q ++ new), d, k.
    rewrite Hn, Hl, app_assoc. rewrite Hl in Hd. split_and!; [done|by apply delivery_quiet|done|done].
  - exists q, false, O. split_and!; [done|by constructor|lia|done].
  - exists q, false, O. split_and!; [done|by constructor|lia|done].
Qed.

(** The state after a request, with the message released or put back *)
Definition after (l : NodeLinker) (c : made) (m : nbuf) : NodeLinker :=
  mkNodeLinker (sources l) (hints l) (owned l) (mkEnv (disp (env_ l)) m (log (env_ l) ++ [c])).

Lemma deliver_attempt_eq args bs client x l :
  let b := NocopyBuffer.NewNocopyBuffer [MBlock (BRaw bs)] in
  let c := NodeDeliver client (CID args) (UID args) (Token_ args) (Metadata args) b in
  let sent := after l (call_of c) (NocopyBuffer.Release b).1 in
  message (env_ l) = b ->
  deliver_attempt answer args (Some bs) client x l =
  match answer unit (log (env_ l)) c with
  | Ok _ => (Ok (false, None, (true, x.2 + 1)), sent)
  | Err e => if x.2 + 1 =? 1
             then (Ok (true, Some e, (true, x.2 + 1)), after l (call_of c) b)
             else (Ok (false, Some e, (true, x.2 + 1)), sent)
  | Panic => (Panic, sent)
  end.
Proof.
  intros b c sent Hb. unfold deliver_attempt, deliver_call, st_bind, st_try, on_env, Link.send.
  rewrite Hb. change (NodeDeliver client _ _ _ _ b) with c.
  destruct (answer unit (log (env_ l)) c) as [[]|e|]; [done| |done].
  by destruct (x.2 + 1 =? 1).
Qed.

(** One request: it succeeds and that is all, or it fails and [f] goes on. *)
Lemma delivers_request {B} args bs bound (ok : B -> Prop) client (x : bool * Z)
    (f : bool * option error * (bool * Z) -> ST NodeLinker B) :
  let b := NocopyBuffer.NewNocopyBuffer [MBlock (BRaw bs)] in
  let x' := (true, x.2 + 1) in
  (forall l, exists a, f (false, None, x') l = (Ok a, l) /\ ok a) ->
  (forall e l, (f (false, Some e, x') l).2 = l) ->
  (x.2 = 0 -> forall e, delivers args b bound ok (f (true, Some e, x'))) ->
  delivers args b (if x.2 =? 0 then S bound else 1) ok
    (let! r := deliver_attempt answer args (Some bs) client x in f r).
Proof.
  intros b x' Hok Hstop Hgo l Hb. unfold st_bind. rewrite deliver_attempt_eq by done. fold b x'.
  set (c := NodeDeliver client (CID args) (UID args) (Token_ args) (Metadata args) b).
  assert (forall rest d k, answer unit (log (env_ l)) c <> Ok tt ->
    delivery args b (log (env_ l) ++ [call_of c]) rest d k ->
    delivery args b (log (env_ l)) (call_of c :: rest) d (S k)) as Hfail.
  { intros rest d k Ha Hr. apply (delivery_failed args b (log (env_ l)) [] client); [done| |done].
    by rewrite app_nil_r. }
  destruct (answer unit (log (env_ l)) c) as [[]|e|] eqn:Ha.
  - destruct (Hok (after l (call_of c) (NocopyBuffer.Release b).1)) as (a & -> & Ha').
    exists [call_of c], true, 1%nat. split_and!; [done| |destruct (_ =? _); lia|eauto].
    apply (delivery_ok args b (log (env_ l)) [] client); [done|by rewrite app_nil_r].
  - destruct (Z.eqb_spec (x.2 + 1) 1) as [E1|E1], (Z.eqb_spec (x.2) 0) as [E0|E0]; try lia.
    + destruct (Hgo E0 e (after l (call_of c) b)) as (new & d & k & Hn & Hd & Hk & Hd'); [done|].
      exists (call_of c :: new), d, (S k). rewrite Hn. simpl. rewrite <- app_assoc.
      split_and!; [done|by apply Hfail|lia|done].
    + rewrite Hstop. exists [call_of c], false, 1%nat.
      split_and!; [done| |lia|done]. apply Hfail; [done|by constructor].
  - exists [call_of c], false, 1%nat. split_and!; [done| |destruct (_ =? _); lia|done].
    apply Hfail; [done|by constructor].
Qed.

#[local] Hint Resolve LocateNode_since find_endpoint_since build_since doDeleteSource_since : keeps.

Lemma attempts_deliver rand args bs uid route n prev err x :
  let b := NocopyBuffer.NewNocopyBuffer [MBlock (BRaw bs)] in
  delivers args b (if x.2 =? 0 then 2 else 1) (fun a => a.1 = None)
    (attempts opts answer rand uid route (deliver_attempt answer args (Some bs)) n prev err x).
Proof.
  intros b. assert (forall A ok bound (a : A), delivers args b bound ok (st_ret a)) as Hret.
  { intros. apply delivers_none. auto with keeps. }
  revert prev err x. induction n as [|n IH]; intros prev err x; [apply Hret|].
  cbn [attempts]. apply delivers_bind; [intros; keeps_steps|]. intros [nid|e]; [|apply Hret].
  destruct (_ && _); [apply Hret|]. apply delivers_bind; [auto with keeps|].
  intros [ep|e]; [|apply Hret]. apply delivers_bind; [auto with keeps|].
  intros [client|e].
  - apply (delivers_request args bs 1 (fun a => a.1 = None) client x).
    + intros l. eexists. by split.
    + by intros e l.
    + intros Hx e. apply delivers_bind; [intros; keeps_steps|]. intros _.
      pose proof (IH (if Dispatcher.Dispatcher.Stateful route then nid else prev) (Some e) (true, x.2 + 1)) as H.
      simpl in H. rewrite Hx in *. exact H.
  - destruct (_ && _); [|apply Hret]. apply delivers_bind; [auto with keeps|]. intros _. apply IH.
Qed.

(** The request straight to a node *)
Lemma direct_delivers args bs client :
  let b := NocopyBuffer.NewNocopyBuffer [MBlock (BRaw bs)] in
  delivers args b 1 (fun _ => True) (deliver_call answer client args).
Proof.
  intros b l Hb. unfold deliver_call, on_env, Link.send. rewrite Hb.
  set (c := NodeDeliver client (CID args) (UID args) (Token_ args) (Metadata args) b).
  change (NodeDeliver client _ _ _ _ b) with c.
  destruct (answer unit (log (env_ l)) c) as [[]|e|] eqn:Ha.
  - exists [call_of c], true, 1%nat. split_and!; [done| |lia|eauto].
    apply (delivery_ok args b (log (env_ l)) [] client); [done|by rewrite app_nil_r].
  - exists [call_of c], false, 1%nat. split_and!; [done| |lia|done].
    apply (delivery_failed args b (log (env_ l)) [] client); [done| |by constructor].
    rewrite app_nil_r. fold c. congruence.
  - exists [call_of c], false, 1%nat. split_and!; [done| |lia|done].
    apply (delivery_failed args b (log (env_ l)) [] client); [done| |by constructor].
    rewrite app_nil_r. fold c. congruence.
Qed.

(** What follows a delivery without further calls *)
Lemma delivers_then {A B} args b bound (ok : A -> Prop) (ok' : B -> Prop) (m : ST NodeLinker A)
    (f : A -> ST NodeLinker B) :
  delivers args b bound ok m ->
  (forall a l, log (env_ (f a l).2) = log (env_ l)) ->
  (forall a l, ok a -> exists x, (f a l).1 = Ok x /\ ok' x) ->
  delivers args b bound ok' (st_bind m f).
Proof.
  intros Hm Hlog Hok l Hb. destruct (Hm l Hb) as (new & d & k & Hn & Hd & Hk & Hd').
  exists new, d, k. unfold st_bind. destruct (m l) as [[a|e|] l1]; simpl in *.
  - rewrite Hlog. split_and!; [done|done|done|]. intros E. destruct (Hd' E) as (a' & E1 & Ha).
    injection E1 as <-. by apply Hok.
  - split_and!; [done|done|done|]. intros E. by destruct (Hd' E) as (? & ? & _).
  - split_and!; [done|done|done|]. intros E. by destruct (Hd' E) as (? & ? & _).
Qed.

(** A route this linker may deliver to *)
Definition may_route (uid : Z) (r : Dispatcher.Dispatcher.Route) : bool :=
  negb ((uid =? 0) && (Dispatcher.Dispatcher.Stateful r || Dispatcher.Dispatcher.Authorized r)) &&
  negb ((Kind opts =? Cluster.Gate) && Dispatcher.Dispatcher.Internal r).

Definition allowed (args : DeliverArgs) (l : NodeLinker) : Prop :=
  NID args <> ""%string \/
  exists r, Dispatcher.Dispatcher.routes (disp (env_ l)) !! RouteID args = Some r /\
            may_route (UID args) r = true.

Context (packer : Packet.defaultPacker) (malloc : list made -> Writer.Writer).
Context (Marshal : Z -> res (list Z)) (Encryptor : option (list Z -> res (list Z))).
Context (rand : list made -> Z -> Z).

(** The part of deliver after the payload was opened *)
Definition deliver_rest (args : DeliverArgs) (strict : bool) (retryBytes : option (list Z))
    : ST NodeLinker unit :=
  if bool_decide (NID args <> ""%string) then
    let! built := st_try (doBuildClient answer (NID args)) in
    match built with
    | inr e => on_env Release ;;; st_err e
    | inl client => deliver_call answer client args
    end
  else
    let! (err, (isDeliver, _)) := doRPC opts answer rand (RouteID args) (UID args)
                                    (deliver_attempt answer args retryBytes) (false, 0) in
    match err with
    | None => st_ret tt
    | Some e =>
        (if isDeliver : bool then st_ret tt else on_env Release) ;;;
        if strict || bool_decide (e <> ErrNotFoundUserLocation) then st_err e else st_ret tt
    end.

Lemma doRPC_delivers args bs :
  let b := NocopyBuffer.NewNocopyBuffer [MBlock (BRaw bs)] in
  delivers args b 2 (fun a => a.1 = None)
    (doRPC opts answer rand (RouteID args) (UID args) (deliver_attempt answer args (Some bs)) (false, 0)).
Proof.
  intros b. assert (forall A ok bound (a : A), delivers args b bound ok (st_ret a)) as Hret.
  { intros. apply delivers_none. auto with keeps. }
  unfold doRPC. apply delivers_bind; [intros; apply keeps_try, read_since|].
  intros [r|e]; [|apply Hret]. destruct (_ && _); [apply Hret|]. destruct (_ && _); [apply Hret|].
  apply (attempts_deliver rand args bs (UID args) r 2 "" None (false, 0)).
Qed.

Lemma rest_delivers args strict bs :
  let b := NocopyBuffer.NewNocopyBuffer [MBlock (BRaw bs)] in
  delivers args b 2 (fun _ => True) (deliver_rest args strict (Some bs)).
Proof.
  intros b. unfold deliver_rest. case_bool_decide.
  - apply delivers_bind.
    { intros pre. unfold doBuildClient. keeps_steps. apply read_since. }
    intros [client|e].
    + intros l Hb. destruct (direct_delivers args bs client l Hb) as (new & d & k & ? & ? & ? & ?).
      exists new, d, k. split_and!; [done|done|lia|done].
    + intros l Hb. exists [], false, O. rewrite app_nil_r.
      split_and!; [done|constructor; constructor|lia|done].
  - eapply delivers_then; [apply doRPC_delivers| |].
    + intros [[e|] [[] ?]] l; [| |done|done]; simpl; destruct (strict || _); done.
    + intros [[e|] [[] ?]] l Ha; simpl in Ha; try done; by eexists.
Qed.

(** Nothing is sent along a route that is not allowed. *)
Lemma refused args strict bs l :
  ~ allowed args l ->
  log (env_ (deliver_rest args strict (Some bs) l).2) = log (env_ l).
Proof.
  intros Hn. assert (NID args = ""%string) as E.
  { destruct (decide (NID args = ""%string)); [done|]. exfalso. apply Hn. by left. }
  unfold deliver_rest, doRPC, on_env, read_dispatcher, Dispatcher.Dispatcher.FindRoute, st_bind, st_try.
  rewrite E, bool_decide_eq_false_2 by (by intros H; apply H). cbn [env_].
  destruct (Dispatcher.Dispatcher.routes (disp (env_ l)) !! RouteID args) as [r|] eqn:Hr.
  2:{ by destruct strict. }
  assert (may_route (UID args) r = false) as Hm.
  { apply not_true_iff_false. intros Hm. apply Hn. right. eauto. }
  unfold may_route in Hm. apply andb_false_iff in Hm as [Hm|Hm]; apply negb_false_iff in Hm; rewrite Hm.
  - by destruct strict.
  - destruct ((UID args =? 0) && _); by destruct strict.
Qed.
End Deliver.

(** Plain bytes: what a delivery does, on every path *)
Lemma deliver_bytes opts answer packer malloc Marshal Encryptor rand args strict bs l :
  Buffer args = PBytes bs ->
  let b := NocopyBuffer.NewNocopyBuffer [MBlock (BRaw bs)] in
  let '(r, l') := deliver opts answer packer malloc Marshal Encryptor rand args strict l in
  NocopyBuffer.Bytes b = Ok bs /\
  exists new d k, log (env_ l') = log (env_ l) ++ new /\
    delivery answer args b (log (env_ l)) new d k /\ (k <= 2)%nat /\
    (d = true -> r = Ok tt) /\ ((0 < k)%nat -> allowed opts args l).
Proof.
  intros Hbuf b. assert (deliver opts answer packer malloc Marshal Encryptor rand args strict l
    = deliver_rest opts answer rand args strict (Some bs)
        (mkNodeLinker (sources l) (hints l) (owned l) (mkEnv (disp (env_ l)) b (log (env_ l))))) as ->.
  { unfold deliver, open_payload. rewrite Hbuf. done. }
  set (l0 := mkNodeLinker _ _ _ _).
  destruct (rest_delivers opts answer rand args strict bs l0) as (new & d & k & Hn & Hd & Hk & Hok); [done|].
  pose proof (refused opts answer rand args strict bs l0) as Hrefused.
  destruct (deliver_rest opts answer rand args strict (Some bs) l0) as [r l']. simpl in *.
  split; [apply raw_bytes|]. exists new, d, k. split_and!; [done|done|done| |].
  - intros E. destruct (Hok E) as ([] & ? & _). done.
  - intros Hk0. destruct (decide (NID args <> ""%string)); [by left|].
    destruct (Dispatcher.Dispatcher.routes (disp (env_ l)) !! RouteID args) as [rt|] eqn:Hr;
      [destruct (may_route opts (UID args) rt) eqn:Hm; [right; eauto|]|].
    all: exfalso; assert (new = []) as -> by
      (eapply app_inv_head; rewrite app_nil_r, <- Hn; apply Hrefused;
       intros [?|(rt' & E & Hm')]; [done|simpl in E; congruence]).
    all: inversion Hd as [? ? Hq E1 E2 E3|? ? ? ? ? ? E1|? ? ? ? ? ? ? ? ? ? E1]; subst;
      try (by destruct q); lia.
Qed.

(** A message is delivered at most once.  Delivering plain bytes, a linker
    makes at most two requests, each with the caller's connection, user, token,
    metadata and all the bytes; a second one only after the first failed; after
    one that succeeded it makes no further call and returns success.  It makes
    none for an internal route of a gate or, without a user, for a stateful or
    authorized one. *)
Theorem deliver_at_most_once opts answer packer malloc Marshal Encryptor rand args strict bs l :
  Buffer args = PBytes bs ->
  let b := NocopyBuffer.NewNocopyBuffer [MBlock (BRaw bs)] in
  let '(r, l') := deliver opts answer packer malloc Marshal Encryptor rand args strict l in
  NocopyBuffer.Bytes b = Ok bs /\
  exists new d k, log (env_ l') = log (env_ l) ++ new /\
    delivery answer args b (log (env_ l)) new d k /\ (k <= 2)%nat /\
    (d = true -> r = Ok tt) /\ ((0 < k)%nat -> allowed opts args l).
Proof. apply deliver_bytes. Qed.
