(* ===== verification/NodeLinkClaims.v ===== *)
(** Deliveries in a cluster whose answers are known: a stale source is replaced,
    and a failure at the node the locator names is not reported. *)
From stdpp Require Import base numbers list gmap strings.
From Stdlib Require Import ZArith Lia.
From S2P Require Import Prelude Types Reader Writer Nocopy Packet Dispatcher DispatcherClaims.
From S2P Require Import SourceHints Link GateLink NodeLink NodeLinkOk.
Import Link NodeLinker.
Import Dispatcher.Dispatcher (Route, routes, route_abs, endpoints5, endpoint, group, Stateful).
Import Endpoint (Address).

Open Scope Z_scope.
Open Scope go_scope.

(** The source of a user in the table *)
Definition source (s : gmap Z (gmap string string)) (uid : Z) (name : string) : option string :=
  s !! uid ≫= fun m => m !! name.

Section Cluster.
Context (opts : Options) (Hloc : HasLocator opts = true).
Context (answer : forall A, list made -> call A -> res A).
Context (rand : list made -> Z -> Z).

(** The same linker in another environment, its source for one user replaced *)
Definition located (uid : Z) (name : string) (o : option string) (l l' : NodeLinker) : Prop :=
  hints l' = None /\ source (sources l') uid name = o /\ disp (env_ l') = disp (env_ l) /\
  message (env_ l') = message (env_ l).

Lemma store_source uid name nid l :
  hints l = None ->
  exists l', doStoreSource opts uid name nid l = (Ok tt, l') /\
    located uid name (Some nid) l l' /\ env_ l' = env_ l.
Proof.
  intros Hh. unfold doStoreSource, has_hints, st_bind. rewrite Hh.
  unfold storeLegacySource, st_bind, on_sources.
  destruct (store_locked opts uid name nid (sources l)) as [[w d] s'] eqn:E.
  assert (source s' uid name = Some nid) as Hs.
  { unfold store_locked in E. unfold source. repeat case_match; simplify_eq/=;
      rewrite ?lookup_insert_eq; simpl; rewrite ?lookup_insert_eq, ?lookup_singleton_eq; try done.
    all: try (case_bool_decide; simplify_eq/=). all: try done.
    all: repeat match goal with H : _ !! _ = Some _ |- _ => rewrite H; clear H end; simpl. all: try done. }
  unfold WaitHandler, DoneHandler, located.
  destruct w, d, (HasWaitHandler opts), (HasDoneHandler opts); simpl; eexists; (split; [done|]); simpl; done.
Qed.

Lemma delete_source uid name nid l :
  hints l = None -> source (sources l) uid name = Some nid ->
  exists l', doDeleteSource opts uid name nid l = (Ok tt, l') /\
    located uid name None l l' /\ env_ l' = env_ l.
Proof.
  intros Hh Hs. unfold doDeleteSource, has_hints, st_bind. rewrite Hh.
  unfold deleteLegacySource, st_bind, on_sources.
  destruct (delete_locked opts uid name nid (sources l)) as [d s'] eqn:E.
  assert (source s' uid name = None) as Hs'.
  { unfold source in Hs. destruct (sources l !! uid) as [m|] eqn:Hu; [|done]. simpl in Hs.
    unfold delete_locked in E. rewrite Hu, Hs in E. rewrite bool_decide_eq_false_2 in E by naive_solver.
    unfold source. destruct (_ =? 1); simplify_eq/=.
    - by rewrite lookup_delete_eq.
    - rewrite lookup_insert_eq. simpl. apply lookup_delete_eq. }
  unfold DoneHandler, located.
  destruct d, (HasDoneHandler opts); simpl; eexists; (split; [done|]); simpl; done.
Qed.

Lemma load_source uid name l :
  hints l = None -> doLoadSource uid name l = (Ok (source (sources l) uid name), l).
Proof.
  intros Hh. unfold doLoadSource, has_hints, st_bind, on_sources. rewrite Hh. destruct l. simpl in *. by subst.
Qed.

(** A user the table knows is found there, another one with the locator. *)
Lemma locate_legacy uid name l :
  hints l = None ->
  LocateNode opts answer uid name l =
  match source (sources l) uid name with
  | Some nid => (Ok nid, l)
  | None => (let! nid := NodeLinker.locate answer uid name in
             doStoreSource opts uid name nid ;;; st_ret nid) l
  end.
Proof.
  intros Hh. unfold LocateNode. rewrite Hloc. cbn [negb]. unfold st_bind at 1. unfold has_hints at 1.
  rewrite Hh. unfold st_bind at 1. rewrite load_source by done. by destruct (source _ _ _).
Qed.

Lemma locate_known uid name nid l :
  hints l = None -> source (sources l) uid name = Some nid ->
  LocateNode opts answer uid name l = (Ok nid, l).
Proof. intros Hh Hs. rewrite locate_legacy by done. by rewrite Hs. Qed.

Lemma locate_asked uid name nid l :
  hints l = None -> source (sources l) uid name = None -> nid <> ""%string ->
  answer string (log (env_ l)) (LocatorLocateNode uid name) = Ok nid ->
  exists l', LocateNode opts answer uid name l = (Ok nid, l') /\
    located uid name (Some nid) l l' /\
    log (env_ l') = log (env_ l) ++ [call_of (LocatorLocateNode uid name)].
Proof.
  intros Hh Hs Hn Ha. rewrite locate_legacy by done. rewrite Hs.
  unfold NodeLinker.locate, st_bind, on_env, Link.ask. rewrite Ha. cbn [env_ disp message log].
  rewrite bool_decide_eq_false_2 by done. unfold st_ret.
  match goal with |- context [doStoreSource opts uid name nid ?x] => set (l1 := x) end.
  destruct (store_source uid name nid l1) as (l2 & -> & (? & ? & ? & ?) & He); [done|].
  exists l2. split; [done|]. unfold located. rewrite He. done.
Qed.

(** Building a client, and finding the endpoint of a node *)
Lemma build_ok ep l :
  answer unit (log (env_ l)) (Build (Address ep)) = Ok tt ->
  exists l', on_env (build answer ep) l = (Ok (Address ep), l') /\ sources l' = sources l /\
    hints l' = hints l /\ disp (env_ l') = disp (env_ l) /\ message (env_ l') = message (env_ l) /\
    log (env_ l') = log (env_ l) ++ [call_of (Build (Address ep))].
Proof.
  intros Ha. unfold on_env, build, st_bind, Link.ask. rewrite Ha. simpl. eexists. done.
Qed.

Lemma find_direct rid r nid sep l :
  routes (disp (env_ l)) !! rid = Some r -> nid <> ""%string ->
  endpoints5 (route_abs r) !! nid = Some sep ->
  find_endpoint rand rid nid l = (Ok (endpoint sep), l).
Proof.
  intros Hr Hn He. unfold find_endpoint, on_env, on_dispatcher, Dispatcher.Dispatcher.on_route.
  rewrite Hr. unfold Dispatcher.Dispatcher.FindEndpoint. rewrite bool_decide_eq_false_2 by done.
  unfold Dispatcher.Dispatcher.directDispatch. rewrite He. rewrite insert_id by done.
  destruct l as [s h o [d m lg]]. by destruct d.
Qed.

(** ** One failed attempt at the node a user is known to be at *)

Context (args : DeliverArgs) (bs : list Z) (r : Route) (sep : Dispatcher.Dispatcher.serviceEndpoint).
Context (nid : string) (Hnid : nid <> ""%string).
Let b := NocopyBuffer.NewNocopyBuffer [MBlock (BRaw bs)].
Context (Hstate : Stateful r = true) (Hid : Dispatcher.Dispatcher.ID r = RouteID args).
Context (Hsep : endpoints5 (route_abs r) !! nid = Some sep).
Context (Hbuild : forall lg addr, answer unit lg (Build addr) = Ok tt).

Definition request (addr : string) : call unit :=
  NodeDeliver addr (CID args) (UID args) (Token_ args) (Metadata args) b.

(** The state between two attempts: everything is in place, the message too. *)
Record ready (o : option string) (l : NodeLinker) : Prop := {
  ready_hints : hints l = None;
  ready_source : source (sources l) (UID args) (group r) = o;
  ready_route : routes (disp (env_ l)) !! RouteID args = Some r;
  ready_message : message (env_ l) = b
}.

Lemma attempt_failed n prev err x l l1 e :
  LocateNode opts answer (UID args) (group r) l = (Ok nid, l1) -> ready (Some nid) l1 ->
  nid <> prev -> x.2 = 0 ->
  (forall lg, answer unit lg (request (Address (endpoint sep))) = Err e) ->
  exists l2, ready None l2 /\
    log (env_ l2) = log (env_ l1) ++ [call_of (Build (Address (endpoint sep)));
                                      call_of (request (Address (endpoint sep)))] /\
    attempts opts answer rand (UID args) r (deliver_attempt answer args (Some bs)) (S n) prev err x l
    = attempts opts answer rand (UID args) r (deliver_attempt answer args (Some bs)) n nid (Some e) (true, 1) l2.
Proof.
  intros Hl [Hh Hs Hr Hm] Hp Hx Ha. cbn [attempts]. rewrite Hstate. unfold st_bind at 1, st_try at 1.
  rewrite Hl. rewrite bool_decide_eq_false_2 by done. cbn [andb].
  unfold st_bind at 1, st_try at 1. rewrite Hid, (find_direct (RouteID args) r nid sep l1) by done.
  unfold st_bind at 1, st_try at 1.
  destruct (build_ok (endpoint sep) l1 (Hbuild _ _)) as (l2 & -> & Es & Eh & Ed & Em & El).
  unfold st_bind at 1. rewrite (deliver_attempt_eq answer args bs (Address (endpoint sep)) x l2) by (rewrite Em; exact Hm).
  fold b. change (NodeDeliver _ _ _ _ _ b) with (request (Address (endpoint sep))). rewrite Ha, Hx. cbn [Z.add Z.eqb].
  change (0 + 1) with 1. change (1 =? 1) with true. cbv beta iota zeta. unfold st_bind at 1. set (l3 := after l2 _ b).
  destruct (delete_source (UID args) (group r) nid l3) as (l4 & -> & (H1 & H2 & H3 & H4) & He).
  { simpl. congruence. } { simpl. congruence. }
  exists l4. split; [|split].
  - split; [done|done|rewrite H3; simpl; congruence|rewrite H4; done].
  - rewrite He. simpl. rewrite El, <- app_assoc. done.
  - done.
Qed.

Lemma attempt_ok n prev err x l l1 :
  LocateNode opts answer (UID args) (group r) l = (Ok nid, l1) -> ready (Some nid) l1 ->
  nid <> prev -> (forall lg, answer unit lg (request (Address (endpoint sep))) = Ok tt) ->
  exists l2, sources l2 = sources l1 /\
    log (env_ l2) = log (env_ l1) ++ [call_of (Build (Address (endpoint sep)));
                                      call_of (request (Address (endpoint sep)))] /\
    attempts opts answer rand (UID args) r (deliver_attempt answer args (Some bs)) (S n) prev err x l
    = (Ok (None, (true, x.2 + 1)), l2).
Proof.
  intros Hl [Hh Hs Hr Hm] Hp Ha. cbn [attempts]. rewrite Hstate. unfold st_bind at 1, st_try at 1.
  rewrite Hl. rewrite bool_decide_eq_false_2 by done. cbn [andb].
  unfold st_bind at 1, st_try at 1. rewrite Hid, (find_direct (RouteID args) r nid sep l1) by done.
  unfold st_bind at 1, st_try at 1.
  destruct (build_ok (endpoint sep) l1 (Hbuild _ _)) as (l2 & -> & Es & Eh & Ed & Em & El).
  unfold st_bind at 1. rewrite (deliver_attempt_eq answer args bs (Address (endpoint sep)) x l2)
    by (rewrite Em; exact Hm).
  fold b. change (NodeDeliver _ _ _ _ _ b) with (request (Address (endpoint sep))). rewrite Ha.
  eexists. split; [|split; [|done]].
  - done.
  - simpl. rewrite El, <- app_assoc. done.
Qed.

(** The second time the locator names the node that just failed *)
Lemma attempt_again n err x l l1 :
  LocateNode opts answer (UID args) (group r) l = (Ok nid, l1) ->
  attempts opts answer rand (UID args) r (deliver_attempt answer args (Some bs)) (S n) nid err x l
  = (Ok (None, x), l1).
Proof.
  intros Hl. cbn [attempts]. rewrite Hstate. unfold st_bind at 1, st_try at 1. rewrite Hl.
  by rewrite bool_decide_eq_true_2.
Qed.
End Cluster.

(** A delivery of plain bytes to a user of a stateful route *)
Lemma deliver_stateful opts answer packer malloc Marshal Encryptor rand args strict bs l r :
  Buffer args = PBytes bs -> NID args = ""%string ->
  routes (disp (env_ l)) !! RouteID args = Some r -> may_route opts (UID args) r = true ->
  let b := NocopyBuffer.NewNocopyBuffer [MBlock (BRaw bs)] in
  let l0 := mkNodeLinker (sources l) (hints l) (owned l) (mkEnv (disp (env_ l)) b (log (env_ l))) in
  forall x l', attempts opts answer rand (UID args) r (deliver_attempt answer args (Some bs)) 2 "" None (false, 0) l0
    = (Ok (None, x), l') ->
  deliver opts answer packer malloc Marshal Encryptor rand args strict l = (Ok tt, l').
Proof.
  intros Hbuf Hnid Hr Hm b l0 x l' Ha. unfold deliver, open_payload. rewrite Hbuf.
  unfold set_buffer, on_env at 1. unfold st_bind at 1. cbn [st_ret]. rewrite Hnid.
  rewrite bool_decide_eq_false_2 by naive_solver. fold b. unfold st_bind at 1, st_ret at 1. fold l0.
  unfold doRPC. unfold st_bind at 1, st_bind at 1, st_try, on_env at 1, read_dispatcher, Dispatcher.Dispatcher.FindRoute.
  change (disp (env_ l0)) with (disp (env_ l)). rewrite Hr.
  change (mkNodeLinker (sources l0) (hints l0) (owned l0) (env_ l0)) with l0.
  unfold may_route in Hm. apply andb_true_iff in Hm as [H1 H2].
  apply negb_true_iff in H1, H2. rewrite H1, H2, Ha. by destruct x.
Qed.

(** What a stateful delivery needs of the linker and of the cluster *)
Record stateful_setting (opts : Options) (answer : forall A, list made -> call A -> res A)
    (args : DeliverArgs) (bs : list Z) (r : Route) (l : NodeLinker) : Prop := {
  set_locator : HasLocator opts = true;
  set_hints : hints l = None;
  set_buffer_bytes : Buffer args = PBytes bs;
  set_nid : NID args = ""%string;
  set_route : routes (disp (env_ l)) !! RouteID args = Some r;
  set_id : Dispatcher.Dispatcher.ID r = RouteID args;
  set_stateful : Stateful r = true;
  set_allowed : may_route opts (UID args) r = true;
  set_build : forall lg addr, answer unit lg (Build addr) = Ok tt
}.

(** A stale source is replaced within one delivery.  When the node the table
    names for the user refuses the request and the locator names another node of
    the route, the same delivery goes on to that node, succeeds there, and the
    table names it from then on. *)
Theorem stale_source_recovered opts answer packer malloc Marshal Encryptor rand args strict bs r l
    old new sep_old sep_new e :
  stateful_setting opts answer args bs r l ->
  old <> ""%string -> new <> ""%string -> new <> old ->
  source (sources l) (UID args) (group r) = Some old ->
  endpoints5 (route_abs r) !! old = Some sep_old -> endpoints5 (route_abs r) !! new = Some sep_new ->
  (forall lg, answer string lg (LocatorLocateNode (UID args) (group r)) = Ok new) ->
  (forall lg, answer unit lg (request args bs (Address (endpoint sep_old))) = Err e) ->
  (forall lg, answer unit lg (request args bs (Address (endpoint sep_new))) = Ok tt) ->
  exists l', deliver opts answer packer malloc Marshal Encryptor rand args strict l = (Ok tt, l') /\
    source (sources l') (UID args) (group r) = Some new /\
    last (log (env_ l')) = Some (call_of (request args bs (Address (endpoint sep_new)))).
Proof.
  intros [Hloc Hh Hbuf Hnid Hr Hid Hst Hm Hb] Ho Hn Hne Hs Heo Hen Hl He Hok.
  set (b := NocopyBuffer.NewNocopyBuffer [MBlock (BRaw bs)]).
  set (l0 := mkNodeLinker (sources l) (hints l) (owned l) (mkEnv (disp (env_ l)) b (log (env_ l)))).
  assert (ready args bs r (Some old) l0) as Hready by (by split).
  destruct (attempt_failed opts answer rand args bs r sep_old old Ho Hst Hid Heo Hb
              1 "" None (false, 0) l0 l0 e) as (l2 & Hr2 & _ & E1); try done.
  { by apply locate_known. }
  destruct (locate_asked opts Hloc answer (UID args) (group r) new l2) as (l3 & E2 & (H1 & H2 & H3 & H4) & _);
    [apply Hr2|apply Hr2|done|apply Hl|].
  assert (ready args bs r (Some new) l3) as Hr3.
  { destruct Hr2. split; [done|done|by rewrite H3|by rewrite H4]. }
  destruct (attempt_ok opts answer rand args bs r sep_new new Hn Hst Hid Hen Hb
              0 old (Some e) (true, 1) l2 l3 E2 Hr3 Hne Hok) as (l4 & Es & El & E3).
  exists l4. split; [|split].
  - eapply deliver_stateful; [done|done|done|done|]. fold b l0. by rewrite E1.
  - by rewrite Es.
  - rewrite El, last_app. done.
Qed.

(** A failed delivery can be reported as a success.  When the locator keeps
    naming the node whose request fails, the delivery gives up without sending
    the message again and still returns no error, even on the strict path of the
    gate, which is to report every request that was not queued. *)
Theorem delivery_failure_hidden opts answer packer malloc Marshal Encryptor rand args strict bs r l
    nid sep e :
  stateful_setting opts answer args bs r l ->
  nid <> ""%string -> source (sources l) (UID args) (group r) = None ->
  endpoints5 (route_abs r) !! nid = Some sep ->
  (forall lg, answer string lg (LocatorLocateNode (UID args) (group r)) = Ok nid) ->
  (forall lg, answer unit lg (request args bs (Address (endpoint sep))) = Err e) ->
  exists l', deliver opts answer packer malloc Marshal Encryptor rand args strict l = (Ok tt, l') /\
    log (env_ l') = log (env_ l) ++
      [call_of (LocatorLocateNode (UID args) (group r)); call_of (Build (Address (endpoint sep)));
       call_of (request args bs (Address (endpoint sep)));
       call_of (LocatorLocateNode (UID args) (group r))].
Proof.
  intros [Hloc Hh Hbuf Hnid Hr Hid Hst Hm Hb] Hn Hs Hsep Hl He.
  set (b := NocopyBuffer.NewNocopyBuffer [MBlock (BRaw bs)]).
  set (l0 := mkNodeLinker (sources l) (hints l) (owned l) (mkEnv (disp (env_ l)) b (log (env_ l)))).
  destruct (locate_asked opts Hloc answer (UID args) (group r) nid l0) as (l1 & E1 & (H1 & H2 & H3 & H4) & Hl1);
    [done|done|done|apply Hl|].
  assert (ready args bs r (Some nid) l1) as Hready by (split; [done|done|by rewrite H3|by rewrite H4]).
  destruct (attempt_failed opts answer rand args bs r sep nid Hn Hst Hid Hsep Hb
              1 "" None (false, 0) l0 l1 e) as (l2 & Hr2 & Hl2 & E2); try done.
  destruct (locate_asked opts Hloc answer (UID args) (group r) nid l2) as (l3 & E3 & _ & Hl3);
    [apply Hr2|apply Hr2|done|apply Hl|].
  exists l3. split.
  - eapply deliver_stateful; [done|done|done|done|]. fold b l0. rewrite E2.
    by apply (attempt_again opts answer rand args bs r nid Hst).
  - rewrite Hl3, Hl2, Hl1. simpl. by rewrite <- !app_assoc.
Qed.

(** Delivering a message that cannot be packed *)
Theorem unpackable_message_panics opts answer packer malloc Marshal Encryptor rand args strict m v e l :
  Buffer args = PMessage m -> Data m = Value v -> Marshal v = Err e ->
  (deliver opts answer packer malloc Marshal Encryptor rand args strict l).1 = Panic.
Proof.
  intros Hb Hd He. unfold deliver, open_payload, st_bind, st_try, on_env, PackMessage, PackBuffer.
  by rewrite Hb, Hd, He.
Qed.

(** ** A cluster of two nodes *)

Definition node_service (id : string) : Registry.ServiceInstance :=
  Registry.mkInstance id "node" "node" "game" "work" [] [Registry.mkRoute 7 false true true] []
    ("10.0.0.1:" +:+ id) 1 None.

Definition gate_opts : Options := mkOptions 0 "gate-1" Cluster.Gate true "random" false false.
Definition node_opts : Options := mkOptions 0 "node-1" Cluster.Node true "random" true true.

Definition sample_linker (src : gmap Z (gmap string string)) : NodeLinker :=
  mkNodeLinker src None 0
    (mkEnv (Dispatcher.Dispatcher.ReplaceServices sample_parse [node_service "old"; node_service "new"]
              (Dispatcher.Dispatcher.NewDispatcher "random")) NocopyBuffer.empty []).

Definition sample_args : DeliverArgs :=
  mkDeliverArgs "" 5 42 (mkToken 42 3) Cluster.no_metadata 7 (PBytes [1; 2; 3]).

(** the locator names [nid]; requests to the node "old" fail *)
Definition sample_answer (nid : string) (A : Type) (lg : list made) (c : call A) : res A :=
  match c with
  | LocatorLocateNode _ _ => Ok nid
  | Build _ => Ok tt
  | NodeDeliver addr _ _ _ _ _ =>
      if bool_decide (addr = "10.0.0.1:old"%string) then Err ErrConnectionClosed else Ok tt
  | LocatorBindNode _ _ _ => Ok tt
  | LocatorUnbindNode _ _ _ => Ok tt
  | _ => Err ErrUnknownError
  end.

Definition sample_route7 (src : gmap Z (gmap string string)) : Route :=
  default (Dispatcher.Dispatcher.newRoute "" (Registry.mkRoute 0 false false false))
    (routes (disp (env_ (sample_linker src))) !! 7).

Lemma sample_setting nid src :
  stateful_setting gate_opts (sample_answer nid) sample_args [1; 2; 3] (sample_route7 src) (sample_linker src).
Proof. by split. Qed.

Definition sample_sep (src : gmap Z (gmap string string)) (nid : string)
    : Dispatcher.Dispatcher.serviceEndpoint :=
  default (Dispatcher.Dispatcher.mkSE "" "" (Endpoint.NewEndpoint "" "" false) 0 0)
    (endpoints5 (route_abs (sample_route7 src)) !! nid).

(** what a linker is built with *)
Definition sample_malloc (lg : list made) : Writer.Writer := WriterPool.new_at 3.
Definition sample_marshal (v : Z) : res (list Z) := if 0 <=? v then Ok [v mod 256] else Err ErrUnknownError.
Definition sample_rand (lg : list made) (n : Z) : Z := 0.

Definition sample_deliver (nid : string) (args : DeliverArgs) (strict : bool) : ST NodeLinker unit :=
  deliver gate_opts (sample_answer nid) Packet.example_packer sample_malloc sample_marshal None
    sample_rand args strict.

Definition stale_sources : gmap Z (gmap string string) := {[42 := {["game"%string := "old"%string]}]}.

Lemma stale_source_recovered_witness :
  exists l', sample_deliver "new" sample_args true (sample_linker stale_sources) = (Ok tt, l') /\
    source (sources l') 42 "game" = Some "new"%string /\
    last (log (env_ l')) = Some (call_of (request sample_args [1; 2; 3] "10.0.0.1:new")).
Proof.
  apply (stale_source_recovered gate_opts (sample_answer "new") Packet.example_packer sample_malloc
    sample_marshal None sample_rand sample_args true [1; 2; 3] (sample_route7 stale_sources)
    (sample_linker stale_sources) "old" "new" (sample_sep stale_sources "old")
    (sample_sep stale_sources "new") ErrConnectionClosed).
  - apply sample_setting.
  - done.
  - done.
  - done.
  - vm_compute. reflexivity.
  - vm_compute. reflexivity.
  - vm_compute. reflexivity.
  - done.
  - intros lg. vm_compute. reflexivity.
  - intros lg. vm_compute. reflexivity.
Defined.

Lemma delivery_failure_hidden_witness :
  exists l', sample_deliver "old" sample_args true (sample_linker ∅) = (Ok tt, l') /\
    log (env_ l') =
      [call_of (LocatorLocateNode 42 "game"); call_of (Build "10.0.0.1:old");
       call_of (request sample_args [1; 2; 3] "10.0.0.1:old");
       call_of (LocatorLocateNode 42 "game")].
Proof.
  apply (delivery_failure_hidden gate_opts (sample_answer "old") Packet.example_packer sample_malloc
    sample_marshal None sample_rand sample_args true [1; 2; 3] (sample_route7 ∅)
    (sample_linker ∅) "old" (sample_sep ∅ "old") ErrConnectionClosed).
  - apply sample_setting.
  - done.
  - reflexivity.
  - vm_compute. reflexivity.
  - done.
  - intros lg. vm_compute. reflexivity.
Defined.

Lemma deliver_at_most_once_witness :
  let b := NocopyBuffer.NewNocopyBuffer [MBlock (BRaw [1; 2; 3])] in
  let '(r, l') := sample_deliver "new" sample_args true (sample_linker stale_sources) in
  NocopyBuffer.Bytes b = Ok [1; 2; 3] /\
  exists new d k, log (env_ l') = log (env_ (sample_linker stale_sources)) ++ new /\
    delivery (sample_answer "new") sample_args b (log (env_ (sample_linker stale_sources))) new d k /\
    (k <= 2)%nat /\ (d = true -> r = Ok tt) /\
    ((0 < k)%nat -> allowed gate_opts sample_args (sample_linker stale_sources)).
Proof.
  exact (deliver_at_most_once gate_opts (sample_answer "new") Packet.example_packer sample_malloc
    sample_marshal None sample_rand sample_args true [1; 2; 3] (sample_linker stale_sources) eq_refl).
Defined.

