(* ===== verification/GateLinkOk.v ===== *)
(** What the gate linker promises: no call panics, whatever the cluster answers. *)
From stdpp Require Import base numbers list gmap strings.
From Stdlib Require Import ZArith Lia.
From S2P Require Import Prelude Types Reader Writer Nocopy Packet Dispatcher SourceHints Link GateLink.
Import Link GateLinker.

Open Scope Z_scope.
Open Scope go_scope.

(** ** Hints that name nodes *)

Definition named (h : SourceHints.sourceHints) : Prop :=
  hints_ok h /\ forall e v, SourceHints.values h !! e = Some v -> SourceHints.node v <> ""%string.

Lemma stable_step {A} (m : ST SourceHints.sourceHints A) (Q : A -> Prop) :
  (forall h, named h -> exists a h', m h = (Ok a, h') /\ Q a /\ named h') -> stable named m Q.
Proof. intros Hm h Hh. by destruct (Hm h Hh) as (a & h' & -> & ? & ?). Qed.

Lemma put_named k n h :
  named h -> exists h', SourceHints.putLocked k n h = (Ok tt, h') /\ named h'.
Proof.
  intros [H Hn]. destruct (put_sim k n h H) as (h' & E & H' & _). exists h'. split; [done|].
  split; [done|]. unfold SourceHints.putLocked in E. case_bool_decide as Hempty; [by simplify_eq|].
  destruct (SourceHints.entries h !! k) as [e|].
  - simplify_eq. simpl. intros e' v [[<- <-]|[_ Hv]]%lookup_insert_Some; [done|by eapply Hn].
  - destruct (evict_sim h H) as (h1 & E1 & _ & _ & _ & Hv1 & _). rewrite E1 in E. simplify_eq. simpl.
    rewrite Hv1. intros e' v [[<- <-]|[_ Hv]]%lookup_insert_Some; [done|by eapply Hn].
Qed.

Lemma named_next h : named h ->
  named (SourceHints.mkHints (SourceHints.capacity h) (u64 (SourceHints.revision h + 1)) (SourceHints.entries h)
           (SourceHints.order h) (SourceHints.values h) (SourceHints.allocated h)).
Proof. intros [H Hn]. split; [by apply next_ok|done]. Qed.

Lemma load_stable u n :
  stable named (SourceHints.load u n) (fun '(x, ok, _) => ok = true -> x <> ""%string).
Proof.
  apply stable_step. intros h [H Hn]. unfold SourceHints.load.
  destruct (SourceHints.entries h !! (u, n)) as [e|] eqn:He.
  - destruct (ok_entries h H _ _ He) as (_ & v & Hv & _). simpl. rewrite Hv. do 2 eexists.
    split; [done|]. split; [intros _; by eapply Hn|]. split; [by eapply move_ok|done].
  - do 2 eexists. split; [done|]. by split.
Qed.

Lemma store_stable u n x : stable named (SourceHints.store u n x) (fun _ => True).
Proof.
  apply stable_step. intros h Hh. unfold SourceHints.store, SourceHints.bump_revision, st_bind.
  destruct (put_named (u, n) x _ (named_next h Hh)) as (h' & -> & ?). eauto.
Qed.

Lemma fill_stable u n x r : stable named (SourceHints.fill u n x r) (fun _ => True).
Proof.
  apply stable_step. intros h Hh. unfold SourceHints.fill. destruct (_ =? _); [|eauto].
  destruct (put_named (u, n) x h Hh) as (h' & -> & ?). eauto.
Qed.

Lemma invalidate_stable u n : stable named (SourceHints.invalidate u n) (fun _ => True).
Proof.
  apply stable_step. intros h Hh. unfold SourceHints.invalidate, SourceHints.bump_revision, st_bind.
  destruct (named_next h Hh) as [H' Hn']. set (h1 := SourceHints.mkHints _ _ _ _ _ _) in *.
  destruct (SourceHints.entries h1 !! (u, n)) as [e|] eqn:He.
  2:{ by exists tt, h1. }
  do 2 eexists. split; [done|]. split; [done|]. split; [by apply (unlink_ok (u, n) e h1)|done].
Qed.

(** ** Calls of the linker *)

(** one step after another, with nothing to say about the results *)
Lemma stable_then {S A B} (I : S -> Prop) (m : ST S A) (k : A -> ST S B) R :
  stable I m (fun _ => True) -> (forall a, stable I (k a) R) -> stable I (st_bind m k) R.
Proof. intros Hm Hk. eapply stable_bind; [exact Hm|]. intros a _. apply Hk. Qed.

Lemma stable_tried {S A} (I : S -> Prop) (m : ST S A) :
  stable I m (fun _ => True) -> stable I (st_try m) (fun _ => True).
Proof. intros Hm. eapply stable_weaken; [|by apply stable_try]. done. Qed.

Lemma fan_out_stable {S X} (I : S -> Prop) (f : X -> ST S Z) xs total err :
  (forall x, stable I (f x) (fun _ => True)) -> stable I (fan_out f xs total err) (fun _ => True).
Proof.
  intros Hf. revert total err. induction xs as [|x xs IH]; intros total err; [by apply stable_ret|].
  apply stable_then; [by apply stable_tried|]. intros [n|e]; apply IH.
Qed.

Ltac stable_steps :=
  repeat first
    [ done
    | solve [auto with stable]
    | progress intros
    | apply stable_then
    | apply stable_tried
    | match goal with
      | |- stable _ (if ?b then _ else _) _ => destruct b
      | |- stable _ (match ?x with _ => _ end) _ => destruct x
      | |- stable _ (let '(_, _) := ?x in _) _ => destruct x
      end ].

Section Stable.
Context (opts : Options).
Context (answer : forall A, list made -> call A -> res A).
Context (packer : Packet.defaultPacker) (malloc : list made -> Writer.Writer).
Context (Marshal : Z -> res (list Z)) (Encryptor : option (list Z -> res (list Z))).
Context (order : list Z -> list Z) (order_endpoints : list Endpoint.Endpoint -> list Endpoint.Endpoint).
Context (Hanswer : forall A lg c, answer A lg c <> Panic).
Context (Hmarshal : forall v, Marshal v <> Panic).
Context (Hencrypt : forall f bs, Encryptor = Some f -> f bs <> Panic).
Context (Hmalloc : forall lg, fresh (malloc lg)).

Definition linker_ok (l : GateLinker) : Prop :=
  match hints l with Some h => named h | None => True end.

Lemma on_hints_stable {A} (m : ST SourceHints.sourceHints A) Q :
  stable named m Q -> forall l, linker_ok l -> hints l <> None ->
  match on_hints m l with (Ok a, l') => Q a /\ linker_ok l' | (Err _, l') => linker_ok l' | (Panic, _) => False end.
Proof.
  intros Hm l Hl Hh. unfold on_hints, linker_ok in *. destruct (hints l) as [h|]; [|done].
  specialize (Hm h Hl). by destruct (m h) as [[a|e|] h'].
Qed.

(** The test for hints decides which table is used. *)
Lemma has_hints_stable {B} (k1 : ST GateLinker B) (k2 : ST GateLinker B) R :
  (forall l, linker_ok l -> hints l <> None ->
     match k1 l with (Ok a, l') => R a /\ linker_ok l' | (Err _, l') => linker_ok l' | (Panic, _) => False end) ->
  stable linker_ok k2 R ->
  stable linker_ok (let! h := has_hints in if h : bool then k1 else k2) R.
Proof.
  intros H1 H2 l Hl. unfold st_bind, has_hints. destruct (hints l) as [h|] eqn:Hh.
  - apply H1; [done|by rewrite Hh].
  - by apply H2.
Qed.

Lemma on_env_stable {A} (m : ST env A) Q :
  (forall e, match (m e).1 with Ok a => Q a | Err _ => True | Panic => False end) ->
  stable linker_ok (on_env m) Q.
Proof.
  intros Hm l Hl. unfold on_env. specialize (Hm (env_ l)). by destruct (m (env_ l)) as [[a|e|] e'].
Qed.

Lemma ask_stable {A} (c : call A) : stable linker_ok (on_env (Link.ask answer c)) (fun _ => True).
Proof.
  apply on_env_stable. intros e. simpl. specialize (Hanswer A (log e) c). by destruct (answer _ _ _).
Qed.
Lemma send_stable {A} (c : nbuf -> call A) : stable linker_ok (on_env (Link.send answer c)) (fun _ => True).
Proof.
  apply on_env_stable. intros e. simpl. specialize (Hanswer A (log e) (c (message e))).
  by destruct (answer _ _ _).
Qed.
Lemma build_stable ep : stable linker_ok (on_env (build answer ep)) (fun _ => True).
Proof.
  apply on_env_stable. intros e. unfold build, st_bind, Link.ask.
  specialize (Hanswer unit (log e) (Build (Endpoint.Address ep))). by destruct (answer _ _ _).
Qed.
Lemma sources_stable {A} (f : gmap Z string -> A * gmap Z string) :
  stable linker_ok (on_sources f) (fun _ => True).
Proof. intros l Hl. unfold on_sources. by destruct (f (sources l)). Qed.
Lemma release_stable : stable linker_ok (on_env Release) (fun _ => True).
Proof. by apply on_env_stable. Qed.
Lemma delay_stable n : stable linker_ok (on_env (Delay n)) (fun _ => True).
Proof. by apply on_env_stable. Qed.
Lemma release_times_stable n : stable linker_ok (on_env (release_times n)) (fun _ => True).
Proof.
  apply on_env_stable. intros e. assert ((release_times n e).1 = Ok tt) as ->; [|done].
  revert e. induction n as [|n IH]; intros e; [done|]. simpl. unfold st_bind. simpl. apply IH.
Qed.

Lemma pack_stable m b :
  stable linker_ok (on_env (Link.PackMessage packer malloc Marshal Encryptor m b)) (fun _ => True).
Proof.
  apply on_env_stable. intros e. unfold Link.PackMessage.
  assert (Link.PackBuffer Marshal Encryptor (Data m) b <> Panic) as Hp.
  { unfold Link.PackBuffer. destruct (Data m) as [|bs|v]; [done|done|].
    specialize (Hmarshal v). destruct (Marshal v) as [d| |]; [|done|done]. simpl.
    destruct Encryptor as [f|] eqn:E; [|done]. destruct b; [|done]. by apply Hencrypt. }
  destruct (Link.PackBuffer _ _ _ _) as [buf|x|]; [|done|done].
  pose proof (Packet.pack_buffer_agrees packer (malloc (log e)) (Packet.mkMessage (Seq m) (Route m) buf)
                (Hmalloc _)) as Hr.
  destruct (Packet.PackMessage _ _) as [d|x|]; [|by rewrite Hr|done].
  by destruct Hr as (nb & -> & _).
Qed.
#[local] Hint Resolve ask_stable send_stable build_stable sources_stable release_stable delay_stable
  release_times_stable pack_stable fan_out_stable stable_ret stable_err : stable.

Lemma storeGateHint_stable u g : stable linker_ok (storeGateHint u g) (fun _ => True).
Proof. apply has_hints_stable; [apply on_hints_stable, store_stable|auto with stable]. Qed.
Lemma deleteGateHint_stable u : stable linker_ok (deleteGateHint u) (fun _ => True).
Proof. apply has_hints_stable; [apply on_hints_stable, invalidate_stable|auto with stable]. Qed.
#[local] Hint Resolve storeGateHint_stable deleteGateHint_stable : stable.

Definition nonempty (s : string) : Prop := s <> ""%string.

Lemma locate_stable u : stable linker_ok (GateLinker.locate answer u) nonempty.
Proof.
  unfold GateLinker.locate. apply stable_then; [auto with stable|]. intros g.
  case_bool_decide; [apply stable_err|by apply stable_ret].
Qed.

(** with hints: load, then ask and fill *)
Lemma locate_hints u l :
  linker_ok l -> hints l <> None ->
  match (let! (cached, ok, revision) := on_hints (SourceHints.load u "gate") in
         if ok : bool then st_ret cached else
         let! gid := GateLinker.locate answer u in
         on_hints (SourceHints.fill u "gate" gid revision) ;;; st_ret gid) l with
  | (Ok a, l') => nonempty a /\ linker_ok l' | (Err _, l') => linker_ok l' | (Panic, _) => False
  end.
Proof.
  intros Hl Hh. pose proof (on_hints_stable _ _ (load_stable u "gate") l Hl Hh) as H1.
  assert (hints (on_hints (SourceHints.load u "gate") l).2 <> None) as Hh1.
  { unfold on_hints. destruct (hints l); [|done]. by destruct (SourceHints.load _ _ _). }
  unfold st_bind at 1. destruct (on_hints (SourceHints.load u "gate") l) as [[[[x ok] r]|e|] l1];
    [|done|done]. simpl in Hh1. destruct H1 as [Hx Hl1]. destruct ok; [by split; [apply Hx|]|].
  pose proof (locate_stable u l1 Hl1) as H2.
  assert (hints (GateLinker.locate answer u l1).2 = hints l1) as Hh2.
  { unfold GateLinker.locate, st_bind, on_env, Link.ask. destruct (answer _ _ _); [|done|done].
    simpl. by case_bool_decide. }
  unfold st_bind at 1. destruct (GateLinker.locate answer u l1) as [[g|e|] l2]; [|done|done].
  destruct H2 as [Hg Hl2]. simpl in Hh2.
  pose proof (on_hints_stable _ _ (fill_stable u "gate" g r) l2 Hl2 ltac:(congruence)) as H3.
  unfold st_bind. destruct (on_hints _ l2) as [[[]|e|] l3]; [|done|done]. by destruct H3.
Qed.

Lemma LocateGate_stable u : stable linker_ok (LocateGate opts answer u) nonempty.
Proof.
  unfold LocateGate. destruct (negb _); [apply stable_err|].
  apply has_hints_stable; [apply locate_hints|].
  apply stable_then; [auto with stable|].
  assert (stable linker_ok (let! gid := GateLinker.locate answer u in storeGateHint u gid ;;; st_ret gid) nonempty) as H.
  { eapply stable_bind; [apply locate_stable|]. intros g Hg. apply stable_then; [auto with stable|].
    intros _. by apply stable_ret. }
  intros [g|]; [|exact H]. case_bool_decide; [by apply stable_ret|exact H].
Qed.

Lemma located_stable u : stable linker_ok (LocateGate opts answer u) (fun _ => True).
Proof. eapply stable_weaken; [|apply LocateGate_stable]. done. Qed.

Lemma doBuildClient_stable g : stable linker_ok (doBuildClient answer g) (fun _ => True).
Proof.
  unfold doBuildClient. case_bool_decide; [apply stable_err|]. apply stable_then; [|auto with stable].
  apply on_env_stable. intros e. unfold read_dispatcher, Dispatcher.Dispatcher.Dispatcher_FindEndpoint.
  simpl. by destruct (_ !! _).
Qed.
#[local] Hint Resolve located_stable doBuildClient_stable : stable.

(** The reply of doRPC is there when there is no error, if the handler's always is. *)
Definition has_reply {R} (a : option R * option error) : Prop := a.2 = None -> a.1 <> None.

Lemma attempts_stable {R} u (f : string -> Z -> Z -> ST GateLinker (bool * option R * option error)) g total
    (idx : list Z) prev reply err (P : bool * option R * option error -> Prop) :
  (forall c i t, stable linker_ok (f c i t) P) ->
  (forall i t, stable linker_ok (g i t) (fun _ => True)) ->
  stable linker_ok (attempts opts answer u f g total idx prev reply err) (fun _ => True).
Proof.
  intros Hf Hg. revert prev reply err. induction idx as [|i idx IH]; intros prev reply err.
  { by apply stable_ret. }
  cbn [attempts]. assert (forall c j t, stable linker_ok (f c j t) (fun _ => True)) as Hf'.
  { intros. eapply stable_weaken; [|apply Hf]. done. }
  stable_steps.
Qed.

Lemma attempts_reply {R} u (f : string -> Z -> Z -> ST GateLinker (bool * option R * option error)) g total
    (idx : list Z) prev reply err :
  (forall c i t, stable linker_ok (f c i t) (fun a => a.1.2 <> None)) ->
  (forall i t, stable linker_ok (g i t) (fun _ => True)) ->
  (prev <> ""%string -> reply <> None) -> (idx = [] -> reply <> None) ->
  stable linker_ok (attempts opts answer u f g total idx prev reply err) has_reply.
Proof.
  intros Hf Hg. revert prev reply err. induction idx as [|i idx IH]; intros prev reply err Hp Hi.
  { apply stable_ret. intros _. by apply Hi. }
  cbn [attempts]. eapply stable_bind; [apply stable_try, LocateGate_stable|].
  intros [gid|e] Hgid. 2:{ apply stable_then; [done|]. intros _. by apply stable_ret. }
  case_bool_decide as E.
  { apply stable_then; [done|]. intros _. apply stable_ret. intros _. apply Hp. by rewrite <- E. }
  apply stable_then; [auto using stable_tried with stable|].
  intros [c|e]. 2:{ apply stable_then; [done|]. intros _. by apply stable_ret. }
  eapply stable_bind; [apply Hf|]. intros [[cont reply'] err'] Hr. simpl in Hr.
  destruct cont; simpl.
  - apply stable_then; [auto with stable|]. intros _. by apply IH.
  - apply stable_ret. by intros _.
Qed.

Lemma outcome_stable {A R} (reply : A -> option R) failed (m : ST GateLinker A) :
  stable linker_ok m (fun _ => True) -> stable linker_ok (outcome reply failed m) (fun _ => True).
Proof. intros Hm. unfold outcome. stable_steps. Qed.

Lemma outcome_reply {A R} (r0 : R) (m : ST GateLinker A) (reply : A -> R) :
  stable linker_ok m (fun _ => True) ->
  stable linker_ok (outcome (fun a => Some (reply a)) (Some r0) m) (fun a => a.1.2 <> None).
Proof. intros Hm. unfold outcome. stable_steps; by apply stable_ret. Qed.

Lemma no_handler_stable i t : stable linker_ok (no_handler i t) (fun _ => True).
Proof. by apply stable_ret. Qed.

Lemma doRPC_stable {R} u (f : string -> Z -> Z -> ST GateLinker (bool * option R * option error)) g :
  (forall c i t, stable linker_ok (f c i t) (fun _ => True)) ->
  (forall i t, stable linker_ok (g i t) (fun _ => True)) ->
  stable linker_ok (doRPC opts answer u f g) (fun _ => True).
Proof. intros Hf Hg. unfold doRPC. by apply (attempts_stable u f g 2 [0; 1] "" None None (fun _ => True)). Qed.

(** A call whose reply is asserted to be of the right type *)
Lemma asserted_stable {A R} u (r0 : R) (m : string -> ST GateLinker A) (reply : A -> R) :
  (forall c, stable linker_ok (m c) (fun _ => True)) ->
  stable linker_ok (let! (v, err) := doRPC opts answer u
      (fun c _ _ => outcome (fun a => Some (reply a)) (Some r0) (m c)) no_handler in
    match err with Some e => st_err e | None => assert_type v end) (fun _ => True).
Proof.
  intros Hm. eapply (stable_bind _ _ _ has_reply).
  { unfold doRPC. apply attempts_reply; [|apply no_handler_stable|done|done].
    intros. by apply outcome_reply. }
  intros [v err] Hr. destruct err as [e|]; [apply stable_err|]. unfold has_reply in Hr. simpl in Hr.
  destruct v; [by apply stable_ret|]. by specialize (Hr eq_refl).
Qed.
#[local] Hint Resolve outcome_stable no_handler_stable doRPC_stable : stable.

Lemma disconnect_call_stable c k t tk f : stable linker_ok (disconnect_call answer c k t tk f) (fun _ => True).
Proof. unfold disconnect_call. stable_steps. Qed.
Lemma raise_stable {A} (v : A) err : stable linker_ok (raise v err) (fun _ => True).
Proof. destruct err; [apply stable_err|by apply stable_ret]. Qed.
Lemma releases_stable i t : stable linker_ok (releases i t) (fun _ => True).
Proof. apply release_times_stable. Qed.
#[local] Hint Resolve disconnect_call_stable raise_stable releases_stable : stable.

Lemma doPush_stable k t d tk ack : stable linker_ok (doPush opts answer k t d tk ack) (fun _ => True).
Proof.
  unfold doPush. apply stable_then; [|intros [? ?]; auto with stable].
  apply doRPC_stable; [|auto with stable]. intros. stable_steps.
Qed.
Lemma all_endpoints_stable : stable linker_ok (all_endpoints order_endpoints) (fun _ => True).
Proof. by intros l. Qed.
#[local] Hint Resolve doPush_stable all_endpoints_stable : stable.

Lemma doMulticast_stable k ts d ack : stable linker_ok (doMulticast opts answer order k ts d ack) (fun _ => True).
Proof.
  unfold doMulticast. apply stable_then; [apply fan_out_stable; stable_steps|]. stable_steps.
Qed.
#[local] Hint Resolve doMulticast_stable : stable.

Lemma each_target_stable f ts :
  (forall c t, stable linker_ok (f c t) (fun _ => True)) ->
  stable linker_ok (each_target opts answer order f ts) (fun _ => True).
Proof.
  intros Hf. unfold each_target. apply stable_then; [|stable_steps]. apply fan_out_stable. intros x.
  apply stable_then; [|stable_steps]. apply doRPC_stable; [|auto with stable].
  intros. unfold once. stable_steps.
Qed.

#[local] Hint Resolve each_target_stable : stable.

Lemma to_all_stable f m :
  (forall ep, stable linker_ok (f ep) (fun _ => True)) ->
  stable linker_ok (to_all packer malloc Marshal Encryptor order_endpoints f m) (fun _ => True).
Proof.
  intros Hf. unfold to_all. apply stable_then; [auto with stable|].
  intros [|ep [|ep' eps]]; [by apply stable_ret|stable_steps|].
  apply stable_then; [auto with stable|]. intros _. apply stable_then; [auto with stable|]. intros _.
  apply stable_then; [by apply fan_out_stable|]. stable_steps.
Qed.

(** ** Every public call *)

Inductive gate_op :=
| OpBindGate (gid : string) (cid uid : Z)
| OpUnbindGate (uid : Z)
| OpAskGate (gid : string) (uid : Z)
| OpGetIP (gid : string) (kind target : Z)
| OpIsOnline (gid : string) (kind target : Z)
| OpStat (kind : Z)
| OpDisconnect (gid : string) (kind target : Z) (token : Token) (force : bool)
| OpPush (gid : string) (kind target : Z) (token : Token) (m : Message) (disconnect ack : bool)
| OpMulticast (gid : string) (kind : Z) (targets : list Z) (m : Message) (disconnect ack : bool)
| OpBroadcast (kind : Z) (m : Message) (disconnect ack : bool)
| OpPublish (channel : string) (m : Message) (disconnect ack : bool)
| OpSubscribe (gid : string) (kind : Z) (targets : list Z) (channel : string)
| OpUnsubscribe (gid : string) (kind : Z) (targets : list Z) (channel : string)
| OpGetState (gid : string)
| OpSetState (gid : string) (state : Z)
| OpGateEvent (ev : LocateEvent)
| OpGateServices (services : list Dispatcher.Registry.ServiceInstance).

Context (Parse : string -> res Dispatcher.URL).

Definition drop {A} (m : ST GateLinker A) : ST GateLinker unit := m ;;; st_ret tt.

Definition perform (o : gate_op) : ST GateLinker unit :=
  match o with
  | OpBindGate g c u => BindGate answer g c u
  | OpUnbindGate u => UnbindGate opts answer u
  | OpAskGate g u => drop (AskGate opts answer g u)
  | OpGetIP g k t => drop (GetIP opts answer g k t)
  | OpIsOnline g k t => drop (IsOnline opts answer g k t)
  | OpStat k => drop (Stat answer order_endpoints k)
  | OpDisconnect g k t tk f => Disconnect opts answer g k t tk f
  | OpPush g k t tk m d a => Push opts answer packer malloc Marshal Encryptor g k t tk m d a
  | OpMulticast g k ts m d a => drop (Multicast opts answer packer malloc Marshal Encryptor order g k ts m d a)
  | OpBroadcast k m d a => drop (Broadcast answer packer malloc Marshal Encryptor order_endpoints k m d a)
  | OpPublish c m d a => drop (Publish answer packer malloc Marshal Encryptor order_endpoints c m d a)
  | OpSubscribe g k ts c => Subscribe opts answer order g k ts c
  | OpUnsubscribe g k ts c => Unsubscribe opts answer order g k ts c
  | OpGetState g => drop (GetState answer g)
  | OpSetState g s => SetState answer g s
  | OpGateEvent ev => applySourceEvent ev
  | OpGateServices ss => replace_services Parse ss
  end.

Definition perform_all (os : list gate_op) (l : GateLinker) : GateLinker :=
  fold_left (fun l o => (perform o l).2) os l.

Lemma perform_stable o : stable linker_ok (perform o) (fun _ => True).
Proof.
  destruct o; cbn [perform]; unfold drop.
  - unfold BindGate. stable_steps.
  - unfold UnbindGate. apply stable_then; [apply doRPC_stable; intros; auto with stable|]. stable_steps.
  - unfold AskGate. stable_steps.
  - unfold GetIP, doDirectGetIP. apply stable_then; [|stable_steps].
    destruct (_ =? _); [stable_steps|]. destruct (_ =? _); [|stable_steps].
    case_bool_decide; [|stable_steps]. apply (asserted_stable target ""%string (fun c => _) id). auto with stable.
  - unfold IsOnline, doDirectIsOnline. apply stable_then; [|stable_steps].
    destruct (_ =? _); [stable_steps|]. destruct (_ =? _); [|stable_steps].
    case_bool_decide; [|stable_steps]. apply (asserted_stable target false (fun c => _) id). auto with stable.
  - unfold Stat. apply stable_then; [|stable_steps]. apply stable_then; [auto with stable|]. intros eps.
    apply stable_then; [apply fan_out_stable; stable_steps|]. stable_steps.
  - unfold Disconnect, doDirectDisconnect, doIndirectDisconnect. stable_steps.
  - unfold Push, push_direct. stable_steps.
  - unfold Multicast, doDirectMulticast, doIndirectMulticast. stable_steps.
  - unfold Broadcast. apply stable_then; [|stable_steps]. apply to_all_stable.
    intros. unfold doBroadcast. stable_steps.
  - unfold Publish. apply stable_then; [|stable_steps]. apply to_all_stable.
    intros. unfold doPublish. stable_steps.
  - unfold Subscribe, doDirectSubscribe, doIndirectSubscribe. stable_steps.
  - unfold Unsubscribe, doDirectUnsubscribe, doIndirectUnsubscribe. stable_steps.
  - unfold GetState. stable_steps.
  - unfold SetState. stable_steps.
  - unfold applySourceEvent. destruct (_ && _); [by apply stable_ret|].
    apply has_hints_stable; [apply on_hints_stable, invalidate_stable|]. stable_steps.
  - unfold replace_services. by apply on_env_stable.
Qed.
End Stable.
