(* ===== verification/GateLinkClaims.v ===== *)
(** What the gate linker does in a cluster: no call panics; a user who is not
    where the locator says counts as reached; the second attempt of a push
    sends a message that was given back. *)
From stdpp Require Import base numbers list gmap strings.
From Stdlib Require Import ZArith Lia.
From S2P Require Import Prelude Types Reader Writer Nocopy Packet Dispatcher DispatcherClaims.
From S2P Require Import SourceHints Link GateLink GateLinkOk.
Import Link GateLinker.
Import Dispatcher.Dispatcher (Dispatcher_FindEndpoint).
Import Endpoint (Endpoint, Address).

Open Scope Z_scope.
Open Scope go_scope.

(** ** From a new linker *)

Lemma new_linker_ok opts nb l : NewGateLinker opts nb = Ok l -> linker_ok l.
Proof.
  unfold NewGateLinker. destruct (_ <? 0); [done|]. destruct (0 <? _).
  - destruct (SourceHints.newSourceHints _) as [h| |] eqn:E; [|done|done]. intros [= <-].
    apply new_hints_ok in E as [-> H]. by split.
  - by intros [= <-].
Qed.

Section Safe.
Context (opts : Options).
Context (answer : forall A, list made -> call A -> res A).
Context (packer : Packet.defaultPacker) (malloc : list made -> Writer.Writer).
Context (Marshal : Z -> res (list Z)) (Encryptor : option (list Z -> res (list Z))).
Context (order : list Z -> list Z) (order_endpoints : list Endpoint -> list Endpoint).
Context (Parse : string -> res Dispatcher.URL).

(** What the linker is given never panics, and the pool hands out empty writers. *)
Definition well_behaved : Prop :=
  (forall A lg (c : call A), answer A lg c <> Panic) /\ (forall v, Marshal v <> Panic) /\
  (forall f bs, Encryptor = Some f -> f bs <> Panic) /\ (forall lg, fresh (malloc lg)).

Abbreviation run := (perform opts answer packer malloc Marshal Encryptor order order_endpoints Parse).
Abbreviation run_all := (perform_all opts answer packer malloc Marshal Encryptor order order_endpoints Parse).

Lemma run_all_ok os l : well_behaved -> linker_ok l -> linker_ok (run_all os l).
Proof.
  intros (H1 & H2 & H3 & H4). revert l. induction os as [|o os IH]; intros l Hl; [done|].
  simpl. apply IH. pose proof (perform_stable opts answer packer malloc Marshal Encryptor order
    order_endpoints H1 H2 H3 H4 Parse o l Hl) as H. by destruct (perform _ _ _ _ _ _ _ _ _ o l) as [[?|?|] l'];
    [destruct H| |].
Qed.

(** C32: No call of a gate linker panics, whatever calls were made before it and
    whatever the locator, the registry and the gates answered: the hints stay
    consistent and the reply that GetIP and IsOnline take out of doRPC is there. *)
Theorem gate_linker_never_panics os o nb l :
  well_behaved -> NewGateLinker opts nb = Ok l -> (run o (run_all os l)).1 <> Panic.
Proof.
  intros Hw Hn. pose proof (run_all_ok os l Hw (new_linker_ok _ _ _ Hn)) as Hl.
  destruct Hw as (H1 & H2 & H3 & H4).
  pose proof (perform_stable opts answer packer malloc Marshal Encryptor order
    order_endpoints H1 H2 H3 H4 Parse o _ Hl) as H.
  by destruct (perform _ _ _ _ _ _ _ _ _ o _) as [[?|?|] l'].
Qed.
End Safe.

(** ** Users the locator places at a gate that does not know them *)

Section Missing.
Context (opts : Options) (Hloc : HasLocator opts = true).
Context (answer : forall A, list made -> call A -> res A).
Context (gid : string) (ep : Endpoint) (Hgid : gid <> ""%string).
Context (Hbuild : forall lg addr, answer unit lg (Build addr) = Ok tt).

(** The table has nothing else for these users, and the gate is known. *)
Record placed (ts : list Z) (l : GateLinker) : Prop := {
  placed_hints : hints l = None;
  placed_gate : Dispatcher_FindEndpoint gid (disp (env_ l)) = Ok ep;
  placed_sources : forall t, t ∈ ts -> sources l !! t = None \/ sources l !! t = Some gid
}.

Lemma placed_other ts l l' :
  placed ts l -> hints l' = hints l -> disp (env_ l') = disp (env_ l) ->
  (sources l' = sources l \/ exists t, sources l' = delete t (sources l) \/ sources l' = <[t := gid]> (sources l)) ->
  placed ts l'.
Proof.
  intros [H1 H2 H3] Eh Ed Es. split; [congruence|congruence|]. intros t Ht.
  destruct Es as [->|(u & [-> | ->])]; [auto|..]; destruct (decide (u = t)) as [->|Hne].
  - rewrite lookup_delete_eq. auto.
  - rewrite lookup_delete_ne by done. auto.
  - rewrite lookup_insert_eq. auto.
  - rewrite lookup_insert_ne by done. auto.
Qed.

Lemma locate_placed ts t l :
  t ∈ ts -> placed ts l -> (forall lg, answer string lg (LocatorLocateGate t) = Ok gid) ->
  exists l', LocateGate opts answer t l = (Ok gid, l') /\ placed ts l'.
Proof.
  intros Ht Hp Ha. pose proof Hp as [H1 H2 H3]. unfold LocateGate. rewrite Hloc. cbn [negb].
  unfold st_bind at 1. unfold has_hints at 1. rewrite H1. unfold st_bind at 1. unfold on_sources at 1.
  assert (exists l', (let! gid := GateLinker.locate answer t in storeGateHint t gid ;;; st_ret gid)
            (mkGateLinker (sources l) (hints l) (env_ l)) = (Ok gid, l') /\ placed ts l') as Hask.
  { unfold GateLinker.locate, st_bind, on_env, Link.ask, storeGateHint, has_hints, on_sources. simpl.
    rewrite Ha. rewrite bool_decide_eq_false_2 by done. unfold st_ret, st_bind. simpl. rewrite H1.
    eexists. split; [done|]. apply (placed_other ts l); eauto. }
  destruct (H3 t Ht) as [-> | ->]; [exact Hask|]. rewrite bool_decide_eq_true_2 by done.
  eexists. split; [done|]. by destruct l.
Qed.

Lemma delete_placed ts t l :
  placed ts l -> exists l', deleteGateHint t l = (Ok tt, l') /\ placed ts l'.
Proof.
  intros Hp. unfold deleteGateHint, has_hints, st_bind, on_sources. rewrite (placed_hints _ _ Hp). simpl.
  eexists. split; [done|]. apply (placed_other ts l); eauto.
Qed.

Lemma build_placed ts l :
  placed ts l -> exists l', doBuildClient answer gid l = (Ok (Address ep), l') /\ placed ts l'.
Proof.
  intros Hp. unfold doBuildClient. rewrite bool_decide_eq_false_2 by done.
  unfold st_bind, on_env, read_dispatcher. rewrite (placed_gate _ _ Hp). simpl.
  unfold build, st_bind, Link.ask. rewrite Hbuild. eexists. split; [done|].
  apply (placed_other ts l); auto.
Qed.

Context (kind : Z) (d : bool) (tk : Token).
Context (Hmissing : forall lg t m,
  answer unit lg (GatePush (Address ep) kind t d tk m true) = Err ErrNotFoundSession).

Lemma push_hidden ts t l :
  t ∈ ts -> placed ts l -> (forall lg, answer string lg (LocatorLocateGate t) = Ok gid) ->
  exists l', doPush opts answer kind t d tk true l = (Ok tt, l') /\ placed ts l'.
Proof.
  intros Ht Hp Ha. unfold doPush, doRPC. cbn [attempts]. unfold st_bind, st_try.
  destruct (locate_placed ts t l Ht Hp Ha) as (l1 & -> & Hp1).
  rewrite bool_decide_eq_false_2 by done.
  destruct (build_placed ts l1 Hp1) as (l2 & -> & Hp2).
  unfold on_env at 1, Link.send at 1. rewrite Hmissing.
  rewrite bool_decide_eq_true_2 by done. unfold st_ret. cbn [negb].
  match goal with |- context [deleteGateHint t ?x] => set (l3 := x) end.
  assert (placed ts l3) as Hp3 by (apply (placed_other ts l2); auto).
  destruct (delete_placed ts t l3 Hp3) as (l4 & -> & Hp4).
  destruct (locate_placed ts t l4 Ht Hp4 Ha) as (l5 & -> & Hp5).
  rewrite bool_decide_eq_true_2 by done.
  unfold releases, on_env. simpl. eexists. split; [done|]. apply (placed_other ts l5); auto.
Qed.

Lemma fan_out_hidden ts us l n :
  us ⊆ ts -> placed ts l ->
  (forall lg t, t ∈ ts -> answer string lg (LocatorLocateGate t) = Ok gid) ->
  0 <= n -> n + len us < 2 ^ 31 ->
  exists l', fan_out (fun t => doPush opts answer kind t d tk true ;;; st_ret 1) us n None l
             = (Ok (n + len us, None), l').
Proof.
  intros Hs Hp Ha. revert n l Hp. induction us as [|t us IH]; intros n l Hp Hn Hb.
  { exists l. unfold len. simpl. unfold st_ret. by rewrite Z.add_0_r. }
  destruct (push_hidden ts t l) as (l1 & E & Hp1); [set_solver|done|intros; apply Ha; set_solver|].
  assert (st_try (doPush opts answer kind t d tk true ;;; st_ret 1) l = (Ok (inl 1), l1)) as E'
    by (unfold st_try, st_bind; by rewrite E).
  cbn [fan_out]. unfold st_bind at 1. rewrite E'.
  unfold len in *. cbn [length] in *. rewrite (wrapS_id 64) by (unfold inS; lia).
  destruct (IH ltac:(set_solver) (n + 1) l1 Hp1 ltac:(lia) ltac:(lia)) as (l2 & ->).
  exists l2. do 3 f_equal. lia.
Qed.
End Missing.

Lemma packed_env packer malloc Marshal Encryptor m e e' :
  PackMessage packer malloc Marshal Encryptor m true e = (Ok tt, e') ->
  disp e' = disp e /\ log e' = log e.
Proof. unfold PackMessage. repeat case_match; by intros [= <-]. Qed.

(** An acknowledged multicast counts users who were not found.  The locator
    places every target at one gate, and the gate answers each push with
    ErrNotFoundSession: doRPC asks the locator again, which overwrites the
    error, gets the same gate and returns without one.  The multicast reports
    as many users reached as it was given. *)
Theorem missing_users_counted opts (answer : forall A, list made -> call A -> res A) packer malloc
    Marshal Encryptor (order : list Z -> list Z) gid ep ts m e d l :
  HasLocator opts = true -> gid <> ""%string -> (forall ts, Permutation (order ts) ts) ->
  0 < len ts < 2 ^ 31 -> placed gid ep ts l ->
  PackMessage packer malloc Marshal Encryptor m true (env_ l) = (Ok tt, e) ->
  (forall lg addr, answer unit lg (Build addr) = Ok tt) ->
  (forall lg t, t ∈ ts -> answer string lg (LocatorLocateGate t) = Ok gid) ->
  (forall lg t m, answer unit lg (GatePush (Address ep) Kind.User t d zero_token m true)
                  = Err ErrNotFoundSession) ->
  (Multicast opts answer packer malloc Marshal Encryptor order "" Kind.User ts m d true l).1
  = Ok (len ts).
Proof.
  intros Hloc Hg Hord Hlen Hp Hpack Hb Ha Hm. destruct (packed_env _ _ _ _ _ _ _ Hpack) as [Hdisp _].
  assert (forall n, placed gid ep ts (mkGateLinker (sources l) (hints l) (Delay n e).2)) as Hp'
    by (intros n; apply (placed_other gid ep ts l); auto).
  unfold Multicast. change (Kind.User =? Kind.Conn) with false. change (Kind.User =? Kind.User) with true.
  change (bool_decide (""%string = ""%string)) with true. unfold doIndirectMulticast.
  destruct ts as [|t [|t' ts]]; [unfold len in Hlen; simpl in Hlen; lia|..];
    unfold st_bind at 1, on_env at 1; rewrite Hpack; unfold st_bind at 1, on_env at 1; simpl.
  - destruct (push_hidden opts Hloc answer gid ep Hg Hb Kind.User d zero_token Hm [t] t _
      ltac:(set_solver) (Hp' (i32 (len [t] * 2))) ltac:(intros; apply Ha; set_solver)) as (l' & E & _).
    unfold st_bind. simpl in E. by rewrite E.
  - set (us := t :: t' :: ts) in *. unfold doMulticast. unfold st_bind at 1.
    assert (order us ⊆ us) as Hsub by (intros x Hx; by rewrite (Hord us) in Hx).
    assert (len (order us) = len us) as Hl by (unfold len; by rewrite Hord).
    destruct (fan_out_hidden opts Hloc answer gid ep Hg Hb Kind.User d zero_token Hm us (order us)
      _ 0 Hsub (Hp' (i32 (len us * 2))) Ha ltac:(lia) ltac:(lia)) as (l' & E).
    simpl in E. rewrite E. rewrite Hl, Z.add_0_l.
    destruct (Z.eqb_spec (len us) 0); [lia|done].
Qed.

(** ** The second attempt of a push *)

Lemma pack_frame packer malloc Marshal Encryptor m e e' :
  (forall lg, fresh (malloc lg)) ->
  PackMessage packer malloc Marshal Encryptor m true e = (Ok tt, e') ->
  exists c n ns, message e' = NBuf c n ns 0 false /\
    exists data, PackBuffer Marshal Encryptor (Data m) true = Ok data /\
      NocopyBuffer.Bytes (message e')
      = Packet.PackMessage packer (Packet.mkMessage (Seq m) (Route m) data).
Proof.
  intros Hf. unfold PackMessage. destruct (PackBuffer Marshal Encryptor (Data m) true) as [data|x|];
    [|done|done].
  pose proof (Packet.pack_buffer_agrees packer (malloc (log e))
    (Packet.mkMessage (Seq m) (Route m) data) (Hf _)) as Hr.
  destruct (Packet.PackBuffer _ _ _) as [b|x|] eqn:Eb; [|done|done]. intros [= <-]. cbn [message].
  assert (exists c n ns, b = NBuf c n ns 0 false) as (c & n & ns & Eq).
  { unfold Packet.PackBuffer, res_bind in Eb. destruct (Packet.check _ _); [|done|done].
    destruct (st_bind _ _ _) as [[?|?|] w]; simplify_eq. simpl. eauto. }
  exists c, n, ns. split; [done|]. exists data. split; [done|].
  destruct (Packet.PackMessage _ _) as [bs|x|]; [|done|done]. by destruct Hr as (b' & [= <-] & ?).
Qed.

(** The second attempt of an acknowledged push sends nothing.  The table
    still has the user's old gate, which answers ErrNotFoundSession; the first
    request gave the message back (Push does not delay its release as the
    multicast does), so the request to the new gate carries an empty message. *)
Theorem retried_push_is_empty opts (answer : forall A, list made -> call A -> res A) packer malloc
    Marshal Encryptor uid tk m d e l old new ep1 ep2 :
  HasLocator opts = true -> hints l = None -> (forall lg, fresh (malloc lg)) ->
  sources l !! uid = Some old -> old <> ""%string -> new <> ""%string -> new <> old ->
  Dispatcher_FindEndpoint old (disp (env_ l)) = Ok ep1 ->
  Dispatcher_FindEndpoint new (disp (env_ l)) = Ok ep2 ->
  (forall lg addr, answer unit lg (Build addr) = Ok tt) ->
  (forall lg, answer string lg (LocatorLocateGate uid) = Ok new) ->
  (forall lg m, answer unit lg (GatePush (Address ep1) Kind.User uid d tk m true)
                = Err ErrNotFoundSession) ->
  (forall lg m, answer unit lg (GatePush (Address ep2) Kind.User uid d tk m true) = Ok tt) ->
  PackMessage packer malloc Marshal Encryptor m true (env_ l) = (Ok tt, e) ->
  let '(r, l') := Push opts answer packer malloc Marshal Encryptor "" Kind.User uid tk m d true l in
  r = Ok tt /\
  exists data b b',
    PackBuffer Marshal Encryptor (Data m) true = Ok data /\
    NocopyBuffer.Bytes b = Packet.PackMessage packer (Packet.mkMessage (Seq m) (Route m) data) /\
    NocopyBuffer.Bytes b' = Ok [] /\
    log (env_ l') = log (env_ l) ++
      [call_of (Build (Address ep1)); call_of (GatePush (Address ep1) Kind.User uid d tk b true);
       call_of (LocatorLocateGate uid); call_of (Build (Address ep2));
       call_of (GatePush (Address ep2) Kind.User uid d tk b' true)].
Proof.
  intros Hloc Hh Hf Hs Ho Hn Hne H1 H2 Hb Hl Hp1 Hp2 Hpack.
  destruct (packed_env _ _ _ _ _ _ _ Hpack) as [Hd Hlog].
  destruct (pack_frame _ _ _ _ _ _ _ Hf Hpack) as (c & n & ns & Hm & data & Hdata & Hbytes).
  unfold Push. change (Kind.User =? Kind.Conn) with false. change (Kind.User =? Kind.User) with true.
  change (bool_decide (""%string <> ""%string)) with false.
  unfold st_bind at 1. unfold on_env at 1. rewrite Hpack.
  unfold doPush, doRPC. cbn [attempts]. unfold LocateGate, GateLinker.locate, storeGateHint, deleteGateHint, doBuildClient,
    has_hints, on_sources, on_env, read_dispatcher, build, Link.ask, Link.send, releases, on_env, st_bind, st_try.
  repeat first
    [ progress simpl | progress unfold st_ret
    | rewrite Hloc | rewrite Hh | rewrite Hs | rewrite Hd | rewrite H1 | rewrite H2 | rewrite Hb
    | rewrite Hl | rewrite Hp1 | rewrite Hp2 | rewrite lookup_delete_eq
    | rewrite bool_decide_eq_true_2 by done | rewrite bool_decide_eq_false_2 by done ].
  split; [done|].
  exists data, (message e), (NocopyBuffer.Release (message e)).1. split_and!; [done|done| |].
  - by rewrite Hm.
  - rewrite Hlog. by rewrite <- !app_assoc.
Qed.

(** ** A cluster of two gates *)

Definition two_gates : Dispatcher.Dispatcher.Dispatcher :=
  Dispatcher.Dispatcher.ReplaceServices sample_parse
    [Registry.mkInstance "g1" "gate" "gate" "gate" "work" [] [] [] "10.0.0.1:1" 1 None;
     Registry.mkInstance "g2" "gate" "gate" "gate" "work" [] [] [] "10.0.0.1:2" 1 None]
    (Dispatcher.Dispatcher.NewDispatcher "random").

Definition two_gates_linker (src : gmap Z string) : GateLinker :=
  mkGateLinker src None (mkEnv two_gates NocopyBuffer.empty []).

Definition gates_opts (hints : Z) : Options :=
  mkOptions hints "node-1" Cluster.Node true "random" false false.

(** the locator names [gid]; the first gate knows nobody *)
Definition gates_answer (gid : string) (A : Type) (lg : list made) (c : call A) : res A :=
  match c with
  | LocatorLocateGate _ => Ok gid
  | Build _ => Ok tt
  | GatePush addr _ _ _ _ _ _ =>
      if bool_decide (addr = "10.0.0.1:1"%string) then Err ErrNotFoundSession else Ok tt
  | GateGetIP addr _ _ =>
      if bool_decide (addr = "10.0.0.1:1"%string) then Err ErrNotFoundSession else Ok "127.0.0.1"%string
  | _ => Err ErrUnknownError
  end.

Definition gates_malloc (lg : list made) : Writer.Writer := WriterPool.new_at 3.
Definition gates_marshal (v : Z) : res (list Z) := Ok [v mod 256].
Definition gates_endpoint (gid : string) : Endpoint :=
  match Dispatcher_FindEndpoint gid two_gates with Ok ep => ep | _ => Endpoint.NewEndpoint "" "" false end.
Definition hello : Message := Link.mkMessage 1 7 (Raw [104; 105]).

Lemma gates_malloc_fresh lg : fresh (gates_malloc lg).
Proof. split; [split|]; vm_compute; by try lia. Qed.

Lemma gates_well_behaved gid : well_behaved (gates_answer gid) gates_malloc gates_marshal None.
Proof.
  split_and!; [|done|done|apply gates_malloc_fresh].
  intros A lg c. destruct c; simpl; try done; by case_bool_decide.
Qed.

Lemma gate_linker_never_panics_witness :
  (perform (gates_opts 2) (gates_answer "g1") Packet.example_packer gates_malloc gates_marshal None id id
     sample_parse (OpGetIP "" Kind.User 42)
     (perform_all (gates_opts 2) (gates_answer "g1") Packet.example_packer gates_malloc gates_marshal None
        id id sample_parse
        [OpGateServices []; OpPush "" Kind.User 42 zero_token hello false true;
         OpGateEvent (mkLocateEvent 42 BindGateEvent "g1" "gate")]
        (mkGateLinker ∅ (Some (SourceHints.mkHints 2 0 ∅ [] ∅ 0))
           (mkEnv (Dispatcher.Dispatcher.NewDispatcher "random") NocopyBuffer.empty [])))).1 <> Panic.
Proof.
  eapply gate_linker_never_panics; [apply gates_well_behaved|]. reflexivity.
Defined.

Definition pack_hello (l : GateLinker) : env :=
  (PackMessage Packet.example_packer gates_malloc gates_marshal None hello true (env_ l)).2.

Lemma missing_users_counted_witness :
  (Multicast (gates_opts 0) (gates_answer "g1") Packet.example_packer gates_malloc gates_marshal None
     (@rev Z) "" Kind.User [42; 43; 44] hello false true (two_gates_linker {[43 := "g1"%string]})).1 = Ok 3.
Proof.
  apply (missing_users_counted (gates_opts 0) (gates_answer "g1") Packet.example_packer gates_malloc
    gates_marshal None (@rev Z) "g1" (gates_endpoint "g1") [42; 43; 44] hello
    (pack_hello (two_gates_linker {[43 := "g1"%string]}))).
  - reflexivity.
  - done.
  - intros ts. symmetry. apply Permutation_rev.
  - vm_compute. done.
  - split; [reflexivity|vm_compute; reflexivity|].
    intros t [-> |[-> |[-> |[]%not_elem_of_nil]%elem_of_cons]%elem_of_cons]%elem_of_cons;
      vm_compute; auto.
  - vm_compute. reflexivity.
  - reflexivity.
  - reflexivity.
  - intros. vm_compute. reflexivity.
Defined.

Lemma retried_push_is_empty_witness :
  let '(r, l') := Push (gates_opts 0) (gates_answer "g2") Packet.example_packer gates_malloc gates_marshal
    None "" Kind.User 42 zero_token hello false true (two_gates_linker {[42 := "g1"%string]}) in
  r = Ok tt /\
  exists data b b',
    PackBuffer gates_marshal None (Data hello) true = Ok data /\
    NocopyBuffer.Bytes b = Packet.PackMessage Packet.example_packer (Packet.mkMessage 1 7 data) /\
    NocopyBuffer.Bytes b' = Ok [] /\
    log (env_ l') = [] ++
      [call_of (Build "10.0.0.1:1"); call_of (GatePush "10.0.0.1:1" Kind.User 42 false zero_token b true);
       call_of (LocatorLocateGate 42); call_of (Build "10.0.0.1:2");
       call_of (GatePush "10.0.0.1:2" Kind.User 42 false zero_token b' true)].
Proof.
  apply (retried_push_is_empty (gates_opts 0) (gates_answer "g2") Packet.example_packer gates_malloc
    gates_marshal None 42 zero_token hello false (pack_hello (two_gates_linker {[42 := "g1"%string]}))
    (two_gates_linker {[42 := "g1"%string]}) "g1" "g2" (gates_endpoint "g1") (gates_endpoint "g2")).
  all: try done.
  apply gates_malloc_fresh.
Defined.
