(* ===== verification/Actor.v ===== *)
(** cluster/node: the actors of a node (actor.go, actor_options.go) and the
    scheduler that keeps them (scheduler.go).

    Actors, timers and goroutines are references.  A region under a lock and a
    single access to an atomic variable or to a sync.Map is one step of one
    goroutine; [exec t x s] is the step of goroutine [t] with outcome [x].  What
    the application does (handlers, processors, guards, hooks) are names; the
    calls made of it, and the calls of Active and Idle it made, are logged. *)
From stdpp Require Import base numbers list gmap strings.
From Stdlib Require Import ZArith Lia.
From S2P Require Import Prelude Types.

Open Scope Z_scope.

Import Waits (waits).

(** ** actor_options.go *)

(** the callbacks may be missing; args are passed to the creator only *)
Record actorOptions := mkActorOptions {
  id : string;
  kind : string;
  wait : bool;
  dispatch : bool;
  idleTimeout : Z;
  releaseGuard : bool;
  releaseHook : bool;
  releaseGuardCanceled : bool
}.

Definition defaultActorOptions : actorOptions := mkActorOptions "" "" true true 0 false false false.

Definition WithActorID (x : string) (o : actorOptions) : actorOptions :=
  mkActorOptions x (kind o) (wait o) (dispatch o) (idleTimeout o) (releaseGuard o) (releaseHook o)
    (releaseGuardCanceled o).
Definition WithActorKind (x : string) (o : actorOptions) : actorOptions :=
  mkActorOptions (id o) x (wait o) (dispatch o) (idleTimeout o) (releaseGuard o) (releaseHook o)
    (releaseGuardCanceled o).
Definition WithActorNonWait (o : actorOptions) : actorOptions :=
  mkActorOptions (id o) (kind o) false (dispatch o) (idleTimeout o) (releaseGuard o) (releaseHook o)
    (releaseGuardCanceled o).
Definition WithActorNonDispatch (o : actorOptions) : actorOptions :=
  mkActorOptions (id o) (kind o) (wait o) false (idleTimeout o) (releaseGuard o) (releaseHook o)
    (releaseGuardCanceled o).
Definition WithActorIdleTimeout (timeout : Z) (o : actorOptions) : actorOptions :=
  if 0 <? timeout then
    mkActorOptions (id o) (kind o) (wait o) (dispatch o) timeout (releaseGuard o) (releaseHook o)
      (releaseGuardCanceled o)
  else o.
Definition WithActorReleaseGuard (guard : bool) (o : actorOptions) : actorOptions :=
  if guard then
    mkActorOptions (id o) (kind o) (wait o) (dispatch o) (idleTimeout o) true (releaseHook o)
      (releaseGuardCanceled o)
  else o.
Definition WithActorReleaseHook (hook : bool) (o : actorOptions) : actorOptions :=
  if hook then
    mkActorOptions (id o) (kind o) (wait o) (dispatch o) (idleTimeout o) (releaseGuard o) true
      (releaseGuardCanceled o)
  else o.
Definition WithActorReleaseGuardCanceled (hook : bool) (o : actorOptions) : actorOptions :=
  mkActorOptions (id o) (kind o) (wait o) (dispatch o) (idleTimeout o) (releaseGuard o)
    (releaseHook o) hook.

(** ** actor.go *)

Inductive astate := unstart | started | destroyed.
#[export] Instance astate_eq_dec : EqDecision astate.
Proof. solve_decision. Defined.

(** What is sent to fnChan: a function of the application, or a registration *)
Inductive fn :=
| FnCall (f : nat)
| FnDefault (h : nat)
| FnRoute (route : Z) (h : nat)
| FnEvent (event : Z) (h : nat).

(** make(chan T, 4096) *)
Record chan (A : Type) := mkChan { content : list A; closed : bool }.
Arguments mkChan {A}. Arguments content {A}. Arguments closed {A}.
Definition make_chan {A} : chan A := mkChan [] false.
Definition room {A} (c : chan A) : bool := Z.of_nat (length (content c)) <? 4096.

(** A context: a request or an event of the node *)
Record context := mkContext { c_ref : nat; c_event : bool; c_route : Z }.

Record Actor := mkActor {
  opts : actorOptions;
  state : astate;
  routes : gmap Z nat;
  events : gmap Z nat;
  defaultRouteHandler : option nat;
  processor : bool;
  mailbox : chan context;
  fnChan : chan fn;
  binds : gset Z;
  idleTimer : option nat;
  idleGeneration : Z;
  termination : bool
}.

Definition Kind (a : Actor) : string := kind (opts a).
Definition ID (a : Actor) : string := id (opts a).
Definition PID (a : Actor) : string := Kind a +:+ "/" +:+ ID a.

(** time.AfterFunc(t_delay, func() { a.releaseIdleGeneration(t_generation) }) *)
Record timer := mkTimer { t_actor : nat; t_generation : Z; t_delay : Z; t_armed : bool }.

(** What happened between the node and the application *)
Inductive entry :=
| EInit (a : nat) | EStart (a : nat) | EDestroy (a : nat)
| EGuard (a : nat) (ok : bool) | ECanceled (a : nat) | EHook (a : nat)
| EHandle (a : nat) (h : nat) (ctx : context) | ECall (a : nat) (f : nat)
| EActive (a : nat) | EIdle (a : nat) (generation : Z).

(** Where a goroutine stands.  [S*] is the end of spawn, [K*] is kill and killActor after the removal,
    [F*] finishDestroy and what follows it, [R*] releaseIdleGeneration, [B*]
    bindActor, [Q*] dispatchRequest and dispatchEvent, [DLoop] the dispatch
    loop of an actor. *)
Inductive answer := ASpawned (a : nat) | AExists (termination : bool) | ABool (b : bool) | AErr (e : error)
  | ANil.

Inductive pc :=
| SLoop (a : nat) | SStart (a : nat)
| KDestroy (a : nat) | KCancel (a : nat)
| FDestroy (a : nat) | FUnbind (a : nat) | FClose (a : nat) | FHook (a : nat) | FComplete (a : nat)
| FWait (a : nat) (r : bool)
| RCheck (a : nat) (generation : Z) | RGuard (a : nat) (generation : Z)
| RRetry (a : nat) (generation : Z) | RKill (a : nat) (generation : Z) | RCanceled (a : nat)
| BBind (uid : Z) (a : nat) | BRelate (uid : Z) (a : nat)
| QLoad (uid : Z) (kind : string) (ctx : context) | QNext (a : nat) (ctx : context)
| QEvent (pids : list string) (ctx : context)
| DLoop (a : nat)
| TDone (r : answer).

(** ** scheduler.go *)

(** What made a goroutine panic: a method of a nil processor, a channel that is
    closed, a negative count *)
Inductive cause := NilStart (a : nat) | NilDestroy (a : nat) | ClosedChan (a : nat) | NegativeCount.

Record Scheduler := mkScheduler {
  heap : gmap nat Actor;
  actors : gmap string nat;
  s_routes : gmap Z string;
  kinds : gset string;
  relations : gmap Z (gmap string nat);
  timers : gmap nat timer;
  threads : gmap nat pc;
  node : waits;
  log : list entry;
  panicked : option cause
}.

Definition newScheduler (n : waits) : Scheduler := mkScheduler ∅ ∅ ∅ ∅ ∅ ∅ ∅ n [] None.

(** *** Updates *)
Definition set_actor (a : nat) (x : Actor) (s : Scheduler) : Scheduler :=
  mkScheduler (<[a := x]> (heap s)) (actors s) (s_routes s) (kinds s) (relations s) (timers s)
    (threads s) (node s) (log s) (panicked s).
Definition set_actors (f : gmap string nat -> gmap string nat) (s : Scheduler) : Scheduler :=
  mkScheduler (heap s) (f (actors s)) (s_routes s) (kinds s) (relations s) (timers s) (threads s)
    (node s) (log s) (panicked s).
Definition set_routes (r : gmap Z string) (k : gset string) (s : Scheduler) : Scheduler :=
  mkScheduler (heap s) (actors s) r k (relations s) (timers s) (threads s) (node s) (log s)
    (panicked s).
Definition set_relations (r : gmap Z (gmap string nat)) (s : Scheduler) : Scheduler :=
  mkScheduler (heap s) (actors s) (s_routes s) (kinds s) r (timers s) (threads s) (node s) (log s)
    (panicked s).
Definition set_timers (f : gmap nat timer -> gmap nat timer) (s : Scheduler) : Scheduler :=
  mkScheduler (heap s) (actors s) (s_routes s) (kinds s) (relations s) (f (timers s)) (threads s)
    (node s) (log s) (panicked s).
Definition goto (t : nat) (p : pc) (s : Scheduler) : Scheduler :=
  mkScheduler (heap s) (actors s) (s_routes s) (kinds s) (relations s) (timers s)
    (<[t := p]> (threads s)) (node s) (log s) (panicked s).
Definition set_node (w : waits) (s : Scheduler) : Scheduler :=
  mkScheduler (heap s) (actors s) (s_routes s) (kinds s) (relations s) (timers s) (threads s) w
    (log s) (panicked s).
Definition note (e : entry) (s : Scheduler) : Scheduler :=
  mkScheduler (heap s) (actors s) (s_routes s) (kinds s) (relations s) (timers s) (threads s)
    (node s) (log s ++ [e]) (panicked s).
Definition panic (c : cause) (s : Scheduler) : Scheduler :=
  mkScheduler (heap s) (actors s) (s_routes s) (kinds s) (relations s) (timers s) (threads s)
    (node s) (log s) (Some c).

Definition with_state (st : astate) (x : Actor) : Actor :=
  mkActor (opts x) st (routes x) (events x) (defaultRouteHandler x) (processor x) (mailbox x)
    (fnChan x) (binds x) (idleTimer x) (idleGeneration x) (termination x).
Definition with_idle (tm : option nat) (g : Z) (x : Actor) : Actor :=
  mkActor (opts x) (state x) (routes x) (events x) (defaultRouteHandler x) (processor x) (mailbox x)
    (fnChan x) (binds x) tm g (termination x).
Definition with_binds (b : gset Z) (x : Actor) : Actor :=
  mkActor (opts x) (state x) (routes x) (events x) (defaultRouteHandler x) (processor x) (mailbox x)
    (fnChan x) b (idleTimer x) (idleGeneration x) (termination x).
Definition with_mailbox (c : list context) (x : Actor) : Actor :=
  mkActor (opts x) (state x) (routes x) (events x) (defaultRouteHandler x) (processor x)
    (mkChan c (closed (mailbox x))) (fnChan x) (binds x) (idleTimer x) (idleGeneration x)
    (termination x).
Definition with_fnChan (c : list fn) (x : Actor) : Actor :=
  mkActor (opts x) (state x) (routes x) (events x) (defaultRouteHandler x) (processor x) (mailbox x)
    (mkChan c (closed (fnChan x))) (binds x) (idleTimer x) (idleGeneration x) (termination x).
Definition with_handlers (r e : gmap Z nat) (d : option nat) (x : Actor) : Actor :=
  mkActor (opts x) (state x) r e d (processor x) (mailbox x) (fnChan x) (binds x) (idleTimer x)
    (idleGeneration x) (termination x).
Definition terminated (x : Actor) : Actor :=
  mkActor (opts x) (state x) (routes x) (events x) (defaultRouteHandler x) (processor x) (mailbox x)
    (fnChan x) (binds x) (idleTimer x) (idleGeneration x) true.

(** *** Operations *)

Definition on (a : nat) (f : Actor -> Scheduler -> Scheduler) (s : Scheduler) : option Scheduler :=
  match heap s !! a with Some x => Some (f x s) | None => None end.

(** s.load(kind, id) *)
Definition load (k i : string) (s : Scheduler) : option nat := actors s !! (k +:+ "/" +:+ i).

(** idleTimer.Stop() on a timer that may be nil *)
Definition stop (tm : option nat) (s : Scheduler) : Scheduler :=
  match tm with
  | None => s
  | Some i => set_timers (alter (fun x => mkTimer (t_actor x) (t_generation x) (t_delay x) false) i) s
  end.

Definition new_actor (o : actorOptions) (inits : list fn) : Actor :=
  mkActor o started ∅ ∅ None true make_chan (mkChan inits false) ∅ None 0 false.

(** spawnObserved up to the start of the actor's goroutine: inits are the registrations made by the
    creator and by Init, which find the actor started and queue them.  The
    routes registered for the kind are those in act.routes. *)
Definition spawnObserved (t a : nat) (o : actorOptions) (inits : list fn) (s : Scheduler)
    : option Scheduler :=
  if 4096 <? Z.of_nat (length inits) then None else
  let act := new_actor o inits in
  match load (Kind act) (ID act) s with
  | Some b =>
      match heap s !! b with
      | Some current => Some (goto t (TDone (AExists (termination current))) s)
      | None => None
      end
  | None =>
      let s := if wait o then set_node (Waits.addWait (node s)) s else s in
      let s := note (EInit a) s in
      let s :=
        if dispatch o && bool_decide (Kind act ∉ kinds s)
        then set_routes (map_fold (fun route _ r => <[route := Kind act]> r) (s_routes s) (routes act))
               ({[Kind act]} ∪ kinds s) s
        else s in
      Some (goto t (SLoop a) (set_actors <[PID act := a]> (set_actor a act s)))
  end.

(** act.processor.Start() *)
Definition spawn_start (t a : nat) (x : Actor) (s : Scheduler) : Scheduler :=
  if processor x then goto t (TDone (ASpawned a)) (note (EStart a) s) else panic (NilStart a) s.

(** removeActorLocked *)
Definition removeActorLocked (a : nat) (x : Actor) (s : Scheduler) : Scheduler :=
  set_relations
    ((fun r => if bool_decide (r !! Kind x = Some a) then delete (Kind x) r else r) <$> relations s)
    (set_actors (delete (PID x)) s).

(** kill up to destroy: remove(kind, id) *)
Definition kill (t : nat) (k i : string) (s : Scheduler) : option Scheduler :=
  match load k i s with
  | None => Some (goto t (TDone (ABool false)) s)
  | Some a => on a (fun x s => goto t (KDestroy a) (removeActorLocked a x s)) s
  end.

(** killActor up to destroy: removeActor(actor) *)
Definition killActor (t a : nat) (s : Scheduler) : option Scheduler :=
  on a (fun x s =>
    if bool_decide (load (Kind x) (ID x) s = Some a)
    then goto t (KDestroy a) (removeActorLocked a x s)
    else goto t (TDone (ABool false)) s) s.

(** destroy: the compare-and-swap *)
Definition destroy (t a : nat) (x : Actor) (s : Scheduler) : Scheduler :=
  if decide (state x = started)
  then goto t (KCancel a) (set_actor a (with_state destroyed x) s)
  else goto t (FWait a false) s.

Definition cancelIdleRelease (t a : nat) (x : Actor) (s : Scheduler) : Scheduler :=
  goto t (FDestroy a)
    (stop (idleTimer x) (set_actor a (with_idle None (u64 (idleGeneration x + 1)) x) s)).

(** *** finishDestroy, one step per access to shared memory *)

(** a.processor.Destroy() *)
Definition finish_destroy (t a : nat) (x : Actor) (s : Scheduler) : Scheduler :=
  if processor x then goto t (FUnbind a) (note (EDestroy a) s) else panic (NilDestroy a) s.

(** batchUnbindActor *)
Definition finish_unbind (t a : nat) (x : Actor) (s : Scheduler) : Scheduler :=
  goto t (FClose a)
    (set_relations
       (map_imap (fun uid r =>
          Some (if bool_decide (uid ∈ binds x) && bool_decide (r !! Kind x = Some a)
                then delete (Kind x) r else r)) (relations s)) s).

(** the region under a.rw; closing a channel twice panics *)
Definition finish_close (t a : nat) (x : Actor) (s : Scheduler) : Scheduler :=
  if closed (mailbox x) || closed (fnChan x) then panic (ClosedChan a) s else
  goto t (FHook a)
    (set_actor a
       (mkActor (opts x) (state x) ∅ ∅ None false (mkChan (content (mailbox x)) true)
          (mkChan (content (fnChan x)) true) (binds x) (idleTimer x) (idleGeneration x)
          (termination x)) s).

Definition finish_hook (t a : nat) (x : Actor) (s : Scheduler) : Scheduler :=
  goto t (FComplete a) (if releaseHook (opts x) then note (EHook a) s else s).

Definition finish_complete (t a : nat) (x : Actor) (s : Scheduler) : Scheduler :=
  goto t (FWait a true) (set_actor a (terminated x) s).

(** if actor.opts.wait { s.node.doneWait() } *)
Definition finish_wait (t : nat) (r : bool) (x : Actor) (s : Scheduler) : Scheduler :=
  if wait (opts x) then
    match Waits.doneWait (node s) with
    | Ok w => goto t (TDone (ABool r)) (set_node w s)
    | _ => panic NegativeCount s
    end
  else goto t (TDone (ABool r)) s.

(** *** Active, Idle and the release of idle actors *)

Definition Active (a : nat) (x : Actor) (s : Scheduler) : Scheduler :=
  if decide (state x = started) then
    note (EActive a)
      (stop (idleTimer x) (set_actor a (with_idle None (u64 (idleGeneration x + 1)) x) s))
  else s.

(** the timer gets the fresh name i *)
Definition scheduleIdleReleaseLocked (a i : nat) (g delay : Z) (x : Actor) (s : Scheduler) : Scheduler :=
  set_timers <[i := mkTimer a g delay true]> (set_actor a (with_idle (Some i) (idleGeneration x) x) s).

Definition Idle (a i : nat) (x : Actor) (s : Scheduler) : Scheduler :=
  if idleTimeout (opts x) <=? 0 then s else
  if decide (state x = started) then
    let g := u64 (idleGeneration x + 1) in
    note (EIdle a g)
      (scheduleIdleReleaseLocked a i g (idleTimeout (opts x)) (with_idle (idleTimer x) g x)
         (stop (idleTimer x) s))
  else s.

(** releaseIdleGeneration: the first region *)
Definition release_check (t a : nat) (g : Z) (x : Actor) (s : Scheduler) : Scheduler :=
  if negb (bool_decide (state x = started)) || negb (idleGeneration x =? g)
  then goto t (TDone ANil) s
  else goto t (if releaseGuard (opts x) then RGuard a g else RKill a g)
         (set_actor a (with_idle None (idleGeneration x) x) s).

(** releaseGuard(a) *)
Definition release_guard (t a : nat) (g : Z) (ok : bool) (s : Scheduler) : Scheduler :=
  goto t (if ok then RKill a g else RRetry a g) (note (EGuard a ok) s).

(** the guard denied: the same generation is tried again *)
Definition release_retry (t a i : nat) (g : Z) (x : Actor) (s : Scheduler) : Scheduler :=
  goto t (TDone ANil)
    (if bool_decide (state x = started) && (idleGeneration x =? g)
     then scheduleIdleReleaseLocked a i g (Z.min (idleTimeout (opts x)) 1000000000) x s
     else s).

(** killIdleActor up to finishDestroy; when it fails the guard's reservation is canceled *)
Definition killIdleActor (t a : nat) (g : Z) (x : Actor) (s : Scheduler) : Scheduler :=
  if bool_decide (load (Kind x) (ID x) s = Some a) && (idleGeneration x =? g)
     && bool_decide (state x = started)
  then goto t (FDestroy a)
         (removeActorLocked a x
            (stop (idleTimer x)
               (set_actor a (with_idle None (u64 (idleGeneration x + 1)) (with_state destroyed x)) s)))
  else goto t (if releaseGuard (opts x) && releaseGuardCanceled (opts x) then RCanceled a
               else TDone ANil) s.

(** *** Users and their actors *)

(** bindActor up to act.bindUser *)
Definition bindActor (t : nat) (uid : Z) (k i : string) (s : Scheduler) : Scheduler :=
  if uid =? 0 then goto t (TDone (AErr ErrIllegalOperation)) s else
  match load k i s with
  | None => goto t (TDone (AErr ErrNotFoundActor)) s
  | Some a => goto t (BBind uid a) s
  end.

Definition bindUser (t : nat) (uid : Z) (a : nat) (x : Actor) (s : Scheduler) : Scheduler :=
  goto t (BRelate uid a) (set_actor a (with_binds ({[uid]} ∪ binds x) x) s).

(** the region of bindActor *)
Definition relate (t : nat) (uid : Z) (a : nat) (x : Actor) (s : Scheduler) : Scheduler :=
  goto t (TDone ANil)
    (set_relations (<[uid := <[Kind x := a]> (default ∅ (relations s !! uid))]> (relations s)) s).

(** unbindActor; unbindUser is LoadAndDelete on the actor's users *)
Definition unbindActor (uid : Z) (k : string) (s : Scheduler) : option Scheduler :=
  match relations s !! uid with
  | None => Some s
  | Some r =>
      match r !! k with
      | None => Some s
      | Some a =>
          on a (fun x s =>
            if bool_decide (uid ∈ binds x)
            then set_relations (<[uid := delete k r]> (relations s))
                   (set_actor a (with_binds (binds x ∖ {[uid]}) x) s)
            else s) s
      end
  end.

Definition loadActor (uid : Z) (k : string) (s : Scheduler) : option nat :=
  relations s !! uid ≫= fun r => r !! k.

(** *** Contexts and functions given to an actor *)

(** Actor.Next: waits for room in the mailbox; a send on a closed channel panics.
    A sender that waits holds the read lock, so that its test of the state and its
    send are one step, taken when there is room. *)
Definition Next (ctx : context) (a : nat) (x : Actor) (s : Scheduler) : option Scheduler :=
  if decide (state x = started) then
    if closed (mailbox x) then Some (panic (ClosedChan a) s)
    else if room (mailbox x)
    then Some (set_actor a (with_mailbox (content (mailbox x) ++ [ctx]) x) s)
    else None
  else Some s.

(** TryInvoke and the registrations of a started actor *)
Definition TryInvoke (f : fn) (a : nat) (x : Actor) (s : Scheduler) : option Scheduler :=
  if decide (state x = started) then
    if closed (fnChan x) then Some (panic (ClosedChan a) s)
    else if room (fnChan x)
    then Some (set_actor a (with_fnChan (content (fnChan x) ++ [f]) x) s)
    else None
  else Some s.

(** dispatchRequest up to loadActor *)
Definition dispatchRequest (t : nat) (uid : Z) (ctx : context) (s : Scheduler) : Scheduler :=
  if uid =? 0 then goto t (TDone (AErr ErrMissingDispatchStrategy)) s else
  match s_routes s !! c_route ctx with
  | None => goto t (TDone (AErr ErrUnregisterRoute)) s
  | Some k => goto t (QLoad uid k ctx) s
  end.

Definition dispatch_load (t : nat) (uid : Z) (k : string) (ctx : context) (s : Scheduler) : Scheduler :=
  match loadActor uid k s with
  | None => goto t (TDone (AErr ErrNotBindActor)) s
  | Some a => goto t (QNext a ctx) s
  end.

(** dispatchEvent: the keys of the map, each loaded when its turn comes *)
Definition dispatchEvent (t : nat) (pids : list string) (ctx : context) (s : Scheduler)
    : option Scheduler :=
  match pids with
  | [] => Some (goto t (TDone ANil) s)
  | p :: pids' =>
      match actors s !! p with
      | None => Some (goto t (QEvent pids' ctx) s)
      | Some a =>
          match heap s !! a with
          | None => None
          | Some x => if dispatch (opts x) then goto t (QEvent pids' ctx) <$> Next ctx a x s
                      else Some (goto t (QEvent pids' ctx) s)
          end
      end
  end.

(** *** The dispatch loop of an actor *)

(** the handler a context is given to *)
Definition handler_of (ctx : context) (x : Actor) : option nat :=
  if c_event ctx then events x !! c_route ctx
  else match routes x !! c_route ctx with Some h => Some h | None => defaultRouteHandler x end.

Definition take_mail (t a : nat) (x : Actor) (s : Scheduler) : option Scheduler :=
  match content (mailbox x) with
  | ctx :: rest =>
      let s := set_actor a (with_mailbox rest x) s in
      Some (match handler_of ctx x with Some h => note (EHandle a h ctx) s | None => s end)
  | [] => if closed (mailbox x) then Some (goto t (TDone ANil) s) else None
  end.

Definition run_fn (a : nat) (f : fn) (x : Actor) (s : Scheduler) : Scheduler :=
  match f with
  | FnCall g => note (ECall a g) (set_actor a x s)
  | FnDefault h => set_actor a (with_handlers (routes x) (events x) (Some h) x) s
  | FnRoute r h =>
      let s := set_actor a (with_handlers (<[r := h]> (routes x)) (events x) (defaultRouteHandler x) x) s in
      if dispatch (opts x) then set_routes (<[r := Kind x]> (s_routes s)) (kinds s) s else s
  | FnEvent e h => set_actor a (with_handlers (routes x) (<[e := h]> (events x)) (defaultRouteHandler x) x) s
  end.

Definition take_fn (t a : nat) (x : Actor) (s : Scheduler) : option Scheduler :=
  match content (fnChan x) with
  | f :: rest => Some (run_fn a f (with_fnChan rest x) s)
  | [] => if closed (fnChan x) then Some (goto t (TDone ANil) s) else None
  end.

(** *** One step *)

Inductive action :=
| XSpawn (a : nat) (o : actorOptions) (inits : list fn)
| XKill (kind id : string) | XDestroy (a : nat)
| XActive (a : nat) | XIdle (a i : nat) | XFire (i : nat)
| XGuard (ok : bool) | XRetry (i : nat)
| XBind (uid : Z) (kind id : string) | XUnbind (uid : Z) (kind : string)
| XRequest (uid : Z) (ctx : context) | XEvent (pids : list string) (ctx : context)
| XNext (a : nat) (ctx : context) | XInvoke (a : nat) (f : fn)
| XMail | XFn
| XLoop (t : nat)
| XRun.

(** a goroutine that begins with one of the calls *)
Definition begin (t : nat) (x : action) (s : Scheduler) : option Scheduler :=
  match x with
  | XSpawn a o inits => if heap s !! a then None else spawnObserved t a o inits s
  | XKill k i => kill t k i s
  | XDestroy a => killActor t a s
  | XActive a => on a (Active a) s
  | XIdle a i => if timers s !! i then None else on a (Idle a i) s
  | XFire i =>
      match timers s !! i with
      | Some tm =>
          if t_armed tm
          then Some (goto t (RCheck (t_actor tm) (t_generation tm)) (stop (Some i) s))
          else None
      | None => None
      end
  | XBind uid k i => Some (bindActor t uid k i s)
  | XUnbind uid k => unbindActor uid k s
  | XRequest uid ctx => Some (dispatchRequest t uid ctx s)
  | XEvent pids ctx =>
      if bool_decide (Permutation pids (map_to_list (actors s)).*1)
      then Some (goto t (QEvent pids ctx) s) else None
  | XNext a ctx => match heap s !! a with Some x => Next ctx a x s | None => None end
  | XInvoke a f => match heap s !! a with Some x => TryInvoke f a x s | None => None end
  | _ => None
  end.

Definition continue (t : nat) (p : pc) (x : action) (s : Scheduler) : option Scheduler :=
  match p, x with
  | SLoop a, XLoop b =>
      (* go act.dispatch(): b is the name of the new goroutine *)
      if threads s !! b then None else Some (goto t (SStart a) (goto b (DLoop a) s))
  | SStart a, XRun => on a (spawn_start t a) s
  | KDestroy a, XRun => on a (destroy t a) s
  | KCancel a, XRun => on a (cancelIdleRelease t a) s
  | FDestroy a, XRun => on a (finish_destroy t a) s
  | FUnbind a, XRun => on a (finish_unbind t a) s
  | FClose a, XRun => on a (finish_close t a) s
  | FHook a, XRun => on a (finish_hook t a) s
  | FComplete a, XRun => on a (finish_complete t a) s
  | FWait a r, XRun => on a (finish_wait t r) s
  | RCheck a g, XRun => on a (release_check t a g) s
  | RGuard a g, XGuard ok => Some (release_guard t a g ok s)
  | RRetry a g, XRetry i => if timers s !! i then None else on a (release_retry t a i g) s
  | RKill a g, XRun => on a (killIdleActor t a g) s
  | RCanceled a, XRun => Some (goto t (TDone ANil) (note (ECanceled a) s))
  | BBind uid a, XRun => on a (bindUser t uid a) s
  | BRelate uid a, XRun => on a (relate t uid a) s
  | QLoad uid k ctx, XRun => Some (dispatch_load t uid k ctx s)
  | QNext a ctx, XRun =>
      match heap s !! a with
      | Some x => goto t (TDone ANil) <$> Next ctx a x s
      | None => None
      end
  | QEvent pids ctx, XRun => dispatchEvent t pids ctx s
  | DLoop a, XMail => match heap s !! a with Some x => take_mail t a x s | None => None end
  | DLoop a, XFn => match heap s !! a with Some x => take_fn t a x s | None => None end
  | _, _ => None
  end.

Definition exec (t : nat) (x : action) (s : Scheduler) : option Scheduler :=
  match panicked s with Some _ => None | None =>
  match threads s !! t with
  | None => begin t x s
  | Some p => continue t p x s
  end end.

(** Any interleaving, from an empty scheduler of a node *)
Inductive reachable (w : waits) : Scheduler -> Prop :=
| reach_new : reachable w (newScheduler w)
| reach_exec s t x s' : reachable w s -> exec t x s = Some s' -> reachable w s'.

(** A given schedule *)
Fixpoint run (xs : list (nat * action)) (s : Scheduler) : option Scheduler :=
  match xs with
  | [] => Some s
  | (t, x) :: xs' => match exec t x s with Some s' => run xs' s' | None => None end
  end.
