(* ===== verification/ActorOk.v ===== *)
(** The life of an actor under any interleaving: the scheduler knows started
    actors only, one goroutine at most ends an actor's life, and every step of
    that end is taken once. *)
From stdpp Require Import base numbers list gmap strings.
From Stdlib Require Import ZArith Lia.
From S2P Require Import Prelude Types Actor.

Open Scope Z_scope.

#[export] Instance context_eq_dec : EqDecision context.
Proof. solve_decision. Defined.
#[export] Instance entry_eq_dec : EqDecision entry.
Proof. solve_decision. Defined.

(** ** Roles *)

(** the actor the goroutine took out of the scheduler *)
Definition held (p : pc) : option nat :=
  match p with
  | KDestroy a | KCancel a | FDestroy a | FUnbind a | FClose a | FHook a | FComplete a | FWait a _ => Some a
  | _ => None
  end.

(** how far the goroutine has come with the end of the actor *)
Definition stage (p : pc) : option nat :=
  match p with
  | KCancel _ | FDestroy _ => Some 0%nat
  | FUnbind _ => Some 1%nat
  | FClose _ => Some 2%nat
  | FHook _ => Some 3%nat
  | FComplete _ => Some 4%nat
  | FWait _ _ => Some 5%nat
  | _ => None
  end.

(** actors the goroutine refers to *)
Definition mentions (p : pc) (a : nat) : Prop :=
  match p with
  | SLoop b | SStart b | KDestroy b | KCancel b | FDestroy b | FUnbind b | FClose b | FHook b
  | FComplete b | FWait b _ | RCheck b _ | RGuard b _ | RRetry b _ | RKill b _ | RCanceled b
  | BBind _ b | BRelate _ b | QNext b _ | DLoop b => b = a
  | QLoad _ _ _ | QEvent _ _ | TDone _ => False
  end.

Definition count (e : entry) (l : list entry) : nat := length (filter (fun x => x = e) l).

(** What has been done for an actor whose end has come to a stage *)
Record done_at (n : nat) (a : nat) (x : Actor) (l : list entry) : Prop := {
  done_destroy : count (EDestroy a) l = if decide (1 <= n)%nat then 1%nat else 0%nat;
  done_close : closed (mailbox x) = bool_decide (3 <= n)%nat;
  done_close_fn : closed (fnChan x) = bool_decide (3 <= n)%nat;
  done_processor : processor x = bool_decide (n < 3)%nat;
  done_hook : count (EHook a) l = if decide (4 <= n)%nat then (if releaseHook (opts x) then 1%nat else 0%nat) else 0%nat;
  done_complete : termination x = bool_decide (5 <= n)%nat
}.

Record inv (s : Scheduler) : Prop := {
  inv_reg pid a : actors s !! pid = Some a ->
    exists x, heap s !! a = Some x /\ PID x = pid /\ state x = started;
  inv_known t p a : threads s !! t = Some p -> mentions p a -> is_Some (heap s !! a);
  inv_timers i tm : timers s !! i = Some tm -> is_Some (heap s !! t_actor tm);
  inv_log a : heap s !! a = None -> count (EDestroy a) (log s) = 0%nat /\ count (EHook a) (log s) = 0%nat;
  inv_rel uid r k a : relations s !! uid = Some r -> r !! k = Some a -> is_Some (heap s !! a);
  inv_one t t' p p' a : threads s !! t = Some p -> threads s !! t' = Some p' ->
    held p = Some a -> held p' = Some a -> t = t';
  inv_unreg t p a x : threads s !! t = Some p -> held p = Some a -> heap s !! a = Some x ->
    actors s !! PID x <> Some a;
  inv_state t p a x : threads s !! t = Some p -> held p = Some a -> heap s !! a = Some x ->
    state x = match stage p with None => started | Some _ => destroyed end;
  inv_held a x : heap s !! a = Some x -> state x = started ->
    actors s !! PID x = Some a \/ exists t, threads s !! t = Some (KDestroy a);
  inv_started a x : heap s !! a = Some x -> state x <> destroyed ->
    state x = started /\ done_at 0 a x (log s);
  inv_ending t p a x n : threads s !! t = Some p -> held p = Some a -> stage p = Some n ->
    heap s !! a = Some x -> done_at n a x (log s);
  inv_ended a x : heap s !! a = Some x -> state x = destroyed ->
    (forall t p, threads s !! t = Some p -> held p <> Some a) -> done_at 5 a x (log s)
}.

Lemma inv_new w : inv (newScheduler w).
Proof. by split. Qed.

(** ** The step of a goroutine, case by case *)

Lemma on_Some a f s s' :
  on a f s = Some s' -> exists x, heap s !! a = Some x /\ Some (f x s) = Some s'.
Proof. unfold on. destruct (heap s !! a); [|done]. eauto. Qed.

Ltac split_match H :=
  repeat match type of H with
  | context [match ?x with _ => _ end] => destruct x eqn:?; try discriminate H
  end.

Ltac opened H :=
  unfold spawnObserved, spawn_start, kill, killActor, destroy, cancelIdleRelease, finish_destroy,
    finish_unbind, finish_close, finish_hook, finish_complete, finish_wait, Active, Idle,
    release_check, release_guard, release_retry, killIdleActor, bindActor, bindUser, relate,
    unbindActor, dispatchRequest, dispatch_load, dispatchEvent, take_mail, take_fn,
    run_fn, Next, TryInvoke in H.

Ltac steps H :=
  unfold exec, begin, continue in H; split_match H; opened H; split_match H;
  try (apply on_Some in H as (? & ? & H)); opened H; cbv beta zeta in H; split_match H;
  try discriminate H; cbn [fmap option_fmap option_map] in H; apply (inj Some) in H; subst.

Ltac bools :=
  repeat match goal with
  | E : _ && _ = true |- _ => apply andb_true_iff in E as [? ?]
  | E : _ || _ = false |- _ => apply orb_false_iff in E as [? ?]
  | E : negb _ = false |- _ => apply negb_false_iff in E
  | E : bool_decide _ = true |- _ => apply bool_decide_eq_true in E
  | E : (_ =? _) = true |- _ => apply Z.eqb_eq in E
  end.

(** Lookups after an update *)
Ltac look H :=
  repeat match type of H with
  | <[_ := _]> _ !! _ = Some _ => apply lookup_insert_Some in H as [[? ?]|[? H]]; subst
  end.

(** Stopping a timer changes nothing but the timer *)
Lemma stop_heap o s : heap (stop o s) = heap s.
Proof. by destruct o. Qed.
Lemma stop_actors o s : actors (stop o s) = actors s.
Proof. by destruct o. Qed.
Lemma stop_threads o s : threads (stop o s) = threads s.
Proof. by destruct o. Qed.
Lemma stop_log o s : log (stop o s) = log s.
Proof. by destruct o. Qed.
Lemma stop_relations o s : relations (stop o s) = relations s.
Proof. by destruct o. Qed.
Lemma stop_node o s : node (stop o s) = node s.
Proof. by destruct o. Qed.
Lemma stop_panicked o s : panicked (stop o s) = panicked s.
Proof. by destruct o. Qed.
#[export] Hint Rewrite stop_heap stop_actors stop_threads stop_log stop_relations stop_node stop_panicked : stop.

Ltac proj1 := cbn [heap actors s_routes kinds relations timers threads node log panicked set_actor
  set_actors set_routes set_relations set_timers goto set_node note panic removeActorLocked
  scheduleIdleReleaseLocked].
Ltac proj1_in H := cbn [heap actors s_routes kinds relations timers threads node log panicked set_actor
  set_actors set_routes set_relations set_timers goto set_node note panic removeActorLocked
  scheduleIdleReleaseLocked] in H.
Ltac proj := proj1; autorewrite with stop; proj1; autorewrite with stop; proj1.
Ltac proj_in H := proj1_in H; autorewrite with stop in H; proj1_in H; autorewrite with stop in H; proj1_in H.

(** Actors are never forgotten; they keep their options, and death. *)
Lemma exec_heap t x s s' a y :
  exec t x s = Some s' -> heap s !! a = Some y ->
  exists y', heap s' !! a = Some y' /\ opts y' = opts y /\ (state y = destroyed -> state y' = destroyed).
Proof.
  intros H Hy. steps H; proj; eauto.
  all: match goal with |- exists _, <[?d := _]> _ !! _ = _ /\ _ => destruct (decide (d = a)) as [->|] end.
  all: rewrite ?lookup_insert_eq, ?lookup_insert_ne by done; simplify_eq/=; eauto.
Qed.

(** A step moves one goroutine, and may start one that runs an actor. *)
Lemma exec_threads t x s s' t' p :
  exec t x s = Some s' -> threads s' !! t' = Some p ->
  t' = t \/ threads s !! t' = Some p \/ (exists a, p = DLoop a /\ threads s !! t = Some (SLoop a)).
Proof.
  intros H Ht. steps H; proj_in Ht; eauto.
  all: look Ht; eauto.
Qed.

Lemma actor_exec_known t x s s' t' p a :
  inv s -> exec t x s = Some s' -> threads s' !! t' = Some p -> mentions p a ->
  is_Some (heap s' !! a).
Proof.
  intros Hi H Ht Hm. pose proof (inv_known s Hi) as Hk. pose proof (inv_reg s Hi) as Hr.
  pose proof (inv_timers s Hi) as Htm. pose proof (inv_rel s Hi) as Hrel.
  assert (is_Some (heap s !! a) -> is_Some (heap s' !! a)) as Hup.
  { intros [y Hy]. destruct (exec_heap t x s s' a y H Hy) as (y' & ? & _). eauto. }
  steps H; proj_in Ht; proj_in Hup; proj.
  all: look Ht; simpl in Hm; subst; try done.
  all: try (by rewrite lookup_insert_eq; eauto).
  all: try (by eapply Hup, Hk; [eassumption|]).
  all: try (by edestruct Hr as (? & ? & _); [eassumption|]; eauto).
  all: try (by eapply Htm).
  unfold loadActor in *. destruct (relations s !! uid) eqn:E; [|done]. eauto.
Qed.

Lemma alter_Some {A} (f : A -> A) (m : gmap nat A) i j y :
  alter f i m !! j = Some y -> exists y', m !! j = Some y' /\ (y = y' \/ (i = j /\ y = f y')).
Proof. intros [[? (y' & ? & ?)]|[? ?]]%lookup_alter_Some; eauto. Qed.

(** Timers: new ones are those of Idle and of a retry, the others may be stopped *)
Lemma exec_timer t x s s' i tm :
  exec t x s = Some s' -> timers s' !! i = Some tm ->
  (exists tm', timers s !! i = Some tm' /\ t_actor tm = t_actor tm' /\ t_generation tm = t_generation tm') \/
  (is_Some (heap s !! t_actor tm)).
Proof.
  intros H Ht. steps H; eauto.
  all: unfold removeActorLocked, scheduleIdleReleaseLocked, stop, set_timers in Ht; simpl in Ht; eauto.
  all: repeat case_match; simpl in Ht; eauto; look Ht; simpl; eauto.
  all: try (apply alter_Some in Ht as (tm' & ? & [->|[? ->]]); simpl; by eauto 6).
Qed.

Lemma exec_timers t x s s' i tm :
  inv s -> exec t x s = Some s' -> timers s' !! i = Some tm -> is_Some (heap s' !! t_actor tm).
Proof.
  intros Hi H Ht. assert (is_Some (heap s !! t_actor tm)) as [y Hy].
  { destruct (exec_timer t x s s' i tm H Ht) as [(tm' & Ht' & -> & _)|?]; [|done]. by eapply inv_timers. }
  destruct (exec_heap t x s s' _ y H Hy) as (y' & ? & _). eauto.
Qed.

(** A user is related to an actor by bindActor only. *)
Definition related (s : Scheduler) (uid : Z) (k : string) (a : nat) : Prop :=
  exists r, relations s !! uid = Some r /\ r !! k = Some a.

Lemma removed_relation a kx (rs : gmap Z (gmap string nat)) uid r k b :
  ((fun r => if bool_decide (r !! kx = Some a) then delete kx r else r) <$> rs) !! uid = Some r ->
  r !! k = Some b -> exists r0, rs !! uid = Some r0 /\ r0 !! k = Some b /\ ~ (k = kx /\ b = a).
Proof.
  rewrite lookup_fmap. destruct (rs !! uid) as [r0|]; [|done]. simpl. intros [= <-] Hk. exists r0.
  split; [done|]. case_bool_decide as Ha.
  - apply lookup_delete_Some in Hk as [? ?]. naive_solver.
  - naive_solver.
Qed.

Lemma unbound_relation a kx (bs : gset Z) (rs : gmap Z (gmap string nat)) uid r k b :
  map_imap (fun uid r => Some (if bool_decide (uid ∈ bs) && bool_decide (r !! kx = Some a)
                               then delete kx r else r)) rs !! uid = Some r ->
  r !! k = Some b -> exists r0, rs !! uid = Some r0 /\ r0 !! k = Some b.
Proof.
  rewrite map_lookup_imap. destruct (rs !! uid) as [r0|] eqn:E; [|done]. simpl. intros [= <-] Hk.
  exists r0. split; [done|]. destruct (_ && _); [|done]. by apply lookup_delete_Some in Hk as [_ ?].
Qed.

Lemma exec_related t x s s' uid k a :
  exec t x s = Some s' -> related s' uid k a ->
  related s uid k a \/
  (exists y, threads s !! t = Some (BRelate uid a) /\ heap s !! a = Some y /\ k = Kind y).
Proof.
  intros H (r & Hr & Hk). steps H; proj_in Hr; try (left; by exists r).
  all: try (apply (removed_relation _ _ _ _ _ _ _ Hr) in Hk as (r0 & ? & ? & _); left; by exists r0).
  all: try (apply (unbound_relation _ _ _ _ _ _ _ _ Hr) in Hk as (r0 & ? & ?); left; by exists r0).
  all: look Hr; try (left; by exists r).
  - destruct (relations s !! uid) as [r0|] eqn:E; simpl in Hk;
      apply lookup_insert_Some in Hk as [[<- <-]|[? Hk]]; eauto; [|done]. left. by exists r0.
  - left. eexists. split; [done|]. by apply lookup_delete_Some in Hk as [_ ?].
Qed.

Lemma exec_rel t x s s' uid r k a :
  inv s -> exec t x s = Some s' -> relations s' !! uid = Some r -> r !! k = Some a ->
  is_Some (heap s' !! a).
Proof.
  intros Hi H Hr Hk. assert (is_Some (heap s !! a)) as [y Hy].
  { destruct (exec_related t x s s' uid k a H) as [(r0 & ? & ?)|(y & _ & ? & _)]; [by exists r| |eauto].
    by eapply inv_rel. }
  destruct (exec_heap t x s s' a y H Hy) as (y' & ? & _). eauto.
Qed.

(** ** What the scheduler knows *)

Lemma exec_reg t x s s' pid a :
  inv s -> exec t x s = Some s' -> actors s' !! pid = Some a ->
  exists y, heap s' !! a = Some y /\ PID y = pid /\ state y = started.
Proof.
  intros Hi H Hp. pose proof (inv_reg s Hi) as Hr. pose proof (inv_unreg s Hi) as Hu.
  steps H; proj_in Hp; proj; eauto.
  all: try (apply lookup_delete_Some in Hp as [? Hp]); eauto.
  all: try (apply lookup_insert_Some in Hp as [[<- <-]|[? Hp]];
            [rewrite lookup_insert_eq; by eauto|]).
  all: destruct (Hr _ _ Hp) as (y & Hy & HP & Hs).
  all: match goal with |- exists _, <[?d := _]> _ !! _ = _ /\ _ => destruct (decide (d = a)) as [->|Hne] end.
  all: rewrite ?lookup_insert_eq, ?lookup_insert_ne by done; simplify_eq; eauto.
  exfalso. by eapply Hu.
Qed.

(** The goroutine that moved took the actor out, or had done so before. *)
Lemma exec_held t x s s' t' p a :
  inv s -> exec t x s = Some s' -> threads s' !! t' = Some p -> held p = Some a ->
  (exists p', threads s !! t' = Some p' /\ held p' = Some a) \/
  (t' = t /\ exists y, heap s !! a = Some y /\ actors s !! PID y = Some a /\ actors s' !! PID y = None).
Proof.
  intros Hi H Ht Hh. pose proof (inv_reg s Hi) as Hr.
  steps H; proj_in Ht; proj; eauto; look Ht; eauto; simpl in Hh; simplify_eq; eauto.
  all: bools; right; split; [done|].
  - exists x0. rewrite lookup_delete_eq. done.
  - destruct (Hr _ _ Heqo1) as (x1 & Hy & HP & _). exists x0.
    assert (x1 = x0) as -> by congruence. rewrite lookup_delete_eq, HP. done.
  - exists x0. rewrite lookup_delete_eq. done.
Qed.

(** What the scheduler no longer knows it does not get back. *)
Lemma exec_unreg_stays t x s s' a y :
  exec t x s = Some s' -> heap s !! a = Some y -> actors s !! PID y <> Some a ->
  actors s' !! PID y <> Some a.
Proof.
  intros H Hy Hn. steps H; proj; try done.
  all: try (intros [? Hx]%lookup_delete_Some; done).
  all: intros [[? ->]|[? Hx]]%lookup_insert_Some; congruence.
Qed.

Lemma exec_opts t x s s' a y y' :
  exec t x s = Some s' -> heap s !! a = Some y -> heap s' !! a = Some y' -> opts y' = opts y.
Proof. intros H Hy Hy'. destruct (exec_heap t x s s' a y H Hy) as (z & ? & ? & _). congruence. Qed.

Lemma exec_one t x s s' t1 t2 p1 p2 a :
  inv s -> exec t x s = Some s' -> threads s' !! t1 = Some p1 -> threads s' !! t2 = Some p2 ->
  held p1 = Some a -> held p2 = Some a -> t1 = t2.
Proof.
  intros Hi H H1 H2 Hh1 Hh2.
  destruct (exec_held _ _ _ _ _ _ _ Hi H H1 Hh1) as [(q1 & ? & ?)|(-> & y & Hy & Hr & _)],
           (exec_held _ _ _ _ _ _ _ Hi H H2 Hh2) as [(q2 & ? & ?)|(-> & z & Hz & Hr' & _)];
    try done; [by eapply inv_one|..]; exfalso; simplify_eq; by eapply (inv_unreg s).
Qed.

Lemma PID_opts x y : opts x = opts y -> PID x = PID y.
Proof. unfold PID, Kind, ID. by intros ->. Qed.

Lemma exec_unreg t x s s' t' p a y :
  inv s -> exec t x s = Some s' -> threads s' !! t' = Some p -> held p = Some a ->
  heap s' !! a = Some y -> actors s' !! PID y <> Some a.
Proof.
  intros Hi H Ht Hh Hy.
  destruct (exec_held _ _ _ _ _ _ _ Hi H Ht Hh) as [(q & Hq & Hhq)|(-> & z & Hz & _ & Hn)].
  - destruct (inv_known s Hi t' q a Hq) as [z Hz]; [by destruct q; simplify_eq/=|].
    rewrite (PID_opts y z) by (by eapply exec_opts).
    eapply exec_unreg_stays; [done|done|]. by eapply inv_unreg.
  - rewrite (PID_opts y z) by (by eapply exec_opts). by rewrite Hn.
Qed.

(** An actor dies by the goroutine that holds it, or idle while it is known. *)
Lemma exec_dies t x s s' a y y' :
  exec t x s = Some s' -> heap s !! a = Some y -> heap s' !! a = Some y' ->
  state y' = state y \/
  (state y = started /\ state y' = destroyed /\
   ((threads s !! t = Some (KDestroy a) /\ threads s' !! t = Some (KCancel a)) \/
    (actors s !! PID y = Some a /\ threads s' !! t = Some (FDestroy a)))).
Proof.
  intros H Hy Hy'. steps H; proj_in Hy'; proj; simplify_eq; auto.
  all: look Hy'; simplify_eq; auto; right; bools; rewrite ?lookup_insert_eq; auto.
Qed.

(** New actors are known at once. *)
Lemma exec_born t x s s' a y :
  exec t x s = Some s' -> heap s !! a = None -> heap s' !! a = Some y ->
  (exists o inits, y = new_actor o inits) /\ actors s' !! PID y = Some a.
Proof.
  intros H Hn Hy. steps H; proj_in Hy; proj; simplify_eq.
  all: look Hy; simplify_eq; rewrite lookup_insert_eq; eauto.
Qed.

Lemma exec_state t x s s' t' p a y :
  inv s -> exec t x s = Some s' -> threads s' !! t' = Some p -> held p = Some a ->
  heap s' !! a = Some y -> state y = match stage p with None => started | Some _ => destroyed end.
Proof.
  intros Hi H Ht Hh Hy.
  destruct (heap s !! a) as [y0|] eqn:Hy0.
  2: { destruct (exec_born _ _ _ _ _ _ H Hy0 Hy) as [_ Hr]. by destruct (exec_unreg _ _ _ _ _ _ _ _ Hi H Ht Hh Hy). }
  pose proof (exec_dies _ _ _ _ _ _ _ H Hy0 Hy) as Hd.
  destruct (decide (t' = t)) as [->|Hne].
  - pose proof (inv_state s Hi) as Hs. pose proof (inv_reg s Hi) as Hr. clear Hi.
    steps H; proj_in Ht; proj_in Hy; proj_in Hd; look Ht; look Hy; simplify_eq/=; try done.
    all: try (match goal with E : threads _ !! ?t = Some ?p |- _ =>
                pose proof (Hs t p _ _ E eq_refl ltac:(eassumption)) as Hx; simpl in Hx; congruence end).
    all: bools; edestruct Hr as (? & ? & _ & ?); [eassumption|]; congruence.
  - destruct (exec_held _ _ _ _ _ _ _ Hi H Ht Hh) as [(q & Hq & Hhq)|(-> & _)]; [|done].
    destruct (exec_threads _ _ _ _ _ _ H Ht) as [?|[Hq'|(b & -> & _)]]; [done| |done]. clear q Hq Hhq.
    rewrite <- (inv_state s Hi t' p a y0 Hq' Hh Hy0).
    destruct Hd as [?|(? & ? & [[Hk _]|[Hk _]])]; [done|..]; exfalso.
    + by pose proof (inv_one s Hi t' t p _ a Hq' Hk Hh eq_refl).
    + by eapply (inv_unreg s Hi).
Qed.

Lemma actor_exec_other t x s s' t' p :
  exec t x s = Some s' -> t' <> t -> threads s !! t' = Some p -> threads s' !! t' = Some p.
Proof.
  intros H Hne Ht. steps H; proj; rewrite ?lookup_insert_ne by congruence; done.
Qed.

(** Out of the scheduler, into the hands of a goroutine *)
Lemma exec_leaves t x s s' a y :
  inv s -> exec t x s = Some s' -> heap s !! a = Some y -> actors s !! PID y = Some a ->
  actors s' !! PID y = Some a \/ threads s' !! t = Some (KDestroy a) \/ threads s' !! t = Some (FDestroy a).
Proof.
  intros Hi H Hy Hr. pose proof (inv_reg s Hi) as Hreg. clear Hi. steps H; proj; eauto; bools.
  all: match goal with
       | |- delete ?p _ !! ?q = _ \/ _ => destruct (decide (p = q)) as [E|]
       | |- <[?p := _]> _ !! ?q = _ \/ _ => destruct (decide (p = q)) as [E|]
       end; rewrite ?lookup_delete_ne, ?lookup_insert_ne by done; eauto.
  all: rewrite ?lookup_insert_eq.
  all: try (exfalso; unfold load, PID in *; congruence).
  - assert (a0 = a) as -> by (unfold load, PID in *; congruence). auto.
  - destruct (Hreg _ _ Heqo1) as (x1 & ? & HP & _). unfold load in Heqo1.
    assert (n = a) as -> by congruence. auto.
  - assert (a0 = a) as -> by (unfold load, PID in *; congruence). auto.
Qed.

Lemma exec_held_by t x s s' a y :
  inv s -> exec t x s = Some s' -> heap s' !! a = Some y -> state y = started ->
  actors s' !! PID y = Some a \/ exists t', threads s' !! t' = Some (KDestroy a).
Proof.
  intros Hi H Hy Hst. destruct (heap s !! a) as [y0|] eqn:Hy0.
  2: { left. by apply (exec_born _ _ _ _ _ _ H Hy0 Hy). }
  assert (state y0 = started) as Hst0.
  { destruct (exec_dies _ _ _ _ _ _ _ H Hy0 Hy) as [?|(? & _)]; congruence. }
  rewrite (PID_opts y y0) by (by eapply exec_opts).
  destruct (inv_held s Hi a y0 Hy0 Hst0) as [Hr|[t0 Ht0]].
  - destruct (exec_leaves _ _ _ _ _ _ Hi H Hy0 Hr) as [?|[?|Ht]]; eauto.
    pose proof (exec_state _ _ _ _ _ _ _ _ Hi H Ht eq_refl Hy). simplify_eq/=. congruence.
  - destruct (decide (t0 = t)) as [->|Hne].
    + clear Hi. steps H; proj_in Hy; look Hy; simplify_eq/=; congruence.
    + right. exists t0. by eapply actor_exec_other.
Qed.

(** ** How far the end of an actor has come *)

Lemma count_app e l k : count e (l ++ k) = (count e l + count e k)%nat.
Proof. unfold count. by rewrite filter_app, length_app. Qed.

Lemma done_same n a x y l k :
  done_at n a x l -> opts y = opts x -> closed (mailbox y) = closed (mailbox x) ->
  closed (fnChan y) = closed (fnChan x) -> processor y = processor x -> termination y = termination x ->
  count (EDestroy a) k = 0%nat -> count (EHook a) k = 0%nat -> done_at n a y (l ++ k).
Proof.
  intros [H1 H2 H3 H4 H5 H6] Ho Em Ef Ep Et E1 E2.
  split; rewrite ?count_app, ?Ho, ?E1, ?E2, ?Nat.add_0_r; congruence.
Qed.

(** What a step adds to the log and does to the channels and the processor of
    an actor, by the stage of the goroutine *)
Definition same (a : nat) (y y' : Actor) (k : list entry) : Prop :=
  closed (mailbox y') = closed (mailbox y) /\ closed (fnChan y') = closed (fnChan y) /\
  processor y' = processor y /\ termination y' = termination y /\
  count (EDestroy a) k = 0%nat /\ count (EHook a) k = 0%nat.

Lemma count_one e e' : count e [e'] = if decide (e' = e) then 1%nat else 0%nat.
Proof. unfold count. rewrite filter_cons. by case_decide. Qed.

Lemma exec_progress t x s s' a y y' :
  exec t x s = Some s' -> heap s !! a = Some y -> heap s' !! a = Some y' ->
  exists k, log s' = log s ++ k /\
  (same a y y' k \/
   exists p n, threads s !! t = Some p /\ held p = Some a /\ stage p = Some n).
Proof.
  intros H Hy Hy'. steps H; proj_in Hy'; proj.
  all: try (eexists; split; [reflexivity || (symmetry; apply app_nil_r)|left]; look Hy'; simplify_eq; by repeat split).
  all: eexists; (split; [reflexivity || (symmetry; apply app_nil_r)|]).
  all: match goal with H : heap _ !! ?b = Some _ |- _ => destruct (decide (b = a)) as [->|Hne] end.
  all: try (right; do 2 eexists; done).
  all: left; try (rewrite lookup_insert_ne in Hy' by done); simplify_eq; repeat split.
  all: rewrite count_one, decide_False; congruence.
Qed.

(** The goroutine that ends an actor's life, one stage further *)
Lemma exec_next_stage t x s s' p p' a n n' y y' :
  exec t x s = Some s' -> threads s !! t = Some p -> threads s' !! t = Some p' ->
  held p = Some a -> held p' = Some a -> stage p = Some n -> stage p' = Some n' ->
  heap s !! a = Some y -> heap s' !! a = Some y' -> done_at n a y (log s) -> done_at n' a y' (log s').
Proof.
  intros H Hp Hp' Hh Hh' Hn Hn' Hy Hy' Hd.
  steps H; proj_in Hp'; proj_in Hy'; proj; look Hp'; look Hy'; simplify_eq/=; try done.
  all: destruct Hd as [H1 H2 H3 H4 H5 H6]; split; simpl in *; rewrite ?count_app, ?count_one; try done.
  all: try (rewrite decide_True by done; lia).
  all: try (rewrite decide_False by done; lia).
  all: repeat case_match; try done; try congruence; lia.
Qed.

(** A goroutine begins to end an actor that is started and untouched. *)
Lemma exec_first_stage t x s s' p' a n' y y' :
  inv s -> exec t x s = Some s' -> threads s' !! t = Some p' -> held p' = Some a -> stage p' = Some n' ->
  (forall p, threads s !! t = Some p -> held p = Some a -> stage p = None) ->
  heap s !! a = Some y -> heap s' !! a = Some y' -> done_at n' a y' (log s').
Proof.
  intros Hi H Hp' Hh' Hn' Hno Hy Hy'. pose proof (inv_started s Hi a y Hy) as Hs.
  pose proof (fun p => inv_state s Hi t p a y) as Hst. clear Hi.
  steps H; proj_in Hp'; proj_in Hy'; proj; look Hp'; look Hy'; simplify_eq/=; try done.
  all: try (by specialize (Hno _ eq_refl eq_refl)).
  all: bools; try (by specialize (Hst _ eq_refl eq_refl ltac:(eassumption))).
  all: destruct Hs as [_ [D1 D2 D3 D4 D5 D6]]; [congruence|]; by split.
Qed.

Lemma stage_held p n : stage p = Some n -> exists a, held p = Some a.
Proof. destruct p; simpl; eauto; done. Qed.

Lemma exec_ending t x s s' t' p a y n :
  inv s -> exec t x s = Some s' -> threads s' !! t' = Some p -> held p = Some a -> stage p = Some n ->
  heap s' !! a = Some y -> done_at n a y (log s').
Proof.
  intros Hi H Ht Hh Hn Hy.
  destruct (heap s !! a) as [y0|] eqn:Hy0.
  2: { destruct (exec_born _ _ _ _ _ _ H Hy0 Hy) as [_ Hr]. by destruct (exec_unreg _ _ _ _ _ _ _ _ Hi H Ht Hh Hy). }
  destruct (decide (t' = t)) as [->|Hne].
  - destruct (threads s !! t) as [q|] eqn:Hq.
    2: { eapply exec_first_stage; eauto. by rewrite Hq. }
    destruct (decide (held q = Some a)) as [Hhq|]; [|eapply exec_first_stage; eauto; by rewrite Hq; naive_solver].
    destruct (stage q) as [m|] eqn:Hm; [|eapply exec_first_stage; eauto; by rewrite Hq; naive_solver].
    eapply (exec_next_stage t x s s' q p a m n y0 y); eauto. by eapply inv_ending.
  - destruct (exec_threads _ _ _ _ _ _ H Ht) as [?|[Hq|(b & -> & _)]]; [done| |done].
    destruct (exec_progress _ _ _ _ _ _ _ H Hy0 Hy) as (k & -> & [Hs|(q & m & Hq' & Hhq & _)]).
    + destruct Hs as (? & ? & ? & ? & ? & ?). eapply done_same; [by eapply inv_ending| |done..].
      by eapply exec_opts.
    + by pose proof (inv_one s Hi t' t p q a Hq Hq' Hh Hhq).
Qed.

Lemma exec_log t x s s' a :
  inv s -> exec t x s = Some s' -> heap s !! a = None ->
  count (EDestroy a) (log s') = 0%nat /\ count (EHook a) (log s') = 0%nat.
Proof.
  intros Hi H Hn. destruct (inv_log s Hi a Hn) as [H1 H2]. clear Hi.
  steps H; proj; rewrite ?count_app, ?count_one, ?H1, ?H2; try done.
  all: split; repeat case_decide; try done; congruence.
Qed.

Lemma exec_started t x s s' a y :
  inv s -> exec t x s = Some s' -> heap s' !! a = Some y -> state y <> destroyed ->
  state y = started /\ done_at 0 a y (log s').
Proof.
  intros Hi H Hy Hst. destruct (heap s !! a) as [y0|] eqn:Hy0.
  - assert (state y = state y0) as Es.
    { destruct (exec_dies _ _ _ _ _ _ _ H Hy0 Hy) as [?|(_ & ? & _)]; congruence. }
    destruct (inv_started s Hi a y0 Hy0 ltac:(congruence)) as [Hst0 Hd]. split; [congruence|].
    destruct (exec_progress _ _ _ _ _ _ _ H Hy0 Hy) as (k & -> & [Hs|(q & m & Hq' & Hhq & Hm)]).
    + destruct Hs as (? & ? & ? & ? & ? & ?). eapply done_same; [done| |done..]. by eapply exec_opts.
    + pose proof (inv_state s Hi t q a y0 Hq' Hhq Hy0) as E. rewrite Hm in E. congruence.
  - destruct (exec_born _ _ _ _ _ _ H Hy0 Hy) as [(o & inits & ->) _]. split; [done|].
    destruct (exec_log t x s s' a Hi H Hy0). by split.
Qed.

Lemma exec_ended t x s s' a y :
  inv s -> exec t x s = Some s' -> heap s' !! a = Some y -> state y = destroyed ->
  (forall t p, threads s' !! t = Some p -> held p <> Some a) -> done_at 5 a y (log s').
Proof.
  intros Hi H Hy Hst Hno. destruct (heap s !! a) as [y0|] eqn:Hy0.
  2: { by destruct (exec_born _ _ _ _ _ _ H Hy0 Hy) as [(o & inits & ->) _]. }
  destruct (exec_dies _ _ _ _ _ _ _ H Hy0 Hy) as [Es|(_ & _ & [[_ Hk]|[_ Hk]])];
    [|by destruct (Hno _ _ Hk)|by destruct (Hno _ _ Hk)].
  destruct (exec_progress _ _ _ _ _ _ _ H Hy0 Hy) as (k & Hl & Hp).
  assert ((forall t p, threads s !! t = Some p -> held p <> Some a) \/
          (exists p n, threads s !! t = Some p /\ held p = Some a /\ stage p = Some n)) as Hdec.
  { destruct (threads s !! t) as [q|] eqn:Hq.
    2: { left. intros t' p Ht' Hh. assert (t' <> t) by congruence.
         eapply Hno; [by eapply actor_exec_other|done]. }
    destruct (decide (held q = Some a)) as [Hh|Hn].
    - pose proof (inv_state s Hi t q a y0 Hq Hh Hy0) as E.
      destruct (stage q) as [n|] eqn:En; [right; by exists q, n|congruence].
    - left. intros t' p Ht' Hh. assert (t' <> t) by congruence. eapply Hno; [by eapply actor_exec_other|done]. }
  destruct Hdec as [Hno'|(p & n & Ht & Hh & Hn)].
  - rewrite Hl. destruct Hp as [(? & ? & ? & ? & ? & ?)|(p & n & Ht & Hh & _)]; [|by destruct (Hno' _ _ Ht)].
    eapply done_same; [eapply inv_ended; eauto; congruence| |done..]. by eapply exec_opts.
  - pose proof (inv_ending s Hi t p a y0 n Ht Hh Hn Hy0) as Hd. clear Hp Hl Hi.
    specialize (Hno t). steps H; proj_in Hno; proj_in Hy; rewrite ?lookup_insert_eq in Hno;
      simplify_eq/=; try done; try (by destruct (Hno _ eq_refl)); by destruct (Hno _ Heqo0).
Qed.

Lemma exec_inv t x s s' : inv s -> exec t x s = Some s' -> inv s'.
Proof.
  intros Hi H. split.
  - eauto using exec_reg.
  - eauto using actor_exec_known.
  - eauto using exec_timers.
  - intros a Hn. apply (exec_log t x s s' a Hi H). destruct (heap s !! a) as [y|] eqn:Hy; [|done].
    destruct (exec_heap t x s s' a y H Hy) as (? & ? & _). congruence.
  - eauto using exec_rel.
  - eauto using exec_one.
  - eauto using exec_unreg.
  - eauto using exec_state.
  - eauto using exec_held_by.
  - eauto using exec_started.
  - eauto using exec_ending.
  - eauto using exec_ended.
Qed.

Lemma actor_reachable_inv w s : reachable w s -> inv s.
Proof. induction 1; [apply inv_new|]. eauto using exec_inv. Qed.

(** ** The count of actors the node waits for *)

Definition alive (s : Scheduler) (a : nat) (x : Actor) : Prop :=
  actors s !! PID x = Some a \/ exists t p, threads s !! t = Some p /\ held p = Some a.

(** the actors to wait for, and how many they are *)
Definition counted (s : Scheduler) : Prop :=
  exists X : gset nat,
    (forall a, a ∈ X <-> exists x, heap s !! a = Some x /\ wait (opts x) = true /\ alive s a x) /\
    Waits.wg (node s) = Z.of_nat (size X).

(** Every step but three leaves the living alive and adds nobody. *)
Lemma exec_alive t x s s' a y y' :
  inv s -> exec t x s = Some s' -> heap s !! a = Some y -> heap s' !! a = Some y' ->
  alive s' a y' ->  alive s a y.
Proof.
  intros Hi H Hy Hy' [Hr|(t' & p & Ht & Hh)].
  - left. rewrite (PID_opts y' y) in Hr by (by eapply exec_opts).
    destruct (decide (actors s !! PID y = Some a)) as [|Hn]; [done|].
    by destruct (exec_unreg_stays t x s s' a y H Hy Hn).
  - destruct (exec_held _ _ _ _ _ _ _ Hi H Ht Hh) as [(q & ? & ?)|(-> & z & Hz & Hr & _)].
    + right. eauto.
    + left. congruence.
Qed.

(** An actor lives until the goroutine that holds it has said that it is done. *)
Lemma exec_stays_alive t x s s' a y y' :
  inv s -> exec t x s = Some s' -> heap s !! a = Some y -> heap s' !! a = Some y' -> alive s a y ->
  alive s' a y' \/ (exists r, threads s !! t = Some (FWait a r) /\ forall p, threads s' !! t = Some p -> held p = None).
Proof.
  intros Hi H Hy Hy' Ha. pose proof (exec_opts _ _ _ _ _ _ _ H Hy Hy') as Ho. unfold alive.
  rewrite (PID_opts y' y) by done.
  destruct Ha as [Hr|(t' & p & Ht & Hh)].
  - left. destruct (exec_leaves _ _ _ _ _ _ Hi H Hy Hr) as [?|[?|?]]; eauto.
  - destruct (decide (t' = t)) as [->|Hne]; [|left; right; exists t', p; by eauto using actor_exec_other].
    assert (forall q, threads s' !! t = Some q -> held q = Some a \/
              (held q = None /\ exists r, p = FWait a r)) as Hstep.
    { clear Hi Hy Hy'. intros q Hq. steps H; proj_in Hq; look Hq; simplify_eq/=; eauto. }
    assert (is_Some (threads s' !! t)) as [q Hq].
    { clear -H Ht. steps H; proj; rewrite ?lookup_insert_eq; eauto; congruence. }
    destruct (Hstep q Hq) as [?|[? [r ->]]]; [left; right; eauto|].
    right. exists r. split; [done|]. intros q' Hq'. congruence.
Qed.

(** What a step does to the count *)
Lemma exec_node t x s s' :
  exec t x s = Some s' ->
  (node s' = node s /\
   (forall a y, heap s !! a = None -> heap s' !! a = Some y -> wait (opts y) = false) /\
   (forall a r y, threads s !! t = Some (FWait a r) -> heap s !! a = Some y ->
      wait (opts y) = false \/ threads s' !! t = Some (FWait a r))) \/
  (exists a y, heap s !! a = None /\ heap s' = <[a := y]> (heap s) /\ wait (opts y) = true /\
     node s' = Waits.addWait (node s) /\ threads s !! t = None) \/
  (exists a r y, threads s !! t = Some (FWait a r) /\ heap s' = heap s /\ heap s !! a = Some y /\
     wait (opts y) = true /\ Waits.doneWait (node s) = Ok (node s') /\
     threads s' !! t = Some (TDone (ABool r))).
Proof.
  intros H. steps H; proj.
  all: try (left; split; [done|]; split;
            [intros b z Hb Hz; proj_in Hz; look Hz; simplify_eq; done
            |intros b r' z Hb Hz; simplify_eq; rewrite ?lookup_insert_eq; by auto]).
  - right; right. exists a, r, x0. by rewrite lookup_insert_eq.
  - right; left. by exists a, (new_actor o inits).
  - right; left. by exists a, (new_actor o inits).
Qed.

(** Who is alive after a step *)
Lemma exec_alive_iff t x s s' a y y' :
  inv s -> exec t x s = Some s' -> heap s !! a = Some y -> heap s' !! a = Some y' ->
  (forall r p, threads s !! t = Some (FWait a r) -> threads s' !! t = Some p -> held p <> None) ->
  alive s' a y' <-> alive s a y.
Proof.
  intros Hi H Hy Hy' Hno. split; [by eapply exec_alive|]. intros Ha.
  destruct (exec_stays_alive _ _ _ _ _ _ _ Hi H Hy Hy' Ha) as [?|(r & Ht & Hp)]; [done|].
  exfalso. assert (is_Some (threads s' !! t)) as [q Hq].
  { clear -H Ht. steps H; proj; rewrite ?lookup_insert_eq; eauto; congruence. }
  by eapply (Hno r q Ht Hq), Hp.
Qed.

Lemma exec_counted t x s s' :
  inv s -> Waits.state (node s) <> Cluster.Shut -> exec t x s = Some s' -> counted s ->
  counted s' /\ Waits.state (node s') = Waits.state (node s).
Proof.
  intros Hi Hw H (X & HX & Hn). pose proof (exec_inv t x s s' Hi H) as Hi'.
  assert (forall a, heap s !! a = None -> a ∉ X) as Hfresh.
  { intros a Ha (y & ? & _)%HX. congruence. }
  destruct (exec_node t x s s' H) as
    [(En & Hb & Hf)|[(a & y & Ha & Eh & Hy & En & Ht)|(a & r & y & Ht & Eh & Hy & Hwy & En & Ht')]].
  - split; [|by rewrite En]. exists X. rewrite En. split; [|done]. intros a. rewrite HX. split.
    + intros (y & Hy & Hwy & Hl). destruct (exec_heap t x s s' a y H Hy) as (y' & Hy' & Ho & _).
      exists y'. split; [done|]. rewrite Ho. split; [done|]. apply (exec_alive_iff t x s s' a y y'); try done.
      intros r p Ht Hp Hh. destruct (Hf a r y Ht Hy) as [?|?]; [congruence|]. simplify_eq.
    + intros (y' & Hy' & Hwy & Hl). destruct (heap s !! a) as [y|] eqn:Hy.
      * exists y. rewrite <- (exec_opts _ _ _ _ _ _ _ H Hy Hy'). split_and!; [done|done|].
        by eapply exec_alive.
      * rewrite (Hb a y' Hy Hy') in Hwy. done.
  - assert (Waits.addWait (node s) = Waits.mkWaits (Waits.state (node s)) (Waits.wg (node s) + 1)
              (i64 (Waits.pendingWork (node s) + 1))) as Ea.
    { unfold Waits.addWait. by rewrite (proj2 (Z.eqb_neq _ _) Hw). }
    rewrite En, Ea. split; [|done]. exists ({[a]} ∪ X). split.
    2: { rewrite En, Ea. simpl. rewrite size_union by (pose proof (Hfresh a Ha); set_solver).
         rewrite size_singleton. lia. }
    intros b. rewrite elem_of_union, elem_of_singleton, HX. split.
    + intros [->|(z & Hz & Hwz & Hl)].
      * exists y. rewrite Eh, lookup_insert_eq. split_and!; [done|done|]. left.
        apply (exec_born t x s s' a y H Ha). by rewrite Eh, lookup_insert_eq.
      * destruct (exec_heap t x s s' b z H Hz) as (z' & Hz' & Ho & _). exists z'. rewrite Ho.
        split_and!; [done|done|]. apply (exec_alive_iff t x s s' b z z'); try done. congruence.
    + intros (z' & Hz' & Hwz & Hl). destruct (decide (b = a)) as [->|Hne]; [by left|]. right.
      rewrite Eh, lookup_insert_ne in Hz' by done. exists z'. split_and!; [done|done|].
      eapply exec_alive; [done|done|done|by rewrite Eh, lookup_insert_ne|done].
  - assert (a ∈ X) as HaX.
    { apply HX. exists y. split_and!; [done|done|]. right. by exists t, (FWait a r). }
    assert (0 < Z.of_nat (size X)) as Hpos.
    { destruct (decide (size X = 0)%nat) as [E|]; [|lia]. apply size_empty_inv in E. set_solver. }
    assert (node s' = Waits.mkWaits (Waits.state (node s)) (Waits.wg (node s) - 1)
              (i64 (Waits.pendingWork (node s) - 1))) as Ea.
    { unfold Waits.doneWait in En. rewrite (proj2 (Z.eqb_neq _ _) Hw) in En. simpl in En.
      destruct (Z.leb_spec (Waits.wg (node s)) 0); [done|]. by simplify_eq. }
    rewrite Ea. split; [|done]. exists (X ∖ {[a]}). split.
    2: { rewrite Ea. simpl. rewrite size_difference by set_solver. rewrite size_singleton. lia. }
    intros b. rewrite elem_of_difference, not_elem_of_singleton, HX. split.
    + intros [(z & Hz & Hwz & Hl) Hne]. exists z. rewrite Eh. split_and!; [done|done|].
      apply (exec_alive_iff t x s s' b z z); try done; [by rewrite Eh|]. congruence.
    + intros (z & Hz & Hwz & Hl). rewrite Eh in Hz. split.
      { exists z. split_and!; [done|done|]. eapply exec_alive; [done|done|done|by rewrite Eh|done]. }
      intros ->. destruct Hl as [Hr|(t' & p & Hp & Hh)].
      * eapply (exec_unreg_stays t x s s' a z); [done|done| |done]. by eapply inv_unreg.
      * destruct (exec_held _ _ _ _ _ _ _ Hi H Hp Hh) as [(q & Hq & Hhq)|(-> & _)]; [|by simplify_eq/=].
        pose proof (inv_one s Hi t' t q _ a Hq Ht Hhq eq_refl) as ->. by simplify_eq/=.
Qed.

Lemma reachable_counted w s :
  Waits.state w <> Cluster.Shut -> Waits.wg w = 0 -> reachable w s ->
  counted s /\ Waits.state (node s) = Waits.state w.
Proof.
  intros Hw H0 Hr. induction Hr as [|s t x s' Hr [IH IHs] H].
  - split; [|done]. exists ∅. split; [|done]. intros a. rewrite elem_of_empty. split; [done|].
    by intros (x & ? & _).
  - destruct (exec_counted t x s s') as [? ?]; [by eapply actor_reachable_inv|congruence|done|done|].
    split; congruence.
Qed.

(** A goroutine panics only when it starts a processor that is gone. *)
Lemma actor_exec_quiet t x s s' c :
  inv s -> counted s -> exec t x s = Some s' -> panicked s' = Some c -> exists a, c = NilStart a.
Proof.
  intros Hi (X & HX & Hn) H Hp. pose proof (inv_started s Hi) as Hs. pose proof (inv_ending s Hi) as He.
  assert (forall a r x, threads s !! t = Some (FWait a r) -> heap s !! a = Some x ->
            wait (opts x) = true -> 0 < Waits.wg (node s)) as Hpos.
  { intros a r y Ht Hy Hwy. assert (a ∈ X) as Ha.
    { apply HX. exists y. split_and!; [done|done|]. right. by exists t, (FWait a r). }
    destruct (decide (size X = 0)%nat) as [E|]; [|lia]. apply size_empty_inv in E. set_solver. }
  steps H; proj_in Hp; simplify_eq; eauto; exfalso.
  all: try (match goal with E : heap _ !! ?b = Some ?x, St : state ?x = started |- _ =>
              destruct (Hs b x E ltac:(congruence)) as [_ [_ D2 D3 _ _ _]]; simpl in *; congruence end).
  - destruct (He _ _ _ _ _ Heqo0 eq_refl eq_refl H0) as [_ _ _ D4 _ _]. simpl in D4. congruence.
  - destruct (He _ _ _ _ _ Heqo0 eq_refl eq_refl H0) as [_ D2 D3 _ _ _]. simpl in D2, D3.
    by rewrite D2, D3 in Heqb.
  - unfold Waits.doneWait in Heqr0. by repeat case_match.
  - specialize (Hpos _ _ _ eq_refl H0 Heqb). unfold Waits.doneWait in Heqr0.
    destruct (negb _); [|done]. destruct (Z.leb_spec (Waits.wg (node s)) 0); [lia|done].
Qed.

(** ** The release of idle actors: the generation says which call of Idle a timer
    and the goroutine it starts belong to, so only the last call of Idle, not
    followed by Active, ends an actor; and that call is never forgotten. *)
(** Active and Idle of an actor, in the order of the log *)
Definition marks (a : nat) (e : entry) : bool :=
  match e with EActive b | EIdle b _ => bool_decide (b = a) | _ => false end.
Definition history (a : nat) (l : list entry) : list entry := filter (fun e => marks a e) l.
Definition generation_of (a : nat) (l : list entry) : Z := Z.of_nat (length (history a l)).
Definition last_mark (a : nat) (l : list entry) : option entry := last (history a l).

(** the goroutine runs releaseIdleGeneration(generation) of the actor *)
Definition releasing (p : pc) : option (nat * Z) :=
  match p with
  | RCheck a g | RGuard a g | RRetry a g | RKill a g => Some (a, g)
  | _ => None
  end.

(** Somebody will ask whether the generation is still idle. *)
Definition pending (s : Scheduler) (a : nat) (x : Actor) : Prop :=
  (exists i tm, idleTimer x = Some i /\ timers s !! i = Some tm /\ t_actor tm = a /\
     t_generation tm = idleGeneration x /\ t_armed tm = true) \/
  (exists t p, threads s !! t = Some p /\ releasing p = Some (a, idleGeneration x)) \/
  (exists t, threads s !! t = Some (KDestroy a)).

Record idle_inv (s : Scheduler) : Prop := {
  idle_gen a x : heap s !! a = Some x -> state x = started ->
    idleGeneration x = u64 (generation_of a (log s));
  idle_none a : heap s !! a = None -> history a (log s) = [];
  idle_numbers l1 a g l2 : log s = l1 ++ EIdle a g :: l2 -> g = u64 (generation_of a l1 + 1);
  idle_timers i tm : timers s !! i = Some tm -> EIdle (t_actor tm) (t_generation tm) ∈ log s;
  idle_threads t p a g : threads s !! t = Some p -> releasing p = Some (a, g) -> EIdle a g ∈ log s;
  idle_own a x i : heap s !! a = Some x -> idleTimer x = Some i ->
    exists tm, timers s !! i = Some tm /\ t_actor tm = a;
  idle_pending a x g : heap s !! a = Some x -> state x = started ->
    last_mark a (log s) = Some (EIdle a g) -> pending s a x
}.

Lemma idle_new w : idle_inv (newScheduler w).
Proof.
  split; simpl; try done.
  intros l1 a g l2 E. by destruct l1.
Qed.

Lemma history_app a l k : history a (l ++ k) = history a l ++ history a k.
Proof. apply filter_app. Qed.

Lemma history_one a e : history a [e] = if marks a e then [e] else [].
Proof. unfold history. rewrite filter_cons. simpl. by destruct (marks a e). Qed.

Lemma generation_snoc a l e :
  generation_of a (l ++ [e]) = generation_of a l + (if marks a e then 1 else 0).
Proof.
  unfold generation_of. rewrite history_app, history_one, length_app. destruct (marks a e); simpl; lia.
Qed.

Lemma last_mark_snoc a l e :
  last_mark a (l ++ [e]) = if marks a e then Some e else last_mark a l.
Proof.
  unfold last_mark. rewrite history_app, history_one. destruct (marks a e).
  - by rewrite last_snoc.
  - by rewrite app_nil_r.
Qed.

Lemma u64_next z : u64 (u64 z + 1) = u64 (z + 1).
Proof. unfold wrapU. by rewrite Zplus_mod_idemp_l. Qed.

Lemma u64_moves z : u64 (z + 1) <> z.
Proof.
  intros E. assert (0 <= z < 2 ^ 64) as Hz.
  { rewrite <- E. unfold wrapU. apply Z.mod_pos_bound. lia. }
  unfold wrapU in E. destruct (decide (z = 2 ^ 64 - 1)) as [->|].
  - by vm_compute in E.
  - rewrite Z.mod_small in E by lia. lia.
Qed.

(** What a step adds to the log *)
Lemma exec_logs t x s s' :
  exec t x s = Some s' ->
  log s' = log s \/ exists e, log s' = log s ++ [e] /\
    (forall a, marks a e = true ->
       exists y, heap s !! a = Some y /\ state y = started /\
         (e = EActive a \/ e = EIdle a (u64 (idleGeneration y + 1)))).
Proof.
  intros H. steps H; proj; eauto.
  all: right; eexists; split; [reflexivity|]; intros b Hb; simpl in Hb; bools; subst; try done; eauto 6.
Qed.

(** the generation of an actor that stays started is that of its history *)
Lemma exec_idle_gen t x s s' a y :
  inv s -> idle_inv s -> exec t x s = Some s' -> heap s' !! a = Some y -> state y = started ->
  idleGeneration y = u64 (generation_of a (log s')).
Proof.
  intros Hi Hd H Hy Hst. pose proof (idle_gen s Hd a) as Hg. pose proof (idle_none s Hd a) as Hn.
  assert (forall l e, marks a e = false -> generation_of a (l ++ [e]) = generation_of a l) as Hskip.
  { intros l e E. rewrite generation_snoc, E. lia. }
  pose proof (inv_state s Hi) as Hs.
  clear Hi Hd. steps H; proj_in Hy; proj; look Hy; simplify_eq/=; eauto.
  all: rewrite ?Hskip by (simpl; rewrite ?bool_decide_eq_false_2 by done; done); eauto.
  - specialize (Hs _ _ _ _ Heqo0 eq_refl H0). simplify_eq/=. congruence.
  - unfold generation_of. by rewrite Hn.
  - unfold generation_of. by rewrite Hn.
  - unfold generation_of. by rewrite Hn.
  - unfold generation_of. by rewrite Hn.
  - rewrite generation_snoc. simpl. rewrite bool_decide_eq_true_2 by done.
    rewrite (Hg x0 H0 Hst), u64_next. done.
  - rewrite generation_snoc. simpl. rewrite bool_decide_eq_true_2 by done.
    rewrite (Hg x0 H0 Hst), u64_next. done.
Qed.

Lemma exec_idle_none t x s s' a :
  idle_inv s -> exec t x s = Some s' -> heap s' !! a = None -> history a (log s') = [].
Proof.
  intros Hd H Hn. assert (heap s !! a = None) as Hn0.
  { destruct (heap s !! a) as [y|] eqn:Hy; [|done].
    destruct (exec_heap t x s s' a y H Hy) as (? & ? & _). congruence. }
  destruct (exec_logs t x s s' H) as [->|(e & -> & He)]; [by apply idle_none|].
  rewrite history_app, history_one, (idle_none s Hd a Hn0). simpl.
  destruct (marks a e) eqn:E; [|done]. destruct (He a E) as (? & ? & _). congruence.
Qed.

Lemma exec_idle_numbers t x s s' l1 a g l2 :
  idle_inv s -> exec t x s = Some s' -> log s' = l1 ++ EIdle a g :: l2 ->
  g = u64 (generation_of a l1 + 1).
Proof.
  intros Hd H El. destruct (exec_logs t x s s' H) as [E|(e & E & He)].
  - eapply idle_numbers; [done|]. by rewrite <- E, El.
  - destruct l2 as [|e' l2 _] using rev_ind.
    + rewrite El in E. apply app_inj_tail in E as [-> <-]. simpl in He. specialize (He a).
      rewrite bool_decide_eq_true_2 in He by done. destruct (He eq_refl) as (y & Hy & Hst & [?|[= ->]]); [done|].
      by rewrite (idle_gen s Hd a y Hy Hst), u64_next.
    + rewrite El, app_comm_cons, app_assoc in E. apply app_inj_tail in E as [E _].
      by eapply idle_numbers.
Qed.

Lemma exec_logged t x s s' e : exec t x s = Some s' -> e ∈ log s -> e ∈ log s'.
Proof. intros H He. destruct (exec_logs t x s s' H) as [->|(e' & -> & _)]; set_solver. Qed.

(** A new timer is that of a call of Idle, or of the goroutine that retries it. *)
Lemma exec_idle_timers t x s s' i tm :
  idle_inv s -> exec t x s = Some s' -> timers s' !! i = Some tm ->
  EIdle (t_actor tm) (t_generation tm) ∈ log s'.
Proof.
  intros Hd H Ht. pose proof (fun e => exec_logged t x s s' e H) as Hl.
  pose proof (idle_timers s Hd i) as Hi. pose proof (idle_threads s Hd t) as Hth. clear Hd.
  steps H; proj_in Hl; proj.
  all: unfold removeActorLocked, scheduleIdleReleaseLocked, stop, set_timers in Ht; simpl in Ht; eauto.
  all: repeat case_match; simpl in Ht; eauto; look Ht; simpl; eauto.
  all: try (apply alter_Some in Ht as (tm' & ? & [->|[? ->]]); simpl; by eauto).
  all: set_solver.
Qed.

Lemma exec_idle_threads t x s s' t' p a g :
  idle_inv s -> exec t x s = Some s' -> threads s' !! t' = Some p -> releasing p = Some (a, g) ->
  EIdle a g ∈ log s'.
Proof.
  intros Hd H Ht Hp. pose proof (fun e => exec_logged t x s s' e H) as Hl. apply Hl.
  pose proof (idle_timers s Hd) as Hi. pose proof (idle_threads s Hd) as Hth. clear Hd Hl.
  steps H; proj_in Ht; look Ht; simpl in Hp; simplify_eq; eauto.
  all: try (by eapply Hth; [eassumption|]).
Qed.

(** Whose timer an actor's timer is *)
Lemma exec_idle_own t x s s' a y i :
  idle_inv s -> exec t x s = Some s' -> heap s' !! a = Some y -> idleTimer y = Some i ->
  exists tm, timers s' !! i = Some tm /\ t_actor tm = a.
Proof.
  intros Hd H Hy Hi. pose proof (idle_own s Hd) as Ho. clear Hd.
  assert (forall (m : gmap nat timer) f j, (exists tm, m !! i = Some tm /\ t_actor tm = a) ->
            (forall tm, t_actor (f tm) = t_actor tm) ->
            exists tm, alter f j m !! i = Some tm /\ t_actor tm = a) as Halter.
  { intros m f j (tm & Hm & Ha) Hf. destruct (decide (j = i)) as [->|Hne].
    - exists (f tm). by rewrite lookup_alter_eq, Hm, Hf.
    - exists tm. by rewrite lookup_alter_ne. }
  steps H; proj_in Hy; look Hy; simplify_eq/=; eauto.
  all: unfold removeActorLocked, scheduleIdleReleaseLocked, stop, set_timers; simpl; eauto.
  all: repeat case_match; simpl; eauto.
  all: try (rewrite lookup_insert_eq; by eauto).
  all: destruct (Ho _ _ _ Hy Hi) as (tm & Htm & Ha); rewrite lookup_insert_ne by congruence; eauto.
Qed.

(** The goroutine of a pending release moves. *)
Lemma pending_thread t x s s' a y y' p :
  inv s -> exec t x s = Some s' -> heap s !! a = Some y -> heap s' !! a = Some y' -> state y' = started ->
  last_mark a (log s') = last_mark a (log s) -> idleGeneration y' = idleGeneration y ->
  threads s !! t = Some p -> releasing p = Some (a, idleGeneration y) -> pending s' a y'.
Proof.
  intros Hi H Hy Hy' Hst Hl Hg Ht Hp. pose proof (inv_held s Hi a y Hy) as Hheld. clear Hi Hl.
  unfold pending. steps H; proj_in Hy'; proj; look Hy'; simplify_eq/=; eauto.
  all: try (right; left; exists t; eexists; rewrite lookup_insert_eq; by eauto).
  all: try (left; exists i; eexists; rewrite lookup_insert_eq; by eauto).
  all: rewrite ?Z.eqb_refl, ?(bool_decide_eq_true_2 (_ = started)) in Heqb by done; try done.
  all: rewrite !andb_true_r in Heqb; apply bool_decide_eq_false in Heqb.
  all: destruct (Hheld Hst) as [Hr|[t0 Ht0]]; [done|].
  all: right; right; exists t0; rewrite lookup_insert_ne by congruence; done.
Qed.

(** The timer of a pending release fires, or stays. *)
Lemma pending_timer t x s s' a y y' i tm :
  idle_inv s -> exec t x s = Some s' -> heap s !! a = Some y -> heap s' !! a = Some y' -> state y' = started ->
  idleGeneration y' = idleGeneration y ->
  idleTimer y = Some i -> timers s !! i = Some tm -> t_actor tm = a -> t_generation tm = idleGeneration y ->
  t_armed tm = true -> last_mark a (log s') = last_mark a (log s) -> pending s' a y'.
Proof.
  intros Hd H Hy Hy' Hst Hg Hi Htm Ha Htg Harm Hl. pose proof (idle_own s Hd) as Ho. clear Hd.
  assert (forall o s0, timers s0 = timers s -> o <> Some i -> timers (stop o s0) !! i = Some tm) as Hkeep.
  { intros [j|] s0 E Hne; simpl; rewrite E; [|done]. rewrite lookup_alter_ne by congruence. done. }
  assert (forall b z, heap s !! b = Some z -> b <> t_actor tm -> idleTimer z <> Some i) as Hown.
  { intros b z Hb Hne E. destruct (Ho b z i Hb E) as (tm' & ? & ?). congruence. }
  unfold pending. steps H; proj_in Hy'; proj; look Hy'; simplify_eq/=; eauto 10; bools; subst.
  all: try (by destruct (u64_moves _ Hg)).
  all: try (right; left; exists t; eexists; rewrite lookup_insert_eq; by eauto).
  all: try (left; eexists; eexists; split; [reflexivity|]; rewrite lookup_insert_eq; by eauto).
  all: try (left; exists i, tm; rewrite ?Hkeep by (try done; by eapply Hown); by eauto).
  all: try (left; exists i, tm; rewrite ?lookup_insert_ne by congruence;
            rewrite ?Hkeep by (try done; by eapply Hown); by eauto).
  destruct (decide (i0 = i)) as [->|Hne].
  - simplify_eq. right; left. exists t. eexists. rewrite lookup_insert_eq. split; [done|]. simpl. congruence.
  - left. exists i, tm. rewrite lookup_alter_ne by done. eauto.
Qed.

Lemma exec_idle_pending t x s s' a y g :
  inv s -> idle_inv s -> exec t x s = Some s' -> heap s' !! a = Some y -> state y = started ->
  last_mark a (log s') = Some (EIdle a g) -> pending s' a y.
Proof.
  intros Hi Hd H Hy Hst Hl.
  assert (idleGeneration y = u64 (generation_of a (log s'))) as Hg' by (by eapply exec_idle_gen).
  destruct (heap s !! a) as [y0|] eqn:Hy0.
  2: { exfalso. destruct (exec_logs t x s s' H) as [E|(e & E & He)]; rewrite E in Hl.
       - unfold last_mark in Hl. by rewrite (idle_none s Hd a Hy0) in Hl.
       - rewrite last_mark_snoc in Hl. destruct (marks a e) eqn:Em.
         + destruct (He a Em) as (? & ? & _). congruence.
         + unfold last_mark in Hl. by rewrite (idle_none s Hd a Hy0) in Hl. }
  assert (state y0 = started) as Hst0.
  { destruct (exec_dies _ _ _ _ _ _ _ H Hy0 Hy) as [?|(? & _)]; congruence. }
  assert ((exists e, log s' = log s ++ [e] /\ marks a e = true) \/
          (history a (log s') = history a (log s))) as [(e & El & Em)|El].
  { destruct (exec_logs t x s s' H) as [->|(e & E & _)]; [by right|].
    destruct (marks a e) eqn:Em; [by left; exists e|]. right.
    rewrite E, history_app, history_one, Em. apply app_nil_r. }
  - (* the step was Idle *)
    rewrite El, last_mark_snoc, Em in Hl. injection Hl as ->. clear Hg' Hi Hd Em. left.
    steps H; proj_in Hy; proj_in El; proj; try (apply (f_equal length) in El; rewrite length_app in El; simpl in El; lia).
    all: apply app_inj_tail in El as [_ [= <- <-]] || (by apply app_inj_tail in El as [_ ?]).
    all: look Hy; [|done].
    all: simpl; do 2 eexists; (split; [reflexivity|]); rewrite lookup_insert_eq; eauto.
  - assert (idleGeneration y = idleGeneration y0) as Eg.
    { rewrite Hg', (idle_gen s Hd a y0 Hy0 Hst0). unfold generation_of. by rewrite El. }
    assert (last_mark a (log s') = last_mark a (log s)) as El' by (unfold last_mark; by rewrite El).
    rewrite El' in Hl.
    destruct (idle_pending s Hd a y0 g Hy0 Hst0 Hl) as [(i & tm & ? & ? & ? & ? & ?)|[(t0 & p & Ht0 & Hp)|(t0 & Ht0)]].
    + by eapply pending_timer.
    + destruct (decide (t0 = t)) as [->|Hne]; [by eapply pending_thread|].
      right; left. exists t0, p. rewrite Eg. eauto using actor_exec_other.
    + destruct (decide (t0 = t)) as [->|Hne]; [|right; right; eauto using actor_exec_other].
      exfalso. clear Hi Hd. steps H; proj_in Hy; look Hy; simplify_eq/=; congruence.
Qed.

Lemma exec_idle_inv t x s s' : inv s -> idle_inv s -> exec t x s = Some s' -> idle_inv s'.
Proof.
  intros Hi Hd H. split.
  - eauto using exec_idle_gen.
  - eauto using exec_idle_none.
  - eauto using exec_idle_numbers.
  - eauto using exec_idle_timers.
  - eauto using exec_idle_threads.
  - eauto using exec_idle_own.
  - eauto using exec_idle_pending.
Qed.

Lemma reachable_idle w s : reachable w s -> idle_inv s.
Proof.
  induction 1; [apply idle_new|]. eapply exec_idle_inv; [by eapply actor_reachable_inv|done|done].
Qed.
