(* ===== verification/ActorClaims.v ===== *)
(** What a node can rely on about its actors, under any interleaving. *)
From stdpp Require Import base numbers list gmap strings.
From Stdlib Require Import ZArith Lia.
From S2P Require Import Prelude Types Actor ActorOk.

Open Scope Z_scope.

(** A node at work that waits for nothing yet *)
Definition working (w : Waits.waits) : Prop := Waits.state w <> Cluster.Shut /\ Waits.wg w = 0.

Lemma reachable_quiet w s c :
  working w -> reachable w s -> panicked s = Some c -> exists a, c = NilStart a.
Proof.
  intros [Hw H0] Hr Hp. destruct Hr as [|s t x s' Hr H]; [done|].
  eapply actor_exec_quiet; [by eapply actor_reachable_inv| |done|done]. by eapply reachable_counted.
Qed.

(** The goroutine that ends an actor, when there is one *)
Lemma ender_dec s a :
  (exists t p, threads s !! t = Some p /\ held p = Some a) \/
  (forall t p, threads s !! t = Some p -> held p <> Some a).
Proof.
  destruct (decide (map_Exists (fun _ p => held p = Some a) (threads s))) as [(t & p & ? & ?)|Hn].
  - left. eauto.
  - right. intros t p Ht Hh. apply Hn. by exists t, p.
Qed.

Lemma ends_by_stages s a x :
  inv s -> heap s !! a = Some x ->
  exists n, done_at n a x (log s) /\ (n <> 0%nat -> state x = destroyed).
Proof.
  intros Hi Hx. destruct (decide (state x = destroyed)) as [Hd|Hn].
  - destruct (ender_dec s a) as [(t & p & Ht & Hh)|Hno].
    + pose proof (inv_state s Hi t p a x Ht Hh Hx) as Es. destruct (stage p) as [n|] eqn:En; [|congruence].
      exists n. split; [by eapply inv_ending|done].
    + exists 5%nat. split; [by eapply inv_ended|done].
  - exists 0%nat. split; [by apply (inv_started s Hi a x)|done].
Qed.


(** The node waits for its actors.  The counter Close waits on is the number
    of actors to wait for that have not ended; when it is zero every one of
    them has completed its termination. *)
Theorem node_waits_for_actors w s :
  working w -> reachable w s ->
  (exists X : gset nat,
     (forall a, a ∈ X <-> exists x, heap s !! a = Some x /\ wait (opts x) = true /\ alive s a x) /\
     Waits.wg (node s) = Z.of_nat (size X)) /\
  (Waits.wg (node s) = 0 ->
   forall a x, heap s !! a = Some x -> wait (opts x) = true -> termination x = true).
Proof.
  intros [Hw H0] Hr. pose proof (actor_reachable_inv w s Hr) as Hi.
  destruct (reachable_counted w s Hw H0 Hr) as [(X & HX & Hn) _]. split; [by exists X|].
  intros Hz a x Hx Hwx. assert (size X = 0%nat) as Hs by lia. apply size_empty_inv in Hs.
  assert (~ alive s a x) as Hdead.
  { intros Ha. assert (a ∈ X) by (apply HX; eauto). set_solver. }
  assert (state x = destroyed) as Hd.
  { destruct (decide (state x = destroyed)) as [|Hne]; [done|]. destruct (inv_started s Hi a x Hx Hne) as [Hst _].
    destruct Hdead. destruct (inv_held s Hi a x Hx Hst) as [?|[t Ht]]; [by left|].
    right. by exists t, (KDestroy a). }
  destruct (inv_ended s Hi a x Hx Hd) as [_ _ _ _ _ D6]; [|by rewrite D6].
  intros t p Ht Hh. apply Hdead. right. eauto.
Qed.

(** Only an idle actor is released.  When the goroutine of a timer commits
    the end of an actor, the scheduler knows that very actor, and the last of
    the calls of Active and Idle made of it is the call of Idle that set the
    timer. *)
Theorem idle_release_exact w s t a g s' :
  reachable w s -> generation_of a (log s) < 2 ^ 64 ->
  threads s !! t = Some (RKill a g) -> exec t XRun s = Some s' -> threads s' !! t = Some (FDestroy a) ->
  exists x, heap s !! a = Some x /\ state x = started /\ actors s !! PID x = Some a /\
    actors s' !! PID x = None /\ last_mark a (log s) = Some (EIdle a g).
Proof.
  intros Hr Hb Ht H Ht'. pose proof (reachable_idle w s Hr) as Hd.
  pose proof (idle_threads s Hd t _ a g Ht eq_refl) as Hin.
  apply list_elem_of_split in Hin as (l1 & l2 & El). pose proof (idle_numbers s Hd l1 a g l2 El) as Hg.
  unfold exec in H. destruct (panicked s); [done|]. rewrite Ht in H. apply on_Some in H as (x & Hx & H).
  unfold killIdleActor in H. destruct (_ && _) eqn:E; injection H as <-; proj_in Ht';
    rewrite lookup_insert_eq in Ht'; [|by case_match]. bools. exists x. split_and!; [done|done|done| |].
  { proj. apply lookup_delete_eq. }
  assert (generation_of a (log s) = generation_of a l1 + 1 + generation_of a l2) as Hsum.
  { unfold generation_of. rewrite El, history_app. change (EIdle a g :: l2) with ([EIdle a g] ++ l2).
    rewrite history_app, history_one. simpl. rewrite bool_decide_eq_true_2 by done.
    rewrite length_app. simpl. lia. }
  pose proof (idle_gen s Hd a x Hx ltac:(done)) as Hgx.
  assert (generation_of a l2 = 0) as Hl2.
  { assert (0 <= generation_of a l1) by (unfold generation_of; lia).
    assert (0 <= generation_of a l2) by (unfold generation_of; lia).
    unfold wrapU in *. rewrite !Z.mod_small in * by lia. lia. }
  unfold last_mark. rewrite El. change (EIdle a g :: l2) with ([EIdle a g] ++ l2).
  rewrite !history_app, history_one. simpl. rewrite bool_decide_eq_true_2 by done.
  assert (history a l2 = []) as ->.
  { unfold generation_of in Hl2. apply length_zero_iff_nil. lia. }
  rewrite app_nil_r. apply last_snoc.
Qed.

(** An idle actor is not forgotten.  As long as an actor is started and Idle
    is the last that was called of it, its timer is set for that generation, or
    a goroutine is asking whether to release it (again, when the guard denied
    it), or it is being killed. *)
Theorem idle_never_stranded w s a x g :
  reachable w s -> heap s !! a = Some x -> state x = started ->
  last_mark a (log s) = Some (EIdle a g) -> pending s a x.
Proof. intros Hr. apply idle_pending. by eapply reachable_idle. Qed.

(** ** Schedules *)

Lemma run_reachable w xs s s' : reachable w s -> run xs s = Some s' -> reachable w s'.
Proof.
  revert s. induction xs as [|[t x] xs IH]; intros s Hr H; simpl in H; [by simplify_eq|].
  destruct (exec t x s) as [s1|] eqn:E; [|done]. eapply IH; [|done]. by eapply reach_exec.
Qed.

Definition at_work : Waits.waits := Waits.mkWaits Cluster.Work 0 0.

Lemma at_work_works : working at_work.
Proof. done. Qed.

(** A room that is released when it is idle, if its guard agrees *)
Definition room_options : actorOptions :=
  WithActorReleaseGuardCanceled true (WithActorReleaseHook true (WithActorReleaseGuard true
    (WithActorIdleTimeout 5000000000 (WithActorKind "room" (WithActorID "1" defaultActorOptions))))).

(** spawn by goroutine 1, with the actor's goroutine 2 and a handler for route 7 *)
Definition spawn_room : list (nat * action) :=
  [(1%nat, XSpawn 0 room_options [FnRoute 7 100]); (1%nat, XLoop 2); (1%nat, XRun); (2%nat, XFn)].

(** kill by a goroutine, to the end *)
Definition kill_room (t : nat) : list (nat * action) :=
  (t, XKill "room" "1") :: replicate 8 (t, XRun).

Definition after (xs : list (nat * action)) : Scheduler :=
  default (newScheduler at_work) (run xs (newScheduler at_work)).

Lemma after_reachable xs : is_Some (run xs (newScheduler at_work)) -> reachable at_work (after xs).
Proof.
  intros [s E]. unfold after. rewrite E. by eapply run_reachable; [apply reach_new|].
Qed.

(** BindActor races with the end of the actor.  The actor is loaded, killed
    to the end, and then bound: the user stays related to an actor that is
    gone, and requests given to Next for that user return without an error and
    reach nobody. *)
Theorem bind_races_kill :
  exists s x, reachable at_work s /\ heap s !! 0%nat = Some x /\ termination x = true /\
    related s 42 "room" 0 /\ s_routes s !! 7 = Some "room"%string /\
    forall t n, threads s !! t = None ->
      exists s', run [(t, XRequest 42 (mkContext n false 7)); (t, XRun); (t, XRun)] s = Some s' /\
        threads s' !! t = Some (TDone ANil) /\ heap s' = heap s /\ log s' = log s.
Proof.
  set (xs := spawn_room ++ [(3%nat, XBind 42 "room" "1"); (3%nat, XRun)] ++ kill_room 4 ++ [(3%nat, XRun)]).
  assert (reachable at_work (after xs)) as Hr by (apply after_reachable; vm_compute; eauto).
  assert (exists x, heap (after xs) !! 0%nat = Some x /\ termination x = true /\ state x = destroyed)
    as (x & Hx & Hd & Hst) by (eexists; split; [vm_compute; reflexivity|done]).
  assert (related (after xs) 42 "room" 0) as Hrel
    by (eexists; split; vm_compute; reflexivity).
  assert (s_routes (after xs) !! 7 = Some "room"%string) as H7 by (vm_compute; reflexivity).
  assert (panicked (after xs) = None) as Hq by (vm_compute; reflexivity).
  revert Hr Hx Hrel H7 Hq. generalize (after xs). intros s Hr Hx Hrel H7 Hq.
  exists s, x. split_and!; [done..|]. intros t n Ht.
  assert (loadActor 42 "room" s = Some 0%nat) as Hload.
  { destruct Hrel as (r & Hu & Hk). unfold loadActor. by rewrite Hu. }
  cbn [run]. unfold exec at 1. rewrite Hq, Ht. unfold begin, dispatchRequest. change (42 =? 0) with false.
  cbn [c_route]. rewrite H7.
  cbn [run]. unfold exec at 1. proj. rewrite Hq, lookup_insert_eq. cbn [continue]. unfold dispatch_load.
  change (loadActor 42 "room" (goto t (QLoad 42 "room" (mkContext n false 7)) s)) with (loadActor 42 "room" s).
  rewrite Hload. unfold exec at 1. proj. rewrite Hq, lookup_insert_eq. cbn [continue]. proj.
  rewrite Hx. unfold Next. rewrite decide_False by congruence. cbn [fmap option_fmap option_map].
  eexists. split; [done|]. proj. by rewrite lookup_insert_eq.
Qed.

(** Spawn publishes the actor before it calls Start.  A goroutine that kills
    it in between takes the processor away, and spawn panics. *)
Theorem killed_while_starting :
  exists s, reachable at_work s /\ panicked s = Some (NilStart 0).
Proof.
  set (xs := take 2 spawn_room ++ kill_room 4 ++ [(1%nat, XRun)]).
  exists (after xs). split; [|vm_compute; reflexivity]. apply after_reachable. vm_compute. eauto.
Qed.

(** Routes that the creator and Init add are queued, so spawn registers none. *)
Lemma spawn_registers_no_route t a o inits s s' :
  spawnObserved t a o inits s = Some s' -> s_routes s' = s_routes s.
Proof. unfold spawnObserved. intros H. split_match H; by simplify_eq/=. Qed.

(** ** Witnesses *)

(** idle, denied once, idle again, allowed: before the commit *)
Definition release_room : list (nat * action) :=
  spawn_room ++
  [(5%nat, XIdle 0 0); (5%nat, XActive 0); (5%nat, XIdle 0 1); (6%nat, XFire 1); (6%nat, XRun);
   (6%nat, XGuard false); (6%nat, XRetry 2); (7%nat, XFire 2); (7%nat, XRun); (7%nat, XGuard true)].


Lemma node_waits_for_actors_witness :
  let s := after (spawn_room ++ kill_room 4) in
  Waits.wg (node (after spawn_room)) = 1 /\ Waits.wg (node s) = 0 /\
  forall x, heap s !! 0%nat = Some x -> wait (opts x) = true -> termination x = true.
Proof.
  intros s. split; [vm_compute; reflexivity|].
  assert (reachable at_work s) as Hr by (apply after_reachable; vm_compute; eauto).
  assert (Waits.wg (node s) = 0) as Hz by (vm_compute; reflexivity). split; [exact Hz|]. intros x.
  exact (proj2 (node_waits_for_actors at_work s at_work_works Hr) Hz 0%nat x).
Defined.

Lemma idle_release_exact_witness :
  exists x, heap (after release_room) !! 0%nat = Some x /\ state x = started /\
    actors (after release_room) !! PID x = Some 0%nat /\
    actors (after (release_room ++ [(7%nat, XRun)])) !! PID x = None /\
    last_mark 0 (log (after release_room)) = Some (EIdle 0 3).
Proof.
  apply (idle_release_exact at_work (after release_room) 7 0 3 (after (release_room ++ [(7%nat, XRun)]))).
  - apply after_reachable. vm_compute. eauto.
  - vm_compute. reflexivity.
  - vm_compute. reflexivity.
  - vm_compute. reflexivity.
  - vm_compute. reflexivity.
Defined.

Lemma idle_never_stranded_witness :
  exists x, heap (after (take 11 release_room)) !! 0%nat = Some x /\ pending (after (take 11 release_room)) 0 x.
Proof.
  destruct (heap (after (take 11 release_room)) !! 0%nat) as [x|] eqn:E; [|vm_compute in E; discriminate].
  exists x. split; [done|]. apply (idle_never_stranded at_work _ 0%nat x 3).
  - apply after_reachable. vm_compute. eauto.
  - exact E.
  - vm_compute in E. injection E as <-. reflexivity.
  - vm_compute. reflexivity.
Defined.
