(* ===== verification/Chain.v ===== *)
(** core/chains/chain.go: the doubly linked chain of deferred calls.

    Nodes are cells of a heap; a function is a name, and what it is called for
    is the list of names called.  The chain behaves as a list: added to at
    either end, called from either end, each function once. *)
From stdpp Require Import base numbers list gmap.
From Stdlib Require Import ZArith Lia.
From S2P Require Import Prelude.

Module Chain.

Record node := mkNode { prev : option nat; next : option nat; fn : option nat }.

Record Chain := mkChain {
  nodes : gmap nat node;
  head : option nat;
  tail : option nat;
  called : list nat
}.

Definition NewChain : Chain := mkChain ∅ None None [].

(** &node{...}: a cell that is not in use *)
Definition alloc (c : Chain) (x : node) : nat * gmap nat node :=
  let i := fresh (dom (nodes c)) in (i, <[i := x]> (nodes c)).

Definition AddToHead (f : nat) (c : Chain) : Chain :=
  match head c with
  | None => let '(i, m) := alloc c (mkNode None None (Some f)) in mkChain m (Some i) (Some i) (called c)
  | Some h =>
      let '(i, m) := alloc c (mkNode None (Some h) (Some f)) in
      mkChain (alter (fun x => mkNode (Some i) (next x) (fn x)) h m) (Some i) (tail c) (called c)
  end.

Definition AddToTail (f : nat) (c : Chain) : Chain :=
  match tail c with
  | None => let '(i, m) := alloc c (mkNode None None (Some f)) in mkChain m (Some i) (Some i) (called c)
  | Some t =>
      let '(i, m) := alloc c (mkNode (Some t) None (Some f)) in
      mkChain (alter (fun x => mkNode (prev x) (Some i) (fn x)) t m) (head c) (Some i) (called c)
  end.

(** xcall.Call(head.fn), and the fields of the node cleared *)
Definition fire (i : nat) (x : node) (m : gmap nat node) (l : list nat) : gmap nat node * list nat :=
  (<[i := mkNode None None None]> m, match fn x with Some f => l ++ [f] | None => l end).

(** the loop of FireHead; a node outside the heap does not happen *)
Fixpoint fire_head (n : nat) (cur : option nat) (m : gmap nat node) (l : list nat)
    : option (gmap nat node * list nat) :=
  match cur with
  | None => Some (m, l)
  | Some i =>
      match n, m !! i with
      | S n', Some x => let '(m', l') := fire i x m l in fire_head n' (next x) m' l'
      | _, _ => None
      end
  end.

Fixpoint fire_tail (n : nat) (cur : option nat) (m : gmap nat node) (l : list nat)
    : option (gmap nat node * list nat) :=
  match cur with
  | None => Some (m, l)
  | Some i =>
      match n, m !! i with
      | S n', Some x => let '(m', l') := fire i x m l in fire_tail n' (prev x) m' l'
      | _, _ => None
      end
  end.

(** n bounds the turns of the loop; the cells of the heap are enough *)
Definition FireHead (n : nat) (c : Chain) : option Chain :=
  match fire_head n (head c) (nodes c) (called c) with
  | Some (m, l) => Some (mkChain m None None l)
  | None => None
  end.

Definition FireTail (n : nat) (c : Chain) : option Chain :=
  match fire_tail n (tail c) (nodes c) (called c) with
  | Some (m, l) => Some (mkChain m None None l)
  | None => None
  end.

Definition Cancel (c : Chain) : Chain := mkChain (nodes c) None None (called c).
End Chain.
Import Chain.

(** ** Chains as lists *)

(** the name before the k-th *)
Definition before (l : list nat) (k : nat) : option nat :=
  match k with O => None | S k' => l !! k' end.

(** The cells of a chain, in order, with their functions *)
Record represents (c : Chain) (cs : list (nat * nat)) : Prop := {
  rep_head : head c = cs.*1 !! 0%nat;
  rep_tail : tail c = last cs.*1;
  rep_nodup : NoDup cs.*1;
  rep_nodes k i f : cs !! k = Some (i, f) ->
    nodes c !! i = Some (mkNode (before cs.*1 k) (cs.*1 !! S k) (Some f))
}.

Lemma rep_in c cs i : represents c cs -> i ∈ cs.*1 -> is_Some (nodes c !! i).
Proof.
  intros H ([j f] & -> & [k Hk]%list_elem_of_lookup)%list_elem_of_fmap. simpl. rewrite (rep_nodes c cs H k j f Hk). eauto.
Qed.

Lemma fresh_cell c cs : represents c cs -> fresh (dom (nodes c)) ∉ cs.*1.
Proof.
  intros H Hi. pose proof (rep_in c cs _ H Hi) as [x Hx]. apply elem_of_dom_2 in Hx.
  by apply (is_fresh (dom (nodes c))).
Qed.

Lemma lookup_fst (cs : list (nat * nat)) k i f : cs !! k = Some (i, f) -> cs.*1 !! k = Some i.
Proof. intros H. by rewrite list_lookup_fmap, H. Qed.

Lemma before_app l k l' : (k <= length l)%nat -> before (l ++ l') k = before l k.
Proof. destruct k; [done|]. simpl. intros. rewrite lookup_app_l by lia. done. Qed.

Lemma add_head_rep f c cs :
  represents c cs -> exists i, represents (AddToHead f c) ((i, f) :: cs).
Proof.
  intros H. pose proof (fresh_cell c cs H) as Hf. destruct H as [Hh Ht Hd Hn].
  unfold AddToHead, alloc. set (i := fresh (dom (nodes c))) in *. exists i.
  destruct cs as [|[h g] cs].
  - rewrite Hh. simpl. split; simpl; [done|done|apply NoDup_singleton|].
    intros [|k] j f' Hk; [|done]. simplify_eq/=. by rewrite lookup_insert_eq.
  - rewrite Hh. simpl. apply not_elem_of_cons in Hf as [Hne Hf].
    split; simpl; [done|by rewrite Ht| |].
    { constructor; [|done]. by apply not_elem_of_cons. }
    intros [|k] j f' Hk; simplify_eq/=.
    + rewrite lookup_alter_ne by done. by rewrite lookup_insert_eq.
    + pose proof (Hn k j f' Hk) as Hj. destruct k as [|k]; simplify_eq/=.
      * rewrite lookup_alter_eq, lookup_insert_ne by done. by rewrite Hj.
      * assert (h <> j) as Hhj.
        { intros ->. apply NoDup_cons in Hd as [Hd _]. apply Hd.
          apply list_elem_of_lookup. exists k. by apply (lookup_fst cs k j f'). }
        rewrite lookup_alter_ne by done. rewrite lookup_insert_ne; [done|].
        intros <-. apply Hf. apply list_elem_of_lookup. exists k. by apply (lookup_fst cs k i f').
Qed.

Lemma add_tail_rep f c cs :
  represents c cs -> exists i, represents (AddToTail f c) (cs ++ [(i, f)]).
Proof.
  intros H. pose proof (fresh_cell c cs H) as Hf. destruct H as [Hh Ht Hd Hn].
  unfold AddToTail, alloc. set (i := fresh (dom (nodes c))) in *. exists i.
  destruct cs as [|[t g] cs _] using rev_ind.
  - rewrite Ht. simpl. split; simpl; [done|done|apply NoDup_singleton|].
    intros [|k] j f' Hk; [|done]. simplify_eq/=. by rewrite lookup_insert_eq.
  - rewrite Ht, fmap_app. simpl. rewrite last_snoc.
    split; simpl.
    + rewrite Hh, !fmap_app. destruct cs as [|[? ?] cs]; done.
    + rewrite fmap_app. simpl. by rewrite last_snoc.
    + rewrite fmap_app. apply NoDup_app. split_and!; [done| |apply NoDup_singleton].
      intros x Hx ->%list_elem_of_singleton. done.
    + intros k j f' Hk. apply lookup_app_Some in Hk as [Hk|[Hlen Hk]].
      * pose proof (Hn k j f' Hk) as Hj. pose proof (lookup_lt_Some _ _ _ Hk) as Hlt.
        assert (i <> j) as Hij.
        { intros <-. apply Hf. apply list_elem_of_lookup. exists k. by eapply lookup_fst. }
        rewrite length_app in Hlt. simpl in Hlt.
        destruct (decide (k = length cs)) as [->|Hne].
        -- rewrite list_lookup_middle in Hk by done. simplify_eq.
           rewrite lookup_alter_eq, lookup_insert_ne, Hj by done. simpl. rewrite (fmap_app _ (cs ++ _)).
           rewrite before_app by (rewrite length_fmap, length_app; lia). do 2 f_equal.
           symmetry. apply list_lookup_middle. rewrite length_fmap, length_app. simpl. lia.
        -- assert (t <> j) as Htj.
           { intros <-. rewrite fmap_app in Hd. apply NoDup_app in Hd as (_ & Hd & _).
             apply (Hd t); [|by apply list_elem_of_singleton]. apply list_elem_of_lookup. exists k.
             rewrite lookup_app_l in Hk by lia. by eapply lookup_fst. }
           rewrite lookup_alter_ne, lookup_insert_ne, Hj by done. rewrite (fmap_app _ (cs ++ _)).
           rewrite before_app, lookup_app_l by (rewrite length_fmap, length_app; simpl; lia). done.
      * destruct (k - length (cs ++ [(t, g)]))%nat as [|?] eqn:Ek; [|done]. injection Hk as <- <-.
        assert (k = length (cs ++ [(t, g)])) as -> by lia.
        assert (t <> i) as Hti.
        { intros ->. apply Hf. rewrite fmap_app. apply elem_of_app. right. by apply list_elem_of_singleton. }
        rewrite lookup_alter_ne, lookup_insert_eq by done. rewrite (fmap_app _ (cs ++ _)).
        rewrite before_app by (rewrite length_fmap; lia). do 2 f_equal.
        -- rewrite length_app. simpl. rewrite Nat.add_1_r. simpl. rewrite fmap_app.
           symmetry. apply list_lookup_middle. by rewrite length_fmap.
        -- symmetry. apply lookup_ge_None. rewrite !length_app, length_fmap, length_app. simpl. lia.
Qed.

(** ** Firing *)

(** The cells that are still to be fired are as they were. *)
Lemma fire_head_spec c cs k n m l :
  represents c cs -> (length cs - k <= n)%nat ->
  (forall j i f, (k <= j)%nat -> cs !! j = Some (i, f) -> m !! i = nodes c !! i) ->
  exists m', fire_head n (cs.*1 !! k) m l = Some (m', l ++ (drop k cs).*2).
Proof.
  intros Hr. revert k m l. induction n as [|n IH]; intros k m l Hn Hm;
    (destruct (cs !! k) as [[i f]|] eqn:Hk;
     [rewrite (lookup_fst cs k i f Hk)|
      rewrite list_lookup_fmap, Hk; apply lookup_ge_None in Hk; simpl; rewrite drop_ge, app_nil_r by done;
      simpl; by eauto]).
  { apply lookup_lt_Some in Hk. lia. }
  pose proof (lookup_lt_Some _ _ _ Hk) as Hlt. cbn [fire_head].
  rewrite (Hm k i f) by done. rewrite (rep_nodes c cs Hr k i f Hk). simpl.
  destruct (IH (S k) (<[i := mkNode None None None]> m) (l ++ [f])) as [m' ->]; [lia| |].
  - intros j i' f' Hj Hk'. rewrite lookup_insert_ne; [by eapply Hm; [|done]; lia|].
    intros <-. assert (j = k) as ->; [|lia].
    eapply NoDup_lookup; [apply Hr|by eapply lookup_fst|by eapply lookup_fst].
  - exists m'. rewrite (drop_S cs (i, f) k Hk). simpl. by rewrite <- app_assoc.
Qed.

Lemma fire_tail_spec c cs k n m l :
  represents c cs -> (k <= length cs)%nat -> (k <= n)%nat ->
  (forall j i f, (j < k)%nat -> cs !! j = Some (i, f) -> m !! i = nodes c !! i) ->
  exists m', fire_tail n (before cs.*1 k) m l = Some (m', l ++ reverse (take k cs).*2).
Proof.
  intros Hr. revert k m l. induction n as [|n IH]; intros k m l Hk Hn Hm.
  { assert (k = 0)%nat as -> by lia. simpl. rewrite app_nil_r. eauto. }
  destruct k as [|k]; [simpl; rewrite app_nil_r; eauto|].
  destruct (cs !! k) as [[i f]|] eqn:Hi; [|apply lookup_ge_None in Hi; lia].
  cbn [before]. rewrite (lookup_fst cs k i f Hi). cbn [fire_tail].
  rewrite (Hm k i f) by (done || lia). rewrite (rep_nodes c cs Hr k i f Hi). cbn [fire fn prev].
  destruct (IH k (<[i := mkNode None None None]> m) (l ++ [f])) as [m' ->]; [lia|lia| |].
  - intros j i' f' Hj Hk'. rewrite lookup_insert_ne; [by eapply Hm; [|done]; lia|].
    intros <-. assert (j = k) as ->; [|lia].
    eapply NoDup_lookup; [apply Hr|by eapply lookup_fst|by eapply lookup_fst].
  - exists m'. rewrite (take_S_r cs k (i, f) Hi), fmap_app, reverse_app. simpl. by rewrite <- app_assoc.
Qed.

Lemma last_before (l : list nat) : last l = before l (length l).
Proof.
  destruct l as [|x l _] using rev_ind; [done|]. rewrite last_snoc, length_app. simpl.
  rewrite Nat.add_1_r. simpl. symmetry. by apply list_lookup_middle.
Qed.

(** ** Sequences of operations *)

Inductive chain_op := CAddToHead (f : nat) | CAddToTail (f : nat) | CCancel | CFireHead | CFireTail.

Definition chain_step (n : nat) (o : chain_op) (c : Chain) : option Chain :=
  match o with
  | CAddToHead f => Some (AddToHead f c)
  | CAddToTail f => Some (AddToTail f c)
  | CCancel => Some (Cancel c)
  | CFireHead => FireHead n c
  | CFireTail => FireTail n c
  end.

Fixpoint chain_run (n : nat) (os : list chain_op) (c : Chain) : option Chain :=
  match os with
  | [] => Some c
  | o :: os' => match chain_step n o c with Some c' => chain_run n os' c' | None => None end
  end.

(** the same on a list of functions, with those called *)
Definition list_step (o : chain_op) (x : list nat * list nat) : list nat * list nat :=
  let '(fs, called) := x in
  match o with
  | CAddToHead f => (f :: fs, called)
  | CAddToTail f => (fs ++ [f], called)
  | CCancel => ([], called)
  | CFireHead => ([], called ++ fs)
  | CFireTail => ([], called ++ reverse fs)
  end.

Definition stack_of (c : Chain) (fs : list nat) : Prop := exists cs, represents c cs /\ cs.*2 = fs.

Lemma empty_rep m l : represents (mkChain m None None l) [].
Proof. split; simpl; [done|done|constructor|done]. Qed.

Lemma chain_step_refines n o c fs :
  stack_of c fs -> (length fs <= n)%nat ->
  exists c', chain_step n o c = Some c' /\
    stack_of c' (list_step o (fs, called c)).1 /\ called c' = (list_step o (fs, called c)).2.
Proof.
  intros (cs & Hr & <-) Hn. rewrite length_fmap in Hn. destruct o as [f|f| | |]; simpl.
  - eexists. split; [done|]. destruct (add_head_rep f c cs Hr) as [i Hi]. split.
    + by exists ((i, f) :: cs).
    + unfold AddToHead. destruct (head c); [|done]. done.
  - eexists. split; [done|]. destruct (add_tail_rep f c cs Hr) as [i Hi]. split.
    + exists (cs ++ [(i, f)]). by rewrite fmap_app.
    + unfold AddToTail. by destruct (tail c).
  - eexists. split; [done|]. split; [|done]. exists []. split; [apply empty_rep|done].
  - unfold FireHead. rewrite (rep_head c cs Hr).
    destruct (fire_head_spec c cs 0 n (nodes c) (called c) Hr) as [m' ->]; [lia|done|].
    eexists. split; [done|]. simpl. split; [|done]. exists []. split; [apply empty_rep|done].
  - unfold FireTail. rewrite (rep_tail c cs Hr), last_before, length_fmap.
    destruct (fire_tail_spec c cs (length cs) n (nodes c) (called c) Hr) as [m' ->]; [lia|lia|done|].
    eexists. split; [done|]. rewrite take_ge by lia. simpl. split; [|done].
    exists []. split; [apply empty_rep|done].
Qed.

Definition list_run (os : list chain_op) (x : list nat * list nat) : list nat * list nat :=
  fold_left (fun x o => list_step o x) os x.

Lemma list_step_length o x : (length (list_step o x).1 <= S (length x.1))%nat.
Proof. destruct x as [fs l], o; simpl; rewrite ?length_app; simpl; lia. Qed.

Lemma chain_run_refines n os c fs :
  stack_of c fs -> (length fs + length os <= n)%nat ->
  exists c', chain_run n os c = Some c' /\
    stack_of c' (list_run os (fs, called c)).1 /\ called c' = (list_run os (fs, called c)).2.
Proof.
  revert c fs. induction os as [|o os IH]; intros c fs Hs Hn; simpl; [by eauto|]. simpl in Hn.
  destruct (chain_step_refines n o c fs Hs) as (c1 & -> & H1 & E1); [lia|].
  pose proof (list_step_length o (fs, called c)) as Hl. cbn [fst] in Hl.
  destruct (IH c1 _ H1) as (c2 & -> & H2 & E2); [lia|]. exists c2. split; [done|].
  rewrite E1 in H2, E2. unfold list_run in *. cbn [fold_left].
  by rewrite <- surjective_pairing in H2, E2.
Qed.

(** The linked chain is a list.  Whatever functions are added at either end,
    canceled and fired, the loops end within as many turns as there were
    operations, and the functions called are those of a list treated alike:
    first to last from the head, last to first from the tail, each once. *)
Theorem chain_refines_list os :
  exists c, chain_run (length os) os NewChain = Some c /\ called c = (list_run os ([], [])).2.
Proof.
  destruct (chain_run_refines (length os) os NewChain []) as (c & ? & _ & ?); [|simpl; lia|by exists c].
  exists []. split; [apply empty_rep|done].
Qed.
