(* ===== verification/Proxy.v ===== *)
(** cluster/node/proxy.go: what a node's application calls; the proxy passes
    calls on to the two linkers. *)
From stdpp Require Import base numbers list gmap strings.
From Stdlib Require Import ZArith Lia.
From S2P Require Import Prelude Types Reader Writer Nocopy Packet Dispatcher SourceHints Link GateLink NodeLink.
Import Dispatcher.Dispatcher (EndpointCount) Endpoint (Endpoint) Registry (ServiceInstance).

Open Scope Z_scope.
Open Scope go_scope.

(** cluster.PushArgs and the arguments of the other calls (cluster/cluster.go) *)
Record PushArgs := mkPushArgs {
  p_gid : string; p_kind : Z; p_target : Z; p_token : Token; p_message : Link.Message;
  p_disconnect : bool; p_ack : bool
}.
Record DisconnectArgs := mkDisconnectArgs {
  d_gid : string; d_kind : Z; d_target : Z; d_token : Token; d_force : bool
}.
Record ClusterDeliverArgs := mkClusterDeliverArgs { c_nid : string; c_uid : Z; c_message : Link.Message }.

Module Proxy.
Import Link.

Record Proxy := mkProxy { gateLinker : GateLinker.GateLinker; nodeLinker : NodeLinker.NodeLinker }.

Definition on_gate {A} (m : ST GateLinker.GateLinker A) : ST Proxy A := fun p =>
  let '(r, g) := m (gateLinker p) in (r, mkProxy g (nodeLinker p)).
Definition on_node {A} (m : ST NodeLinker.NodeLinker A) : ST Proxy A := fun p =>
  let '(r, n) := m (nodeLinker p) in (r, mkProxy (gateLinker p) n).

Section Proxy.
(** node.opts.id, node.opts.name, and what the linkers are built from *)
Context (id name : string) (sourceHintCapacity : Z) (hasLocator : bool).
Context (answer : forall A, list made -> call A -> res A).
Context (packer : Packet.defaultPacker) (malloc : list made -> Writer.Writer).
Context (Marshal : Z -> res (list Z)) (Encryptor : option (list Z -> res (list Z))).
Context (order : list Z -> list Z) (order_endpoints : list Endpoint -> list Endpoint).
Context (rand : list made -> Z -> Z).

(** the options of the two linkers: no dispatch strategy, handlers for sources *)
Definition gate_options : Options := mkOptions sourceHintCapacity id Cluster.Node hasLocator "" false false.
Definition node_options : Options := mkOptions sourceHintCapacity id Cluster.Node hasLocator "" true true.

Definition newProxy (nb : nbuf) : res Proxy :=
  do g <- GateLinker.NewGateLinker gate_options nb;
  do n <- NodeLinker.NewNodeLinker node_options nb;
  Ok (mkProxy g n).

Definition DiscoveredPeerCounts (p : Proxy) : Z * Z :=
  (EndpointCount (disp (NodeLinker.env_ (nodeLinker p))), EndpointCount (disp (GateLinker.env_ (gateLinker p)))).

Definition SourceHintCounts (p : Proxy) : Z * Z * Z :=
  (sourceHintCapacity, NodeLinker.SourceHintCount (nodeLinker p), GateLinker.SourceHintCount (gateLinker p)).

(** *** Gates *)
Definition HasGate (gid : string) (p : Proxy) : bool := GateLinker.HasGate gid (gateLinker p).
Definition AskGate (gid : string) (uid : Z) : ST Proxy (string * bool) :=
  on_gate (GateLinker.AskGate gate_options answer gid uid).
Definition LocateGate (uid : Z) : ST Proxy string := on_gate (GateLinker.LocateGate gate_options answer uid).
Definition BindGate (gid : string) (cid uid : Z) : ST Proxy unit :=
  on_gate (GateLinker.BindGate answer gid cid uid).
Definition UnbindGate (uid : Z) : ST Proxy unit := on_gate (GateLinker.UnbindGate gate_options answer uid).
Definition FetchGateList (states : list Z) : ST Proxy (list ServiceInstance) :=
  on_gate (GateLinker.FetchGateList answer states).

(** *** Nodes *)
Definition HasNode (nid : string) (p : Proxy) : bool := NodeLinker.HasNode nid (nodeLinker p).
Definition AskNode (uid : Z) (name nid : string) : ST Proxy (string * bool) :=
  on_node (NodeLinker.AskNode node_options answer uid name nid).
Definition LocateNode (uid : Z) (name : string) : ST Proxy string :=
  on_node (NodeLinker.LocateNode node_options answer uid name).
Definition LocateNodes (uid : Z) : ST Proxy (gmap string string) :=
  on_node (NodeLinker.LocateNodes node_options answer uid).

(** nameAndNID: both given and not empty, or those of this node *)
Definition name_and_nid (x : list string) : string * string :=
  match x with
  | n :: i :: _ =>
      if bool_decide (n <> ""%string) && bool_decide (i <> ""%string) then (n, i) else (name, id)
  | _ => (name, id)
  end.

Definition BindNode (uid : Z) (nameAndNID : list string) : ST Proxy unit :=
  let '(n, i) := name_and_nid nameAndNID in on_node (NodeLinker.BindNode node_options answer uid n i).
Definition UnbindNode (uid : Z) (nameAndNID : list string) : ST Proxy unit :=
  let '(n, i) := name_and_nid nameAndNID in on_node (NodeLinker.UnbindNode node_options answer uid n i).
Definition FetchNodeList (states : list Z) : ST Proxy (list ServiceInstance) :=
  on_node (NodeLinker.FetchNodeList answer states).
Definition LocalBoundNodeUserIDs (p : Proxy) : list Z :=
  NodeLinker.LocalBoundUserIDs name id (nodeLinker p).

(** *** Messages *)
Definition PackMessage (m : Message) : ST Proxy (list Z) :=
  on_gate (GateLinker.on_env (Link.PackMessage packer malloc Marshal Encryptor m true)) ;;;
  fun p => (NocopyBuffer.Bytes (message (GateLinker.env_ (gateLinker p))), p).
Definition PackBuffer (m : data) : ST Proxy (list Z) := st_lift (Link.PackBuffer Marshal Encryptor m true).

Definition GetIP (gid : string) (kind target : Z) : ST Proxy string :=
  on_gate (GateLinker.GetIP gate_options answer gid kind target).
Definition Stat (kind : Z) : ST Proxy Z := on_gate (GateLinker.Stat answer order_endpoints kind).
Definition IsOnline (gid : string) (kind target : Z) : ST Proxy bool :=
  on_gate (GateLinker.IsOnline gate_options answer gid kind target).
Definition Disconnect (a : DisconnectArgs) : ST Proxy unit :=
  on_gate (GateLinker.Disconnect gate_options answer (d_gid a) (d_kind a) (d_target a) (d_token a) (d_force a)).
Definition Push (a : PushArgs) : ST Proxy unit :=
  on_gate (GateLinker.Push gate_options answer packer malloc Marshal Encryptor (p_gid a) (p_kind a)
             (p_target a) (p_token a) (p_message a) (p_disconnect a) (p_ack a)).
Definition Multicast (gid : string) (kind : Z) (targets : list Z) (m : Message) (disconnect ack : bool)
    : ST Proxy Z :=
  on_gate (GateLinker.Multicast gate_options answer packer malloc Marshal Encryptor order gid kind targets
             m disconnect ack).
Definition Broadcast (kind : Z) (m : Message) (disconnect ack : bool) : ST Proxy Z :=
  on_gate (GateLinker.Broadcast answer packer malloc Marshal Encryptor order_endpoints kind m disconnect ack).
Definition Publish (channel : string) (m : Message) (disconnect ack : bool) : ST Proxy Z :=
  on_gate (GateLinker.Publish answer packer malloc Marshal Encryptor order_endpoints channel m disconnect ack).
Definition Subscribe (gid : string) (kind : Z) (targets : list Z) (channel : string) : ST Proxy unit :=
  on_gate (GateLinker.Subscribe gate_options answer order gid kind targets channel).
Definition Unsubscribe (gid : string) (kind : Z) (targets : list Z) (channel : string) : ST Proxy unit :=
  on_gate (GateLinker.Unsubscribe gate_options answer order gid kind targets channel).

(** without connection, token or metadata *)
Definition Deliver (a : ClusterDeliverArgs) : ST Proxy unit :=
  if bool_decide (c_nid a = id) then st_err ErrIllegalOperation else
  on_node (NodeLinker.Deliver node_options answer packer malloc Marshal Encryptor rand
    (NodeLinker.mkDeliverArgs (c_nid a) 0 (c_uid a) zero_token Cluster.no_metadata
       (Link.Route (c_message a)) (NodeLinker.PMessage (c_message a)))).
End Proxy.
End Proxy.
