(* ===== verification/Context.v ===== *)
(** cluster/node/request.go and event.go: the context a handler is given, and
    cluster/request_metadata.go.

    A request and an event are records; a method is a function of the record
    and, where it asks the cluster, of the node's proxy.  Who shares and
    recycles these objects is the subject of [Router]. *)
From stdpp Require Import base numbers list gmap strings.
From Stdlib Require Import ZArith Lia.
From S2P Require Import Prelude Types Reader Writer Nocopy Packet Dispatcher SourceHints Link GateLink NodeLink Proxy.

Open Scope Z_scope.
Open Scope go_scope.

(** ** context.Context, as the values that were attached to the background,
    the latest first *)

Inductive ckey := CKey (k : Z) | requestMetadataContextKey.
Inductive cval := CVal (v : Z) | CMetadata (m : Cluster.RequestMetadata).
#[export] Instance ckey_eq_dec : EqDecision ckey.
Proof. solve_decision. Defined.

Definition gocontext : Type := list (ckey * cval).
Definition Background : gocontext := [].
Definition WithValue (ctx : gocontext) (k : ckey) (v : cval) : gocontext := (k, v) :: ctx.
Fixpoint Value (ctx : gocontext) (k : ckey) : option cval :=
  match ctx with
  | [] => None
  | (k', v) :: ctx' => if decide (k = k') then Some v else Value ctx' k
  end.

(** a nil context is None *)
Definition WithRequestMetadata (ctx : option gocontext) (m : Cluster.RequestMetadata) : gocontext :=
  WithValue (default Background ctx) requestMetadataContextKey (CMetadata m).

Definition RequestMetadataFromContext (ctx : option gocontext) : Cluster.RequestMetadata * bool :=
  match ctx with
  | None => (Cluster.no_metadata, false)
  | Some c =>
      match Value c requestMetadataContextKey with
      | Some (CMetadata m) => (m, true)
      | _ => (Cluster.no_metadata, false)
      end
  end.

(** ** request.go *)

Module Request.

(** The chain of deferred calls is the list of its functions, head first
    ([Chain.chain_refines_list]); the actor is nil or a reference. *)
Record request := mkRequest {
  ctx : gocontext;
  gid : string;
  nid : string;
  pid : string;
  cid : Z;
  uid : Z;
  token : Token;
  message : Link.Message;
  version : Z;
  chain : option (list nat);
  actor : option nat
}.

(** reqPool.New *)
Definition new_request : request :=
  mkRequest [] "" "" "" 0 0 zero_token (Link.mkMessage 0 0 Link.Nil) 0 None None.

Definition with_ctx (c : gocontext) (r : request) : request :=
  mkRequest c (gid r) (nid r) (pid r) (cid r) (uid r) (token r) (message r) (version r) (chain r) (actor r).
Definition with_uid (u : Z) (r : request) : request :=
  mkRequest (ctx r) (gid r) (nid r) (pid r) (cid r) u (token r) (message r) (version r) (chain r) (actor r).
Definition with_version (v : Z) (r : request) : request :=
  mkRequest (ctx r) (gid r) (nid r) (pid r) (cid r) (uid r) (token r) (message r) v (chain r) (actor r).
Definition with_chain (c : option (list nat)) (r : request) : request :=
  mkRequest (ctx r) (gid r) (nid r) (pid r) (cid r) (uid r) (token r) (message r) (version r) c (actor r).

Definition Seq (r : request) : Z := Link.Seq (message r).
Definition Route (r : request) : Z := Link.Route (message r).
Definition Event (r : request) : Z := 0.

Definition Defer (fn : nat) (bottom : bool) (r : request) : request :=
  let c := default [] (chain r) in
  with_chain (Some (if bottom then c ++ [fn] else fn :: c)) r.

Definition Cancel (r : request) : request :=
  match chain r with Some _ => with_chain (Some []) r | None => r end.

Definition storeActor (a : nat) (r : request) : request :=
  mkRequest (ctx r) (gid r) (nid r) (pid r) (cid r) (uid r) (token r) (message r) (version r) (chain r)
    (Some a).

(** version.Add(1) *)
Definition incrVersion (r : request) : request := with_version (i32 (version r + 1)) r.

Definition loadVersion (r : request) : Z := version r.

(** The deferred calls compareVersionExecDefer makes, and the chain left behind *)
Definition compareVersionExecDefer (v : Z) (r : request) : list nat * request :=
  match chain r with
  | Some fs => if loadVersion r =? v then (fs, with_chain (Some []) r) else ([], r)
  | None => ([], r)
  end.

(** The compare-and-swap of compareVersionRecycle *)
Definition compareVersionRecycle (v : Z) (r : request) : option request :=
  if version r =? v then Some (with_version 0 r) else None.

Definition reset (r : request) : request :=
  mkRequest (ctx r) (gid r) (nid r) (pid r) (cid r) (uid r) zero_token
    (Link.mkMessage (Link.Seq (message r)) (Link.Route (message r)) Link.Nil) (version r) None None.

(** The same node, a background context, no deferred calls and version 0 *)
Definition Clone (r : request) : request :=
  mkRequest Background (gid r) (nid r) "" (cid r) (uid r) (token r)
    (Link.mkMessage (Link.Seq (message r)) (Link.Route (message r)) (Link.Data (message r)))
    0 None (actor r).

Definition SetContext (c : option gocontext) (r : request) : request := with_ctx (default Background c) r.
Definition SetValue (k v : Z) (r : request) : request := with_ctx (WithValue (ctx r) (CKey k) (CVal v)) r.
Definition GetValue (k : Z) (r : request) : option cval := Value (ctx r) (CKey k).

(** What Parse does with the data: bytes for the codec, or a copy of a value *)
Inductive parsed := Copied (v : Link.data) | Unmarshaled (bs : list Z) | Empty.
Definition Parse (Decrypt : option (list Z -> res (list Z))) (r : request) : res parsed :=
  match Link.Data (message r) with
  | Link.Raw msg =>
      match msg with
      | [] => Ok Empty
      | _ =>
          match Decrypt with
          | Some decrypt =>
              if bool_decide (gid r <> ""%string)
              then do data <- decrypt msg; Ok (Unmarshaled data)
              else Ok (Unmarshaled msg)
          | None => Ok (Unmarshaled msg)
          end
      end
  | d => Ok (Copied d)
  end.

Section Cluster.
(** What the proxy of the node is built from ([Proxy]) *)
Context (id name : string) (sourceHintCapacity : Z) (hasLocator : bool).
Context (answer : forall A, list made -> call A -> res A).
Context (packer : Packet.defaultPacker) (malloc : list made -> Writer.Writer).
Context (Marshal : Z -> res (list Z)) (Encryptor : option (list Z -> res (list Z))).
Context (order : list Z -> list Z) (rand : list made -> Z -> Z).

(** The user a method is called for: the one given, else the one of the request *)
Definition subject (given : option Z) (r : request) : option Z :=
  match given with
  | Some u => Some u
  | None => if uid r =? 0 then None else Some (uid r)
  end.

(** the user given is kept when the gate has bound it *)
Definition BindGate (given : option Z) (r : request) : ST Proxy.Proxy request :=
  match given with
  | Some u => Proxy.BindGate answer (gid r) (cid r) u ;;; st_ret (with_uid u r)
  | None =>
      if negb (uid r =? 0) then Proxy.BindGate answer (gid r) (cid r) (uid r) ;;; st_ret r
      else st_err ErrIllegalOperation
  end.

Definition UnbindGate (given : option Z) (r : request) : ST Proxy.Proxy unit :=
  match subject given r with
  | Some u => Proxy.UnbindGate id sourceHintCapacity hasLocator answer u
  | None => st_err ErrIllegalOperation
  end.

Definition BindNode (given : option Z) (r : request) : ST Proxy.Proxy unit :=
  match subject given r with
  | Some u => Proxy.BindNode id name sourceHintCapacity hasLocator answer u []
  | None => st_err ErrIllegalOperation
  end.

Definition UnbindNode (given : option Z) (r : request) : ST Proxy.Proxy unit :=
  match subject given r with
  | Some u => Proxy.UnbindNode id name sourceHintCapacity hasLocator answer u []
  | None => st_err ErrIllegalOperation
  end.

Definition Subscribe (channel : string) (uids : list Z) (r : request) : ST Proxy.Proxy unit :=
  match uids with
  | _ :: _ => Proxy.Subscribe id sourceHintCapacity hasLocator answer order "" Kind.User uids channel
  | [] =>
      if bool_decide (gid r = ""%string) then st_err ErrIllegalOperation
      else Proxy.Subscribe id sourceHintCapacity hasLocator answer order (gid r) Kind.Conn [cid r] channel
  end.

Definition Unsubscribe (channel : string) (uids : list Z) (r : request) : ST Proxy.Proxy unit :=
  match uids with
  | _ :: _ => Proxy.Unsubscribe id sourceHintCapacity hasLocator answer order "" Kind.User uids channel
  | [] =>
      if bool_decide (gid r = ""%string) then st_err ErrIllegalOperation
      else Proxy.Unsubscribe id sourceHintCapacity hasLocator answer order (gid r) Kind.Conn [cid r] channel
  end.

Definition GetIP (r : request) : ST Proxy.Proxy string :=
  if bool_decide (gid r = ""%string) then st_err ErrIllegalOperation
  else Proxy.GetIP id sourceHintCapacity hasLocator answer (gid r) Kind.Conn (cid r).

Definition Deliver (args : ClusterDeliverArgs) (r : request) : ST Proxy.Proxy unit :=
  Proxy.Deliver id sourceHintCapacity hasLocator answer packer malloc Marshal Encryptor rand args.

(** Where an answer goes: to the connection at the gate, to the actor the
    request came from, to the node it came from *)
Inductive target := ToGate (a : PushArgs) | ToActor (pid : string) | ToNode (a : ClusterDeliverArgs)
  | ToNobody | NoTarget.
Definition reply_target (m : Link.Message) (r : request) : target :=
  if bool_decide (gid r <> ""%string) then
    ToGate (mkPushArgs (gid r) Kind.Conn (cid r) (token r) m false false)
  else if bool_decide (pid r <> ""%string) then ToActor (pid r)
  else if bool_decide (nid r <> ""%string) then
    if bool_decide (nid r = id) then ToNobody
    else ToNode (mkClusterDeliverArgs (nid r) (uid r) m)
  else NoTarget.

(** [deliver pid uid m] is Deliver of the actor with that PID, when there is one
    (scheduler.doLoad; [Router.ActorDeliver]) *)
Definition Reply (deliver : string -> Z -> Link.Message -> option (ST Proxy.Proxy unit))
    (m : Link.Message) (r : request) : ST Proxy.Proxy unit :=
  match reply_target m r with
  | ToGate a => Proxy.Push id sourceHintCapacity hasLocator answer packer malloc Marshal Encryptor a
  | ToActor p => match deliver p (uid r) m with Some act => act | None => st_ret tt end
  | ToNode a => Deliver a r
  | ToNobody => st_ret tt
  | NoTarget => st_err ErrIllegalOperation
  end.

Definition Response (deliver : string -> Z -> Link.Message -> option (ST Proxy.Proxy unit))
    (data : Link.data) (r : request) : ST Proxy.Proxy unit :=
  Reply deliver (Link.mkMessage (Link.Seq (message r)) (Link.Route (message r)) data) r.

Definition Disconnect (force : list bool) (r : request) : ST Proxy.Proxy unit :=
  if bool_decide (gid r = ""%string) then st_err ErrIllegalOperation
  else Proxy.Disconnect id sourceHintCapacity hasLocator answer
         (mkDisconnectArgs (gid r) Kind.Conn (cid r) zero_token
            match force with f :: _ => f | [] => false end).
End Cluster.
End Request.

(** ** event.go *)

Module Event.

Record event := mkEvent {
  ctx : gocontext;
  gid : string;
  cid : Z;
  uid : Z;
  token : Token;
  kind : Z;
  version : Z;
  chain : option (list nat);
  actor : option nat
}.

(** evtPool.New *)
Definition new_event : event := mkEvent [] "" 0 0 zero_token 0 0 None None.

Definition with_ctx (c : gocontext) (e : event) : event :=
  mkEvent c (gid e) (cid e) (uid e) (token e) (kind e) (version e) (chain e) (actor e).
Definition with_uid (u : Z) (e : event) : event :=
  mkEvent (ctx e) (gid e) (cid e) u (token e) (kind e) (version e) (chain e) (actor e).
Definition with_version (v : Z) (e : event) : event :=
  mkEvent (ctx e) (gid e) (cid e) (uid e) (token e) (kind e) v (chain e) (actor e).
Definition with_chain (c : option (list nat)) (e : event) : event :=
  mkEvent (ctx e) (gid e) (cid e) (uid e) (token e) (kind e) (version e) c (actor e).

Definition NID (e : event) : string := "".
Definition Seq (e : event) : Z := 0.
Definition Route (e : event) : Z := 0.
Definition Event (e : event) : Z := kind e.
Definition Parse (e : event) : res unit := Err ErrIllegalOperation.
Definition Response (e : event) : res unit := Err ErrIllegalOperation.

Definition Defer (fn : nat) (bottom : bool) (e : event) : event :=
  let c := default [] (chain e) in
  with_chain (Some (if bottom then c ++ [fn] else fn :: c)) e.
Definition Cancel (e : event) : event :=
  match chain e with Some _ => with_chain (Some []) e | None => e end.
Definition storeActor (a : nat) (e : event) : event :=
  mkEvent (ctx e) (gid e) (cid e) (uid e) (token e) (kind e) (version e) (chain e) (Some a).
Definition incrVersion (e : event) : event := with_version (i32 (version e + 1)) e.
Definition loadVersion (e : event) : Z := version e.
Definition compareVersionExecDefer (v : Z) (e : event) : list nat * event :=
  match chain e with
  | Some fs => if version e =? v then (fs, with_chain (Some []) e) else ([], e)
  | None => ([], e)
  end.
Definition compareVersionRecycle (v : Z) (e : event) : option event :=
  if version e =? v then Some (with_version 0 e) else None.
Definition reset (e : event) : event :=
  mkEvent (ctx e) (gid e) (cid e) (uid e) zero_token (kind e) (version e) None None.

(** the kind of event is not copied *)
Definition Clone (e : event) : event :=
  mkEvent Background (gid e) (cid e) (uid e) (token e) 0 0 None (actor e).

Definition SetContext (c : option gocontext) (e : event) : event := with_ctx (default Background c) e.
Definition SetValue (k v : Z) (e : event) : event := with_ctx (WithValue (ctx e) (CKey k) (CVal v)) e.
Definition GetValue (k : Z) (e : event) : option cval := Value (ctx e) (CKey k).

Section Cluster.
Context (id name : string) (sourceHintCapacity : Z) (hasLocator : bool).
Context (answer : forall A, list made -> call A -> res A).
Context (packer : Packet.defaultPacker) (malloc : list made -> Writer.Writer).
Context (Marshal : Z -> res (list Z)) (Encryptor : option (list Z -> res (list Z))).
Context (order : list Z -> list Z) (rand : list made -> Z -> Z).

Definition subject (given : option Z) (e : event) : option Z :=
  match given with
  | Some u => Some u
  | None => if uid e =? 0 then None else Some (uid e)
  end.

Definition BindGate (given : option Z) (e : event) : ST Proxy.Proxy event :=
  match given with
  | Some u => Proxy.BindGate answer (gid e) (cid e) u ;;; st_ret (with_uid u e)
  | None =>
      if negb (uid e =? 0) then Proxy.BindGate answer (gid e) (cid e) (uid e) ;;; st_ret e
      else st_err ErrIllegalOperation
  end.
Definition UnbindGate (given : option Z) (e : event) : ST Proxy.Proxy unit :=
  match subject given e with
  | Some u => Proxy.UnbindGate id sourceHintCapacity hasLocator answer u
  | None => st_err ErrIllegalOperation
  end.
Definition BindNode (given : option Z) (e : event) : ST Proxy.Proxy unit :=
  match subject given e with
  | Some u => Proxy.BindNode id name sourceHintCapacity hasLocator answer u []
  | None => st_err ErrIllegalOperation
  end.
Definition UnbindNode (given : option Z) (e : event) : ST Proxy.Proxy unit :=
  match subject given e with
  | Some u => Proxy.UnbindNode id name sourceHintCapacity hasLocator answer u []
  | None => st_err ErrIllegalOperation
  end.
Definition Subscribe (channel : string) (uids : list Z) (e : event) : ST Proxy.Proxy unit :=
  match uids with
  | _ :: _ => Proxy.Subscribe id sourceHintCapacity hasLocator answer order "" Kind.User uids channel
  | [] =>
      if bool_decide (gid e = ""%string) then st_err ErrIllegalOperation
      else Proxy.Subscribe id sourceHintCapacity hasLocator answer order (gid e) Kind.Conn [cid e] channel
  end.
Definition Unsubscribe (channel : string) (uids : list Z) (e : event) : ST Proxy.Proxy unit :=
  match uids with
  | _ :: _ => Proxy.Unsubscribe id sourceHintCapacity hasLocator answer order "" Kind.User uids channel
  | [] =>
      if bool_decide (gid e = ""%string) then st_err ErrIllegalOperation
      else Proxy.Unsubscribe id sourceHintCapacity hasLocator answer order (gid e) Kind.Conn [cid e] channel
  end.
Definition GetIP (e : event) : ST Proxy.Proxy string :=
  Proxy.GetIP id sourceHintCapacity hasLocator answer (gid e) Kind.Conn (cid e).
Definition Deliver (args : ClusterDeliverArgs) (e : event) : ST Proxy.Proxy unit :=
  Proxy.Deliver id sourceHintCapacity hasLocator answer packer malloc Marshal Encryptor rand args.

(** to the user, else to the connection; without a token *)
Definition Reply (m : Link.Message) (e : event) : ST Proxy.Proxy unit :=
  Proxy.Push id sourceHintCapacity hasLocator answer packer malloc Marshal Encryptor
    (if negb (uid e =? 0) then mkPushArgs (gid e) Kind.User (uid e) zero_token m false false
     else mkPushArgs (gid e) Kind.Conn (cid e) zero_token m false false).
Definition Disconnect (force : list bool) (e : event) : ST Proxy.Proxy unit :=
  Proxy.Disconnect id sourceHintCapacity hasLocator answer
    (mkDisconnectArgs (gid e) Kind.Conn (cid e) zero_token
       match force with f :: _ => f | [] => false end).
End Cluster.
End Event.
