(* ===== verification/Router.v ===== *)
(** cluster/node/router.go, middleware.go and the life of a request object:
    pooled, filled by deliver, handled by the node's goroutine, handed on to
    tasks and actors, recycled by whoever holds the version.

    Application code is a program of the calls it makes on its context
    ([prog]); a handler is a function from the request it is called with to
    such a program.  A goroutine is a stack of frames, the top one runs next;
    functions deferred by the code are frames below the code they guard, and a
    panic is a frame that sinks through the stack.  [step t x s] is one step of
    goroutine [t]; the node's own goroutine, which handles requests one after
    the other, is goroutine 0. *)
From stdpp Require Import base numbers list gmap strings.
From Stdlib Require Import ZArith Lia.
From S2P Require Import Prelude Types Link Context.
Import Request Waits (waits).

Open Scope Z_scope.

(** ** What a handler does *)

(** [PDo] is any call that leaves the request alone; [PNext] and [PTask] are
    the context's, [PSkip] is Skip of the middleware in scope. *)
Inductive prog :=
| PReturn
| PPanic
| PDo (f : nat) (k : prog)
| PSetUID (u : Z) (k : prog)
| PDefer (f : nat) (bottom : bool) (k : prog)
| PCancel (k : prog)
| PTask (body : prog) (k : prog)
| PNext (k : option error -> prog)
| PSkip (n : Z) (k : prog).

Definition handler : Type := request -> prog.

(** calling a nil function panics *)
Definition call_handler (h : option handler) (q : request) : prog :=
  match h with Some f => f q | None => PPanic end.

(** ** router.go: routes and their options *)

Record RouteOptions := mkRouteOptions {
  Internal : bool;
  Stateful : bool;
  Authorized : bool;
  Middlewares : list (option handler)
}.
Definition no_options : RouteOptions := mkRouteOptions false false false [].

Record routeEntity := mkRouteEntity {
  e_route : Z; e_handler : option handler; e_options : RouteOptions
}.

Record Router := mkRouter {
  routes : gmap Z routeEntity;
  preRouteHandler : option handler;
  postRouteHandler : option handler;
  defaultRouteHandler : option handler;
  requestMiddlewares : list (option handler)
}.

Definition newRouter : Router := mkRouter ∅ None None None [].

(** [state] is getState of the node *)
Definition AddRouteHandler (state route : Z) (h : option handler) (opts : option RouteOptions)
    (r : Router) : Router :=
  if negb (state =? Cluster.Shut) then r else
  mkRouter (<[route := mkRouteEntity route h (default no_options opts)]> (routes r)) (preRouteHandler r)
    (postRouteHandler r) (defaultRouteHandler r) (requestMiddlewares r).

Definition SetDefaultRouteHandler (state : Z) (h : option handler) (r : Router) : Router :=
  if negb (state =? Cluster.Shut) then r else
  mkRouter (routes r) (preRouteHandler r) (postRouteHandler r) h (requestMiddlewares r).

Definition HasDefaultRouteHandler (r : Router) : bool := bool_decide (is_Some (defaultRouteHandler r)).

Definition SetPreRouteHandler (state : Z) (h : option handler) (r : Router) : Router :=
  if negb (state =? Cluster.Shut) then r else
  mkRouter (routes r) h (postRouteHandler r) (defaultRouteHandler r) (requestMiddlewares r).

(** one nil function and none is installed *)
Definition SetRequestMiddleware (state : Z) (hs : list (option handler)) (r : Router) : Router :=
  if negb (state =? Cluster.Shut) then r else
  if forallb (fun h => match h with Some _ => true | None => false end) hs then
    mkRouter (routes r) (preRouteHandler r) (postRouteHandler r) (defaultRouteHandler r) hs
  else r.

Definition SetPostRouteHandler (state : Z) (h : option handler) (r : Router) : Router :=
  if negb (state =? Cluster.Shut) then r else
  mkRouter (routes r) (preRouteHandler r) h (defaultRouteHandler r) (requestMiddlewares r).

Definition CheckRouteStateful (route : Z) (r : Router) : bool * bool :=
  match routes r !! route with Some e => (Stateful (e_options e), true) | None => (false, false) end.
Definition CheckRouteAuthorized (route : Z) (r : Router) : bool * bool :=
  match routes r !! route with Some e => (Authorized (e_options e), true) | None => (false, false) end.

(** A group: the middlewares of its routes come before the route's own *)
Definition RouterGroup : Type := list (option handler).
Definition Group : RouterGroup := [].
Definition GroupMiddleware (hs : list (option handler)) (g : RouterGroup) : RouterGroup := g ++ hs.
Definition GroupAddRouteHandler (state route : Z) (h : option handler) (opts : option RouteOptions)
    (g : RouterGroup) (r : Router) : Router :=
  let o := default no_options opts in
  AddRouteHandler state route h
    (Some (mkRouteOptions (Internal o) (Stateful o) (Authorized o) (g ++ Middlewares o))) r.

(** [current uid] is what Current of the ownership store answers *)
Definition validateSession (hasStore : bool) (current : Z -> res (option Token)) (q : request)
    (e : routeEntity) : res unit :=
  if negb (Stateful (e_options e)) || bool_decide (gid q = ""%string) || negb hasStore then Ok tt else
  let t := token q in
  if (uid q <=? 0) || negb (UID t =? uid q) || (Generation t =? 0) then Err ErrStaleSession else
  match current (uid q) with
  | Ok (Some owner) => if bool_decide (owner = t) then Ok tt else Err ErrStaleSession
  | Ok None => Err ErrStaleSession
  | Err e => Err e
  | Panic => Panic
  end.

(** ** middleware.go *)

Record Middleware := mkMiddleware {
  index : Z; middlewares : list (option handler); routeHandler : option handler
}.

(** ** Goroutines *)

Inductive frame :=
| FRun (p : prog) (m : option nat)
| FRecover
| FPanic
| FHandler (v : Z) (e : option routeEntity)
| FExecDefer (v : Z) | FFire
| FRecycle (v : Z) | FPost | FReset | FPut
| FTask (v : Z) (body : prog) (m : option nat)
| FSkip (v skip : Z) (m : nat)
| FDone.

Record goroutine := mkGo { g_req : nat; g_stack : list frame }.

Inductive callee := CPre | CPost | CMiddleware (i : Z) | CHandler.
Inductive happening :=
| HCall (c : callee) (r : nat) (q : request)
| HDo (f r : nat)
| HFired (f r : nat) (q : request)
| HPut (r : nat).

Record node := mkNode {
  reqs : gmap nat request;
  reqPool : list nat;
  reqChan : list nat;
  reqClosed : bool;
  mws : gmap nat Middleware;
  mail : gmap nat (list nat);
  gos : gmap nat goroutine;
  n_waits : waits;
  n_log : list happening;
  crashed : bool
}.

Definition new_node (w : waits) : node := mkNode ∅ [] [] false ∅ ∅ ∅ w [] false.

Definition set_req (r : nat) (q : request) (s : node) : node :=
  mkNode (<[r := q]> (reqs s)) (reqPool s) (reqChan s) (reqClosed s) (mws s) (mail s) (gos s) (n_waits s)
    (n_log s) (crashed s).
Definition set_pool (p : list nat) (s : node) : node :=
  mkNode (reqs s) p (reqChan s) (reqClosed s) (mws s) (mail s) (gos s) (n_waits s) (n_log s) (crashed s).
Definition set_chan (c : list nat) (s : node) : node :=
  mkNode (reqs s) (reqPool s) c (reqClosed s) (mws s) (mail s) (gos s) (n_waits s) (n_log s) (crashed s).
Definition set_mw (i : nat) (m : Middleware) (s : node) : node :=
  mkNode (reqs s) (reqPool s) (reqChan s) (reqClosed s) (<[i := m]> (mws s)) (mail s) (gos s) (n_waits s)
    (n_log s) (crashed s).
Definition set_mail (a : nat) (l : list nat) (s : node) : node :=
  mkNode (reqs s) (reqPool s) (reqChan s) (reqClosed s) (mws s) (<[a := l]> (mail s)) (gos s) (n_waits s)
    (n_log s) (crashed s).
Definition set_go (t r : nat) (k : list frame) (s : node) : node :=
  mkNode (reqs s) (reqPool s) (reqChan s) (reqClosed s) (mws s) (mail s) (<[t := mkGo r k]> (gos s))
    (n_waits s) (n_log s) (crashed s).
Definition set_waits (w : waits) (s : node) : node :=
  mkNode (reqs s) (reqPool s) (reqChan s) (reqClosed s) (mws s) (mail s) (gos s) w (n_log s) (crashed s).
Definition say (h : happening) (s : node) : node :=
  mkNode (reqs s) (reqPool s) (reqChan s) (reqClosed s) (mws s) (mail s) (gos s) (n_waits s)
    (n_log s ++ [h]) (crashed s).
Definition crash (s : node) : node :=
  mkNode (reqs s) (reqPool s) (reqChan s) (reqClosed s) (mws s) (mail s) (gos s) (n_waits s) (n_log s) true.

(** the stack of a goroutine; one that is not running has none *)
Definition stack_of_go (t : nat) (s : node) : list frame :=
  match gos s !! t with Some g => g_stack g | None => [] end.

Section Node.
(** the routes, which do not change once the node works, and the ownership store *)
Context (router : Router) (hasStore : bool).

(** *** Router.handle, up to the first call of the application *)
Definition handle (current : Z -> res (option Token)) (q : request) : request * list frame :=
  let q := incrVersion q in
  let v := version q in
  let go e :=
    match preRouteHandler router with
    | Some p => [FRun (p q) None; FRecover; FHandler v e]
    | None => [FHandler v e]
    end in
  match routes router !! Route q with
  | Some e =>
      match validateSession hasStore current q e with
      | Ok _ => (q, go (Some e))
      | Err _ => (q, [FRecycle v])
      | Panic => (q, [FPanic])
      end
  | None =>
      match defaultRouteHandler router with
      | None => (q, [FRecycle v])
      | Some _ => (q, go None)
      end
  end.

(** handle after the pre-route handler: the middlewares, or the handler itself.
    A new Middleware calls Next. *)
Definition handle_route (t r : nat) (q : request) (v : Z) (e : option routeEntity) (k : list frame)
    (s : node) : node :=
  let h := match e with Some e => e_handler e | None => defaultRouteHandler router end in
  let combined := requestMiddlewares router
                  ++ match e with Some e => Middlewares (e_options e) | None => [] end in
  match combined with
  | [] =>
      set_go t r (FRun (call_handler h q) None :: FRecover :: FExecDefer v :: FRecycle v :: k)
        (say (HCall CHandler r q) s)
  | _ =>
      let m := fresh (dom (mws s)) in
      set_go t r (FRun (PSkip 1 PReturn) (Some m) :: k) (set_mw m (mkMiddleware (-1) combined h) s)
  end.

(** *** Middleware.Skip: the test, then everything after incrVersion *)
Definition Skip (t r : nat) (q : request) (n : Z) (m : nat) (x : Middleware) (k : list frame) (s : node)
    : node :=
  if Z.of_nat (length (middlewares x)) <=? index x then set_go t r k s else
  let q := incrVersion q in
  set_go t r (FSkip (version q) n m :: k) (set_req r q s).

Definition skip_to (t r : nat) (q : request) (v n : Z) (m : nat) (x : Middleware) (k : list frame)
    (s : node) : node :=
  let q := Cancel q in
  let i := i64 (index x + n) in
  let k := FExecDefer v :: FRecycle v :: k in
  let s := set_mw m (mkMiddleware i (middlewares x) (routeHandler x)) (set_req r q s) in
  if Z.of_nat (length (middlewares x)) <=? i then
    set_go t r (FRun (call_handler (routeHandler x) q) (Some m) :: k) (say (HCall CHandler r q) s)
  else match (if i <? 0 then None else middlewares x !! Z.to_nat i) with
       | Some h => set_go t r (FRun (call_handler h q) (Some m) :: k) (say (HCall (CMiddleware i) r q) s)
       | None => set_go t r (FPanic :: k) s
       end.

(** *** request.Task: incrVersion, then the task is given to a goroutine of the
    pool, which recovers from panics *)
Definition Task (t r : nat) (q : request) (body : prog) (m : option nat) (k : list frame) (s : node)
    : node :=
  let q := incrVersion q in
  set_go t r (FTask (version q) body m :: k) (set_req r q s).

Definition add_task (t r : nat) (q : request) (v : Z) (body : prog) (m : option nat) (k : list frame)
    (s : node) : node :=
  let b := fresh (dom (gos s)) in
  set_go t r k
    (set_go b r [FRun body m; FExecDefer v; FRecycle v; FDone; FRecover]
       (set_waits (Waits.addWait (n_waits s)) (set_req r (Cancel q) s))).

(** *** Actor.Next: what it does to the request *)
Definition actor_next (a r : nat) (q : request) (s : node) : option node :=
  let box := default [] (mail s !! a) in
  if Z.of_nat (length box) <? 4096
  then Some (set_mail a (box ++ [r]) (set_req r (Cancel (incrVersion (storeActor a q))) s))
  else None.

(** *** The pool *)
Fixpoint remove_one (r : nat) (l : list nat) : option (list nat) :=
  match l with
  | [] => None
  | x :: l' => if decide (x = r) then Some l' else (cons x) <$> remove_one r l'
  end.

(** reqPool.Get(): a request of the pool, or a new one *)
Definition get_request (r : nat) (s : node) : option (request * node) :=
  match remove_one r (reqPool s) with
  | Some p => match reqs s !! r with Some q => Some (q, set_pool p s) | None => None end
  | None => match reqs s !! r with Some _ => None | None => Some (new_request, set_req r new_request s) end
  end.

(** Router.deliverWithContext; waits for room in the channel *)
Definition deliverWithContext (r : nat) (c : gocontext) (gid nid pid : string) (cid uid : Z)
    (token : Token) (m : Link.Message) (s : node) : option node :=
  match get_request r s with
  | None => None
  | Some (q, s) =>
      let q := mkRequest c gid nid pid cid uid token m (version q) (chain q) (actor q) in
      if reqClosed s then Some (crash (set_req r q s)) else
      if Z.of_nat (length (reqChan s)) <? 10240
      then Some (set_chan (reqChan s ++ [r]) (set_req r q s)) else None
  end.

(** Actor.Deliver, after the message was packed; [live] is what Next finds *)
Definition ActorDeliver (id : string) (a r : nat) (live : bool) (u : Z) (m : Link.Message) (s : node)
    : option node :=
  match get_request r s with
  | None => None
  | Some (q, s) =>
      let q := mkRequest (ctx q) (gid q) id (pid q) (cid q) u (token q) m (version q) (chain q) (actor q) in
      if live then actor_next a r q (set_req r q s) else Some (set_req r q s)
  end.

(** *** Steps *)

(** how scheduler.dispatch of a request ends: an error, an actor that is no
    longer started, an actor's mailbox *)
Inductive dispatched := DError (e : error) | DGone | DActor (a : nat).

Inductive action :=
| XDeliver (r : nat) (c : gocontext) (gid nid pid : string) (cid uid : Z) (token : Token) (m : Link.Message)
| XActorDeliver (id : string) (a r : nat) (live : bool) (u : Z) (m : Link.Message)
| XHandle (current : Z -> res (option Token))
| XMail (a : nat) (h : option handler)
| XDispatched (d : dispatched)
| XRun.

(** application code *)
Definition run_prog (t r : nat) (q : request) (p : prog) (m : option nat) (x : action) (k : list frame)
    (s : node) : option node :=
  match p, x with
  | PReturn, XRun => Some (set_go t r k s)
  | PPanic, XRun => Some (set_go t r (FPanic :: k) s)
  | PDo f p', XRun => Some (set_go t r (FRun p' m :: k) (say (HDo f r) s))
  | PSetUID u p', XRun => Some (set_go t r (FRun p' m :: k) (set_req r (with_uid u q) s))
  | PDefer f b p', XRun => Some (set_go t r (FRun p' m :: k) (set_req r (Defer f b q) s))
  | PCancel p', XRun => Some (set_go t r (FRun p' m :: k) (set_req r (Cancel q) s))
  | PTask body p', XRun => Some (Task t r q body m (FRun p' m :: k) s)
  | PSkip n p', XRun =>
      match m with
      | None => Some (set_go t r (FPanic :: k) s)
      | Some i =>
          match mws s !! i with
          | Some x => Some (Skip t r q n i x (FRun p' m :: k) s)
          | None => None
          end
      end
  | PNext p', XDispatched (DError e) => Some (set_go t r (FRun (p' (Some e)) m :: k) s)
  | PNext p', XDispatched DGone => Some (set_go t r (FRun (p' None) m :: k) s)
  | PNext p', XDispatched (DActor a) => set_go t r (FRun (p' None) m :: k) <$> actor_next a r q s
  | _, _ => None
  end.

(** a panic passes the code it interrupts, runs deferred functions and ends at
    a recover *)
Definition unwind (t r : nat) (k : list frame) (s : node) : node :=
  match k with
  | [] => crash (set_go t r [] s)
  | FRecover :: k' => set_go t r k' s
  | (FExecDefer _ | FRecycle _ | FDone) as f :: k' => set_go t r (f :: FPanic :: k') s
  | _ :: k' => set_go t r (FPanic :: k') s
  end.

(** everything that is not application code *)
Definition run_frame (t r : nat) (q : request) (f : frame) (k : list frame) (s : node) : option node :=
  match f with
  | FRun _ _ => None
  | FRecover => Some (set_go t r k s)
  | FPanic => Some (unwind t r k s)
  | FHandler v e => Some (handle_route t r q v e k s)
  | FExecDefer v =>
      Some (set_go t r (match chain q with
                        | Some _ => if loadVersion q =? v then FFire :: k else k
                        | None => k
                        end) s)
  | FFire =>
      Some (match chain q with
            | Some fs => set_go t r k
                           (fold_left (fun s f => say (HFired f r q) s) fs (set_req r (Cancel q) s))
            | None => set_go t r (FPanic :: k) s
            end)
  | FRecycle v =>
      Some (match compareVersionRecycle v q with
            | Some q' => set_go t r (FPost :: FReset :: FPut :: k) (set_req r q' s)
            | None => set_go t r k s
            end)
  | FPost =>
      Some (match postRouteHandler router with
            | Some h => set_go t r (FRun (h q) None :: FRecover :: k) (say (HCall CPost r q) s)
            | None => set_go t r k s
            end)
  | FReset => Some (set_go t r k (set_req r (reset q) s))
  | FPut => Some (set_go t r k (set_pool (reqPool s ++ [r]) (say (HPut r) s)))
  | FTask v body m => Some (add_task t r q v body m k s)
  | FSkip v n m =>
      match mws s !! m with Some x => Some (skip_to t r q v n m x k s) | None => None end
  | FDone =>
      Some (match Waits.doneWait (n_waits s) with
            | Ok w => set_go t r k (set_waits w s)
            | _ => set_go t r (FPanic :: k) s
            end)
  end.

Definition continue (t : nat) (x : action) (r : nat) (f : frame) (k : list frame) (s : node)
    : option node :=
  match reqs s !! r with
  | None => None
  | Some q =>
      match f, x with
      | FRun p m, _ => run_prog t r q p m x k s
      | _, XRun => run_frame t r q f k s
      | _, _ => None
      end
  end.

(** the node's goroutine takes a request, an actor's takes a context *)
Definition begin (t : nat) (x : action) (s : node) : option node :=
  match x with
  | XHandle current =>
      if decide (t = 0%nat) then
        match reqChan s with
        | r :: c =>
            match reqs s !! r with
            | Some q =>
                let '(q', k) := handle current q in
                let s := set_chan c (set_req r q' s) in
                Some (set_go t r k
                        (match k, preRouteHandler router with
                         | FRun _ _ :: _, Some _ => say (HCall CPre r q') s
                         | _, _ => s
                         end))
            | None => None
            end
        | [] => None
        end
      else None
  | XMail a h =>
      if decide (t = 0%nat) then None else
      match mail s !! a with
      | Some (r :: l) =>
          match reqs s !! r with
          | Some q =>
              let v := loadVersion q in
              let s := set_mail a l s in
              Some (match h with
                    | Some h => set_go t r [FRun (h q) None; FRecover; FExecDefer v; FRecycle v]
                                  (say (HCall CHandler r q) s)
                    | None => set_go t r [FRecycle v] s
                    end)
          | None => None
          end
      | _ => None
      end
  | _ => None
  end.

Definition step (t : nat) (x : action) (s : node) : option node :=
  if crashed s then None else
  match x with
  | XDeliver r c gid nid pid cid uid token m => deliverWithContext r c gid nid pid cid uid token m s
  | XActorDeliver id a r live u m => ActorDeliver id a r live u m s
  | _ =>
      match stack_of_go t s with
      | [] => begin t x s
      | f :: k => match gos s !! t with Some g => continue t x (g_req g) f k s | None => None end
      end
  end.

Fixpoint run (xs : list (nat * action)) (s : node) : option node :=
  match xs with
  | [] => Some s
  | (t, x) :: xs' => match step t x s with Some s' => run xs' s' | None => None end
  end.

(** goroutine [t] alone *)
Fixpoint drive (n t : nat) (s : node) : option node :=
  match n with
  | O => Some s
  | S n' => match step t XRun s with Some s' => drive n' t s' | None => None end
  end.
End Node.
