(* ===== verification/RouterOk.v ===== *)
(** How a goroutine that holds a request runs on its own: application code that
    hands the request to nobody else, the deferred calls, and the recycling. *)
From stdpp Require Import base numbers list gmap strings.
From Stdlib Require Import ZArith Lia.
From S2P Require Import Prelude Types Link Context Router.
Import Request.

Open Scope Z_scope.

(** ** Code that stays on its goroutine *)

(** what may follow Skip: nothing that touches the request *)
Fixpoint plain (p : prog) : Prop :=
  match p with
  | PReturn | PPanic => True
  | PDo _ k => plain k
  | _ => False
  end.

(** no Task and no Next; middlewares move forward and leave the request alone
    once they have passed it on *)
Fixpoint sync (p : prog) : Prop :=
  match p with
  | PReturn | PPanic => True
  | PDo _ k | PSetUID _ k | PDefer _ _ k | PCancel k => sync k
  | PSkip n k => 1 <= n < 2 ^ 62 /\ plain k
  | PTask _ _ | PNext _ => False
  end.

Definition sync_handler (h : option handler) : Prop := forall q, sync (call_handler h q).

Record sync_router (router : Router) : Prop := {
  sync_pre : sync_handler (preRouteHandler router);
  sync_post : sync_handler (postRouteHandler router);
  sync_default : sync_handler (defaultRouteHandler router);
  sync_request : Forall sync_handler (requestMiddlewares router);
  sync_routes : forall route e, routes router !! route = Some e ->
    sync_handler (e_handler e) /\ Forall sync_handler (Middlewares (e_options e))
}.

(** ** Counting what happened *)

Fixpoint count (f : happening -> bool) (l : list happening) : nat :=
  match l with [] => 0 | h :: l' => if f h then S (count f l') else count f l' end%nat.

Definition is_put (r : nat) (h : happening) : bool :=
  match h with HPut r' => bool_decide (r = r') | _ => false end.
Definition is_post (h : happening) : bool := match h with HCall CPost _ _ => true | _ => false end.
Definition is_handler (h : happening) : bool := match h with HCall CHandler _ _ => true | _ => false end.

(** code of the application that runs before the request is recycled *)
Definition is_app (h : happening) : bool :=
  match h with HCall CPost _ _ => false | HCall _ _ _ => true | _ => false end.

Lemma no_app_no_handler l : count is_app l = 0%nat -> count is_handler l = 0%nat.
Proof. induction l as [|h l IH]; [done|]. destruct h as [[] ? ?|? ?|? ? ?|?]; simpl; auto; discriminate. Qed.

Lemma count_happenings_app f l l' : count f (l ++ l') = (count f l + count f l')%nat.
Proof. induction l as [|h l IH]; simpl; [done|]. rewrite IH. by destruct (f h). Qed.

(** the happenings that are neither: [HDo] and deferred calls *)
Definition is_noise (h : happening) : bool :=
  match h with HDo _ _ | HFired _ _ _ => true | _ => false end.
Definition noise (l : list happening) : Prop := forallb is_noise l = true.

Lemma noise_app l l' : noise l -> noise l' -> noise (l ++ l').
Proof. unfold noise. intros H H'. by rewrite forallb_app, H, H'. Qed.

Lemma noise_counts l :
  noise l -> (forall r, count (is_put r) l = 0%nat) /\ count is_post l = 0%nat /\ count is_handler l = 0%nat.
Proof.
  unfold noise. induction l as [|h l IH]; [done|]. cbn [forallb]. intros H.
  apply andb_prop in H as [Hh Hl]. destruct (IH Hl) as (H1 & H2 & H3).
  destruct h; simpl in *; try done; repeat split; auto.
Qed.

Lemma noise_no_app l : noise l -> count is_app l = 0%nat.
Proof.
  unfold noise. induction l as [|h l IH]; [done|]. cbn [forallb]. intros H.
  apply andb_prop in H as [Hh Hl]. destruct h; simpl in *; auto; done.
Qed.

(** ** One goroutine *)

Section Alone.
Context (router : Router) (hasStore : bool) (t r : nat).

Abbreviation drive := (drive router hasStore).

(** goroutine [t] stands at [k] and holds [r] *)
Record stands (s : node) (q : request) (k : list frame) : Prop := {
  st_go : gos s !! t = Some (mkGo r k);
  st_req : reqs s !! r = Some q;
  st_up : crashed s = false
}.

(** what is not the goroutine's stays as it is *)
Record evolves (s s' : node) (l : list happening) : Prop := {
  ev_log : n_log s' = n_log s ++ l;
  ev_chan : reqChan s' = reqChan s;
  ev_closed : reqClosed s' = reqClosed s;
  ev_mail : mail s' = mail s;
  ev_waits : n_waits s' = n_waits s;
  ev_reqs : forall r', r' <> r -> reqs s' !! r' = reqs s !! r';
  ev_gos : forall t', t' <> t -> gos s' !! t' = gos s !! t'
}.

Definition reaches (s s' : node) : Prop := exists n, drive n t s = Some s'.

Lemma drive_add n m s s1 s2 : drive n t s = Some s1 -> drive m t s1 = Some s2 -> drive (n + m) t s = Some s2.
Proof.
  revert s. induction n as [|n IH]; intros s H H'; simpl in *; [by simplify_eq|].
  destruct (step router hasStore t XRun s) eqn:E; [|done]. by apply IH.
Qed.

Lemma reaches_trans s1 s2 s3 : reaches s1 s2 -> reaches s2 s3 -> reaches s1 s3.
Proof. intros [n H] [m H']. exists (n + m)%nat. by eapply drive_add. Qed.

Lemma reaches_refl s : reaches s s.
Proof. by exists 0%nat. Qed.

Lemma reaches_step s s' : step router hasStore t XRun s = Some s' -> reaches s s'.
Proof. intros H. exists 1%nat. simpl. by rewrite H. Qed.

Lemma evolves_refl s : evolves s s [].
Proof. by constructor; rewrite ?app_nil_r. Qed.

Lemma evolves_trans s1 s2 s3 l l' : evolves s1 s2 l -> evolves s2 s3 l' -> evolves s1 s3 (l ++ l').
Proof.
  intros H H'. constructor; try (by rewrite ?(ev_chan _ _ _ H'), ?(ev_closed _ _ _ H'), ?(ev_mail _ _ _ H'),
    ?(ev_waits _ _ _ H'); apply H).
  - by rewrite (ev_log _ _ _ H'), (ev_log _ _ _ H), app_assoc.
  - intros r' Hr. by rewrite (ev_reqs _ _ _ H' _ Hr), (ev_reqs _ _ _ H _ Hr).
  - intros t' Ht. by rewrite (ev_gos _ _ _ H' _ Ht), (ev_gos _ _ _ H _ Ht).
Qed.

(** a step of goroutine t, from where it stands *)
Lemma step_stands s q f k s' :
  stands s q (f :: k) ->
  match f with FRun p m => run_prog t r q p m XRun k s | _ => run_frame router t r q f k s end = Some s' ->
  step router hasStore t XRun s = Some s'.
Proof.
  intros [Hg Hq Hc] H. unfold step, stack_of_go. rewrite Hc, Hg. simpl.
  unfold Router.continue. rewrite Hq. destruct f; exact H.
Qed.

(** ** Where a run ends *)

(** [k] was reached, by returning or panicking *)
Definition ended (k k' : list frame) : Prop := k' = k \/ k' = FPanic :: k.

(** the goroutine still holds the request with the version it had *)
Record keeps (s s' : node) (q q' : request) (k' : list frame) (l : list happening) : Prop := {
  kp_stands : stands s' q' k';
  kp_reaches : reaches s s';
  kp_evolves : evolves s s' l;
  kp_version : version q' = version q;
  kp_pool : reqPool s' = reqPool s
}.

(** the request was recycled *)
Record cleared (q : request) : Prop := {
  cl_version : version q = 0;
  cl_chain : chain q = None;
  cl_token : token q = zero_token;
  cl_actor : actor q = None;
  cl_data : Link.Data (message q) = Link.Nil
}.

Definition posts : nat := if postRouteHandler router then 1 else 0.

Record recycles (s s' : node) (q' : request) (k' : list frame) (l : list happening) : Prop := {
  rc_stands : stands s' q' k';
  rc_reaches : reaches s s';
  rc_evolves : evolves s s' l;
  rc_cleared : cleared q';
  rc_pool : reqPool s' = reqPool s ++ [r];
  rc_puts : count (is_put r) l = 1%nat;
  rc_posts : count is_post l = posts
}.

Lemma holding_trans s1 s2 s3 q1 q2 q3 k2 k3 l l' :
  keeps s1 s2 q1 q2 k2 l -> keeps s2 s3 q2 q3 k3 l' -> keeps s1 s3 q1 q3 k3 (l ++ l').
Proof.
  intros H H'. constructor; [apply H'| | | |].
  - eapply reaches_trans; [apply H|apply H'].
  - eapply evolves_trans; [apply H|apply H'].
  - by rewrite (kp_version _ _ _ _ _ _ H'), (kp_version _ _ _ _ _ _ H).
  - by rewrite (kp_pool _ _ _ _ _ _ H'), (kp_pool _ _ _ _ _ _ H).
Qed.

Lemma keeps_recycles s1 s2 s3 q1 q2 q3 k2 k3 l l' :
  keeps s1 s2 q1 q2 k2 l -> count (is_put r) l = 0%nat -> count is_post l = 0%nat ->
  recycles s2 s3 q3 k3 l' -> recycles s1 s3 q3 k3 (l ++ l').
Proof.
  intros H Hl Hp H'. constructor; [apply H'| | |apply H'| | |].
  - eapply reaches_trans; [apply H|apply H'].
  - eapply evolves_trans; [apply H|apply H'].
  - by rewrite (rc_pool _ _ _ _ _ H'), (kp_pool _ _ _ _ _ _ H).
  - by rewrite count_happenings_app, Hl, (rc_puts _ _ _ _ _ H').
  - by rewrite count_happenings_app, Hp, (rc_posts _ _ _ _ _ H').
Qed.

(** once recycled, steps that keep the request as it is change nothing *)
Lemma recycles_keeps s1 s2 s3 q2 k2 k3 l l' :
  recycles s1 s2 q2 k2 l -> keeps s2 s3 q2 q2 k3 l' ->
  count (is_put r) l' = 0%nat -> count is_post l' = 0%nat ->
  recycles s1 s3 q2 k3 (l ++ l').
Proof.
  intros H H' Hl Hp. constructor; [apply H'| | |apply H| | |].
  - eapply reaches_trans; [apply H|apply H'].
  - eapply evolves_trans; [apply H|apply H'].
  - by rewrite (kp_pool _ _ _ _ _ _ H'), (rc_pool _ _ _ _ _ H).
  - by rewrite count_happenings_app, Hl, (rc_puts _ _ _ _ _ H).
  - by rewrite count_happenings_app, Hp, (rc_posts _ _ _ _ _ H).
Qed.

(** ** Single steps *)

(** a step that leaves the request's version and the pool alone *)
Lemma keeps_step s s' q q' f k k' l :
  stands s q (f :: k) ->
  match f with FRun p m => run_prog t r q p m XRun k s | _ => run_frame router t r q f k s end = Some s' ->
  stands s' q' k' -> evolves s s' l -> version q' = version q -> reqPool s' = reqPool s ->
  keeps s s' q q' k' l.
Proof. intros H Hs ????. constructor; auto. apply reaches_step. by eapply step_stands. Qed.

Ltac evolve :=
  constructor; simpl; rewrite ?app_nil_r; auto; intros; by rewrite ?lookup_insert_ne by done.
Ltac stand := constructor; simpl; rewrite ?lookup_insert_eq; auto.

Lemma keeps_go s q f k k' :
  stands s q (f :: k) ->
  match f with FRun p m => run_prog t r q p m XRun k s | _ => run_frame router t r q f k s end
    = Some (set_go t r k' s) ->
  exists s', keeps s s' q q k' [] /\ mws s' = mws s.
Proof.
  intros H Hs. exists (set_go t r k' s). split; [|done].
  eapply keeps_step; eauto; [|evolve]. destruct H. stand.
Qed.

(** ** Application code *)

(** code that leaves the request alone *)
Lemma run_plain p m s q k :
  stands s q (FRun p m :: k) -> plain p ->
  exists s' k' l, keeps s s' q q k' l /\ ended k k' /\ noise l.
Proof.
  revert s. induction p as [| |f p IH|u p IH|f b p IH|p IH|b IHb p IH|k0 IH|n p IH]; intros s H Hp; try done.
  - destruct (keeps_go s q _ k k H eq_refl) as (s' & H' & _). exists s', k, []. split_and!; [auto|by left|done].
  - destruct (keeps_go s q _ k (FPanic :: k) H eq_refl) as (s' & H' & _).
    exists s', (FPanic :: k), []. split_and!; [auto|by right|done].
  - set (s1 := set_go t r (FRun p m :: k) (say (HDo f r) s)).
    assert (H1 : keeps s s1 q q (FRun p m :: k) [HDo f r]).
    { eapply keeps_step; [exact H|reflexivity| |evolve|done|done]. destruct H. stand. }
    destruct (IH s1 (kp_stands _ _ _ _ _ _ H1) Hp) as (s' & k' & l & H' & He & Hl).
    exists s', k', ([HDo f r] ++ l). split_and!; [by eapply holding_trans|done|by apply noise_app].
Qed.

(** the four calls that change the request and not its version *)
Lemma run_change s q q' p m k f :
  stands s q (FRun f m :: k) -> version q' = version q ->
  run_prog t r q f m XRun k s = Some (set_go t r (FRun p m :: k) (set_req r q' s)) ->
  exists s', keeps s s' q q' (FRun p m :: k) [] /\ mws s' = mws s.
Proof.
  intros H Hv Hs. eexists. split; [eapply keeps_step; [exact H|exact Hs| |evolve|done|done]|done].
  destruct H. stand.
Qed.

Lemma version_Cancel q : version (Cancel q) = version q.
Proof. unfold Cancel. by destruct (chain q). Qed.

(** code without a middleware in scope: the functions called through xcall *)
Lemma run_sync p s q k :
  stands s q (FRun p None :: k) -> sync p ->
  exists s' q' k' l, keeps s s' q q' k' l /\ ended k k' /\ noise l.
Proof.
  revert s q. induction p as [| |f p IH|u p IH|f b p IH|p IH|b IHb p IH|k0 IH|n p IH]; intros s q H Hp; try done.
  - destruct (run_plain PReturn None s q k H I) as (s' & k' & l & ? & ? & ?); eauto 8.
  - destruct (run_plain PPanic None s q k H I) as (s' & k' & l & ? & ? & ?); eauto 8.
  - set (s1 := set_go t r (FRun p None :: k) (say (HDo f r) s)).
    assert (H1 : keeps s s1 q q (FRun p None :: k) [HDo f r]).
    { eapply keeps_step; [exact H|reflexivity| |evolve|done|done]. destruct H. stand. }
    destruct (IH s1 q (kp_stands _ _ _ _ _ _ H1) Hp) as (s' & q' & k' & l & H' & He & Hl).
    exists s', q', k', ([HDo f r] ++ l). split_and!; [by eapply holding_trans|done|by apply noise_app].
  - destruct (run_change s q (with_uid u q) p None k _ H eq_refl eq_refl) as (s1 & H1 & _).
    destruct (IH s1 _ (kp_stands _ _ _ _ _ _ H1) Hp) as (s' & q' & k' & l & H' & He & Hl).
    exists s', q', k', ([] ++ l). split_and!; [by eapply holding_trans|done|done].
  - destruct (run_change s q (Defer f b q) p None k _ H eq_refl eq_refl) as (s1 & H1 & _).
    destruct (IH s1 _ (kp_stands _ _ _ _ _ _ H1) Hp) as (s' & q' & k' & l & H' & He & Hl).
    exists s', q', k', ([] ++ l). split_and!; [by eapply holding_trans|done|done].
  - destruct (run_change s q (Cancel q) p None k _ H (version_Cancel q) eq_refl) as (s1 & H1 & _).
    destruct (IH s1 _ (kp_stands _ _ _ _ _ _ H1) Hp) as (s' & q' & k' & l & H' & He & Hl).
    exists s', q', k', ([] ++ l). split_and!; [by eapply holding_trans|done|done].
  - destruct (keeps_go s q _ k (FPanic :: k) H eq_refl) as (s' & H' & _).
    exists s', q, (FPanic :: k), []. split_and!; [auto|by right|done].
Qed.

(** called through xcall, it always returns *)
Lemma run_recovered p s q k :
  stands s q (FRun p None :: FRecover :: k) -> sync p ->
  exists s' q' l, keeps s s' q q' k l /\ noise l.
Proof.
  intros H Hp. destruct (run_sync p s q _ H Hp) as (s1 & q1 & k1 & l & H1 & He & Hl).
  assert (exists s2, keeps s1 s2 q1 q1 k [] /\ mws s2 = mws s1) as (s2 & H2 & _).
  { destruct He as [-> | ->]; eapply keeps_go; try apply H1; reflexivity. }
  exists s2, q1, (l ++ []). split; [by eapply holding_trans|by rewrite app_nil_r].
Qed.

(** ** Deferred calls and recycling *)

Lemma fire_evolves fs q s : evolves s (fold_left (fun s f => say (HFired f r q) s) fs s) ((fun f => HFired f r q) <$> fs).
Proof.
  revert s. induction fs as [|f fs IH]; intros s; simpl; [apply evolves_refl|].
  change (?h :: ?l) with ([h] ++ l). eapply evolves_trans; [|apply IH]. by constructor.
Qed.

Lemma fire_same fs q s :
  let s' := fold_left (fun s f => say (HFired f r q) s) fs s in
  reqs s' = reqs s /\ gos s' = gos s /\ crashed s' = crashed s /\ reqPool s' = reqPool s.
Proof. revert s. induction fs as [|f fs IH]; intros s; simpl; [done|]. apply (IH (say (HFired f r q) s)). Qed.

Lemma noise_fired q fs : noise ((fun f => HFired f r q) <$> fs).
Proof. unfold noise. by induction fs. Qed.

Lemma fire s q k :
  stands s q (FFire :: k) -> is_Some (chain q) ->
  exists s' q' l, keeps s s' q q' k l /\ noise l.
Proof.
  intros H [fs Hfs].
  set (s1 := fold_left (fun s f => say (HFired f r q) s) fs (set_req r (Cancel q) s)).
  destruct (fire_same fs q (set_req r (Cancel q) s)) as (E1 & E2 & E3 & E4). fold s1 in E1, E2, E3, E4.
  exists (set_go t r k s1), (Cancel q), ((fun f => HFired f r q) <$> fs).
  split; [|apply noise_fired]. eapply keeps_step; [exact H| | | |apply version_Cancel|].
  - simpl. by rewrite Hfs.
  - destruct H. constructor; simpl; rewrite ?lookup_insert_eq; auto; [|by rewrite E3].
    rewrite E1. simpl. by rewrite lookup_insert_eq.
  - pose proof (fire_evolves fs q (set_req r (Cancel q) s)) as Hev. fold s1 in Hev.
    destruct Hev as [V1 V2 V3 V4 V5 V6 V7]. constructor; simpl; auto.
    + intros r' Hr. rewrite (V6 _ Hr). simpl. by rewrite lookup_insert_ne.
    + intros t' Ht. rewrite lookup_insert_ne by done. by apply V7.
  - simpl. by rewrite E4.
Qed.

Lemma exec_defer v s q k :
  stands s q (FExecDefer v :: k) ->
  exists s' q' l, keeps s s' q q' k l /\ noise l /\ (version q <> v -> q' = q).
Proof.
  intros H. destruct (chain q) as [fs|] eqn:Hc.
  - destruct (decide (version q = v)) as [Hv|Hv].
    + destruct (keeps_go s q _ k (FFire :: k) H) as (s1 & H1 & _).
      { simpl. unfold loadVersion. by rewrite Hc, (proj2 (Z.eqb_eq _ _) Hv). }
      destruct (fire s1 q k (kp_stands _ _ _ _ _ _ H1)) as (s2 & q2 & l & H2 & Hl); [by eauto|].
      exists s2, q2, ([] ++ l). split_and!; [by eapply holding_trans|done|done].
    + destruct (keeps_go s q _ k k H) as (s1 & H1 & _).
      { simpl. unfold loadVersion. by rewrite Hc, (proj2 (Z.eqb_neq _ _) Hv). }
      exists s1, q, []. by split_and!.
  - destruct (keeps_go s q _ k k H) as (s1 & H1 & _); [simpl; by rewrite Hc|].
    exists s1, q, []. by split_and!.
Qed.

Lemma recycle_skip v s q k :
  stands s q (FRecycle v :: k) -> version q <> v -> exists s', keeps s s' q q k [].
Proof.
  intros H Hv. destruct (keeps_go s q _ k k H) as (s1 & H1 & _); [|by exists s1].
  simpl. unfold compareVersionRecycle. by rewrite (proj2 (Z.eqb_neq _ _) Hv).
Qed.

(** the swap: from here on the object belongs to this goroutine alone *)
Lemma recycle_swap v s q k :
  stands s q (FRecycle v :: k) -> version q = v ->
  exists s', stands s' (with_version 0 q) (FPost :: FReset :: FPut :: k) /\ reaches s s' /\
    evolves s s' [] /\ reqPool s' = reqPool s.
Proof.
  intros H Hv. eexists (set_go t r (FPost :: FReset :: FPut :: k) (set_req r (with_version 0 q) s)).
  split_and!; [destruct H; stand| |evolve|done].
  apply reaches_step. eapply step_stands; [exact H|]. simpl.
  unfold compareVersionRecycle. by rewrite (proj2 (Z.eqb_eq _ _) Hv).
Qed.

Lemma run_post s q k :
  stands s q (FPost :: k) -> sync_handler (postRouteHandler router) ->
  exists s' q' l, keeps s s' q q' k l /\ count (is_put r) l = 0%nat /\ count is_post l = posts /\
    count is_app l = 0%nat.
Proof.
  intros H Hs. unfold posts. destruct (postRouteHandler router) as [h|] eqn:Hh.
  - set (s1 := set_go t r (FRun (h q) None :: FRecover :: k) (say (HCall CPost r q) s)).
    assert (H1 : keeps s s1 q q (FRun (h q) None :: FRecover :: k) [HCall CPost r q]).
    { eapply keeps_step; [exact H| | |evolve|done|done]; [simpl; by rewrite Hh|destruct H; stand]. }
    destruct (run_recovered (h q) s1 q k (kp_stands _ _ _ _ _ _ H1) (Hs q)) as (s2 & q2 & l & H2 & Hl).
    destruct (noise_counts _ Hl) as (N1 & N2 & N3).
    exists s2, q2, ([HCall CPost r q] ++ l). rewrite !count_happenings_app, N1, N2, (noise_no_app _ Hl).
    split_and!; [by eapply holding_trans|done..].
  - destruct (keeps_go s q _ k k H) as (s1 & H1 & _); [simpl; by rewrite Hh|].
    exists s1, q, []. by split_and!.
Qed.

Lemma reset_put s q k :
  stands s q (FReset :: FPut :: k) -> version q = 0 ->
  exists s' , stands s' (reset q) k /\ reaches s s' /\ evolves s s' [HPut r] /\
    reqPool s' = reqPool s ++ [r] /\ cleared (reset q).
Proof.
  intros H Hv. set (s1 := set_go t r (FPut :: k) (set_req r (reset q) s)).
  assert (H1 : stands s1 (reset q) (FPut :: k)) by (destruct H; stand).
  exists (set_go t r k (set_pool (reqPool s1 ++ [r]) (say (HPut r) s1))).
  split_and!; [destruct H1; stand| | |done|by constructor].
  - eapply reaches_trans; apply reaches_step; eapply step_stands; [exact H| |exact H1|]; reflexivity.
  - constructor; simpl; auto; intros; by rewrite ?lookup_insert_ne by done.
Qed.

Lemma recycle v s q k :
  stands s q (FRecycle v :: k) -> version q = v -> sync_handler (postRouteHandler router) ->
  exists s' q' l, recycles s s' q' k l /\ count is_app l = 0%nat.
Proof.
  intros H Hv Hs. destruct (recycle_swap v s q k H Hv) as (s1 & H1 & R1 & E1 & P1).
  destruct (run_post s1 _ _ H1 Hs) as (s2 & q2 & l & H2 & Hl1 & Hl2 & Hl3).
  destruct (reset_put s2 q2 k (kp_stands _ _ _ _ _ _ H2)) as (s3 & H3 & R3 & E3 & P3 & C3).
  { by rewrite (kp_version _ _ _ _ _ _ H2). }
  exists s3, (reset q2), ([] ++ l ++ [HPut r]). rewrite count_happenings_app, count_happenings_app, Hl3. split; [|done].
  constructor; [exact H3| | |exact C3| | |].
  - eapply reaches_trans; [exact R1|]. eapply reaches_trans; [apply H2|exact R3].
  - eapply evolves_trans; [exact E1|]. eapply evolves_trans; [apply H2|exact E3].
  - by rewrite P3, (kp_pool _ _ _ _ _ _ H2), P1.
  - simpl. rewrite count_happenings_app, Hl1. simpl. by rewrite bool_decide_true by done.
  - simpl. rewrite count_happenings_app, Hl2. simpl. lia.
Qed.

(** ** The deferred function of Skip *)

Lemma sink s q f k :
  stands s q (FPanic :: f :: k) ->
  match f with FExecDefer _ | FRecycle _ => True | _ => False end ->
  exists s', keeps s s' q q (f :: FPanic :: k) [].
Proof.
  intros H Hf. destruct (keeps_go s q _ (f :: k) (f :: FPanic :: k) H) as (s' & H' & _); [|by exists s'].
  by destruct f.
Qed.

(** it recycles the request its version still belongs to *)
Lemma closing_return v s q k :
  stands s q (FExecDefer v :: FRecycle v :: k) -> version q = v ->
  sync_handler (postRouteHandler router) ->
  exists s' q' l, recycles s s' q' k l /\ count is_handler l = 0%nat.
Proof.
  intros H Hv Hs. destruct (exec_defer v s q _ H) as (s1 & q1 & l1 & H1 & N1 & _).
  destruct (noise_counts _ N1) as (C1 & C2 & C3).
  destruct (recycle v s1 q1 k (kp_stands _ _ _ _ _ _ H1)) as (s2 & q2 & l2 & H2 & C); auto.
  { by rewrite (kp_version _ _ _ _ _ _ H1). }
  exists s2, q2, (l1 ++ l2). rewrite count_happenings_app, C3, (no_app_no_handler _ C). split; [by eapply keeps_recycles|done].
Qed.

Lemma closing v s q k k1 :
  stands s q k1 -> ended (FExecDefer v :: FRecycle v :: k) k1 -> version q = v ->
  sync_handler (postRouteHandler router) ->
  exists s' q' k' l, recycles s s' q' k' l /\ ended k k' /\ count is_handler l = 0%nat.
Proof.
  intros H [-> | ->] Hv Hs.
  - destruct (closing_return v s q k H Hv Hs) as (s1 & q1 & l1 & H1 & C).
    exists s1, q1, k, l1. split_and!; [done|by left|done].
  - destruct (sink s q _ _ H I) as (s0 & H0).
    destruct (exec_defer v s0 q _ (kp_stands _ _ _ _ _ _ H0)) as (s1 & q1 & l1 & H1 & N1 & _).
    destruct (noise_counts _ N1) as (C1 & C2 & C3).
    destruct (sink s1 q1 _ _ (kp_stands _ _ _ _ _ _ H1) I) as (s2 & H2).
    destruct (recycle v s2 q1 (FPanic :: k) (kp_stands _ _ _ _ _ _ H2)) as (s3 & q3 & l3 & H3 & C); auto.
    { by rewrite (kp_version _ _ _ _ _ _ H1). }
    exists s3, q3, (FPanic :: k), (([] ++ l1 ++ []) ++ l3). rewrite app_nil_r. simpl.
    rewrite count_happenings_app, C3, (no_app_no_handler _ C).
    split_and!; [|by right|done].
    eapply (keeps_recycles s s2); [|done..|exact H3].
    eapply (holding_trans s s0 s2 q q q1 _ _ [] l1 H0).
    rewrite <- (app_nil_r l1). by eapply holding_trans.
Qed.

(** and leaves it alone once it was recycled below *)
Lemma closing_skip v s q k k1 :
  stands s q k1 -> ended (FExecDefer v :: FRecycle v :: k) k1 -> version q <> v ->
  exists s' k', keeps s s' q q k' [] /\ ended k k'.
Proof.
  assert (Hd : forall s k, stands s q (FExecDefer v :: k) -> version q <> v -> exists s', keeps s s' q q k []).
  { intros s0 k0 H Hv. destruct (chain q) as [fs|] eqn:Hc;
      (destruct (keeps_go s0 q _ k0 k0 H) as (s1 & H1 & _);
       [simpl; unfold loadVersion; by rewrite Hc, ?(proj2 (Z.eqb_neq _ _) Hv)|by exists s1]). }
  intros H [-> | ->] Hv.
  - destruct (Hd s _ H Hv) as (s1 & H1).
    destruct (recycle_skip v s1 q _ (kp_stands _ _ _ _ _ _ H1) Hv) as (s2 & H2).
    exists s2, k. split; [exact (holding_trans _ _ _ _ _ _ _ _ [] [] H1 H2)|by left].
  - destruct (sink s q _ _ H I) as (s0 & H0). destruct (Hd s0 _ (kp_stands _ _ _ _ _ _ H0) Hv) as (s1 & H1).
    destruct (sink s1 q _ _ (kp_stands _ _ _ _ _ _ H1) I) as (s2 & H2).
    destruct (recycle_skip v s2 q _ (kp_stands _ _ _ _ _ _ H2) Hv) as (s3 & H3).
    exists s3, (FPanic :: k). split; [|by right].
    pose proof (holding_trans _ _ _ _ _ _ _ _ [] [] H0 H1) as H01.
    pose proof (holding_trans _ _ _ _ _ _ _ _ [] [] H01 H2) as H02.
    exact (holding_trans _ _ _ _ _ _ _ _ [] [] H02 H3).
Qed.

(** ** Middlewares *)

(** Where code with a middleware in scope leaves the request: still held, or
    recycled; [n] bounds the calls of the route's handler *)
Definition outcome (n : nat) (s : node) (q : request) (k : list frame) : Prop :=
  exists s' q' k' l, ended k k' /\ (count is_handler l <= n)%nat /\
    ((keeps s s' q q' k' l /\ count (is_put r) l = 0%nat /\ count is_post l = 0%nat) \/
     recycles s s' q' k' l).

Lemma outcome_after n s s1 q q1 k1 k l :
  keeps s s1 q q1 k1 l -> noise l -> outcome n s1 q1 k -> outcome n s q k.
Proof.
  intros H Hl (s' & q' & k' & l' & He & Hn & Ho). destruct (noise_counts _ Hl) as (N1 & N2 & N3).
  exists s', q', k', (l ++ l'). split_and!; [done|by rewrite count_happenings_app, N3|].
  destruct Ho as [(H' & P1 & P2)|H'].
  - left. rewrite !count_happenings_app, N1, N2, P1, P2. split_and!; [by eapply holding_trans|done..].
  - right. by eapply keeps_recycles.
Qed.

Lemma outcome_ended n s q k s' q' k' l :
  keeps s s' q q' k' l -> ended k k' -> noise l -> outcome n s q k.
Proof.
  intros H He Hl. destruct (noise_counts _ Hl) as (N1 & N2 & N3). exists s', q', k', l.
  split_and!; [done|lia|by left].
Qed.

(** whatever was passed on, Skip returns with the request recycled *)
Lemma outcome_closed n v s q k :
  outcome n s q (FExecDefer v :: FRecycle v :: k) -> version q = v -> 0 < v ->
  sync_handler (postRouteHandler router) ->
  exists s' q' k' l, recycles s s' q' k' l /\ ended k k' /\ (count is_handler l <= n)%nat.
Proof.
  intros (s1 & q1 & k1 & l1 & He & Hn & Ho) Hv Hp Hs. destruct Ho as [(H1 & P1 & P2)|H1].
  - destruct (closing v s1 q1 k k1 (kp_stands _ _ _ _ _ _ H1) He) as (s2 & q2 & k2 & l2 & H2 & He2 & C); auto.
    { by rewrite (kp_version _ _ _ _ _ _ H1). }
    exists s2, q2, k2, (l1 ++ l2). rewrite count_happenings_app. split_and!; [by eapply keeps_recycles|done|lia].
  - destruct (closing_skip v s1 q1 k k1 (rc_stands _ _ _ _ _ H1) He) as (s2 & k2 & H2 & He2).
    { rewrite (cl_version _ (rc_cleared _ _ _ _ _ H1)). lia. }
    exists s2, q1, k2, (l1 ++ []). split_and!; [by eapply recycles_keeps|done|by rewrite app_nil_r].
Qed.

(** the rest of a middleware after Skip *)
Lemma after_skip p m s q k k1 :
  stands s q k1 -> ended (FRun p m :: k) k1 -> plain p ->
  exists s' k' l, keeps s s' q q k' l /\ ended k k' /\ noise l.
Proof.
  intros H [-> | ->] Hp; [by eapply run_plain|].
  destruct (keeps_go s q _ (FRun p m :: k) (FPanic :: k) H eq_refl) as (s' & H' & _).
  exists s', (FPanic :: k), []. split_and!; [done|by right|done].
Qed.

Definition mw_ok (x : Middleware) : Prop :=
  Forall sync_handler (middlewares x) /\ sync_handler (routeHandler x).

(** the middlewares that are left *)
Definition left_over (x : Middleware) : nat := Z.to_nat (Z.of_nat (length (middlewares x)) - index x).

Lemma incr_version q :
  0 <= version q < 2 ^ 31 - 1 -> exists q1, incrVersion q = q1 /\ version q1 = version q + 1.
Proof. intros. eexists. split; [done|]. apply wrapS_id; [done|unfold inS; lia]. Qed.

(** Skip up to the call it makes: the code called, with the deferred function
    below, under the version of Skip *)
Lemma skip_calls s q n p i x k :
  stands s q (FRun (PSkip n p) (Some i) :: k) -> mws s !! i = Some x -> mw_ok x ->
  -1 <= index x < Z.of_nat (length (middlewares x)) -> Z.of_nat (length (middlewares x)) < 2 ^ 30 ->
  1 <= n < 2 ^ 62 -> 0 <= version q < 2 ^ 31 - 1 ->
  exists s' q' p' x' h,
    stands s' q' (FRun p' (Some i) :: FExecDefer (version q + 1) :: FRecycle (version q + 1)
                  :: FRun p (Some i) :: k) /\
    reaches s s' /\ evolves s s' [h] /\ reqPool s' = reqPool s /\ version q' = version q + 1 /\
    sync p' /\ mws s' !! i = Some x' /\ mw_ok x' /\ -1 <= index x' /\
    length (middlewares x') = length (middlewares x) /\ (left_over x' < left_over x)%nat /\
    is_put r h = false /\ is_post h = false /\
    (count is_handler [h] + Nat.min 1 (left_over x') <= 1)%nat.
Proof.
  intros H Hx [Hm Hr] Hi Hl Hn Hv.
  destruct (incr_version q Hv) as (q1 & Hq1 & Hv1). rewrite <- !Hv1.
  set (s1 := set_go t r (FSkip (version q1) n i :: FRun p (Some i) :: k) (set_req r q1 s)).
  assert (H1 : stands s1 q1 (FSkip (version q1) n i :: FRun p (Some i) :: k)) by (destruct H; stand).
  assert (S1 : step router hasStore t XRun s = Some s1).
  { eapply step_stands; [exact H|]. simpl. rewrite Hx. unfold Skip.
    rewrite (proj2 (Z.leb_gt _ _)) by lia. by rewrite Hq1. }
  assert (Hj : i64 (index x + n) = index x + n) by (apply wrapS_id; [done|unfold inS; lia]).
  set (x' := mkMiddleware (index x + n) (middlewares x) (routeHandler x)).
  destruct (Z.leb_spec (Z.of_nat (length (middlewares x))) (index x + n)) as [Hlast|Hmore].
  - eexists (set_go t r _ (say (HCall CHandler r (Cancel q1)) (set_mw i x' (set_req r (Cancel q1) s1)))), (Cancel q1), _, x', _.
    split_and!; [destruct H1; stand| |..].
    + eapply reaches_trans; [by apply reaches_step|]. apply reaches_step.
      eapply step_stands; [exact H1|]. simpl. rewrite Hx. unfold skip_to. rewrite Hj.
      rewrite (proj2 (Z.leb_le _ _)) by lia. reflexivity.
    + evolve.
    + done.
    + by rewrite version_Cancel.
    + apply Hr.
    + simpl. by rewrite lookup_insert_eq.
    + by split.
    + simpl. lia.
    + done.
    + unfold left_over. simpl. lia.
    + done.
    + done.
    + assert (left_over x' = 0)%nat as -> by (unfold left_over; cbn [middlewares index x']; lia). done.
  - assert (exists h, middlewares x !! Z.to_nat (index x + n) = Some h) as [h Hh].
    { apply lookup_lt_is_Some. lia. }
    eexists (set_go t r _ (say (HCall (CMiddleware (index x + n)) r (Cancel q1)) (set_mw i x' (set_req r (Cancel q1) s1)))), (Cancel q1), _, x', _.
    split_and!; [destruct H1; stand| |..].
    + eapply reaches_trans; [by apply reaches_step|]. apply reaches_step.
      eapply step_stands; [exact H1|]. simpl. rewrite Hx. unfold skip_to. rewrite Hj.
      rewrite (proj2 (Z.leb_gt _ _)) by lia. rewrite (proj2 (Z.ltb_ge _ _)) by lia.
      rewrite Hh. reflexivity.
    + evolve.
    + done.
    + by rewrite version_Cancel.
    + rewrite Forall_forall in Hm. apply Hm. by apply list_elem_of_lookup_2 with (Z.to_nat (index x + n)).
    + simpl. by rewrite lookup_insert_eq.
    + by split.
    + simpl. lia.
    + done.
    + unfold left_over. simpl. lia.
    + done.
    + done.
    + cbn [count is_handler]. lia.
Qed.

(** what happened before the code called by Skip *)
Lemma recycles_after s s1 s2 q k l h :
  reaches s s1 -> evolves s s1 [h] -> reqPool s1 = reqPool s -> is_put r h = false -> is_post h = false ->
  recycles s1 s2 q k l -> recycles s s2 q k ([h] ++ l).
Proof.
  intros R E P H1 H2 H. constructor; [apply H| | |apply H| | |].
  - eapply reaches_trans; [exact R|apply H].
  - eapply evolves_trans; [exact E|apply H].
  - by rewrite (rc_pool _ _ _ _ _ H), P.
  - simpl. by rewrite H1, (rc_puts _ _ _ _ _ H).
  - simpl. by rewrite H2, (rc_posts _ _ _ _ _ H).
Qed.

(** [outcome] for all code in the scope of a middleware with fewer middlewares left *)
Definition outcomes (i d : nat) : Prop := forall p s q x k,
  stands s q (FRun p (Some i) :: k) -> sync p -> mws s !! i = Some x -> mw_ok x -> -1 <= index x ->
  Z.of_nat (length (middlewares x)) < 2 ^ 30 -> (left_over x <= d)%nat ->
  0 <= version q -> version q + Z.of_nat d < 2 ^ 31 - 1 ->
  outcome (Nat.min 1 (left_over x)) s q k.

(** Skip that passes the request on returns with the request recycled *)
Lemma run_skip n p s q i x k :
  sync_handler (postRouteHandler router) ->
  stands s q (FRun (PSkip n p) (Some i) :: k) -> mws s !! i = Some x -> mw_ok x ->
  -1 <= index x < Z.of_nat (length (middlewares x)) -> Z.of_nat (length (middlewares x)) < 2 ^ 30 ->
  1 <= n < 2 ^ 62 -> plain p -> 0 <= version q -> version q + Z.of_nat (left_over x) < 2 ^ 31 - 1 ->
  (forall d, (d < left_over x)%nat -> outcomes i d) ->
  exists s' q' k' l, recycles s s' q' k' l /\ ended k k' /\ (count is_handler l <= 1)%nat.
Proof.
  intros Hpost H Hx Hok Hi Hl Hn Hp Hv Hv' IH.
  assert (Hlo : (0 < left_over x)%nat) by (unfold left_over; lia).
  destruct (skip_calls s q n p i x k H Hx Hok) as
    (s1 & q1 & p1 & x1 & h & H1 & R1 & E1 & P1 & V1 & Y1 & X1 & O1 & I1 & L1 & D1 & U1 & W1 & C1); try lia.
  assert (Ho : outcome (Nat.min 1 (left_over x1)) s1 q1
             (FExecDefer (version q + 1) :: FRecycle (version q + 1) :: FRun p (Some i) :: k)).
  { eapply (IH (left_over x1)); eauto; lia. }
  destruct (outcome_closed _ _ _ _ _ Ho V1) as (s2 & q2 & k2 & l2 & H2 & He2 & C2); [lia|done|].
  destruct (after_skip p _ s2 q2 k k2 (rc_stands _ _ _ _ _ H2) He2 Hp) as (s3 & k3 & l3 & H3 & He3 & N3).
  destruct (noise_counts _ N3) as (N3a & N3b & N3c).
  exists s3, q2, k3, ([h] ++ l2 ++ l3). split_and!; [|done|rewrite !count_happenings_app, N3c; lia].
  eapply recycles_after; eauto. by eapply recycles_keeps.
Qed.

(** Code with a middleware in scope ends, by induction on the middlewares left
    and on the code. *)
Lemma run_mw d i : sync_handler (postRouteHandler router) -> outcomes i d.
Proof.
  intros Hpost. induction d as [d IHd] using (well_founded_induction lt_wf).
  unfold outcomes. intros p. induction p as [| |f p IH|u p IH|f b p IH|p IH|b IHb p IH|k0 IH|n p IH];
    intros s q x k H Hp Hx Hok Hi Hl Hd Hv Hv'; try done.
  - destruct (run_plain PReturn _ s q k H I) as (s' & k' & l & ? & ? & ?). by eapply outcome_ended.
  - destruct (run_plain PPanic _ s q k H I) as (s' & k' & l & ? & ? & ?). by eapply outcome_ended.
  - set (s1 := set_go t r (FRun p (Some i) :: k) (say (HDo f r) s)).
    assert (H1 : keeps s s1 q q (FRun p (Some i) :: k) [HDo f r]).
    { eapply keeps_step; [exact H|reflexivity| |evolve|done|done]. destruct H. stand. }
    eapply outcome_after; [exact H1|done|]. eapply IH; eauto. apply H1.
  - destruct (run_change s q (with_uid u q) p _ k _ H eq_refl eq_refl) as (s1 & H1 & E1).
    eapply outcome_after; [exact H1|done|]. eapply IH; eauto; [apply H1|by rewrite E1].
  - destruct (run_change s q (Defer f b q) p _ k _ H eq_refl eq_refl) as (s1 & H1 & E1).
    eapply outcome_after; [exact H1|done|]. eapply IH; eauto; [apply H1|by rewrite E1].
  - destruct (run_change s q (Cancel q) p _ k _ H (version_Cancel q) eq_refl) as (s1 & H1 & E1).
    eapply outcome_after; [exact H1|done|]. eapply IH; eauto; rewrite ?version_Cancel; auto; [apply H1|by rewrite E1].
  - destruct Hp as [Hn Hp]. destruct (Z.le_gt_cases (Z.of_nat (length (middlewares x))) (index x)) as [Hend|Hmore].
    + destruct (keeps_go s q _ k (FRun p (Some i) :: k) H) as (s1 & H1 & _).
      { simpl. rewrite Hx. unfold Skip. by rewrite (proj2 (Z.leb_le _ _)) by lia. }
      destruct (run_plain p _ s1 q k (kp_stands _ _ _ _ _ _ H1) Hp) as (s' & k' & l & ? & ? & ?).
      eapply outcome_after; [exact H1|done|]. by eapply outcome_ended.
    + assert (Hlo : (0 < left_over x)%nat) by (unfold left_over; lia).
      destruct (run_skip n p s q i x k) as (s' & q' & k' & l & H' & He & C); auto; try lia.
      { intros d' Hd'. apply IHd. lia. }
      exists s', q', k', l. split_and!; [done|lia|by right].
Qed.

(** a panic that nothing recovers ends the program *)
Lemma panic_crashes s q : stands s q [FPanic] -> exists s', reaches s s' /\ crashed s' = true /\
  stack_of_go t s' = [] /\ reqPool s' = reqPool s /\ reqs s' = reqs s /\ n_log s' = n_log s.
Proof.
  intros H. exists (crash (set_go t r [] s)). split_and!; try done.
  - apply reaches_step. by eapply step_stands.
  - unfold stack_of_go. simpl. by rewrite lookup_insert_eq.
Qed.
End Alone.
