(* ===== verification/RouterClaims.v ===== *)
(** What the router promises about requests and their objects, and where the
    versions that guard the objects fail. *)
From stdpp Require Import base numbers list gmap strings.
From Stdlib Require Import ZArith Lia.
From S2P Require Import Prelude Types Nocopy Packet Link Proxy Context Router RouterOk.
Import Request.

Open Scope Z_scope.

(** the middlewares of a request: those of the router, then those of the route *)
Definition combined (router : Router) (e : option routeEntity) : list (option handler) :=
  requestMiddlewares router ++ match e with Some e => Middlewares (e_options e) | None => [] end.

Definition few_middlewares (router : Router) : Prop :=
  forall e, (e = None \/ exists route, routes router !! route = e) ->
    Z.of_nat (length (combined router e)) < 2 ^ 30.

(** a node at work whose goroutine is free and has [r] before it *)
Record ready (s : node) (r : nat) (rest : list nat) (q : request) : Prop := {
  rd_up : crashed s = false;
  rd_idle : stack_of_go 0 s = [];
  rd_chan : reqChan s = r :: rest;
  rd_req : reqs s !! r = Some q;
  rd_version : version q = 0
}.

(** the goroutine is through with [r] *)
Record served (router : Router) (hasStore : bool) (s s1 s' : node) (r : nat) (q' : request)
    (l : list happening) : Prop := {
  sv_ends : exists n, drive router hasStore n 0 s1 = Some s';
  sv_idle : stack_of_go 0 s' = [];
  sv_req : reqs s' !! r = Some q';
  sv_cleared : cleared q';
  sv_pool : reqPool s' = reqPool s ++ [r];
  sv_log : n_log s' = n_log s ++ l;
  sv_puts : count (is_put r) l = 1%nat;
  sv_posts : count is_post l = posts router;
  sv_handler : (count is_handler l <= 1)%nat
}.

Section Handle.
Context (router : Router) (hasStore : bool) (r : nat).
Context (Hsync : sync_router router) (Hfew : few_middlewares router).

Lemma sync_mws e :
  (e = None \/ exists route, routes router !! route = e) ->
  Forall sync_handler (combined router e) /\
  sync_handler (match e with Some e => e_handler e | None => defaultRouteHandler router end).
Proof.
  intros He. unfold combined. pose proof (sync_request _ Hsync). destruct e as [e|].
  - destruct He as [|[route He]]; [done|]. destruct (sync_routes _ Hsync _ _ He).
    split; [by apply Forall_app|done].
  - split; [by rewrite app_nil_r|apply Hsync].
Qed.

(** from the end of the pre-route handler on *)
Lemma handle_route_served s q v e :
  stands 0 r s q [FHandler v e] -> (e = None \/ exists route, routes router !! route = e) ->
  version q = v -> 0 < v < 2 ^ 20 ->
  exists s' q' k' l, recycles router hasStore 0 r s s' q' k' l /\ (count is_handler l <= 1)%nat /\
    (k' = [] \/ k' = [FPanic] /\ combined router e <> []).
Proof.
  intros H He Hv Hb. destruct (sync_mws e He) as [Hm Hh]. pose proof (Hfew e He) as Hlen.
  destruct (combined router e) as [|h0 hs] eqn:Hc; unfold combined in Hc.
  - set (h := match e with Some e => e_handler e | None => defaultRouteHandler router end) in *.
    set (s1 := set_go 0 r (FRun (call_handler h q) None :: FRecover :: FExecDefer v :: FRecycle v :: [])
                 (say (HCall CHandler r q) s)).
    assert (H1 : keeps router hasStore 0 r s s1 q q
                   (FRun (call_handler h q) None :: FRecover :: FExecDefer v :: FRecycle v :: [])
                   [HCall CHandler r q]).
    { eapply keeps_step; [exact H| | | |done|done].
      - simpl. unfold handle_route. fold h. by rewrite Hc.
      - destruct H. constructor; simpl; rewrite ?lookup_insert_eq; auto.
      - constructor; simpl; auto. intros. by rewrite lookup_insert_ne. }
    destruct (run_recovered router hasStore 0 r _ s1 q _ (kp_stands _ _ _ _ _ _ _ _ _ _ H1) (Hh q))
      as (s2 & q2 & l2 & H2 & N2). destruct (noise_counts _ N2) as (C1 & C2 & C3).
    pose proof (holding_trans _ _ _ _ _ _ _ _ _ _ _ _ _ _ H1 H2) as H12.
    destruct (closing_return router hasStore 0 r v s2 q2 [] (kp_stands _ _ _ _ _ _ _ _ _ _ H2))
      as (s3 & q3 & l3 & H3 & C4); [by rewrite (kp_version _ _ _ _ _ _ _ _ _ _ H2)|apply Hsync|].
    exists s3, q3, [], (([HCall CHandler r q] ++ l2) ++ l3). split_and!; [|rewrite !count_happenings_app, C3, C4; done|by left].
    eapply keeps_recycles; [exact H12| | |exact H3]; rewrite count_happenings_app; simpl; by rewrite ?C1, ?C2.
  - set (m := base.fresh (dom (mws s))).
    set (h := match e with Some e => e_handler e | None => defaultRouteHandler router end) in *.
    set (x := mkMiddleware (-1) (h0 :: hs) h).
    set (s1 := set_go 0 r [FRun (PSkip 1 PReturn) (Some m)] (set_mw m x s)).
    assert (H1 : keeps router hasStore 0 r s s1 q q [FRun (PSkip 1 PReturn) (Some m)] []).
    { eapply keeps_step; [exact H| | | |done|done].
      - simpl. unfold handle_route. fold h. by rewrite Hc.
      - destruct H. constructor; simpl; rewrite ?lookup_insert_eq; auto.
      - constructor; simpl; rewrite ?app_nil_r; auto. intros. by rewrite lookup_insert_ne. }
    assert (Hx : mws s1 !! m = Some x) by (simpl; by rewrite lookup_insert_eq).
    destruct (run_skip router hasStore 0 r 1 PReturn s1 q m x []) as (s2 & q2 & k2 & l2 & H2 & He2 & C2);
      try done; try apply H1; try apply Hsync; try (unfold left_over); cbn [middlewares index x]; try lia.
    { intros d _. apply run_mw, Hsync. }
    exists s2, q2, k2, ([] ++ l2). split_and!; [by eapply keeps_recycles|done|].
    destruct He2 as [-> | ->]; [by left|by right].
Qed.

(** the end of a run: the goroutine is free, or its panic ended the program *)
Lemma served_finish (C : Prop) s s1 s' q' k' l0 l :
  recycles router hasStore 0 r s1 s' q' k' l -> (count is_handler l <= 1)%nat ->
  (k' = [] \/ k' = [FPanic] /\ C) ->
  n_log s1 = n_log s ++ l0 -> reqPool s1 = reqPool s ->
  count (is_put r) l0 = 0%nat -> count is_post l0 = 0%nat -> count is_handler l0 = 0%nat ->
  exists s2, served router hasStore s s1 s2 r q' (l0 ++ l) /\ (crashed s2 = true -> C).
Proof.
  intros H Hn Hk Hlog Hpool P1 P2 P3.
  assert (Hl : n_log s' = n_log s ++ l0 ++ l).
  { by rewrite (ev_log _ _ _ _ _ (rc_evolves _ _ _ _ _ _ _ _ _ H)), Hlog, app_assoc. }
  assert (Hp : reqPool s' = reqPool s ++ [r]) by (by rewrite (rc_pool _ _ _ _ _ _ _ _ _ H), Hpool).
  pose proof (rc_stands _ _ _ _ _ _ _ _ _ H) as Hst.
  destruct Hk as [-> | [-> HC]].
  - exists s'. split; [|intros Hcr; by rewrite (st_up _ _ _ _ _ Hst) in Hcr].
    constructor; rewrite ?count_happenings_app, ?P1, ?P2, ?P3; try done; try apply H.
    unfold stack_of_go. by rewrite (st_go _ _ _ _ _ Hst).
  - destruct (panic_crashes router hasStore 0 r s' q' Hst) as (s2 & R2 & _ & K2 & E1 & E2 & E3).
    exists s2. split; [|done].
    constructor; rewrite ?count_happenings_app, ?P1, ?P2, ?P3, ?E1, ?E2, ?E3; try done; try apply H; try (by apply Hst).
    exact (reaches_trans router hasStore 0 s1 s' s2 (rc_reaches _ _ _ _ _ _ _ _ _ H) R2).
Qed.

(** after the decision to handle a request: the pre-route handler and the rest *)
Lemma go_served s s1 q v e k l0 :
  stands 0 r s1 q k -> n_log s1 = n_log s ++ l0 -> reqPool s1 = reqPool s ->
  k = [FHandler v e] \/ (exists p, preRouteHandler router = Some p /\
                         k = [FRun (p q) None; FRecover; FHandler v e]) ->
  (e = None \/ exists route, routes router !! route = e) -> version q = v -> 0 < v < 2 ^ 20 ->
  count (is_put r) l0 = 0%nat -> count is_post l0 = 0%nat -> count is_handler l0 = 0%nat ->
  exists s' q' l, served router hasStore s s1 s' r q' l /\ (crashed s' = true -> combined router e <> []).
Proof.
  intros H Hlog Hpool Hk He Hv Hb P1 P2 P3.
  assert (exists s2 q2 l2, keeps router hasStore 0 r s1 s2 q q2 [FHandler v e] l2 /\ noise l2)
    as (s2 & q2 & l2 & H2 & N2).
  { destruct Hk as [-> | (p & Hp & ->)].
    - exists s1, q, []. split; [|done].
      constructor; auto using reaches_refl, evolves_refl.
    - apply (run_recovered router hasStore 0 r (p q) s1 q [FHandler v e] H).
      pose proof (sync_pre _ Hsync q) as Hs. by rewrite Hp in Hs. }
  destruct (noise_counts _ N2) as (C1 & C2 & C3).
  destruct (handle_route_served s2 q2 v e (kp_stands _ _ _ _ _ _ _ _ _ _ H2) He)
    as (s3 & q3 & k3 & l3 & H3 & C4 & Hk3); [by rewrite (kp_version _ _ _ _ _ _ _ _ _ _ H2)|done|].
  destruct (served_finish (combined router e <> []) s s1 s3 q3 k3 l0 (l2 ++ l3)) as (s4 & Hs & Hc); auto.
  - by eapply keeps_recycles.
  - by rewrite count_happenings_app, C3.
  - by eauto.
Qed.

(** *** The first step: the request is taken off the channel *)

(** the state after the decision, with the calls made by then *)
Definition taken (s : node) (rest : list nat) (q1 : request) (k : list frame) (l0 : list happening) : node :=
  set_go 0 r k (fold_right say (set_chan rest (set_req r q1 s)) l0).

Lemma taken_stands s rest q1 k l0 : crashed s = false -> stands 0 r (taken s rest q1 k l0) q1 k.
Proof.
  intros Hup. constructor; simpl; rewrite ?lookup_insert_eq; auto.
  - induction l0; simpl; [by rewrite lookup_insert_eq|done].
  - by induction l0.
Qed.

(** a request that is refused goes straight back to the pool *)
Lemma refused_served s rest q1 :
  crashed s = false ->
  exists s' q' l, served router hasStore s (taken s rest q1 [FRecycle (version q1)] []) s' r q' l /\
    crashed s' = false /\ count is_app l = 0%nat.
Proof.
  intros Hup. pose proof (taken_stands s rest q1 [FRecycle (version q1)] [] Hup) as Hst.
  destruct (recycle router hasStore 0 r (version q1) _ q1 [] Hst) as (s' & q' & l & H & C);
    [done|apply Hsync|].
  destruct (served_finish False s _ s' q' [] [] l H) as (s2 & Hs & Hc); auto;
    [by rewrite (no_app_no_handler _ C); lia|by rewrite app_nil_r|].
  exists s2, q', l. split_and!; [done| |done]. destruct (crashed s2); [by destruct Hc|done].
Qed.

Definition go_frames (q1 : request) (e : option routeEntity) : list frame :=
  match preRouteHandler router with
  | Some p => [FRun (p q1) None; FRecover; FHandler (version q1) e]
  | None => [FHandler (version q1) e]
  end.

Definition pre_call (q1 : request) : list happening :=
  match preRouteHandler router with Some _ => [HCall CPre r q1] | None => [] end.

Lemma accepted_served s rest q1 e :
  crashed s = false -> version q1 = 1 -> (e = None \/ exists route, routes router !! route = e) ->
  exists s' q' l, served router hasStore s (taken s rest q1 (go_frames q1 e) (pre_call q1)) s' r q' l /\
    (crashed s' = true -> combined router e <> []).
Proof.
  intros Hup Hv He. pose proof (taken_stands s rest q1 (go_frames q1 e) (pre_call q1) Hup) as Hst.
  unfold go_frames, pre_call in *. destruct (preRouteHandler router) as [p|] eqn:Hp.
  - eapply (go_served s _ q1 (version q1) e _ _ Hst); rewrite ?Hv; auto; try lia. right. eauto.
  - eapply (go_served s _ q1 (version q1) e _ [] Hst); rewrite ?Hv, ?app_nil_r; auto; lia.
Qed.

(** what the first step decides *)
Definition accepts (current : Z -> res (option Token)) (q1 : request) : option (option routeEntity) :=
  match routes router !! Route q1 with
  | Some e => match validateSession hasStore current q1 e with Ok _ => Some (Some e) | _ => None end
  | None => match defaultRouteHandler router with Some _ => Some None | None => None end
  end.

Lemma begin_taken s rest q current :
  ready s r rest q -> (forall u, current u <> Panic) ->
  exists q1, incrVersion q = q1 /\ version q1 = 1 /\
    step router hasStore 0 (XHandle current) s =
    Some (match accepts current q1 with
          | Some e => taken s rest q1 (go_frames q1 e) (pre_call q1)
          | None => taken s rest q1 [FRecycle (version q1)] []
          end).
Proof.
  intros [Hup Hidle Hchan Hreq Hver] Hcur. destruct (incr_version q) as (q1 & Hq1 & Hv1); [lia|].
  exists q1. split_and!; [done|lia|]. unfold step. rewrite Hup, Hidle. unfold Router.begin.
  rewrite Hchan, Hreq. simpl. unfold handle, accepts. rewrite Hq1. fold (go_frames q1).
  assert (Hgo : forall e, match go_frames q1 e, preRouteHandler router with
                     | FRun _ _ :: _, Some _ => say (HCall CPre r q1) (set_chan rest (set_req r q1 s))
                     | _, _ => set_chan rest (set_req r q1 s)
                     end = fold_right say (set_chan rest (set_req r q1 s)) (pre_call q1)).
  { intros e. unfold go_frames, pre_call. by destruct (preRouteHandler router). }
  destruct (routes router !! Route q1) as [e|]; [|destruct (defaultRouteHandler router)].
  - destruct (validateSession hasStore current q1 e) as [[]|err|] eqn:Hval.
    + fold (go_frames q1 (Some e)). by rewrite Hgo.
    + done.
    + exfalso. revert Hval. unfold validateSession. specialize (Hcur (uid q1)). repeat case_match; done.
  - fold (go_frames q1 None). by rewrite Hgo.
  - done.
Qed.


End Handle.

(** ** Schedules *)

Definition at_work : Waits.waits := Waits.mkWaits Cluster.Work 0 0.

(** a request of a user, who is connected to gate g1, for a route *)
Definition client (r : nat) (u route : Z) : nat * action :=
  (9%nat, XDeliver r [] "g1" "" "" (u + 10) u (mkToken u 1) (Link.mkMessage 1 route (Link.Raw [1; 2]))).
Definition take : nat * action := (0%nat, XHandle (fun _ => Ok None)).
Definition steps (t n : nat) : list (nat * action) := repeat (t, XRun) n.

(** routes 7 and 8, the first with middlewares of its own *)
Definition two_routes (mws local : list (option handler)) (h : prog) : Router :=
  mkRouter {[ 7 := mkRouteEntity 7 (Some (fun _ => h)) (mkRouteOptions false false false local);
              8 := mkRouteEntity 8 (Some (fun _ => h)) no_options ]} None None None mws.

(** the users the route's handler was called for *)
Definition served_users (l : list happening) : list Z :=
  omap (fun h => match h with HCall CHandler _ q => Some (uid q) | _ => None end) l.

(** A panic of a handler ends the node when there is any middleware, since Skip
    calls the handler without xcall; without middlewares it is recovered and
    the request recycled. *)
Theorem middleware_panic_ends_node :
  (exists s, run (two_routes [] [Some (fun _ => PSkip 1 PReturn)] PPanic) false
               ([client 1 5 7; take] ++ steps 0 20) (new_node at_work) = Some s /\ crashed s = true) /\
  (exists s, run (two_routes [] [Some (fun _ => PSkip 1 PReturn)] PPanic) false
               ([client 1 5 8; take] ++ steps 0 8) (new_node at_work) = Some s /\
             crashed s = false /\ stack_of_go 0 s = [] /\ reqPool s = [1%nat]).
Proof. split; eexists; (split; [vm_compute; reflexivity|]); by vm_compute. Qed.

(** Next of a middleware returns with the request already back in the pool.  A
    call the middleware defers then is made in the name of the next user whose
    request gets the object. *)
Theorem deferred_call_crosses_requests :
  let router := two_routes [] [Some (fun _ => PSkip 1 (PDefer 42 false PReturn))] PReturn in
  exists s1 s2 q,
    run router false ([client 1 5 7; take] ++ steps 0 11) (new_node at_work) = Some s1 /\
    reqPool s1 = [1%nat] /\ hd_error (stack_of_go 0 s1) = Some (FRun (PDefer 42 false PReturn) (Some 0%nat)) /\
    run router false ([client 1 5 7; take] ++ steps 0 16 ++ [client 1 6 8; take] ++ steps 0 9)
      (new_node at_work) = Some s2 /\
    n_log s2 !! 4%nat = Some (HFired 42 1 q) /\ uid q = 6.
Proof.
  eexists _, _, _. split_and!; [vm_compute; reflexivity|reflexivity|reflexivity|vm_compute; reflexivity|..];
    reflexivity.
Qed.

(** two guards, each of which goes on in a task *)
Definition guarded : Router :=
  let guard := Some (fun _ : request => PTask (PSkip 1 PReturn) PReturn) in
  two_routes [guard; guard] [] PReturn.

(** user 5 is served, except for the end of the first task; then user 6 comes,
    and only then the first task's goroutine goes on *)
Definition overtaken : list (nat * action) :=
  [client 1 5 7; take] ++ steps 0 9 ++ steps 1 4 ++ steps 2 13
  ++ [client 1 6 7; take] ++ steps 0 9 ++ steps 1 11.

(** Versions start again at 0 with every use of an object, so a goroutine that
    still holds the version of an earlier request recycles a later one.  With
    two guards that use Task: the object of user 6 is in the pool while the
    task of user 6 has not run, and when user 7's request gets the object, the
    guards of user 6 let the handler run for user 7. *)
Theorem stale_task_recycles_live_request :
  exists s1 s2,
    run guarded false overtaken (new_node at_work) = Some s1 /\
    reqPool s1 = [1%nat] /\ served_users (n_log s1) = [5] /\
    gos s1 !! 3%nat = Some (mkGo 1 [FRun (PSkip 1 PReturn) (Some 1%nat); FExecDefer 3; FRecycle 3; FDone; FRecover]) /\
    run guarded false ([client 1 7 7; take] ++ steps 0 9 ++ steps 3 4 ++ steps 5 2) s1 = Some s2 /\
    served_users (n_log s2) = [5; 7] /\
    gos s2 !! 4%nat = Some (mkGo 1 [FRun (PSkip 1 PReturn) (Some 2%nat); FExecDefer 3; FRecycle 3; FDone; FRecover]).
Proof.
  eexists _, _. split_and!; [vm_compute; reflexivity|reflexivity|reflexivity|vm_compute; reflexivity|
    vm_compute; reflexivity|reflexivity|vm_compute; reflexivity].
Qed.

(** ** Answers that go astray *)

(** Deliver of an actor takes a pooled object and sets neither the gate nor the
    connection nor the token.  When the object last carried a request from a
    gate, the answer to the actor's message is pushed to that client. *)
Theorem actor_delivery_answers_stranger id a r u m s q p s' answer :
  remove_one r (reqPool s) = Some p -> reqs s !! r = Some q -> gid q <> ""%string ->
  ActorDeliver id a r true u m s = Some s' ->
  exists q', reqs s' !! r = Some q' /\ uid q' = u /\ r ∈ default [] (mail s' !! a) /\
    reply_target id answer q'
    = ToGate (Proxy.mkPushArgs (gid q) Types.Kind.Conn (cid q) (token q) answer false false).
Proof.
  intros Hp Hq Hg H. unfold ActorDeliver, get_request in H. rewrite Hp, Hq in H.
  unfold actor_next in H. case_match; [|done]. simplify_eq. simpl.
  eexists. rewrite !lookup_insert_eq. split_and!; [done| | |].
  - by destruct (chain q).
  - simpl. set_solver.
  - unfold reply_target, Cancel. simpl. destruct (chain q); simpl; by rewrite bool_decide_true.
Qed.

(** Clone does not copy the sender's PID.  The answer to a clone of a request
    that an actor of this node sent is dropped without an error, where the
    answer to the request itself goes to the actor. *)
Theorem clone_reply_lost id capacity locator answers packer malloc Marshal Encryptor rand deliver m q p :
  id <> ""%string -> gid q = ""%string -> pid q <> ""%string -> nid q = id ->
  reply_target id m q = ToActor (pid q) /\
  Reply id capacity locator answers packer malloc Marshal Encryptor rand deliver m (Clone q) p = (Ok tt, p).
Proof.
  intros Hi Hg Hp Hn. assert (Hno : bool_decide (""%string <> ""%string) = false) by done.
  unfold Reply, reply_target. simpl. rewrite Hg, Hn, Hno, (bool_decide_true (pid q <> ""%string)) by done.
  split; [done|]. by rewrite (bool_decide_true (id = id)), (bool_decide_true (id <> ""%string)) by done.
Qed.

(** ** Witnesses *)

Lemma two_routes_sync mws local h :
  Forall sync_handler mws -> Forall sync_handler local -> sync h -> sync_router (two_routes mws local h).
Proof.
  intros Hm Hl Hh. constructor; try done. intros route e He. simpl in He.
  apply lookup_insert_Some in He as [[_ <-]|[_ He]]; [split; [by intros q|done]|].
  apply lookup_singleton_Some in He as [_ <-]. split; [by intros q|constructor].
Qed.

Lemma two_routes_few mws local h :
  Z.of_nat (length mws + length local) < 2 ^ 30 -> few_middlewares (two_routes mws local h).
Proof.
  intros Hn e [-> | [route He]]; unfold combined; rewrite length_app; simpl; [lia|].
  simpl in He. destruct e as [e|]; [|simpl; lia].
  apply lookup_insert_Some in He as [[_ <-]|[_ He]]; [simpl; lia|].
  apply lookup_singleton_Some in He as [_ <-]. simpl. lia.
Qed.

(** a guard that logs what follows, and a state with one request *)
Definition logging : option handler := Some (fun _ => PDefer 1 false (PSkip 1 (PDo 3 PReturn))).
Definition waiting : node :=
  match run newRouter false [client 1 5 7] (new_node at_work) with Some s => s | None => new_node at_work end.
Definition first_request : request :=
  mkRequest [] "g1" "" "" 15 5 (mkToken 5 1) (Link.mkMessage 1 7 (Link.Raw [1; 2])) 0 None None.

Lemma waiting_ready : ready waiting 1 [] first_request.
Proof. constructor; by vm_compute. Qed.


(** a router whose route is stateful, and a store in which the user has moved on *)
Definition stateful_route : Router :=
  mkRouter {[ 7 := mkRouteEntity 7 (Some (fun _ => PReturn)) (mkRouteOptions false true false []) ]}
    None None None [].

Lemma stateful_route_sync : sync_router stateful_route.
Proof.
  constructor; try done. intros route e He. simpl in He.
  apply lookup_singleton_Some in He as [_ <-]. by repeat constructor.
Qed.

Lemma stateful_route_few : few_middlewares stateful_route.
Proof.
  intros e [-> | [route He]]; [done|]. destruct e as [e|]; [|done].
  simpl in He. by apply lookup_singleton_Some in He as [_ <-].
Qed.


(** the object of user 5's request, recycled *)
Definition recycled : node :=
  match run (two_routes [] [] PReturn) false ([client 1 5 7; take] ++ steps 0 8) (new_node at_work) with
  | Some s => s
  | None => new_node at_work
  end.

Lemma actor_delivery_answers_stranger_witness :
  let m := Link.mkMessage 2 30 (Link.Raw [9]) in
  reqPool recycled = [1%nat] /\
  exists s' q', ActorDeliver "n1" 4 1 true 88 m recycled = Some s' /\ reqs s' !! 1%nat = Some q' /\
    uid q' = 88 /\ 1%nat ∈ default [] (mail s' !! 4%nat) /\
    reply_target "n1" m q' = ToGate (mkPushArgs "g1" Types.Kind.Conn 15 zero_token m false false).
Proof.
  split; [by vm_compute|].
  destruct (ActorDeliver "n1" 4 1 true 88 (Link.mkMessage 2 30 (Link.Raw [9])) recycled) as [s'|] eqn:E;
    [|by vm_compute in E].
  destruct (reqs recycled !! 1%nat) as [q|] eqn:Hq; [|by vm_compute in Hq].
  exists s'. destruct (actor_delivery_answers_stranger "n1" 4 1 88 (Link.mkMessage 2 30 (Link.Raw [9])) recycled q []
    s' (Link.mkMessage 2 30 (Link.Raw [9]))) as (q' & H1 & H2 & H3 & H4);
    [by vm_compute|exact Hq|vm_compute in Hq; by simplify_eq|exact E|].
  exists q'. split_and!; auto. rewrite H4. vm_compute in Hq. by simplify_eq.
Defined.

Lemma clone_reply_lost_witness :
  let q := mkRequest [] "" "n1" "room/1" 0 5 zero_token (Link.mkMessage 1 7 Link.Nil) 1 None None in
  let m := Link.mkMessage 2 30 (Link.Raw [9]) in
  match Proxy.newProxy "n1" 0 true NocopyBuffer.empty with
  | Ok p =>
      reply_target "n1" m q = ToActor "room/1" /\
      Reply "n1" 0 true (fun A _ _ => Err ErrUnknownError) Packet.example_packer
        (fun _ => WriterPool.new_at 3) (fun v => Ok [v]) None (fun _ _ => 0) (fun _ _ _ => None) m (Clone q) p
      = (Ok tt, p)
  | _ => False
  end.
Proof.
  destruct (Proxy.newProxy "n1" 0 true NocopyBuffer.empty) as [p|e|] eqn:E; [|by vm_compute in E..].
  apply (clone_reply_lost "n1"); [discriminate|reflexivity|discriminate|reflexivity].
Defined.
