(* ===== verification/NodeServer.v ===== *)
(** internal/transporter/node: what a node offers to gates and other nodes.
    [NodeProvider] is the interface of provider.go; [NodeServer] the handlers of
    server.go, written against it; [NodeClient] the methods of client.go. *)
From stdpp Require Import base numbers list gmap.
From Stdlib Require Import ZArith Lia.
From S2P Require Import Prelude Binary Types Writer Nocopy Protocol Requests Responses Server GateServer Context.
Import Protocol.Protocol Requests.Requests Responses.Responses.

Open Scope Z_scope.
Open Scope go_scope.

(** identifiers and messages are bytes *)
Class NodeProvider (P : Type) := {
  node_Trigger : list Z -> Z -> Z -> Token -> Z -> ST P unit;
  node_Deliver : gocontext -> list Z -> list Z -> Z -> Z -> Token -> list Z -> ST P unit;
  node_GetState : ST P Z;
  node_SetState : Z -> ST P unit
}.

Module NodeServer.
Import Server.Server.
Section NodeServer.
Context {P : Type} `{NodeProvider P}.
Context (queue : list nbuf -> option error) (malloc : list nbuf -> Writer.Writer.Writer).

(** who is at the other end, as the handshake said *)
Definition peer : ST (Server P) (Z * list Z) := fun x => (Ok (InsKind (conn x), InsID (conn x)), x).

Definition trigger (data : list Z) : ST (Server P) unit :=
  let! (seq, event, cid, uid, generation) := st_lift (DecodeTriggerReq data) in
  let! (kind, id) := peer in
  if negb (kind =? Cluster.Gate) then st_err ErrIllegalRequest else
  let! r := st_try (on_provider (node_Trigger id cid uid (mkToken uid generation) event)) in
  if seq =? 0 then
    match err_of r with
    | None | Some ErrNotFoundSession => st_ret tt
    | Some e => st_err e
    end
  else Server.send queue malloc (fun w => EncodeTriggerRes w seq (ErrorToCode (err_of r))).

Definition deliver (data : list Z) : ST (Server P) unit :=
  let! (seq, cid, uid, generation, metadata, message) := st_lift (DecodeDeliverReqWithMetadata data) in
  let! (kind, id) := peer in
  if negb (kind =? Cluster.Gate) && negb (kind =? Cluster.Node) then st_err ErrIllegalRequest else
  let gid := if kind =? Cluster.Gate then id else [] in
  let nid := if kind =? Cluster.Gate then [] else id in
  let providerCtx := WithRequestMetadata (Some Background) metadata in
  let! r := st_try (on_provider (node_Deliver providerCtx gid nid cid uid (mkToken uid generation) message)) in
  Server.reply queue malloc seq (err_of r) (fun w => EncodeDeliverRes w seq (ErrorToCode (err_of r))).

(** these two answer whatever the sequence number is *)
Definition getState (data : list Z) : ST (Server P) unit :=
  let! seq := st_lift (DecodeGetStateReq data) in
  let! r := st_try (on_provider node_GetState) in
  Server.send queue malloc (fun w => EncodeGetStateRes w seq (ErrorToCode (err_of r)) (val_of 0 r)).

Definition setState (data : list Z) : ST (Server P) unit :=
  let! (seq, state) := st_lift (DecodeSetStateReq data) in
  let! r := st_try (on_provider (node_SetState state)) in
  Server.send queue malloc (fun w => EncodeSetStateRes w seq (ErrorToCode (err_of r))).

(** The table after NewServer and init *)
Definition init (r : Z) : option (list Z -> ST (Server P) unit) :=
  if r =? route Handshake then Some (handshake queue malloc)
  else if r =? route Trigger then Some trigger
  else if r =? route Deliver then Some deliver
  else if r =? route GetState then Some getState
  else if r =? route SetState then Some setState
  else None.
End NodeServer.
End NodeServer.

(** ** client.go *)

Module NodeClient.
Import GateClient.
Section Client.
Context {E : Type}.
Context (Call : Z -> nbuf -> ST E (list Z)).
Context (Send : nbuf -> list Z -> ST E unit).
Context (malloc : Z -> Writer.Writer.Writer).

(** a trigger and a delivery want no answer; the connection is picked by cid *)
Definition Trigger (event cid uid : Z) (token : Token) : ST (Client E) unit :=
  send Send (EncodeTriggerReq (malloc 0) 0 event cid uid (Generation token)) [cid].

Definition DeliverWithMetadata (cid uid : Z) (token : Token) (metadata : Cluster.RequestMetadata)
    (buf : mountable) : ST (Client E) unit :=
  send Send (EncodeDeliverReqWithMetadata (malloc 0) 0 cid uid (Generation token) metadata buf) [cid].

Definition Deliver (cid uid : Z) (token : Token) (buf : mountable) : ST (Client E) unit :=
  DeliverWithMetadata cid uid token Cluster.no_metadata buf.

Definition GetState : ST (Client E) Z :=
  let! seq := doGenSequence in
  let! res := call Call seq (EncodeGetStateReq (malloc seq) seq) in
  let! (code, state) := st_lift (DecodeGetStateRes res) in
  result code state.

Definition SetState (state : Z) : ST (Client E) unit :=
  let! seq := doGenSequence in
  let! res := call Call seq (EncodeSetStateReq (malloc seq) seq state) in
  let! code := st_lift (DecodeSetStateRes res) in
  result code tt.
End Client.
End NodeClient.
