(* ===== verification/NodeRpc.v ===== *)
(** What reaches a node: the requests of a stream are the calls made on the
    node's provider, in order, in the name of the peer that shook hands. *)
From stdpp Require Import base numbers list.
From Stdlib Require Import ZArith Lia.
From S2P Require Import Prelude Binary Types Writer Nocopy Packet Protocol Requests RequestCodec Responses ResponseCodec.
From S2P Require Import Server GateServer GateRpc Context NodeServer.
Import Protocol.Protocol.
Import Server.Server (Server, mkServer, provider, conn, chWrite, ConnClosed, ConnOpened).

Open Scope Z_scope.
Open Scope go_scope.

Section Node.
Context {P : Type} `{NodeProvider P}.

(** The provider's call for a request of a peer, or None when the handler
    refuses the request or has none for it *)
Definition node_call (kind : Z) (id : list Z) (q : request) : option (ST P reply) :=
  match q with
  | RTrigger e c u g =>
      if kind =? Cluster.Gate then Some (unit_call (node_Trigger id c u (mkToken u g) e)) else None
  | RDeliver c u g md m =>
      let ctx := WithRequestMetadata (Some Background) md in
      if kind =? Cluster.Gate then Some (unit_call (node_Deliver ctx id [] c u (mkToken u g) m))
      else if kind =? Cluster.Node then Some (unit_call (node_Deliver ctx [] id c u (mkToken u g) m))
      else None
  | RGetState => Some (st_map State node_GetState)
  | RSetState s => Some (unit_call (node_SetState s))
  | _ => None
  end.

(** the requests answered: state is reported whatever the sequence number *)
Definition wants_answer (seq : Z) (q : request) : bool :=
  match q with RGetState | RSetState _ => true | _ => negb (seq =? 0) end.

Fixpoint node_performs (kind : Z) (id : list Z) (qs : list (Z * request)) : ST P (list (reply + error)) :=
  match qs with
  | [] => st_ret []
  | (_, q) :: qs' =>
      match node_call kind id (received q) with
      | None => st_panic
      | Some m => let! r := st_try m in let! rs := node_performs kind id qs' in st_ret (r :: rs)
      end
  end.

Inductive node_answers : list (Z * request) -> list (reply + error) -> list nbuf -> Prop :=
| node_answers_nil : node_answers [] [] []
| node_answers_silent seq q qs r rs bs :
    wants_answer seq q = false -> node_answers qs rs bs -> node_answers ((seq, q) :: qs) (r :: rs) bs
| node_answers_reply seq q qs r rs w b bs :
    wants_answer seq q = true -> fresh w -> encode_res w seq (answer_of q r) = Ok b ->
    node_answers qs rs bs -> node_answers ((seq, q) :: qs) (r :: rs) (b :: bs).

Context (queue : list nbuf -> option error) (malloc : list nbuf -> Writer.Writer.Writer).
Context (now : list Z -> Z) (interrupted : list Z -> bool).

Abbreviation init := (NodeServer.init queue malloc).
Abbreviation read_step := (Server.read_step init now interrupted).
Abbreviation read := (Server.read init now interrupted).

(** What handling a request amounts to *)
Definition node_handled (seq : Z) (q : request) (out : res reply * P) (c : Server.Conn)
    (y : res unit * Server P) : Prop :=
  match as_sum out.1 with
  | None => y = (Panic, mkServer out.2 c)
  | Some r =>
      if wants_answer seq q
      then y = Server.send queue malloc (fun w => encode_res w seq (answer_of q r)) (mkServer out.2 c)
      else y.1 <> Panic /\ y.2 = mkServer out.2 c
  end.

Lemma send_ext (e1 e2 : Writer.Writer.Writer -> res nbuf) (x : Server P) :
  (forall w, e1 w = e2 w) -> Server.send queue malloc e1 x = Server.send queue malloc e2 x.
Proof. intros He. unfold Server.send, st_bind, Server.writer, st_lift. by rewrite He. Qed.

(** the call is made, then the handler answers or returns *)
Lemma node_handle_core {A} (m : ST P A) (f : A -> reply) seq q
    (k : A + error -> ST (Server P) unit) x :
  (forall p y, let r := match p with inl a => inl (f a) | inr e => inr e end in
     if wants_answer seq q
     then k p y = Server.send queue malloc (fun w => encode_res w seq (answer_of q r)) y
     else (k p y).1 <> Panic /\ (k p y).2 = y) ->
  node_handled seq q (st_map f m (provider x)) (conn x)
    ((let! r := st_try (Server.on_provider m) in k r) x).
Proof.
  intros Hk. unfold node_handled, st_map, st_bind, st_try, Server.on_provider.
  destruct (m (provider x)) as [[a|e|] p'] eqn:E; cbn [fst snd as_sum]; [| |done].
  - exact (Hk (inl a) (mkServer p' (conn x))).
  - exact (Hk (inr e) (mkServer p' (conn x))).
Qed.

(** answering with a code, or returning the error *)
Lemma reply_handled {A} (f : A -> reply) seq q (p : A + error) enc (y : Server P) :
  wants_answer seq q = negb (seq =? 0) ->
  (forall w, enc w = encode_res w seq (answer_of q match p with inl a => inl (f a) | inr e => inr e end)) ->
  if wants_answer seq q
  then Server.reply queue malloc seq (Server.err_of p) enc y
       = Server.send queue malloc (fun w => encode_res w seq (answer_of q match p with inl a => inl (f a) | inr e => inr e end)) y
  else (Server.reply queue malloc seq (Server.err_of p) enc y).1 <> Panic /\
       (Server.reply queue malloc seq (Server.err_of p) enc y).2 = y.
Proof.
  intros -> He. unfold Server.reply. destruct (seq =? 0); cbn [negb]; [by destruct p|by apply send_ext].
Qed.

Ltac decoded Hd :=
  unfold st_lift at 1, st_bind at 1;
  lazymatch type of Hd with
  | res_bind ?d _ = _ => destruct d eqn:?; cbn [res_bind] in Hd; [|done|done]
  end;
  repeat match type of Hd with context [let '(_, _) := ?p in _] => destruct p end;
  injection Hd; intros; subst; clear Hd.

(** a well-formed request of the peer is decoded and its call made *)
Lemma node_handle_request seq q m x :
  sendable seq q ->
  node_call (Server.InsKind (conn x)) (Server.InsID (conn x)) (received q) = Some m ->
  exists h, init (route (route_of q)) = Some h /\
    node_handled seq q (m (provider x)) (conn x) (h (wire seq q) x).
Proof.
  intros (Hs & Hok & Hlen) Hm. pose proof (decode_frame seq q Hs Hok Hlen) as Hd. fold (wire seq q) in Hd.
  destruct q; try discriminate Hm; cbn [received node_call] in Hm; (eexists; split; [reflexivity|]);
    cbn [route_of decode] in Hd.
  - destruct (Server.InsKind (conn x) =? Cluster.Gate) eqn:Hk; [|done]. apply (inj Some) in Hm as <-.
    unfold NodeServer.trigger. decoded Hd. unfold st_bind at 1, NodeServer.peer. rewrite Hk. cbn [negb].
    apply node_handle_core. intros p y. cbn [wants_answer]. destruct (seq =? 0); cbn [negb].
    + by destruct p as [|[]].
    + apply send_ext. intros w. by destruct p.
  - apply (inj Some) in Hm as <-. unfold NodeServer.getState. decoded Hd.
    apply node_handle_core. intros p y. apply send_ext. intros w. by destruct p.
  - apply (inj Some) in Hm as <-. unfold NodeServer.setState. decoded Hd.
    apply node_handle_core. intros p y. apply send_ext. intros w. by destruct p.
  - unfold NodeServer.deliver. decoded Hd. unfold st_bind at 1, NodeServer.peer.
    destruct (Server.InsKind (conn x) =? Cluster.Gate) eqn:Hk;
      [|destruct (Server.InsKind (conn x) =? Cluster.Node) eqn:Hn; [|done]];
      apply (inj Some) in Hm as <-; cbn [negb andb]; apply node_handle_core; intros p y;
      apply (reply_handled (fun _ => Done)); try done; intros w; by destruct p.
Qed.

(** ** The stream *)

Hypothesis queue_takes : forall h, queue h = None.
Hypothesis malloc_fresh : forall h, fresh (malloc h).
Hypothesis undisturbed : forall s, interrupted s = false.

Lemma node_send_ok seq p (y : Server P) :
  opened (conn y) ->
  exists b y', Server.send queue malloc (fun w => encode_res w seq p) y = (Ok tt, y') /\
    encode_res (malloc (chWrite (conn y))) seq p = Ok b /\
    provider y' = provider y /\
    conn y' = Server.mkConn (Server.state (conn y)) (chWrite (conn y) ++ [b])
                (Server.lastHeartbeatTime (conn y)) (Server.InsKind (conn y)) (Server.InsID (conn y)).
Proof.
  intros Ho. destruct (encode_res_total (malloc (chWrite (conn y))) seq p) as [b Eb]; [done|].
  unfold Server.send, st_bind, Server.writer, st_lift. rewrite Eb.
  unfold Server.on_conn, Server.Send. rewrite Ho. change (ConnOpened =? ConnClosed) with false.
  rewrite queue_takes. by eexists _, _.
Qed.

(** a frame of the stream in an open connection: its handler runs *)
Lemma read_frame seq q h x rest y :
  sendable seq q -> opened (conn x) -> init (route (route_of q)) = Some h ->
  h (wire seq q) (mkServer (provider x) (Server.touch (now rest) (conn x))) = y -> y.1 <> Panic ->
  read_step (wire seq q ++ rest) x = (Server.Continue, rest, y.2).
Proof.
  intros Hq Ho Hi Hy Hn. unfold Server.read_step. rewrite Ho.
  change (ConnOpened =? ConnClosed) with false. rewrite read_wire by done.
  rewrite undisturbed, Ho. change (ConnOpened =? ConnClosed) with false. cbv iota zeta.
  rewrite Hi, Hy. by destruct y as [[] ?].
Qed.

Definition peer_is (kind : Z) (id : list Z) (c : Server.Conn) : Prop :=
  opened c /\ Server.InsKind c = kind /\ Server.InsID c = id.

(** One turn of the loop serves one request. *)
Lemma node_step_request kind id seq q m x rest r p' :
  sendable seq q -> node_call kind id (received q) = Some m -> peer_is kind id (conn x) ->
  st_try m (provider x) = (Ok r, p') ->
  exists y, read_step (wire seq q ++ rest) x = (Server.Continue, rest, y) /\
    provider y = p' /\ peer_is kind id (conn y) /\
    if wants_answer seq q
    then exists b, chWrite (conn y) = chWrite (conn x) ++ [b] /\
           encode_res (malloc (chWrite (conn x))) seq (answer_of q r) = Ok b
    else chWrite (conn y) = chWrite (conn x).
Proof.
  intros Hq Hm (Ho & Hk & Hid) Hr. set (x1 := mkServer (provider x) (Server.touch (now rest) (conn x))).
  assert (node_call (Server.InsKind (conn x1)) (Server.InsID (conn x1)) (received q) = Some m) as Hm1
    by (by cbn; rewrite Hk, Hid).
  destruct (node_handle_request seq q m x1 Hq Hm1) as (h & Hi & Hh).
  assert (exists o, m (provider x) = (o, p') /\ as_sum o = Some r) as (o & Em & Es)
    by (unfold st_try in Hr; destruct (m (provider x)) as [[] ?]; simplify_eq; eauto).
  unfold node_handled in Hh. change (provider x1) with (provider x) in Hh. rewrite Em in Hh.
  cbn [fst snd] in Hh. rewrite Es in Hh. destruct (wants_answer seq q).
  - destruct (node_send_ok seq (answer_of q r) (mkServer p' (conn x1))) as (b & y & Ey & Eb & Hp & Hc); [done|].
    rewrite Ey in Hh. exists y. split_and!; [|done| |]; [|rewrite Hc; by split_and!|rewrite Hc; by exists b].
    pose proof (read_frame seq q h x rest (h (wire seq q) x1) Hq Ho Hi eq_refl) as Hrd.
    rewrite Hh in Hrd. by apply Hrd.
  - destruct Hh as [Hn Hy]. pose proof (read_frame seq q h x rest (h (wire seq q) x1) Hq Ho Hi eq_refl Hn) as Hrd.
    rewrite Hy in Hrd. eexists. split_and!; [exact Hrd|done|by split_and!|done].
Qed.

(** the handshake names the peer *)
Lemma node_step_handshake seq kind id x rest :
  sendable seq (RHandshake kind id) -> opened (conn x) ->
  exists y b, read_step (wire seq (RHandshake kind id) ++ rest) x = (Server.Continue, rest, y) /\
    provider y = provider x /\ peer_is kind id (conn y) /\
    chWrite (conn y) = chWrite (conn x) ++ [b] /\
    encode_res (malloc (chWrite (conn x))) seq (SHandshake OK) = Ok b.
Proof.
  intros Hq Ho. set (x1 := mkServer (provider x) (Server.touch (now rest) (conn x))).
  pose proof Hq as (Hs & Hok & Hlen). pose proof (decode_frame seq _ Hs Hok Hlen) as Hd.
  fold (wire seq (RHandshake kind id)) in Hd. cbn [route_of decode received] in Hd.
  set (c := conn x1). set (x2 := mkServer (provider x1)
    (Server.mkConn (Server.state c) (chWrite c) (Server.lastHeartbeatTime c) kind id)).
  destruct (node_send_ok seq (SHandshake OK) x2) as (b & y & Ey & Eb & Hp & Hc); [done|].
  assert (Hh : Server.handshake queue malloc (wire seq (RHandshake kind id)) x1 = (Ok tt, y)).
  { unfold Server.handshake. decoded Hd. unfold st_bind at 1, Server.on_conn.
    exact Ey. }
  exists y, b. rewrite (read_frame seq (RHandshake kind id) _ x rest _ Hq Ho eq_refl Hh); [|done].
  split_and!; [done|by rewrite Hp| |by rewrite Hc|done]. rewrite Hc. by split_and!.
Qed.

Lemma node_read_requests kind id qs : forall x rs p',
  peer_is kind id (conn x) -> Forall (fun '(seq, q) => sendable seq q) qs ->
  node_performs kind id qs (provider x) = (Ok rs, p') ->
  exists y bs, read (S (length qs)) (concat (map (fun '(seq, q) => wire seq q) qs)) x
      = Some (Server.Return, [], y) /\
    provider y = p' /\ Server.state (conn y) = ConnClosed /\
    chWrite (conn y) = chWrite (conn x) ++ bs /\ node_answers qs rs bs.
Proof.
  induction qs as [|[seq q] qs IH]; intros x rs p' Ho Hqs Hp.
  - cbn [node_performs] in Hp. unfold st_ret in Hp. simplify_eq. destruct Ho as [Ho _].
    destruct (close_opened (conn x) Ho) as [Hc1 Hc2].
    exists (mkServer (provider x) (Server.close (conn x))), []. cbn [length map concat Server.read].
    unfold Server.read_step. rewrite Ho. change (ConnOpened =? ConnClosed) with false. cbv iota.
    assert (ReadMessage [] = (Err EOF, [])) as -> by reflexivity. rewrite undisturbed.
    split_and!; [done|done|done|by rewrite app_nil_r|constructor].
  - apply Forall_cons in Hqs as [Hq Hqs]. cbn [node_performs] in Hp.
    destruct (node_call kind id (received q)) as [m|] eqn:Hm; [|done].
    unfold st_bind at 1 in Hp. destruct (st_try m (provider x)) as [[r| |] p1] eqn:Hr; try done.
    unfold st_bind in Hp. destruct (node_performs kind id qs p1) as [[rs'| |] p2] eqn:Hrs; try done.
    unfold st_ret in Hp. simplify_eq.
    destruct (node_step_request kind id seq q m x (concat (map (fun '(seq, q) => wire seq q) qs)) r p1)
      as (y & Ey & Hpy & Hoy & Hcy); try done.
    destruct (IH y rs' p') as (z & bs & Ez & ? & ? & Hcz & Ha); [done|done|by rewrite Hpy|].
    cbn [length]. change (read (S (S (length qs)))) with
      (fun s x => match read_step s x with (Server.Continue, s', x') => read (S (length qs)) s' x'
                  | r => Some r end). cbn [map concat]. cbv beta. rewrite Ey.
    destruct (wants_answer seq q) eqn:Hw.
    + destruct Hcy as (b & Hcy & Eb). exists z, (b :: bs).
      rewrite Hcz, Hcy, <- app_assoc. repeat (split; [done|]). by econstructor.
    + exists z, bs. rewrite <- Hcy. by repeat (split; [done|]); constructor.
Qed.
End Node.
