(* ===== verification/NodeLife.v ===== *)
(** cluster/node/node.go: the life of a node: Start, Close and Destroy, the
    hooks, the service instances it registers, and the work Close waits for.

    A goroutine is the list of what it still has to do ([stage]); a region under
    the node's lock, an access to the state and a call that leaves the node is
    one stage.  [exec t x s] is one step of goroutine [t]; steps of different
    goroutines interleave freely.  The servers, the registry and the functions
    of the application are called and logged; how such a call ends is the
    outcome [x]. *)
From stdpp Require Import base numbers list gmap strings.
From Stdlib Require Import ZArith Lia.
From S2P Require Import Prelude Types Dispatcher.
Import Registry (ServiceInstance, mkInstance).

Open Scope Z_scope.

Module NodeLife.

(** cluster.Hook *)
Definition HInit : Z := 0.
Definition HStart : Z := 1.
Definition HClose : Z := 2.
Definition HDestroy : Z := 3.

(** What leaves the node *)
Inductive called :=
| CLink | CTransport | CWatch | CDispatch | CHook (hook : Z) (f : nat)
| CRegister (x : ServiceInstance) | CDeregister (x : ServiceInstance)
| CStopLink | CStopTransport | CCloseRouter | CCloseTrigger | CCloseFns | CCancel
| CRun (f : nat) | CWon (hook : Z).

Inductive stage :=
(* Start *)
| StLink | StTransport | StInstances | StRegister | StWatch | StDispatch
(* Close *)
| StHangBusy | StStage (n : Z) | StRefresh | StWait
(* Destroy *)
| StDeregister | StStopLink | StStopTransport | StCloseRouter | StCloseTrigger | StCloseFns | StCancel
(* hooks: start the functions of one, wait for them, run one *)
| StHook (hook : Z) | StHookWait (g : nat) | StHookRun (hook : Z) (g : nat) (f : nat)
(* work: hand a function to fnChan, run accepted work, account for its end *)
| StSendFn (f : nat) | StRun (f : nat) | StDone
(* a timer that has not fired *)
| StAfterFunc (f : nat) | StAfterInvoke (f : nat)
(* dispatch: the part that receives from fnChan *)
| StLoop.

Record Node := mkNode {
  w : Waits.waits;
  closeStage : Z;
  instances : list ServiceInstance;
  metadata : option (gmap string string);
  hooks : gmap Z (list nat);
  groups : gmap nat Z;
  fnChan : list nat;
  fnClosed : bool;
  threads : gmap nat (list stage);
  log : list called;
  (* log.Fatalf, or a panic of a goroutine *)
  exited : bool
}.

Definition getState (s : Node) : Z := Waits.state (w s).

Definition set_w (x : Waits.waits) (s : Node) : Node :=
  mkNode x (closeStage s) (instances s) (metadata s) (hooks s) (groups s) (fnChan s) (fnClosed s)
    (threads s) (log s) (exited s).
Definition set_state (x : Z) (s : Node) : Node :=
  set_w (Waits.mkWaits x (Waits.wg (w s)) (Waits.pendingWork (w s))) s.
Definition set_closeStage (x : Z) (s : Node) : Node :=
  mkNode (w s) x (instances s) (metadata s) (hooks s) (groups s) (fnChan s) (fnClosed s) (threads s)
    (log s) (exited s).
Definition set_instances (x : list ServiceInstance) (md : option (gmap string string)) (s : Node) : Node :=
  mkNode (w s) (closeStage s) x md (hooks s) (groups s) (fnChan s) (fnClosed s) (threads s) (log s)
    (exited s).
Definition set_hooks (x : gmap Z (list nat)) (s : Node) : Node :=
  mkNode (w s) (closeStage s) (instances s) (metadata s) x (groups s) (fnChan s) (fnClosed s) (threads s)
    (log s) (exited s).
Definition set_group (g : nat) (n : Z) (s : Node) : Node :=
  mkNode (w s) (closeStage s) (instances s) (metadata s) (hooks s) (<[g := n]> (groups s)) (fnChan s)
    (fnClosed s) (threads s) (log s) (exited s).
Definition set_fns (x : list nat) (c : bool) (s : Node) : Node :=
  mkNode (w s) (closeStage s) (instances s) (metadata s) (hooks s) (groups s) x c (threads s) (log s)
    (exited s).
Definition goto (t : nat) (k : list stage) (s : Node) : Node :=
  mkNode (w s) (closeStage s) (instances s) (metadata s) (hooks s) (groups s) (fnChan s) (fnClosed s)
    (<[t := k]> (threads s)) (log s) (exited s).
Definition note (c : called) (s : Node) : Node :=
  mkNode (w s) (closeStage s) (instances s) (metadata s) (hooks s) (groups s) (fnChan s) (fnClosed s)
    (threads s) (log s ++ [c]) (exited s).
Definition exit (s : Node) : Node :=
  mkNode (w s) (closeStage s) (instances s) (metadata s) (hooks s) (groups s) (fnChan s) (fnClosed s)
    (threads s) (log s) true.

Definition NewNode (md : option (gmap string string)) : Node :=
  mkNode (Waits.mkWaits Cluster.Shut 0 0) 0 [] md ∅ ∅ [] false ∅ [] false.

(** What a node is configured with; the routes, events and services were added
    before Start *)
Record options := mkOptions {
  id : string; name : string; weight : Z;
  o_routes : list Registry.Route; o_events : list Z; o_services : list string;
  endpoint : string;
  (* the endpoint of the transport server, when a transporter is configured *)
  transport : option string
}.

Section Node.
Context (o : options).

(** *** Service instances *)
Definition instance_of (s : Node) : ServiceInstance :=
  mkInstance (id o) (Cluster.KindString Cluster.Node) (Cluster.KindString Cluster.Node) (name o)
    (Cluster.StateString (getState s)) (o_events o) (o_routes o) [] (endpoint o) (weight o) (metadata s).
Definition mesh_instance_of (ep : string) (s : Node) : ServiceInstance :=
  mkInstance (id o) (Cluster.KindString Cluster.Mesh) (Cluster.KindString Cluster.Mesh) (name o)
    (Cluster.StateString (getState s)) [] [] (o_services o) ep (weight o) (metadata s).

(** startTransportServer builds a server only when services were added *)
Definition transporter : option string :=
  match o_services o with [] => None | _ => transport o end.

(** registerServiceInstances, under the lock *)
Definition registerServiceInstances (s : Node) : Node :=
  set_instances
    (instances s ++ instance_of s :: match transporter with Some ep => [mesh_instance_of ep s] | None => [] end)
    (metadata s) s.

Definition with_State (st : string) (x : ServiceInstance) : ServiceInstance :=
  mkInstance (Registry.InsID x) (Registry.Name x) (Registry.Kind x) (Registry.Alias x) st
    (Registry.Events x) (Registry.Routes x) (Registry.Services x) (Registry.Endpoint x)
    (Registry.Weight x) (Registry.Metadata x).
Definition with_Metadata (md : option (gmap string string)) (x : ServiceInstance) : ServiceInstance :=
  mkInstance (Registry.InsID x) (Registry.Name x) (Registry.Kind x) (Registry.Alias x) (Registry.State x)
    (Registry.Events x) (Registry.Routes x) (Registry.Services x) (Registry.Endpoint x)
    (Registry.Weight x) md.

(** registerServiceInstanceSnapshots: every instance is sent *)
Definition register_all (s : Node) : Node := fold_left (fun s x => note (CRegister x) s) (instances s) s.

(** doRefreshServiceInstances *)
Definition doRefreshServiceInstances (s : Node) : Node :=
  register_all (set_instances (with_State (Cluster.StateString (getState s)) <$> instances s) (metadata s) s).

(** updateMetadata; an empty map changes nothing *)
Definition updateMetadata (md : gmap string string) (s : Node) : Node :=
  if bool_decide (md = ∅) then s else
  let md' := Some (md ∪ default ∅ (metadata s)) in
  register_all (set_instances (with_Metadata md' <$> instances s) md' s).

Definition deregisterServiceInstances (s : Node) : Node :=
  fold_left (fun s x => note (CDeregister x) s) (instances s) s.

(** *** Hooks *)
Definition addHookListener (hook : Z) (f : nat) (s : Node) : Node :=
  if (hook =? HDestroy) || (getState s =? Cluster.Shut)
  then set_hooks (<[hook := default [] (hooks s !! hook) ++ [f]]> (hooks s)) s
  else s.

Definition fresh_thread (s : Node) : nat := fresh (dom (threads s)).

(** runHookFunc: a goroutine for every function, and a group to wait for *)
Fixpoint start_hooks (hook : Z) (g : nat) (fs : list nat) (s : Node) : Node :=
  match fs with
  | [] => s
  | f :: fs' => start_hooks hook g fs' (goto (fresh_thread s) [StHookRun hook g f] s)
  end.

Definition runHookFunc (hook : Z) (t : nat) (k : list stage) (s : Node) : Node :=
  match hooks s !! hook with
  | None => goto t k s
  | Some fs =>
      let g := fresh (dom (groups s)) in
      start_hooks hook g fs (set_group g (Z.of_nat (length fs)) (goto t (StHookWait g :: k) s))
  end.

(** *** The calls of a container and of the application *)

(** how what a stage calls ends: normally, with an error, with a panic *)
Inductive outcome := XOk | XErr | XPanic.

Inductive action :=
| XInit | XStart | XClose | XDestroy
| XSetState (state : Z) | XUpdateMetadata (md : gmap string string)
| XHook (hook : Z) (f : nat)
(* Invoke of the proxy; work accepted by Task or Spawn; timers *)
| XInvoke (f : nat) | XWork (f : nat)
| XAfterFunc (f : nat) | XAfterInvoke (f : nat)
| XGo (x : outcome).

Definition Init (t : nat) (s : Node) : Node := goto t [StHook HInit] s.

Definition Start (t : nat) (s : Node) : Node :=
  if getState s =? Cluster.Shut then
    goto t [StLink; StTransport; StInstances; StRegister; StWatch; StDispatch; StHook HStart]
      (note (CWon HStart) (set_state Cluster.Work s))
  else s.

(** what Close does once it has set the state *)
Definition closing : list stage :=
  [StStage 1; StRefresh; StStage 2; StHook HClose; StStage 3; StWait; StStage 4].

(** the first compare-and-swap; the second is [StHangBusy] *)
Definition Close (t : nat) (s : Node) : Node :=
  if getState s =? Cluster.Work
  then goto t closing (note (CWon HClose) (set_state Cluster.Hang s))
  else goto t [StHangBusy] s.

Definition Destroy (t : nat) (s : Node) : Node :=
  if getState s =? Cluster.Hang then
    goto t [StHook HDestroy; StDeregister; StStopLink; StStopTransport; StCloseRouter; StCloseTrigger;
            StCloseFns; StCancel]
      (note (CWon HDestroy) (set_state Cluster.Shut s))
  else s.

Definition setState (t : nat) (state : Z) (s : Node) : Node := goto t [StRefresh] (set_state state s).

(** p.node.addWait(); p.node.fnChan <- fn *)
Definition Invoke (t : nat) (f : nat) (s : Node) : Node :=
  goto t [StSendFn f] (set_w (Waits.addWait (w s)) s).

(** addWait, the work, doneWait *)
Definition work (t : nat) (f : nat) (s : Node) : Node :=
  goto t [StRun f; StDone] (set_w (Waits.addWait (w s)) s).

(** a timer: from the call on a goroutine of its own waits for it *)
Definition AfterFunc (t : nat) (f : nat) (s : Node) : Node :=
  goto t [StAfterFunc f] (set_w (Waits.addWait (w s)) s).
Definition AfterInvoke (t : nat) (f : nat) (s : Node) : Node :=
  goto t [StAfterInvoke f] (set_w (Waits.addWait (w s)) s).

Definition begin (t : nat) (x : action) (s : Node) : option Node :=
  match x with
  | XInit => Some (Init t s)
  | XStart => Some (Start t s)
  | XClose => Some (Close t s)
  | XDestroy => Some (Destroy t s)
  | XSetState st => Some (setState t st s)
  | XUpdateMetadata md => Some (updateMetadata md s)
  | XHook h f => Some (addHookListener h f s)
  | XInvoke f => Some (Invoke t f s)
  | XWork f => Some (work t f s)
  | XAfterFunc f => Some (AfterFunc t f s)
  | XAfterInvoke f => Some (AfterInvoke t f s)
  | XGo _ => None
  end.

(** the queues the dispatch loop also receives from are closed by these *)
Definition receives_none (c : called) : bool :=
  match c with CCloseRouter | CCloseTrigger => true | _ => false end.

(** the next stage of goroutine [t]; [k] is what follows *)
Definition advance (t : nat) (st : stage) (k : list stage) (x : outcome) (s : Node) : option Node :=
  match st, x with
  (* log.Fatalf when a server cannot be created or the registry fails *)
  | StLink, XErr | StTransport, XErr | StRegister, XErr => Some (exit s)
  | StLink, XOk => Some (goto t k (note CLink s))
  | StTransport, XOk => Some (goto t k (match transporter with Some _ => note CTransport s | None => s end))
  | StInstances, XOk => Some (goto t k (registerServiceInstances s))
  | StRegister, XOk => Some (goto t k (register_all s))
  | StWatch, XOk => Some (goto t k (note CWatch s))
  | StDispatch, XOk => Some (goto (fresh_thread s) [StLoop] (goto t k (note CDispatch s)))
  | StHangBusy, XOk =>
      Some (if getState s =? Cluster.Busy
            then goto t (closing ++ k) (note (CWon HClose) (set_state Cluster.Hang s)) else goto t k s)
  | StStage n, XOk => Some (goto t k (set_closeStage n s))
  (* a refresh that fails is logged, or returned by setState *)
  | StRefresh, (XOk | XErr) => Some (goto t k (doRefreshServiceInstances s))
  | StWait, XOk => if Waits.wg (w s) =? 0 then Some (goto t k s) else None
  | StDeregister, (XOk | XErr) => Some (goto t k (deregisterServiceInstances s))
  | StStopLink, (XOk | XErr) => Some (goto t k (note CStopLink s))
  | StStopTransport, (XOk | XErr) =>
      Some (goto t k (match transporter with Some _ => note CStopTransport s | None => s end))
  | StCloseRouter, XOk => Some (goto t k (note CCloseRouter s))
  | StCloseTrigger, XOk => Some (goto t k (note CCloseTrigger s))
  | StCloseFns, XOk =>
      if fnClosed s then Some (exit s) else Some (goto t k (set_fns (fnChan s) true (note CCloseFns s)))
  | StCancel, XOk => Some (goto t k (note CCancel s))
  | StHook h, XOk => Some (runHookFunc h t k s)
  | StHookWait g, XOk => match groups s !! g with Some 0 => Some (goto t k s) | _ => None end
  (* xcall.Go recovers; wg.Done() comes after the call *)
  | StHookRun h g f, XOk =>
      match groups s !! g with
      | Some n => Some (goto t k (set_group g (n - 1) (note (CHook h f) s)))
      | None => None
      end
  | StHookRun h g f, XPanic => Some (goto t k (note (CHook h f) s))
  | StSendFn f, XOk =>
      if fnClosed s then Some (exit s) else
      if Z.of_nat (length (fnChan s)) <? 4096 then Some (goto t k (set_fns (fnChan s ++ [f]) false s)) else None
  | StRun f, (XOk | XPanic) => Some (goto t k (note (CRun f) s))
  | StDone, XOk =>
      match Waits.doneWait (w s) with Ok x => Some (goto t k (set_w x s)) | _ => Some (exit s) end
  (* the timer fires, or Timer.Stop comes first and accounts for it *)
  | StAfterFunc f, XOk => Some (goto t (StRun f :: StDone :: k) s)
  | StAfterInvoke f, XOk => Some (goto t (StSendFn f :: k) s)
  | StAfterFunc _, XErr | StAfterInvoke _, XErr => Some (goto t (StDone :: k) s)
  | StLoop, XOk =>
      match fnChan s with
      | f :: fs => Some (goto t (StRun f :: StDone :: StLoop :: k) (set_fns fs (fnClosed s) s))
      | [] => if fnClosed s then Some (goto t k s) else None
      end
  (* or the router or the trigger is found closed *)
  | StLoop, XErr => if existsb receives_none (log s) then Some (goto t k s) else None
  | _, _ => None
  end.

Definition exec (t : nat) (x : action) (s : Node) : option Node :=
  if exited s then None else
  match threads s !! t with
  | None | Some [] => begin t x s
  | Some (st :: k) => match x with XGo x => advance t st k x s | _ => None end
  end.

Inductive reachable (s0 : Node) : Node -> Prop :=
| reach_self : reachable s0 s0
| reach_exec s t x s' : reachable s0 s -> exec t x s = Some s' -> reachable s0 s'.

Fixpoint run (xs : list (nat * action)) (s : Node) : option Node :=
  match xs with
  | [] => Some s
  | (t, x) :: xs' => match exec t x s with Some s' => run xs' s' | None => None end
  end.
End Node.

(** ShutdownCloseStatus *)
Definition stage_name (n : Z) : string :=
  if n =? 1 then "registry-refresh" else if n =? 2 then "close-hooks" else if n =? 3 then "waitgroup"
  else if n =? 4 then "complete" else "not-started".

(** what the status is printed from; the sources owned are shown when there are any *)
Definition ShutdownCloseStatus (ownedSources : Z) (s : Node) : string * Z * option Z :=
  (stage_name (closeStage s), Waits.pendingWork (w s),
   if ownedSources =? 0 then None else Some ownedSources).
End NodeLife.
