(* ===== verification/NodeLifeOk.v ===== *)
(** The life of a node under any interleaving: what Close waits for, how often
    the phases are entered, and a hook that never comes back. *)
From stdpp Require Import base numbers list gmap strings.
From Stdlib Require Import ZArith Lia.
From S2P Require Import Prelude Types Threads Dispatcher NodeLife.
Import NodeLife.

Open Scope Z_scope.

(** ** Work that was accepted and is not over *)

(** what a stage owes the count *)
Definition owes (st : stage) : nat := match st with StSendFn _ | StDone | StAfterFunc _ | StAfterInvoke _ => 1 | _ => 0 end.
Fixpoint owed (k : list stage) : nat := match k with [] => 0 | st :: k' => (owes st + owed k')%nat end.

(** functions in fnChan are owed by the dispatch loop that will receive them *)
Definition pending (s : Node) : nat := (total owed (threads s) + length (fnChan s))%nat.

(** ** Phases *)

Fixpoint wins (h : Z) (l : list called) : nat :=
  match l with
  | [] => 0
  | CWon h' :: l' => ((if (h =? h')%Z then 1 else 0) + wins h l')%nat
  | _ :: l' => wins h l'
  end.

Lemma wins_app h l l' : wins h (l ++ l') = (wins h l + wins h l')%nat.
Proof. induction l as [|[] l IH]; simpl; rewrite ?IH; lia. Qed.

Definition destroyed (s : Node) : Prop := wins HDestroy (log s) <> 0%nat.

Definition working (st : Z) : Prop := st = Cluster.Work \/ st = Cluster.Busy.

(** the calls of a well-behaved application: no work before the node is started,
    and a state set from outside only tells a working node to be busy or not *)
Definition tame (s : Node) (x : action) : Prop :=
  match x with
  | XSetState st => working (getState s) /\ working st
  | XInvoke _ | XWork _ | XAfterFunc _ | XAfterInvoke _ => getState s <> Cluster.Shut
  | _ => True
  end.

Inductive tamely (o : options) (s0 : Node) : Node -> Prop :=
| tamely_self : tamely o s0 s0
| tamely_exec s t x s' : tamely o s0 s -> tame s x -> exec o t x s = Some s' -> tamely o s0 s'.

(** *** The invariant *)

(** Start, Close and Destroy are entered in turns *)
Definition in_turns (s : Node) : Prop :=
  let a := wins HStart (log s) in let b := wins HClose (log s) in let c := wins HDestroy (log s) in
  (working (getState s) /\ a = S b /\ b = c) \/
  (getState s = Cluster.Hang /\ a = b /\ b = S c) \/
  (getState s = Cluster.Shut /\ a = b /\ b = c).

(** the stages of Destroy *)
Fixpoint destroys (k : list stage) : bool :=
  match k with [] => false | StCloseFns :: _ => true | _ :: k' => destroys k' end.

Record life_inv (s : Node) : Prop := {
  li_turns : in_turns s;
  li_count : ~ destroyed s -> Waits.wg (w s) = Z.of_nat (pending s);
  li_idle : ~ destroyed s -> getState s = Cluster.Shut -> pending s = 0%nat;
  li_open : fnClosed s = true -> destroyed s;
  li_destroys : forall t k, threads s !! t = Some k -> destroys k = true -> destroyed s
}.

(** ** One step *)

Lemma fresh_thread_none s : threads s !! fresh_thread s = None.
Proof. apply not_elem_of_dom. apply (is_fresh (dom (threads s))). Qed.

(** starting the goroutines of a hook *)
Lemma start_hooks_spec h g fs s :
  let s' := start_hooks h g fs s in
  w s' = w s /\ fnChan s' = fnChan s /\ fnClosed s' = fnClosed s /\ log s' = log s /\ groups s' = groups s /\
  (forall c, (forall f, c [StHookRun h g f] = 0%nat) -> total c (threads s') = total c (threads s)) /\
  (forall t k, threads s' !! t = Some k -> threads s !! t = Some k \/ exists f, k = [StHookRun h g f]) /\
  (forall t k, threads s !! t = Some k -> threads s' !! t = Some k) /\ exited s' = exited s.
Proof.
  revert s. induction fs as [|f fs IH]; intros s; simpl; [split_and!; eauto|].
  destruct (IH (goto (fresh_thread s) [StHookRun h g f] s)) as (E1 & E2 & E3 & E4 & E5 & E6 & E7 & E8 & E9).
  simpl in *. split_and!; try done.
  - intros c Hc. rewrite E6 by done. by rewrite total_insert, Hc by apply fresh_thread_none.
  - intros t k Hk. destruct (E7 t k Hk) as [Ht|]; [|by right].
    apply lookup_insert_Some in Ht as [[_ <-]|[_ Ht]]; [by eauto|by left].
  - intros t k Hk. apply E8. rewrite lookup_insert_ne; [done|]. intros <-. by rewrite fresh_thread_none in Hk.
Qed.

(** a state with more on its log *)
Definition logged (l : list called) (s : Node) : Node :=
  mkNode (w s) (closeStage s) (instances s) (metadata s) (hooks s) (groups s) (fnChan s) (fnClosed s)
    (threads s) (log s ++ l) (exited s).

Lemma fold_note {A} (f : A -> called) (xs : list A) s :
  fold_left (fun s x => note (f x) s) xs s = logged (f <$> xs) s.
Proof.
  revert s. induction xs as [|x xs IH]; intros s; simpl.
  - unfold logged. rewrite app_nil_r. by destruct s.
  - rewrite IH. unfold logged. simpl. by rewrite <- app_assoc.
Qed.

Lemma wins_map {A} (f : A -> called) (xs : list A) h :
  (forall x, match f x with CWon _ => False | _ => True end) -> wins h (f <$> xs) = 0%nat.
Proof. intros Hf. induction xs as [|x xs IH]; [done|]. simpl. specialize (Hf x). by destruct (f x). Qed.

(** ** What a step does *)

(** every way a step can go *)
Ltac steps H :=
  unfold exec in H; destruct (exited _) eqn:?; [discriminate H|];
  match type of H with context [threads ?s !! ?t] => destruct (threads s !! t) as [[|? ?]|] eqn:? end;
  match type of H with
  | begin _ ?x _ = _ => destruct x
  | match ?x with XGo _ => _ | _ => _ end = _ => destruct x; try discriminate H
  end; cbn [begin] in H; try discriminate H;
  try match type of H with advance _ _ ?st _ ?x _ = _ => destruct st; destruct x end;
  cbn [advance] in H; try discriminate H;
  unfold Init, Start, Close, Destroy, setState, updateMetadata, addHookListener, Invoke, work, AfterFunc, AfterInvoke,
    doRefreshServiceInstances, register_all, deregisterServiceInstances, runHookFunc,
    registerServiceInstances in H;
  rewrite ?fold_note in H; repeat case_match; simplify_eq.

Lemma Waits_addWait_state x : Waits.state (Waits.addWait x) = Waits.state x.
Proof. unfold Waits.addWait. by destruct (negb _). Qed.
Lemma Waits_doneWait_state x y : Waits.doneWait x = Ok y -> Waits.state y = Waits.state x.
Proof. unfold Waits.doneWait. intros. repeat case_match; by simplify_eq. Qed.

(** what a step did to the sum, from the goroutine that made it *)
Ltac counted :=
  unfold pending, set_w, set_state; cbn;
  try match goal with |- context [total ?c (<[?t := ?k]> (threads ?s))] =>
    generalize (total_set c (threads s) t k);
    match goal with H : threads s !! t = _ |- _ => rewrite H end
  end; cbn in *; rewrite ?length_app; cbn in *; try match goal with H : fnChan _ = _ |- _ => rewrite H end;
  cbn in *; lia.

Section Exec.
Context (o : options).

(** the phase of the node *)
Lemma exec_phase t x s s' :
  exec o t x s = Some s' ->
  (getState s' = getState s /\ forall h, wins h (log s') = wins h (log s)) \/
  (getState s = Cluster.Shut /\ getState s' = Cluster.Work /\ log s' = log s ++ [CWon HStart]) \/
  (working (getState s) /\ getState s' = Cluster.Hang /\ log s' = log s ++ [CWon HClose]) \/
  (getState s = Cluster.Hang /\ getState s' = Cluster.Shut /\ log s' = log s ++ [CWon HDestroy]) \/
  (exists st, x = XSetState st /\ getState s' = st /\ log s' = log s).
Proof.
  intros H. steps H.
  all: try (left; split; [done|intros ?; simpl; rewrite ?wins_app, ?wins_map by (by intros []); simpl; lia]).
  all: try match goal with |- context [start_hooks ?h ?g ?fs ?z] =>
         destruct (start_hooks_spec h g fs z) as (E1 & _ & _ & E4 & _);
         left; unfold getState; by rewrite E1, E4 end.
  all: unfold getState, working in *; cbn.
  all: try (left; split; [|done]; by rewrite ?Waits_addWait_state; eauto using Waits_doneWait_state).
  all: try (right; left; split_and!; [lia|done|done]).
  all: try (right; right; left; split_and!; [first [left; lia|right; lia]|done|done]).
  all: try (right; right; right; left; split_and!; [lia|done|done]).
  all: do 4 right; eauto.
Qed.

(** the work accepted *)
Lemma pending_set t k s s' :
  threads s' = <[t := k]> (threads s) ->
  (pending s' + match threads s !! t with Some k0 => owed k0 | None => 0 end + length (fnChan s)
   = pending s + owed k + length (fnChan s'))%nat.
Proof. intros E. unfold pending. rewrite E. pose proof (total_set owed (threads s) t k). lia. Qed.

Lemma exec_count t x s s' :
  exec o t x s = Some s' ->
  (Waits.wg (w s') = Waits.wg (w s) /\ pending s' = pending s) \/
  ((exists f, x = XInvoke f \/ x = XWork f \/ x = XAfterFunc f \/ x = XAfterInvoke f) /\ w s' = Waits.addWait (w s) /\ pending s' = S (pending s)) \/
  (Waits.doneWait (w s) = Ok (w s') /\ pending s = S (pending s')) \/
  s' = exit s.
Proof.
  intros H. steps H.
  all: try (right; right; right; reflexivity).
  all: try match goal with |- context [start_hooks ?h ?g ?fs ?z] =>
         destruct (start_hooks_spec h g fs z) as (E1 & E2 & _ & _ & _ & E6 & _);
         left; rewrite E1; split; [done|]; unfold pending; rewrite E2, E6 by done; cbn [threads set_group goto fnChan];
         pose proof (total_set owed (threads s) t (StHookWait g :: l)) as Ht; rewrite Heqo0 in Ht; cbn in Ht; lia end.
  all: try match goal with |- context [goto (fresh_thread _) [StLoop] _] =>
         left; split; [done|]; unfold pending; cbn;
         rewrite total_insert by (rewrite lookup_insert_ne; [apply fresh_thread_none|];
           intros E; pose proof (fresh_thread_none s); congruence);
         pose proof (total_set owed (threads s) t l) as Ht; rewrite Heqo0 in Ht; cbn in *; lia end.
  all: first [left; split; [done|]; by counted | right; left; split_and!; [eauto|done|]; by counted
             | right; right; left; split; [done|]; by counted].
Qed.

(** the stages of Destroy come from Destroy, and only they close fnChan *)
Lemma exec_destroys t x s s' :
  exec o t x s = Some s' ->
  (forall u k, threads s' !! u = Some k -> destroys k = true ->
     (exists k0, threads s !! u = Some k0 /\ destroys k0 = true) \/ destroyed s') /\
  (fnClosed s' = fnClosed s \/ exists k, threads s !! t = Some (StCloseFns :: k)).
Proof.
  intros H. steps H.
  all: try match goal with |- context [start_hooks ?h ?g ?fs ?z] =>
         destruct (start_hooks_spec h g fs z) as (_ & _ & E3 & _ & _ & _ & E7 & _);
         split; [intros u k Hk Hd; destruct (E7 u k Hk) as [Ht|[f ->]]; [clear Hk; rename Ht into Hk|] |by left] end.
  all: try (split; [intros u k Hk Hd|first [left; cbn; congruence|right; eauto]]).
  all: cbn [threads goto note set_fns set_group set_w set_state set_instances set_hooks
         set_closeStage logged exit] in *.
  all: repeat match goal with H : <[_ := _]> _ !! _ = Some _ |- _ =>
         apply lookup_insert_Some in H as [[<- <-]|[_ H]] end.
  all: try (left; exists k; by split).
  all: try (cbn in Hd; first [discriminate Hd|left; eexists; split; [eassumption|exact Hd]|left; solve [eauto]]).
  all: try (right; unfold destroyed; cbn; rewrite wins_app; cbn; lia).
Qed.

(** ** The invariant is kept *)

Lemma not_shut st : working st -> st <> Cluster.Shut /\ st <> Cluster.Hang.
Proof. by intros [-> | ->]. Qed.

Lemma exec_destroyed t x s s' : exec o t x s = Some s' -> destroyed s -> destroyed s'.
Proof.
  unfold destroyed. intros H Hd.
  destruct (exec_phase t x s s' H) as [[_ E]|[(_ & _ & E)|[(_ & _ & E)|[(_ & _ & E)|(st & _ & _ & E)]]]];
    rewrite E, ?wins_app; lia.
Qed.

Lemma turns_kept t x s s' :
  in_turns s -> tame s x -> exec o t x s = Some s' -> in_turns s'.
Proof.
  intros Ht Hx H. unfold in_turns in *.
  destruct (exec_phase t x s s' H) as [[E1 E2]|[(E0 & E1 & E2)|[(E0 & E1 & E2)|[(E0 & E1 & E2)|(st & -> & E1 & E2)]]]].
  - by rewrite E1, !E2.
  - rewrite E0 in Ht. rewrite E1, !E2, !wins_app. destruct Ht as [[[?|?] _]|[[? _]|(_ & ? & ?)]]; try done.
    left. cbn. split; [by left|lia].
  - destruct (not_shut _ E0). rewrite E1, !E2, !wins_app.
    destruct Ht as [(_ & ? & ?)|[[? _]|[? _]]]; try done. right; left. cbn. split; [done|lia].
  - rewrite E0 in Ht. rewrite E1, !E2, !wins_app. destruct Ht as [[[?|?] _]|[(_ & ? & ?)|[? _]]]; try done.
    right; right. cbn. split; [done|lia].
  - destruct Hx as [Hw Hst]. destruct (not_shut _ Hw). rewrite E1, E2.
    destruct Ht as [?|[[? _]|[? _]]]; try done. left. tauto.
Qed.

Lemma doneWait_running x y :
  Waits.doneWait x = Ok y -> Waits.state x <> Cluster.Shut -> 0 < Waits.wg x /\ Waits.wg y = Waits.wg x - 1.
Proof.
  unfold Waits.doneWait. intros H Hs. apply Z.eqb_neq in Hs. rewrite Hs in H. cbn in H.
  destruct (Waits.wg x <=? 0) eqn:E; simplify_eq. cbn. lia.
Qed.

Lemma count_kept t x s s' :
  life_inv s -> tame s x -> exec o t x s = Some s' -> ~ destroyed s' -> Waits.wg (w s') = Z.of_nat (pending s').
Proof.
  intros Hi Hx H Hd. assert (~ destroyed s) as Hd0 by eauto using exec_destroyed.
  pose proof (li_count s Hi Hd0) as Hc.
  destruct (exec_count t x s s' H) as [[-> ->]|[((f & Hf) & E & ->)|[[E Ep]| ->]]]; [done| | |done].
  - assert (getState s <> Cluster.Shut) as Hs by (by destruct Hf as [-> |[-> |[-> | ->]]]). rewrite E. unfold Waits.addWait.
    apply Z.eqb_neq in Hs. unfold getState in Hs. rewrite Hs. cbn. lia.
  - destruct (decide (getState s = Cluster.Shut)) as [Hs|Hs].
    + rewrite (li_idle s Hi Hd0 Hs) in Ep. done.
    + destruct (doneWait_running _ _ E Hs). lia.
Qed.

Lemma idle_kept t x s s' :
  life_inv s -> tame s x -> exec o t x s = Some s' -> ~ destroyed s' ->
  getState s' = Cluster.Shut -> pending s' = 0%nat.
Proof.
  intros Hi Hx H Hd Hs'. assert (~ destroyed s) as Hd0 by eauto using exec_destroyed.
  assert (getState s = Cluster.Shut) as Hs.
  { destruct (exec_phase t x s s' H) as [[E1 _]|[(_ & E1 & _)|[(_ & E1 & _)|[(_ & _ & E2)|(st & -> & E1 & _)]]]];
      try congruence; [rewrite E1 in Hs'; discriminate Hs'|rewrite E1 in Hs'; discriminate Hs'| |].
    - exfalso. apply Hd. unfold destroyed. rewrite E2, wins_app. cbn. lia.
    - destruct Hx as [_ Hst]. destruct (not_shut _ Hst). congruence. }
  pose proof (li_idle s Hi Hd0 Hs) as Hp.
  destruct (exec_count t x s s' H) as [[_ ->]|[((f & [-> |[-> |[-> | ->]]]) & _)|[[_ Ep]| ->]]]; try done. congruence.
Qed.

Lemma life_kept t x s s' : life_inv s -> tame s x -> exec o t x s = Some s' -> life_inv s'.
Proof.
  intros Hi Hx H. destruct (exec_destroys t x s s' H) as [Hds Hfn]. split.
  - eauto using turns_kept, li_turns.
  - eauto using count_kept.
  - eauto using idle_kept.
  - destruct Hfn as [-> |[k Hk]]; intros; eapply exec_destroyed; eauto using li_open.
    by eapply li_destroys.
  - intros u k Hk Hdk. destruct (Hds u k Hk Hdk) as [(k0 & Hk0 & Hd0)|]; [|done].
    eapply exec_destroyed; eauto. by eapply li_destroys.
Qed.

(** a new node *)
Lemma life_new md : life_inv (NewNode md).
Proof.
  split; try done.
  right; right. by split_and!.
Qed.

Lemma life_tamely md s : tamely o (NewNode md) s -> life_inv s.
Proof. induction 1; eauto using life_new, life_kept. Qed.

(** *** Hooks that do not come back *)

(** the functions of group [g] a goroutine still has to call *)
Fixpoint runs (g : nat) (k : list stage) : nat :=
  match k with
  | [] => 0
  | StHookRun _ g' _ :: k' => ((if decide (g' = g) then 1 else 0) + runs g k')%nat
  | _ :: k' => runs g k'
  end.

(** the calls a group counts and nobody will make *)
Definition missing (g : nat) (s : Node) : Z :=
  default 0 (groups s !! g) - Z.of_nat (total (runs g) (threads s)).

Lemma exec_missing t x g s s' :
  exec o t x s = Some s' -> is_Some (groups s !! g) ->
  is_Some (groups s' !! g) /\ missing g s <= missing g s'.
Proof.
  intros H [n Hn]. unfold missing. steps H.
  all: try match goal with |- context [start_hooks ?h ?g ?fs ?z] =>
         destruct (start_hooks_spec h g fs z) as (_ & _ & _ & _ & E5 & E6 & _) end.
  all: try match goal with E6 : forall _, _ |- context [start_hooks _ (fresh (dom (groups ?z))) _ _] =>
         assert (fresh (dom (groups z)) <> g) as Hg
           by (intros <-; apply (is_fresh (dom (groups z))), elem_of_dom; eauto);
         rewrite E5, E6 by (intros; cbn; by rewrite decide_False);
         split; cbn; rewrite lookup_insert_ne by done; [eauto|]; by counted end.
  all: try match goal with |- context [goto (fresh_thread ?z) [StLoop] _] =>
         split; [eauto|]; cbn;
         rewrite total_insert by (rewrite lookup_insert_ne; [apply fresh_thread_none|];
           intros E; pose proof (fresh_thread_none z); congruence); by counted end.
  all: try (split; [by eauto|]; by counted).
  pose proof (total_set (runs g) (threads s) t l) as Ht. rewrite Heqo0 in Ht. cbn in Ht |- *.
  destruct (decide (g0 = g)) as [->|Hg].
  - rewrite lookup_insert_eq. split; [eauto|]. rewrite H0. cbn. lia.
  - rewrite lookup_insert_ne by done. split; [eauto|]. lia.
Qed.

(** a goroutine that waits for a hook keeps waiting while a call is missing *)
Lemma exec_waiting t x u g k s s' :
  exec o t x s = Some s' -> threads s !! u = Some (StHookWait g :: k) -> 0 < missing g s ->
  threads s' !! u = Some (StHookWait g :: k).
Proof.
  intros H Hu Hm. destruct (decide (t = u)) as [->|Ht].
  - exfalso. unfold exec in H. rewrite Hu in H. destruct (exited s); [done|].
    destruct x as [| | | | | | | | | | |[]]; try done. cbn in H. unfold missing in Hm.
    destruct (groups s !! g) as [[| |]|]; try done. cbn in Hm. lia.
  - clear Hm. steps H. all: try done.
    all: try match goal with |- context [start_hooks ?h ?g ?fs ?z] =>
         destruct (start_hooks_spec h g fs z) as (_ & _ & _ & _ & _ & _ & _ & E8 & _); apply E8 end.
    all: cbn [threads goto note set_fns set_group set_w set_state set_instances set_hooks
         set_closeStage logged exit].
    all: rewrite ?lookup_insert_ne by (done || (intros E; pose proof (fresh_thread_none s); congruence)); done.
Qed.

Lemma hook_waits_forever u g k s s' :
  threads s !! u = Some (StHookWait g :: k) -> is_Some (groups s !! g) -> 0 < missing g s ->
  reachable o s s' -> threads s' !! u = Some (StHookWait g :: k).
Proof.
  intros Hu Hg Hm Hr. assert (threads s' !! u = Some (StHookWait g :: k) /\ is_Some (groups s' !! g) /\
    0 < missing g s') as (? & _ & _); [|done].
  induction Hr as [|s1 t x s2 _ (H1 & H2 & H3) H]; [done|].
  destruct (exec_missing t x g s1 s2 H H2) as [H4 H5]. split_and!; [|done|lia]. eauto using exec_waiting.
Qed.

(** ** What ends the process *)
Lemma exec_exits t x s s' :
  exec o t x s = Some s' -> exited s' = true ->
  exists st k, threads s !! t = Some (st :: k) /\
    ((st ∈ [StLink; StTransport; StRegister] /\ x = XGo XErr) \/
     (st = StCloseFns \/ exists f, st = StSendFn f) /\ fnClosed s = true \/
     st = StDone /\ Waits.state (w s) <> Cluster.Shut /\ Waits.wg (w s) <= 0).
Proof.
  intros H He. steps H.
  all: try match goal with _ : context [start_hooks ?h ?g ?fs ?z] |- _ =>
         destruct (start_hooks_spec h g fs z) as (_ & _ & _ & _ & _ & _ & _ & _ & E9); rewrite E9 in He end.
  all: try (cbn in He; congruence).
  all: eexists _, _; split; [reflexivity|].
  all: try (left; split; [set_solver|done]).
  all: try (right; left; split; [by eauto|done]).
  all: right; right; split; [done|].
  all: match goal with H : Waits.doneWait _ = _ |- _ => unfold Waits.doneWait in H end.
  all: repeat case_match; simplify_eq; (split; [|lia]).
  all: by apply Z.eqb_neq, negb_true_iff.
Qed.

(** before it is destroyed, only a node that fails to start ends the process *)
Lemma life_exits t x s s' :
  life_inv s -> ~ destroyed s -> exec o t x s = Some s' -> exited s' = true ->
  x = XGo XErr /\ exists st k, threads s !! t = Some (st :: k) /\ st ∈ [StLink; StTransport; StRegister].
Proof.
  intros Hi Hd H He.
  destruct (exec_exits t x s s' H He) as (st & k & Hk & [[Hst ->]|[[_ Hf]|(-> & Hs & Hw)]]); [by eauto| |].
  - by destruct Hd; apply li_open.
  - exfalso. pose proof (li_count s Hi Hd) as Hc. unfold pending in Hc.
    pose proof (total_set owed (threads s) t []) as Ht. rewrite Hk in Ht. cbn in Ht. lia.
Qed.

(** nothing pending: no function is queued, handed over or running *)
Lemma pending_none s :
  pending s = 0%nat <-> fnChan s = [] /\ forall u k, threads s !! u = Some k -> owed k = 0%nat.
Proof.
  unfold pending. split.
  - intros Hp. split; [apply length_zero_iff_nil; lia|]. intros u k. apply total_zero. lia.
  - intros [-> Hk]. by rewrite total_none.
Qed.

(** *** The groups of hooks cover the goroutines that will answer to them *)

Lemma start_hooks_runs h g fs s :
  total (runs g) (threads (start_hooks h g fs s)) = (total (runs g) (threads s) + length fs)%nat.
Proof.
  revert s. induction fs as [|f fs IH]; intros s; simpl; [lia|].
  rewrite IH. cbn. rewrite total_insert by apply fresh_thread_none. cbn. rewrite decide_True by done. lia.
Qed.

Lemma exec_new_group t x g s s' :
  exec o t x s = Some s' -> groups s !! g = None -> 0 <= missing g s -> 0 <= missing g s'.
Proof.
  intros H Hn. unfold missing. steps H.
  all: try match goal with |- context [start_hooks ?h ?g1 ?fs ?z] =>
         destruct (decide (g1 = g)) as [Hg|Hg];
         destruct (start_hooks_spec h g1 fs z) as (_ & _ & _ & _ & E5 & E6 & _) end.
  all: try match goal with E6 : forall _, _ |- context [start_hooks _ ?g1 _ _] =>
         rewrite E5; first
           [ rewrite Hg, Hn, start_hooks_runs; cbn; rewrite lookup_insert_eq; by counted
           | rewrite E6 by (intros; cbn; by rewrite decide_False); cbn; rewrite lookup_insert_ne by done; by counted] end.
  all: try match goal with |- context [goto (fresh_thread ?z) [StLoop] _] =>
         cbn; rewrite total_insert by (rewrite lookup_insert_ne; [apply fresh_thread_none|];
           intros E; pose proof (fresh_thread_none z); congruence); by counted end.
  all: try (by counted).
  pose proof (total_set (runs g) (threads s) t l) as Ht. rewrite Heqo0 in Ht. cbn in Ht |- *.
  destruct (decide (g0 = g)) as [->|Hg]; [congruence|]. rewrite lookup_insert_ne by done. lia.
Qed.

Lemma groups_cover md s g : reachable o (NewNode md) s -> 0 <= missing g s.
Proof.
  intros Hr. induction Hr as [|s t x s' _ IH H]; [done|].
  destruct (groups s !! g) as [n|] eqn:Hg; [|by eauto using exec_new_group].
  destruct (exec_missing t x g s s' H); [by eauto|lia].
Qed.
End Exec.
