(* ===== verification/NodeLifeClaims.v ===== *)
(** What the life of a node guarantees under any interleaving of its
    goroutines, and where the count of its work and its hooks fail it. *)
From stdpp Require Import base numbers list gmap strings.
From Stdlib Require Import ZArith Lia.
From S2P Require Import Prelude Types Threads Dispatcher NodeLife NodeLifeOk.
Import NodeLife.

Open Scope Z_scope.

(** *** Runs of a well-behaved application, executable *)

#[local] Instance working_dec st : Decision (working st) := ltac:(unfold working; apply _).
#[local] Instance tame_dec s x : Decision (tame s x) := ltac:(destruct x; simpl; apply _).

Fixpoint tame_run (o : options) (xs : list (nat * action)) (s : Node) : option Node :=
  match xs with
  | [] => Some s
  | (t, x) :: xs' =>
      if decide (tame s x) then match exec o t x s with Some s' => tame_run o xs' s' | None => None end else None
  end.

Lemma tame_run_tamely o s0 xs s s' : tamely o s0 s -> tame_run o xs s = Some s' -> tamely o s0 s'.
Proof.
  revert s. induction xs as [|[t x] xs IH]; intros s Hs H; cbn in H; [by simplify_eq|].
  destruct (decide _); [|done]. destruct (exec o t x s) eqn:E; [|done]. eauto using tamely_exec.
Qed.

Lemma life_run_reachable o s0 xs s s' : reachable o s0 s -> run o xs s = Some s' -> reachable o s0 s'.
Proof.
  revert s. induction xs as [|[t x] xs IH]; intros s Hs H; cbn in H; [by simplify_eq|].
  destruct (exec o t x s) eqn:E; [|done]. eauto using reach_exec.
Qed.

(** a node with two routes' worth of nothing: enough to start *)
Definition small : options := mkOptions "n1" "game" 1 [] [] [] "127.0.0.1:1" None.
Definition go (t n : nat) : list (nat * action) := replicate n (t, XGo XOk).
Definition starting : list (nat * action) := (1%nat, XStart) :: go 1 7.




(** a Close at its wait, a function in fnChan and another that runs *)
Definition busy_closing : list (nat * action) :=
  starting ++ [(13%nat, XWork 7); (14%nat, XInvoke 8); (14%nat, XGo XOk); (12%nat, XClose)] ++ go 12 5.


(** Until it is destroyed, nothing but a failure to start ends the node's
    process: the count of work never goes below zero, fnChan is not closed
    under a sender, and a goroutine that ends the process stands at one of the
    three points where a server or the registry refuses to come up. *)
Theorem only_start_fails o md s t x s' :
  tamely o (NewNode md) s -> ~ destroyed s -> exec o t x s = Some s' -> exited s' = true ->
  x = XGo XErr /\ exists st k, threads s !! t = Some (st :: k) /\ st ∈ [StLink; StTransport; StRegister].
Proof. intros Hs. by apply life_exits, (life_tamely o md). Qed.

Theorem only_start_fails_witness :
  exists s s', exec small 1 (XGo XErr) s = Some s' /\ exited s' = true /\
    exists st k, threads s !! 1%nat = Some (st :: k) /\ st ∈ [StLink; StTransport; StRegister].
Proof.
  destruct (tame_run small ((1%nat, XStart) :: go 1 3) (NewNode None)) as [s|] eqn:E;
    [|exfalso; vm_compute in E; discriminate E].
  assert (tamely small (NewNode None) s) as Hs by (eapply tame_run_tamely; [constructor|exact E]).
  vm_compute in E. injection E as E. exists s.
  destruct (exec small 1 (XGo XErr) s) as [s'|] eqn:Ex; [|exfalso; rewrite <- E in Ex; discriminate Ex].
  exists s'. split; [done|].
  assert (exited s' = true) as Hx by (rewrite <- E in Ex; injection Ex as <-; reflexivity).
  split; [done|].
  apply (only_start_fails small None s 1 (XGo XErr) s' Hs); [|done|done].
  rewrite <- E. unfold destroyed. cbn. intros H. by apply H.
Defined.

Lemma exec_idle o t x s :
  exited s = false -> threads s !! t = None -> exec o t x s = begin t x s.
Proof. intros He Ht. unfold exec. by rewrite He, Ht. Qed.

Lemma exec_next o t x st k s :
  exited s = false -> threads s !! t = Some (st :: k) -> exec o t (XGo x) s = advance o t st k x s.
Proof. intros He Ht. unfold exec. by rewrite He, Ht. Qed.

(** Work accepted before Start is not counted, but its end is: when a task
    begins while the node is still shut and the node is started before the task
    ends, the end of the task takes the wait group below zero, which panics and
    ends the process. *)
Theorem early_work_ends_node o s t u f :
  t <> u -> exited s = false -> getState s = Cluster.Shut -> Waits.wg (w s) = 0 ->
  threads s !! t = None -> threads s !! u = None ->
  exists s', run o [(t, XWork f); (u, XStart); (t, XGo XOk); (t, XGo XOk)] s = Some s' /\ exited s' = true.
Proof.
  intros Htu He Hs Hw Ht Hu. unfold getState in Hs. cbn [run].
  rewrite (exec_idle _ t) by done. cbn [begin]. unfold work.
  assert (Waits.addWait (w s) = w s) as -> by (unfold Waits.addWait; by rewrite Hs).
  rewrite (exec_idle o u) by (cbn; by rewrite ?lookup_insert_ne). cbn [begin]. unfold Start.
  assert (getState (goto t [StRun f; StDone] (set_w (w s) s)) =? Cluster.Shut = true) as -> by (by apply Z.eqb_eq).
  rewrite (exec_next o t _ (StRun f) [StDone]); [|done|cbn; rewrite lookup_insert_ne by done; apply lookup_insert_eq].
  cbn [advance]. rewrite (exec_next o t _ StDone []); [|done|apply lookup_insert_eq]. cbn [advance].
  unfold Waits.doneWait. cbn. rewrite Hw. cbn. eauto.
Qed.

Theorem early_work_ends_node_witness :
  exists s', run small [(5%nat, XWork 3); (6%nat, XStart); (5%nat, XGo XOk); (5%nat, XGo XOk)] (NewNode None) = Some s' /\
    exited s' = true.
Proof. by apply (early_work_ends_node small (NewNode None) 5 6 3). Defined.

(** A hook that panics is recovered but never counted as done: from then on
    the goroutine that runs the hooks (Init, Start, Close or Destroy) waits, in
    every continuation, for ever. *)
Theorem hook_panic_blocks o md s u t g h f k k0 s1 s' :
  reachable o (NewNode md) s -> u <> t ->
  threads s !! u = Some (StHookWait g :: k) -> threads s !! t = Some (StHookRun h g f :: k0) ->
  exec o t (XGo XPanic) s = Some s1 -> reachable o s1 s' ->
  threads s' !! u = Some (StHookWait g :: k).
Proof.
  intros Hr Hut Hu Ht Hx Hr'. pose proof (groups_cover o md s g Hr) as Hm.
  unfold exec in Hx. rewrite Ht in Hx. destruct (exited s); [done|]. cbn in Hx. simplify_eq.
  pose proof (total_set (runs g) (threads s) t k0) as Hc. rewrite Ht in Hc. cbn in Hc.
  rewrite decide_True in Hc by done. unfold missing in Hm.
  destruct (groups s !! g) as [n|] eqn:Hg; [|cbn in Hm; lia]. cbn in Hm.
  eapply hook_waits_forever; [..|exact Hr']; cbn.
  - by rewrite lookup_insert_ne.
  - rewrite Hg. eauto.
  - unfold missing. cbn. rewrite Hg. cbn. lia.
Qed.

(** a start hook is called while Start waits for it *)
Definition hooked : list (nat * action) := (1%nat, XHook HStart 4) :: starting.

Theorem hook_panic_blocks_witness :
  exists s u t g s1, reachable small (NewNode None) s /\ threads s !! u = Some [StHookWait g] /\
    exec small t (XGo XPanic) s = Some s1 /\
    forall s', reachable small s1 s' -> threads s' !! u = Some [StHookWait g].
Proof.
  destruct (run small hooked (NewNode None)) as [s|] eqn:E; [|exfalso; vm_compute in E; discriminate E].
  assert (reachable small (NewNode None) s) as Hs by (eapply life_run_reachable; [constructor|exact E]).
  vm_compute in E. injection E as E.
  destruct (exec small 3 (XGo XPanic) s) as [s1|] eqn:Ex; [|exfalso; rewrite <- E in Ex; discriminate Ex].
  exists s, 1%nat, 3%nat, 0%nat, s1. split; [done|]. split; [by rewrite <- E|]. split; [done|]. intros s' Hr.
  refine (hook_panic_blocks small None s 1 3 0 HStart 4 [] [] s1 s' Hs _ _ _ Ex Hr); [done| |]; by rewrite <- E.
Defined.
