(* ===== verification/NodeEntry.v ===== *)
(** cluster/node/trigger.go and provider.go: how a node takes in what its server
    hands it.  A delivery becomes a request on the router's channel, a trigger
    an event on the trigger's channel; [entry_provider] is the node behind the
    interface [NodeProvider]. *)
From stdpp Require Import base numbers list gmap strings.
From Stdlib Require Import ZArith Lia Ascii.
From S2P Require Import Prelude Types Nocopy Packet Dispatcher Link Proxy Context Router NodeServer NodeLife.

Open Scope Z_scope.
Open Scope go_scope.

(** string(bytes) *)
Definition go_string (bs : list Z) : string :=
  String.string_of_list_ascii (map (fun b => ascii_of_N (Z.to_N b)) bs).

(** ** trigger.go *)

Module Trigger.
Import Context.Event.

(** what a handler leaves of the event it is called with *)
Definition EventHandler : Type := event -> event.

(** the events themselves are shared; the channel and the pool hold references *)
Record Trigger := mkTrigger {
  events : gmap Z EventHandler;
  evts : gmap nat event;
  evtPool : list nat;
  evtChan : list nat;
  closed : bool;
  (* deferred functions called, with the event they were called for *)
  fired : list (nat * nat)
}.

Definition newTrigger : Trigger := mkTrigger ∅ ∅ [] [] false [].

Definition set_evt (e : nat) (x : event) (s : Trigger) : Trigger :=
  mkTrigger (events s) (<[e := x]> (evts s)) (evtPool s) (evtChan s) (closed s) (fired s).
Definition set_evtPool (p : list nat) (s : Trigger) : Trigger :=
  mkTrigger (events s) (evts s) p (evtChan s) (closed s) (fired s).
Definition set_evtChan (c : list nat) (s : Trigger) : Trigger :=
  mkTrigger (events s) (evts s) (evtPool s) c (closed s) (fired s).

(** evtPool.Get(): [e] of the pool, or a new one *)
Definition get_event (e : nat) (s : Trigger) : option (event * Trigger) :=
  match Router.remove_one e (evtPool s) with
  | Some p => match evts s !! e with Some x => Some (x, set_evtPool p s) | None => None end
  | None => match evts s !! e with Some _ => None | None => Some (new_event, set_evt e new_event s) end
  end.

Definition evtRoom (s : Trigger) : bool := Z.of_nat (length (evtChan s)) <? 4096.

(** a send on the closed channel panics; on a full one it waits (None) *)
Definition trigger (e : nat) (k : Z) (g : string) (c u : Z) (t : Token) (s : Trigger) : option (res unit * Trigger) :=
  match get_event e s with
  | None => None
  | Some (x, s) =>
      let s := set_evt e (mkEvent Background g c u t k (version x) (chain x) (actor x)) s in
      if closed s then Some (Panic, s)
      else if evtRoom s then Some (Ok tt, set_evtChan (evtChan s ++ [e]) s) else None
  end.

(** receive: the first event, None when there is none *)
Definition receive (s : Trigger) : option (nat * Trigger) :=
  match evtChan s with e :: c => Some (e, set_evtChan c s) | [] => None end.

Definition close (s : Trigger) : Trigger :=
  mkTrigger (events s) (evts s) (evtPool s) (evtChan s) true (fired s).

(** handle; without a handler the event only goes back to the pool *)
Definition handle (e : nat) (s : Trigger) : Trigger :=
  match evts s !! e with
  | None => s
  | Some x =>
      let x := incrVersion x in
      let v := loadVersion x in
      let '(fs, x) :=
        match events s !! kind x with Some h => compareVersionExecDefer v (h x) | None => ([], x) end in
      let s := mkTrigger (events s) (<[e := x]> (evts s)) (evtPool s) (evtChan s) (closed s)
                 (fired s ++ ((fun f => (f, e)) <$> fs)) in
      match compareVersionRecycle v x with
      | Some x => set_evtPool (evtPool s ++ [e]) (set_evt e (reset x) s)
      | None => s
      end
  end.

(** [state] is getState of the node *)
Definition AddEventHandler (state : Z) (k : Z) (h : EventHandler) (s : Trigger) : Trigger :=
  if negb (state =? Cluster.Shut) then s else
  mkTrigger (<[k := h]> (events s)) (evts s) (evtPool s) (evtChan s) (closed s) (fired s).
End Trigger.

(** ** provider.go *)

Module Provider.

(** the parts of a node its provider reaches *)
Record provider := mkProvider {
  p_proxy : Proxy.Proxy;
  p_router : Router.node;
  p_trigger : Trigger.Trigger;
  p_life : NodeLife.Node
}.

Definition on_proxy {A} (m : ST Proxy.Proxy A) : ST provider A := fun p =>
  let '(r, x) := m (p_proxy p) in (r, mkProvider x (p_router p) (p_trigger p) (p_life p)).

Section Provider.
Context (id name : string) (sourceHintCapacity : Z) (hasLocator : bool).
Context (answer : forall A, list made -> call A -> res A).
Context (packer : Packet.defaultPacker) (router : Router.Router).
(** which object the pools hand out, and what the dispatch loop and the other
    goroutines do to a channel that is full while a sender waits *)
Context (pick_req : Router.node -> nat) (pick_evt : Trigger.Trigger -> nat).
Context (until_req : Router.node -> Router.node) (until_evt : Trigger.Trigger -> Trigger.Trigger).
(** how the refresh of the registry ends *)
Context (refresh : NodeLife.Node -> option error).

Definition reqRoom (s : Router.node) : bool := Z.of_nat (length (reqChan s)) <? 10240.

Definition send_request (c : gocontext) (gid nid : string) (cid uid : Z) (token : Token) (m : Link.Message)
    : ST provider unit := fun p =>
  let s := if reqRoom (p_router p) || reqClosed (p_router p) then p_router p else until_req (p_router p) in
  match deliverWithContext (pick_req s) c gid nid "" cid uid token m s with
  | Some s' => (if crashed s' then Panic else Ok tt, mkProvider (p_proxy p) s' (p_trigger p) (p_life p))
  | None => (Panic, p)
  end.

Definition send_event (event : Z) (gid : string) (cid uid : Z) (token : Token) : ST provider unit := fun p =>
  let s := if Trigger.evtRoom (p_trigger p) || Trigger.closed (p_trigger p) then p_trigger p else until_evt (p_trigger p) in
  match Trigger.trigger (pick_evt s) event gid cid uid token s with
  | Some (r, s') => (r, mkProvider (p_proxy p) (p_router p) s' (p_life p))
  | None => (Panic, p)
  end.

Definition Trigger (gid : list Z) (cid uid : Z) (token : Token) (event : Z) : ST provider unit :=
  send_event event (go_string gid) cid uid token.

Definition Deliver (ctx : gocontext) (gid nid : list Z) (cid uid : Z) (token : Token) (message : list Z)
    : ST provider unit :=
  let! msg := st_lift (Packet.UnpackMessage packer message) in
  let '(stateful, ok) := CheckRouteStateful (Packet.Route msg) router in
  if negb ok && negb (HasDefaultRouteHandler router) then st_ret tt else
  let send := send_request ctx (go_string gid) (go_string nid) cid uid token
                (Link.mkMessage (Packet.Seq msg) (Packet.Route msg) (Link.Raw (Packet.Buffer msg))) in
  if stateful : bool then
    if uid =? 0 then st_err ErrInvalidArgument else
    let! (_, here) := on_proxy (Proxy.AskNode id sourceHintCapacity hasLocator answer uid name id) in
    if here : bool then send else st_err ErrNotFoundSession
  else send.

Definition GetState : ST provider Z := fun p => (Ok (NodeLife.getState (p_life p)), p).

(** the state is stored, then the instances are refreshed *)
Definition SetState (state : Z) : ST provider unit := fun p =>
  let s := NodeLife.doRefreshServiceInstances (NodeLife.set_state state (p_life p)) in
  (match refresh s with None => Ok tt | Some e => Err e end,
   mkProvider (p_proxy p) (p_router p) (p_trigger p) s).

#[export] Instance entry_provider : NodeProvider provider := {|
  node_Trigger gid cid uid token event := Trigger gid cid uid token event;
  node_Deliver := Deliver;
  node_GetState := GetState;
  node_SetState := SetState
|}.
End Provider.
End Provider.
