(* ===== verification/NodeRpcClaims.v ===== *)
(** From a peer's stream to the node's channels: what a node does with the
    requests of gates and nodes, end to end. *)
From stdpp Require Import base numbers list gmap strings.
From Stdlib Require Import ZArith Lia.
From S2P Require Import Prelude Binary Types Writer Nocopy Packet Protocol Requests RequestCodec Responses ResponseCodec.
From S2P Require Import Server GateServer GateRpc GateSafe Types Dispatcher SourceHints Link GateLink NodeLink Proxy Context Router.
From S2P Require Import NodeServer NodeRpc NodeLife NodeEntry.
Import Protocol.Protocol.
Import Server.Server (Server, mkServer, provider, conn, chWrite, ConnClosed, ConnOpened).

Open Scope Z_scope.
Open Scope go_scope.

(** ** The provider *)

Section Entry.
Context (id name : string) (hints : Z) (hasLocator : bool).
Context (answer : forall A, list made -> call A -> res A).
Context (packer : Packet.defaultPacker) (router : Router.Router).
Context (pick_req : Router.node -> nat) (until_req : Router.node -> Router.node).

(** the delivery is let through *)
Definition admitted (uid : Z) (msg : Packet.Message) (p : Provider.provider) (x : Proxy.Proxy) : Prop :=
  match routes router !! Packet.Route msg with
  | Some e =>
      if Stateful (e_options e)
      then uid <> 0 /\ exists n, Proxy.AskNode id hints hasLocator answer uid name id (Provider.p_proxy p) = (Ok (n, true), x)
      else x = Provider.p_proxy p
  | None => is_Some (defaultRouteHandler router) /\ x = Provider.p_proxy p
  end.

(** the channel takes another request *)
Definition takes (s : Router.node) : Prop :=
  crashed s = false /\ reqClosed s = false /\ Provider.reqRoom s = true /\
  is_Some (get_request (pick_req s) s).

(** the request of a delivery, in the object [r] *)
Definition carries_delivery (s : Router.node) (r : nat) (c : gocontext) (gid nid : list Z) (cid uid : Z)
    (token : Token) (msg : Packet.Message) : Prop :=
  exists q, reqs s !! r = Some q /\ Request.ctx q = c /\ Request.gid q = go_string gid /\
    Request.nid q = go_string nid /\ Request.pid q = ""%string /\ Request.cid q = cid /\
    Request.uid q = uid /\ Request.token q = token /\
    Request.message q = Link.mkMessage (Packet.Seq msg) (Packet.Route msg) (Link.Raw (Packet.Buffer msg)).

Lemma get_request_same r s q s1 :
  get_request r s = Some (q, s1) ->
  crashed s1 = crashed s /\ reqClosed s1 = reqClosed s /\ reqChan s1 = reqChan s.
Proof. unfold get_request. intros H. repeat case_match; by simplify_eq. Qed.

Lemma deliver_enqueues ctx gid nid cid uid token data msg p x :
  Packet.UnpackMessage packer data = Ok msg -> admitted uid msg p x -> takes (Provider.p_router p) ->
  exists p' r, Provider.Deliver id name hints hasLocator answer packer router pick_req until_req
      ctx gid nid cid uid token data p = (Ok tt, p') /\
    Provider.p_proxy p' = x /\ Provider.p_trigger p' = Provider.p_trigger p /\
    Provider.p_life p' = Provider.p_life p /\
    reqChan (Provider.p_router p') = reqChan (Provider.p_router p) ++ [r] /\
    carries_delivery (Provider.p_router p') r ctx gid nid cid uid token msg.
Proof.
  intros Hm Ha (Hc & Hcl & Hroom & [[q s1] Hg]).
  destruct (get_request_same _ _ _ _ Hg) as (E1 & E2 & E3).
  assert (forall y, exists p', Provider.send_request pick_req until_req ctx (go_string gid) (go_string nid) cid uid token
      (Link.mkMessage (Packet.Seq msg) (Packet.Route msg) (Link.Raw (Packet.Buffer msg)))
      (Provider.mkProvider y (Provider.p_router p) (Provider.p_trigger p) (Provider.p_life p)) = (Ok tt, p') /\
    Provider.p_proxy p' = y /\ Provider.p_trigger p' = Provider.p_trigger p /\
    Provider.p_life p' = Provider.p_life p /\
    reqChan (Provider.p_router p') = reqChan (Provider.p_router p) ++ [pick_req (Provider.p_router p)] /\
    carries_delivery (Provider.p_router p') (pick_req (Provider.p_router p)) ctx gid nid cid uid token msg) as Hs.
  { intros y. unfold Provider.send_request. cbn [Provider.p_router]. rewrite Hroom. cbn [orb].
    unfold deliverWithContext. rewrite Hg, E2, Hcl, E3. unfold Provider.reqRoom in Hroom. rewrite Hroom.
    cbn. rewrite E1, Hc. eexists. split_and!; [reflexivity|done|done|done|done|].
    eexists. cbn. rewrite lookup_insert_eq. by split_and!. }
  unfold Provider.Deliver, st_lift, st_bind at 1. rewrite Hm. unfold CheckRouteStateful, admitted in *.
  unfold HasDefaultRouteHandler. destruct p as [px pr pt pl]. cbn in Hs, Ha |- *.
  destruct (routes router !! Packet.Route msg) as [e|]; cbn.
  - destruct (Stateful (e_options e)).
    + destruct Ha as [Hu [n Ha]]. apply Z.eqb_neq in Hu. rewrite Hu. unfold st_bind, Provider.on_proxy. cbn.
      rewrite Ha. destruct (Hs x) as (p' & ? & ?). by eexists _, _.
    + subst x. destruct (Hs px) as (p' & ? & ?). by eexists _, _.
  - destruct Ha as [Hd ->]. rewrite bool_decide_true by done. cbn.
    destruct (Hs px) as (p' & ? & ?). by eexists _, _.
Qed.
End Entry.

(** A node answers whoever shook hands: after a handshake that names a kind
    and an id, the node makes exactly the calls of the stream's requests, one
    after the other, each in that peer's name (a gate's deliveries as from the
    gate, a node's as from the node), queues the answer to the handshake and
    one answer for each request that wants one, and closes the connection when
    the stream ends. *)
Theorem node_serves_peer {P} `{NodeProvider P} (queue : list nbuf -> option error)
    (malloc : list nbuf -> Writer.Writer.Writer) (now : list Z -> Z) (interrupted : list Z -> bool)
    (hs kind : Z) (id : list Z) (qs : list (Z * request)) (x : Server P) (rs : list (reply + error)) (p' : P)
    (Hq : forall h, queue h = None) (Hm : forall h, fresh (malloc h)) (Hi : forall s, interrupted s = false)
    (Ho : opened (conn x)) (Hh : sendable hs (RHandshake kind id))
    (Hqs : Forall (fun '(seq, q) => sendable seq q) qs)
    (Hp : node_performs kind id qs (provider x) = (Ok rs, p')) :
  exists y b bs,
    Server.read (NodeServer.init queue malloc) now interrupted (S (S (length qs)))
      (wire hs (RHandshake kind id) ++ concat (map (fun '(seq, q) => wire seq q) qs)) x
      = Some (Server.Return, [], y) /\
    provider y = p' /\ Server.state (conn y) = ConnClosed /\
    chWrite (conn y) = chWrite (conn x) ++ b :: bs /\
    encode_res (malloc (chWrite (conn x))) hs (SHandshake OK) = Ok b /\ node_answers qs rs bs.
Proof.
  destruct (node_step_handshake queue malloc now interrupted Hq Hm Hi hs kind id x
    (concat (map (fun '(seq, q) => wire seq q) qs)) Hh Ho) as (y & b & Ey & Hpy & Hoy & Hcy & Eb).
  destruct (node_read_requests queue malloc now interrupted Hq Hm Hi kind id qs y rs p' Hoy Hqs)
    as (z & bs & Ez & Hpz & Hsz & Hcz & Ha); [by rewrite Hpy|].
  exists z, b, bs. split; [|by rewrite Hcz, Hcy, <- app_assoc].
  change (Server.read ?i ?n ?u (S (S ?k)) ?s x) with
    (match Server.read_step i n u s x with
     | (Server.Continue, s', x') => Server.read i n u (S k) s' x' | r => Some r end).
  by rewrite Ey.
Qed.


(** ** Witnesses *)

Definition queue1 : list nbuf -> option error := fun _ => None.
Definition malloc1 : list nbuf -> Writer.Writer.Writer := fun _ => Writer.Writer.NewWriterWithCapacity [16%nat].

Lemma malloc1_fresh h : fresh (malloc1 h).
Proof. split; [split|]; simpl; lia. Qed.

(** a node that only counts the calls it gets *)
#[local] Instance counting : NodeProvider nat := {|
  node_Trigger _ _ _ _ _ n := (Ok tt, S n);
  node_Deliver _ _ _ _ _ _ _ n := (Err ErrNotFoundSession, S n);
  node_GetState n := (Ok Cluster.Work, S n);
  node_SetState _ n := (Ok tt, S n)
|}.

Definition requests1 : list (Z * request) :=
  [(0, RGetState); (5, RDeliver 7 9 1 Cluster.no_metadata [1; 2]); (0, RTrigger 1 7 9 1)].

Lemma node_serves_peer_witness :
  exists y b bs rs,
    Server.read (NodeServer.init queue1 malloc1) (fun _ => 0) (fun _ => false) 5
      (wire 1 (RHandshake Cluster.Gate [103]) ++ concat (map (fun '(seq, q) => wire seq q) requests1))
      (mkServer 0%nat (Server.newConn 0)) = Some (Server.Return, [], y) /\
    provider y = 3%nat /\ chWrite (conn y) = [] ++ b :: bs /\ node_answers requests1 rs bs.
Proof.
  destruct (node_performs Cluster.Gate [103] requests1 0%nat) as [[rs| |] p'] eqn:E; [|by vm_compute in E..].
  destruct (node_serves_peer queue1 malloc1 (fun _ => 0) (fun _ => false) 1 Cluster.Gate [103] requests1
    (mkServer 0%nat (Server.newConn 0)) rs p') as (y & b & bs & H1 & H2 & _ & H3 & _ & H4).
  - done.
  - apply malloc1_fresh.
  - done.
  - done.
  - repeat split; vm_compute; congruence.
  - repeat constructor; unfold inU, inS; vm_compute; congruence.
  - exact E.
  - exists y, b, bs, rs. split_and!; [exact H1| |exact H3|exact H4]. rewrite H2. vm_compute in E. congruence.
Defined.

(** a node "n1" with one stateful route, whose locator binds everybody to it *)
Definition answer1 : forall A, list made -> call A -> res A := fun A _ c =>
  match c in call A return res A with
  | LocatorLocateNode _ _ => Ok "n1"%string
  | _ => Err ErrUnknownError
  end.
Definition router1 : Router.Router :=
  AddRouteHandler Cluster.Shut 1 (Some (fun _ => PReturn)) (Some (mkRouteOptions false true false [])) newRouter.
Definition pick1 (s : Router.node) : nat := match reqPool s with r :: _ => r | [] => stdpp.base.fresh (dom (reqs s)) end.
Definition pick_evt1 (s : Trigger.Trigger) : nat :=
  match Trigger.evtPool s with e :: _ => e | [] => stdpp.base.fresh (dom (Trigger.evts s)) end.
Definition provider1 (p : Proxy.Proxy) : Provider.provider :=
  Provider.mkProvider p (Router.new_node (Waits.mkWaits Cluster.Work 0 0)) Trigger.newTrigger (NodeLife.NewNode None).
(** sequence 3, route 1, payload "AB" *)
Definition delivery1 : list Z := [0; 0; 0; 7; 0; 0; 1; 0; 3; 65; 66].

