(* ===== verification/WsConn.v ===== *)
(** network/ws: a WebSocket server's connections (server_conn.go,
    server_conn_mgr.go, def.go).

    Connection objects are pooled and used again; an object's channels are made
    anew for every socket, so the channels of socket [c] are part of [wire] [c],
    and [chans o] is the socket whose channels the fields of object [o] hold.  A
    goroutine is the list of what it still has to do; every access to shared
    memory is one [stage], a region under a lock that cannot block is one stage,
    and a read lock held across a send is counted in [readers].  [exec t x s]
    lets goroutine [t] take one step; the outcome [x] says what the network, the
    clock and the pool did. *)
From stdpp Require Import base numbers list gmap.
From Stdlib Require Import ZArith Lia.
From S2P Require Import Prelude Types Packet.

Open Scope Z_scope.

Module Ws.

(** network.ConnState *)
Definition ConnOpened : Z := 1.
Definition ConnHanged : Z := 2.
Definition ConnClosed : Z := 3.

(** ** def.go *)
Definition closeSig : Z := 0.
Definition dataPacket : Z := 1.
Definition heartbeatPacket : Z := 2.

Record writeQueueBudget := mkBudget {
  maxBytes : Z; highReserveBytes : Z; b_queuedBytes : Z; lowPriorityBytes : Z
}.

Definition newWriteQueueBudget (maxBytes highReserveBytes : Z) : writeQueueBudget :=
  let m := if maxBytes <? 0 then 0 else maxBytes in
  let h := if highReserveBytes <? 0 then 0 else highReserveBytes in
  let h := if (0 <? m) && (m <? h) then m else h in
  mkBudget m h 0 0.

Definition reserve (bytes : Z) (lowPriority : bool) (b : writeQueueBudget) : bool * writeQueueBudget :=
  if (maxBytes b <=? 0) || (bytes <=? 0) then (true, b) else
  if maxBytes b - b_queuedBytes b <? bytes then (false, b) else
  if lowPriority && (maxBytes b - highReserveBytes b - lowPriorityBytes b <? bytes) then (false, b) else
  (true, mkBudget (maxBytes b) (highReserveBytes b) (b_queuedBytes b + bytes)
           (lowPriorityBytes b + (if lowPriority then bytes else 0))).

Definition release (bytes : Z) (lowPriority : bool) (b : writeQueueBudget) : writeQueueBudget :=
  if (maxBytes b <=? 0) || (bytes <=? 0) then b else
  mkBudget (maxBytes b) (highReserveBytes b)
    (if b_queuedBytes b <=? bytes then 0 else b_queuedBytes b - bytes)
    (if lowPriority then if lowPriorityBytes b <=? bytes then 0 else lowPriorityBytes b - bytes
     else lowPriorityBytes b).

Record task := mkTask { typ : Z; msg : list Z; queuedBytes : Z; lowPriority : bool }.

(** what a connection reads of server_options.go *)
Inductive HeartbeatMechanism := RespHeartbeat | TickHeartbeat.
Record serverOptions := mkServerOptions {
  maxConnNum : Z; writeTimeout : Z; writeQueueSize : Z; slowConsumerEnqueueTimeoutLimit : Z;
  heartbeatInterval : Z; heartbeatMechanism : HeartbeatMechanism; packetHeartbeatInspection : bool;
  authorizeTimeout : Z
}.

(** ** The shared memory *)

(** the channel [done]: unbuffered, so that a send is offered and taken *)
Inductive offer := DIdle | DOffered | DTaken.

(** a socket, with the channels its connection object makes for it *)
Record wire := mkWire {
  lowPriorityQueue : list task;
  highPriorityQueue : list task;
  closed : bool; (* the two queues, [done] and [close] *)
  done : offer;
  shut : bool; (* the socket itself *)
  sent : list (list Z)
}.

Record serverConn := mkServerConn {
  id : Z;
  uid : Z;
  state : Z;
  conn : option nat;
  chans : nat;
  workers : Z;
  readers : Z;
  lastHeartbeatTime : Z;
  authorizeTimer : option nat;
  lowPriorityEnqueueTimeouts : Z
}.
Definition no_conn : serverConn := mkServerConn 0 0 0 None 0 0 0 0 None 0.
#[export] Instance serverConn_inhabited : Inhabited serverConn := populate no_conn.

Definition no_wire : wire := mkWire [] [] false DIdle false [].
#[export] Instance wire_inhabited : Inhabited wire := populate no_wire.

Inductive stage :=
(* allocate *)
| AInit (c : nat) | AConnect (o : nat) | AStore (o c : nat)
(* checkAuthorize, uncheckAuthorize, the timer's function *)
| TCheck (o : nat) | TUncheck (o : nat) | TFire (o : nat)
(* forceClose: the two swaps *)
| FOpened (o : nat) (r : bool) | FHanged (o : nat) (r : bool)
(* doClose *)
| DClose (o : nat) (r : bool) | DDiscard (o : nat) | DSocket (c : nat) | DHandler (o c : nat) | DRecycle (c : nat)
(* recycle: the goroutine that waits for the workers *)
| CWait (o : nat)
(* graceClose *)
| GOpened (o : nat) (r : bool) | GLock (o : nat) (r : bool) | GSend (o : nat) (r : bool)
| GUnlock (o : nat) (r : bool) | GDone (o : nat) (r : bool) | GRecv (o c : nat) (r : bool) | GHanged (o : nat) (r : bool)
(* read *)
| RStart (o : nat) | RLoop (o c : nat) | RRead (o c : nat) | RState (o c : nat) (data : list Z)
| RData (o c : nat) (data : list Z)
(* write *)
| WStart (o : nat) | WLoop (o c : nat) | WSelect (o c : nat) | WTask (o c : nat) (t : task)
| WWrite (o c : nat) (t : task) | WFail (o : nat) | WSignal (o : nat) | WOffer (o : nat) | WTaken (o c : nat)
| WTick (o c : nat) (now : Z) | WBeat (o c : nat) (now : Z)
(* workers.Done() *)
| WDone (o : nat)
(* Send, Push and the answer to a heartbeat *)
| PCheck (o : nat) (high : bool) (m : list Z) | PLock (o : nat) (high : bool) (ty : Z) (m : list Z)
| PReserve (o : nat) (high : bool) (ty : Z) (m : list Z) | PSend (o : nat) (high : bool) (t : task)
| PUnlock (o : nat) (high : bool) (ty : Z) (r : option error) | PResult (o : nat) (high : bool) (r : option error)
(* partition.close *)
| XPartition (i : nat).

(** what the handlers of the application and the callers saw *)
Inductive happening :=
| HConnect (o c : nat) | HDisconnect (o c : nat) | HReceive (o c : nat) (data : list Z)
| HReturn (t : nat) (r : option error) | HReject (c : nat).

Record server := mkServer {
  objs : gmap nat serverConn;
  wires : gmap nat wire;
  pool : list nat;
  connections : gmap nat nat;
  total : Z;
  nextID : Z;
  closing : bool;
  budget : writeQueueBudget;
  timers : gmap nat nat;
  threads : gmap nat (list stage);
  log : list happening;
  panicked : bool
}.

Definition new_server (b : writeQueueBudget) : server :=
  mkServer ∅ ∅ [] ∅ 0 0 false b ∅ ∅ [] false.

(** *** Updates *)
Definition set_obj (o : nat) (x : serverConn) (s : server) : server :=
  mkServer (<[o := x]> (objs s)) (wires s) (pool s) (connections s) (total s) (nextID s) (closing s)
    (budget s) (timers s) (threads s) (log s) (panicked s).
Definition set_wire (c : nat) (x : wire) (s : server) : server :=
  mkServer (objs s) (<[c := x]> (wires s)) (pool s) (connections s) (total s) (nextID s) (closing s)
    (budget s) (timers s) (threads s) (log s) (panicked s).
Definition set_pool (p : list nat) (s : server) : server :=
  mkServer (objs s) (wires s) p (connections s) (total s) (nextID s) (closing s)
    (budget s) (timers s) (threads s) (log s) (panicked s).
Definition set_connections (cs : gmap nat nat) (n : Z) (s : server) : server :=
  mkServer (objs s) (wires s) (pool s) cs n (nextID s) (closing s)
    (budget s) (timers s) (threads s) (log s) (panicked s).
Definition set_nextID (n : Z) (s : server) : server :=
  mkServer (objs s) (wires s) (pool s) (connections s) (total s) n (closing s)
    (budget s) (timers s) (threads s) (log s) (panicked s).
Definition set_closing (s : server) : server :=
  mkServer (objs s) (wires s) (pool s) (connections s) (total s) (nextID s) true
    (budget s) (timers s) (threads s) (log s) (panicked s).
Definition set_budget (b : writeQueueBudget) (s : server) : server :=
  mkServer (objs s) (wires s) (pool s) (connections s) (total s) (nextID s) (closing s)
    b (timers s) (threads s) (log s) (panicked s).
Definition set_timers (ts : gmap nat nat) (s : server) : server :=
  mkServer (objs s) (wires s) (pool s) (connections s) (total s) (nextID s) (closing s)
    (budget s) ts (threads s) (log s) (panicked s).
Definition goto (t : nat) (k : list stage) (s : server) : server :=
  mkServer (objs s) (wires s) (pool s) (connections s) (total s) (nextID s) (closing s)
    (budget s) (timers s) (<[t := k]> (threads s)) (log s) (panicked s).
Definition note (h : happening) (s : server) : server :=
  mkServer (objs s) (wires s) (pool s) (connections s) (total s) (nextID s) (closing s)
    (budget s) (timers s) (threads s) (log s ++ [h]) (panicked s).
Definition panic (s : server) : server :=
  mkServer (objs s) (wires s) (pool s) (connections s) (total s) (nextID s) (closing s)
    (budget s) (timers s) (threads s) (log s) true.

Definition obj (o : nat) (s : server) : serverConn := objs s !!! o.
Definition wire_of (c : nat) (s : server) : wire := wires s !!! c.

Definition with_uid (u : Z) (x : serverConn) : serverConn :=
  mkServerConn (id x) u (state x) (conn x) (chans x) (workers x) (readers x) (lastHeartbeatTime x)
    (authorizeTimer x) (lowPriorityEnqueueTimeouts x).
Definition with_state (st : Z) (x : serverConn) : serverConn :=
  mkServerConn (id x) (uid x) st (conn x) (chans x) (workers x) (readers x) (lastHeartbeatTime x)
    (authorizeTimer x) (lowPriorityEnqueueTimeouts x).
Definition with_conn (c : option nat) (x : serverConn) : serverConn :=
  mkServerConn (id x) (uid x) (state x) c (chans x) (workers x) (readers x) (lastHeartbeatTime x)
    (authorizeTimer x) (lowPriorityEnqueueTimeouts x).
Definition with_workers (n : Z) (x : serverConn) : serverConn :=
  mkServerConn (id x) (uid x) (state x) (conn x) (chans x) n (readers x) (lastHeartbeatTime x)
    (authorizeTimer x) (lowPriorityEnqueueTimeouts x).
Definition with_readers (n : Z) (x : serverConn) : serverConn :=
  mkServerConn (id x) (uid x) (state x) (conn x) (chans x) (workers x) n (lastHeartbeatTime x)
    (authorizeTimer x) (lowPriorityEnqueueTimeouts x).
Definition with_last (n : Z) (x : serverConn) : serverConn :=
  mkServerConn (id x) (uid x) (state x) (conn x) (chans x) (workers x) (readers x) n
    (authorizeTimer x) (lowPriorityEnqueueTimeouts x).
Definition with_timer (tm : option nat) (x : serverConn) : serverConn :=
  mkServerConn (id x) (uid x) (state x) (conn x) (chans x) (workers x) (readers x) (lastHeartbeatTime x)
    tm (lowPriorityEnqueueTimeouts x).
Definition with_timeouts (n : Z) (x : serverConn) : serverConn :=
  mkServerConn (id x) (uid x) (state x) (conn x) (chans x) (workers x) (readers x) (lastHeartbeatTime x)
    (authorizeTimer x) n.

Definition with_low (q : list task) (x : wire) : wire :=
  mkWire q (highPriorityQueue x) (closed x) (done x) (shut x) (sent x).
Definition with_high (q : list task) (x : wire) : wire :=
  mkWire (lowPriorityQueue x) q (closed x) (done x) (shut x) (sent x).
Definition with_closed (x : wire) : wire :=
  mkWire (lowPriorityQueue x) (highPriorityQueue x) true (done x) (shut x) (sent x).
Definition with_done (d : offer) (x : wire) : wire :=
  mkWire (lowPriorityQueue x) (highPriorityQueue x) (closed x) d (shut x) (sent x).
Definition with_shut (x : wire) : wire :=
  mkWire (lowPriorityQueue x) (highPriorityQueue x) (closed x) (done x) true (sent x).
Definition with_sent (m : list Z) (x : wire) : wire :=
  mkWire (lowPriorityQueue x) (highPriorityQueue x) (closed x) (done x) (shut x) (sent x ++ [m]).

Definition upd_obj (o : nat) (f : serverConn -> serverConn) (s : server) : server := set_obj o (f (obj o s)) s.
Definition upd_wire (c : nat) (f : wire -> wire) (s : server) : server := set_wire c (f (wire_of c s)) s.

(** xcall.Go *)
Definition spawn (k : list stage) (s : server) : server := goto (fresh (dom (threads s))) k s.

(** ** What a step may meet: success, an error, the timeout of a send; an object
    of the pool or a new one; a message of the socket; a tick; which channel a
    select receives from *)
Inductive outcome :=
| XOk | XErr | XTimeout | XPick (o : nat) (now : Z) | XRead (now : Z) (binary : bool) (data : list Z)
| XTick (now : Z) | XHigh | XLow | XDefault.

(** the calls of the listener, the clock, the application and Stop *)
Inductive action :=
| XAllocate (c : nat) | XFireTimer (tm : nat)
| XSend (o : nat) (m : list Z) | XPush (o : nat) (m : list Z) | XClose (o : nat) (force : bool)
| XBind (o : nat) (u : Z) | XUnbind (o : nat) | XStop
| XGo (x : outcome).

Section Ws.
Context (opts : serverOptions).
(** packet.CheckHeartbeat and packet.PackHeartbeat *)
Context (packer : Packet.defaultPacker) (heartbeat : Z -> list Z).
(** the index of a socket's partition *)
Context (partition_of : nat -> nat).

(** *** server_conn.go *)
Definition checkState (x : serverConn) : option error :=
  if state x =? ConnHanged then Some ErrConnectionHanged
  else if state x =? ConnClosed then Some ErrConnectionClosed else None.

Definition isClosed (x : serverConn) : bool := state x =? ConnClosed.

Definition checkServerHeartbeat (data : list Z) : res bool :=
  if packetHeartbeatInspection opts then Packet.CheckHeartbeat packer data else Ok false.

(** init, without the goroutines it starts *)
Definition init (c : nat) (ident now : Z) (x : serverConn) : serverConn :=
  mkServerConn ident 0 ConnOpened (Some c) c (workers x + 2) (readers x) now None 0.

Definition reset (x : serverConn) : serverConn := with_timeouts 0 x.

(** Timer.Stop *)
Definition stop_timer (tm : option nat) (s : server) : server :=
  match tm with Some tm => set_timers (delete tm (timers s)) s | None => s end.

Definition checkAuthorize (o : nat) (s : server) : server :=
  if 0 <? authorizeTimeout opts then
    let tm := fresh (dom (timers s)) in
    stop_timer (authorizeTimer (obj o s)) (upd_obj o (with_timer (Some tm)) (set_timers (<[tm := o]> (timers s)) s))
  else s.

Definition uncheckAuthorize (o : nat) (s : server) : server :=
  if 0 <? authorizeTimeout opts
  then stop_timer (authorizeTimer (obj o s)) (upd_obj o (with_timer None) s) else s.

(** doRecycleToPool *)
Definition doRecycleToPool (t : task) (s : server) : server :=
  set_budget (release (queuedBytes t) (lowPriority t) (budget s)) s.

(** discardQueuedTasks: the next task its two loops receive, if there is one *)
Definition discardQueuedTasks (o : nat) (s : server) : option server :=
  let c := chans (obj o s) in
  match highPriorityQueue (wire_of c s), lowPriorityQueue (wire_of c s) with
  | q :: qs, _ => Some (doRecycleToPool q (upd_wire c (with_high qs) s))
  | [], q :: qs => Some (doRecycleToPool q (upd_wire c (with_low qs) s))
  | [], [] => None
  end.

(** the locked part of doClose *)
Definition doClose (t o : nat) (r : bool) (k : list stage) (s : server) : option server :=
  if negb (readers (obj o s) =? 0) then None else
  match conn (obj o s) with
  | None => Some (goto t k s)
  | Some c =>
      let w := chans (obj o s) in
      if closed (wire_of w s) then Some (panic s) else
      Some (goto t (DDiscard o :: DSocket c :: DHandler o c :: (if r then [DRecycle c] else []) ++ k)
              (upd_obj o (with_conn None) (upd_wire w with_closed s)))
  end.

(** a send on one of the queues; a full one waits *)
Definition enqueue (high : bool) (t : task) (w : wire) : option wire :=
  if high then
    if Z.of_nat (length (highPriorityQueue w)) <? writeQueueSize opts
    then Some (with_high (highPriorityQueue w ++ [t]) w) else None
  else
    if Z.of_nat (length (lowPriorityQueue w)) <? writeQueueSize opts
    then Some (with_low (lowPriorityQueue w ++ [t]) w) else None.

(** handleHighPriorityEnqueueResult and handleLowPriorityEnqueueResult *)
Definition enqueue_result (t o : nat) (high : bool) (r : option error) (k : list stage) (s : server) : server :=
  let late := bool_decide (r = Some ErrDeadlineExceeded) in
  if high then
    goto t (if late && negb (isClosed (obj o s)) then FOpened o true :: k else k) (note (HReturn t r) s)
  else match r with
  | None => goto t k (note (HReturn t None) (upd_obj o (with_timeouts 0) s))
  | Some _ =>
      if negb late || (slowConsumerEnqueueTimeoutLimit opts <=? 0) then goto t k (note (HReturn t r) s) else
      let n := i32 (lowPriorityEnqueueTimeouts (obj o s) + 1) in
      goto t (if (i32 (slowConsumerEnqueueTimeoutLimit opts) <=? n) && negb (isClosed (obj o s))
              then FOpened o true :: k else k)
        (note (HReturn t r) (upd_obj o (with_timeouts n) s))
  end.

(** *** server_conn_mgr.go *)

(** reserve: the loop of the compare-and-swap ends with one of these *)
Definition reserve_slot (s : server) : option server :=
  if closing s then None
  else if maxConnNum opts <=? total s then None
  else Some (set_connections (connections s) (total s + 1) s).

(** recycle *)
Definition recycle (c : nat) (s : server) : server :=
  match connections s !! c with
  | Some o => spawn [CWait o] (set_connections (delete c (connections s)) (total s - 1) s)
  | None => s
  end.

(** snapshot *)
Definition snapshot (i : nat) (s : server) : list nat :=
  (filter (fun p => partition_of p.1 mod 10 = i)%nat (map_to_list (connections s))).*2.

(** close: one goroutine for each partition *)
Definition start_partitions (l : list nat) (s : server) : server := foldr (fun i s => spawn [XPartition i] s) s l.

(** *** Calls *)
Definition begin (t : nat) (x : action) (s : server) : option server :=
  match x with
  | XAllocate c =>
      if decide (is_Some (wires s !! c)) then None else
      let s := set_wire c no_wire s in
      match reserve_slot s with
      | Some s' => Some (goto t [AInit c] s')
      | None => Some (note (HReject c) (upd_wire c with_shut s))
      end
  | XFireTimer tm =>
      match timers s !! tm with
      | Some o => Some (goto t [TFire o] (set_timers (delete tm (timers s)) s))
      | None => None
      end
  | XSend o m => Some (goto t [PCheck o true m] s)
  | XPush o m => Some (goto t [PCheck o false m] s)
  | XClose o force => Some (goto t [if force : bool then FOpened o true else GOpened o true] s)
  | XBind o u => Some (goto t [TUncheck o] (upd_obj o (with_uid u) s))
  | XUnbind o => Some (goto t [TCheck o] (upd_obj o (with_uid 0) s))
  | XStop => Some (start_partitions (seq 0 10) (goto t [] (set_closing s)))
  | XGo _ => None
  end.

(** *** Stages; [k] is what follows *)

(** one step of allocate and init *)
Definition advance_alloc (t : nat) (st : stage) (k : list stage) (x : outcome) (s : server) : option server :=
  match st, x with
  | AInit c, XPick o now =>
      let free := if decide (o ∈ pool s) then Some (filter (fun o' => o' <> o) (pool s))
                  else if decide (is_Some (objs s !! o)) then None else Some (pool s) in
      match free with
      | None => None
      | Some p =>
          let s := set_nextID (nextID s + 1) (set_pool p s) in
          let s := upd_obj o (init c (nextID s) now) s in
          Some (goto t (TCheck o :: AConnect o :: AStore o c :: k)
                  (spawn [WStart o; WDone o] (spawn [RStart o; WDone o] s)))
      end
  | AConnect o, XOk => Some (goto t k (note (HConnect o (chans (obj o s))) s))
  | AStore o c, XOk =>
      if negb (readers (obj o s) =? 0) then None else
      if negb (state (obj o s) =? ConnOpened) then Some (goto t k (set_connections (connections s) (total s - 1) s))
      else if closing s then Some (goto t (FOpened o false :: k) (set_connections (connections s) (total s - 1) s))
      else Some (goto t k (set_connections (<[c := o]> (connections s)) (total s) s))
  | TCheck o, XOk => Some (goto t k (checkAuthorize o s))
  | TUncheck o, XOk => Some (goto t k (uncheckAuthorize o s))
  | TFire o, XOk => Some (goto t (if uid (obj o s) =? 0 then FOpened o true :: k else k) s)
  | _, _ => None
  end.

(** one step of forceClose, graceClose, doClose and recycle *)
Definition advance_close (t : nat) (st : stage) (k : list stage) (x : outcome) (s : server) : option server :=
  match st, x with
  | FOpened o r, XOk =>
      Some (if state (obj o s) =? ConnOpened
            then goto t (TUncheck o :: DClose o r :: k) (upd_obj o (with_state ConnClosed) s)
            else goto t (FHanged o r :: k) s)
  | FHanged o r, XOk =>
      Some (if state (obj o s) =? ConnHanged
            then goto t (TUncheck o :: DClose o r :: k) (upd_obj o (with_state ConnClosed) s)
            else goto t k s)
  | GOpened o r, XOk =>
      Some (if state (obj o s) =? ConnOpened
            then goto t (TUncheck o :: GLock o r :: k) (upd_obj o (with_state ConnHanged) s)
            else goto t k s)
  | GLock o r, XOk =>
      match conn (obj o s) with
      | None => Some (goto t k s)
      | Some _ => Some (goto t (GSend o r :: k) (upd_obj o (fun x => with_readers (readers x + 1) x) s))
      end
  | GSend o r, XOk =>
      let c := chans (obj o s) in
      if closed (wire_of c s) then Some (panic s) else
      match enqueue false (mkTask closeSig [] 0 false) (wire_of c s) with
      | Some w => Some (goto t (GUnlock o r :: k) (set_wire c w s))
      | None => None
      end
  | GUnlock o r, XOk => Some (goto t (GDone o r :: k) (upd_obj o (fun x => with_readers (readers x - 1) x) s))
  | GDone o r, XOk => Some (goto t (GRecv o (chans (obj o s)) r :: k) s)
  | GRecv o c r, XOk =>
      match done (wire_of c s) with
      | DOffered => Some (goto t (GHanged o r :: k) (upd_wire c (with_done DTaken) s))
      | _ => if closed (wire_of c s) then Some (goto t (GHanged o r :: k) s) else None
      end
  | GHanged o r, XOk =>
      Some (if state (obj o s) =? ConnHanged
            then goto t (DClose o r :: k) (upd_obj o (with_state ConnClosed) s) else goto t k s)
  | DClose o r, XOk => doClose t o r k s
  | DDiscard o, XOk =>
      Some match discardQueuedTasks o s with Some s' => goto t (DDiscard o :: k) s' | None => goto t k s end
  | DSocket c, (XOk | XErr) => Some (goto t k (upd_wire c with_shut s))
  | DHandler o c, XOk => Some (goto t k (note (HDisconnect o c) s))
  | DRecycle c, XOk => Some (recycle c (goto t k s))
  | CWait o, XOk =>
      if workers (obj o s) =? 0
      then Some (goto t k (set_pool (pool s ++ [o]) (upd_obj o reset s))) else None
  | XPartition i, XOk => Some (goto t (((fun o => GOpened o true) <$> snapshot i s) ++ k) s)
  | _, _ => None
  end.

(** one step of read *)
Definition advance_read (t : nat) (st : stage) (k : list stage) (x : outcome) (s : server) : option server :=
  match st, x with
  | RStart o, XOk =>
      Some (goto t match conn (obj o s) with Some c => RLoop o c :: k | None => k end s)
  | RLoop o c, XOk =>
      Some (goto t (if closed (wire_of (chans (obj o s)) s) then k else RRead o c :: k) s)
  | RRead o c, XErr => Some (goto t (FOpened o true :: k) s)
  | RRead o c, XRead now binary data =>
      if shut (wire_of c s) then None else
      if negb binary then Some (goto t (RLoop o c :: k) s) else
      Some (goto t (RState o c data :: k)
              (if 0 <? heartbeatInterval opts then upd_obj o (with_last now) s else s))
  | RState o c data, XOk =>
      Some (goto t (if state (obj o s) =? ConnHanged then RLoop o c :: k
                    else if state (obj o s) =? ConnClosed then k
                    else match data with [] => RLoop o c :: k | _ => RData o c data :: k end) s)
  | RData o c data, XTick now =>
      match checkServerHeartbeat data with
      | Ok true =>
          Some (goto t match heartbeatMechanism opts with
                       | RespHeartbeat => PLock o true heartbeatPacket (heartbeat now) :: RLoop o c :: k
                       | TickHeartbeat => RLoop o c :: k
                       end s)
      | Ok false => Some (goto t (RLoop o c :: k) (note (HReceive o c data) s))
      | _ => Some (goto t (RLoop o c :: k) s)
      end
  | WDone o, XOk =>
      if workers (obj o s) <=? 0 then Some (panic s)
      else Some (goto t k (upd_obj o (fun x => with_workers (workers x - 1) x) s))
  | _, _ => None
  end.

(** receiving from the high queue: a task, or the end of the goroutine *)
Definition recv_high (t o c : nat) (k : list stage) (s : server) : option server :=
  let w := chans (obj o s) in
  match highPriorityQueue (wire_of w s) with
  | q :: qs => Some (goto t (WTask o c q :: k) (upd_wire w (with_high qs) s))
  | [] => if closed (wire_of w s) then Some (goto t k s) else None
  end.
Definition recv_low (t o c : nat) (k : list stage) (s : server) : option server :=
  let w := chans (obj o s) in
  match lowPriorityQueue (wire_of w s) with
  | q :: qs => Some (goto t (WTask o c q :: k) (upd_wire w (with_low qs) s))
  | [] => if closed (wire_of w s) then Some (goto t k s) else None
  end.

(** doHandleHeartbeat, up to the write *)
Definition tick (t o c : nat) (now : Z) (k : list stage) (s : server) : server :=
  if lastHeartbeatTime (obj o s) <? now - 2 * heartbeatInterval opts then goto t (FOpened o true :: k) s else
  match heartbeatMechanism opts with
  | TickHeartbeat => goto t (if isClosed (obj o s) then k else WBeat o c now :: k) s
  | RespHeartbeat => goto t (WLoop o c :: k) s
  end.

(** one step of write *)
Definition advance_write (t : nat) (st : stage) (k : list stage) (x : outcome) (s : server) : option server :=
  match st, x with
  | WStart o, XOk => Some (goto t match conn (obj o s) with Some c => WLoop o c :: k | None => k end s)
  | WLoop o c, XHigh => recv_high t o c k s
  | WLoop o c, XDefault =>
      match highPriorityQueue (wire_of (chans (obj o s)) s) with
      | [] => if closed (wire_of (chans (obj o s)) s) then None else Some (goto t (WSelect o c :: k) s)
      | _ => None
      end
  | WSelect o c, XHigh => recv_high t o c k s
  | WSelect o c, XLow => recv_low t o c k s
  | (WLoop o c | WSelect o c), XTick now =>
      if 0 <? heartbeatInterval opts then Some (goto t (WTick o c now :: k) s) else None
  | WTask o c q, XOk =>
      if typ q =? closeSig then Some (goto t (WSignal o :: k) (doRecycleToPool q s))
      else if isClosed (obj o s) then Some (goto t (WFail o :: k) (doRecycleToPool q s))
      else Some (goto t (WWrite o c q :: k) s)
  | WWrite o c q, XOk =>
      if shut (wire_of c s) then None else
      Some (goto t (WLoop o c :: k) (doRecycleToPool q (upd_wire c (with_sent (msg q)) s)))
  | WWrite o c q, XErr => Some (goto t (WFail o :: k) (doRecycleToPool q s))
  | WFail o, XOk => Some (goto t (if isClosed (obj o s) then k else FOpened o true :: k) s)
  | WSignal o, XOk =>
      match conn (obj o s) with
      | None => Some (goto t k s)
      | Some _ => Some (goto t (WOffer o :: k) (upd_obj o (fun x => with_readers (readers x + 1) x) s))
      end
  | WOffer o, XOk =>
      let c := chans (obj o s) in
      if closed (wire_of c s) then Some (panic s) else
      match done (wire_of c s) with
      | DIdle => Some (goto t (WTaken o c :: k) (upd_wire c (with_done DOffered) s))
      | _ => None
      end
  | WTaken o c, XOk =>
      match done (wire_of c s) with
      | DTaken => Some (goto t k (upd_obj o (fun x => with_readers (readers x - 1) x) (upd_wire c (with_done DIdle) s)))
      | _ => if closed (wire_of c s) then Some (panic s) else None
      end
  | WTick o c now, XOk => Some (tick t o c now k s)
  | WBeat o c now, XOk =>
      if shut (wire_of c s) then None else
      Some (goto t (WLoop o c :: k) (upd_wire c (with_sent (heartbeat now)) s))
  | WBeat o c now, XErr => Some (goto t (FOpened o true :: k) s)
  | _, _ => None
  end.

(** one step of Send, Push and the answer to a heartbeat *)
Definition advance_push (t : nat) (st : stage) (k : list stage) (x : outcome) (s : server) : option server :=
  match st, x with
  | PCheck o high m, XOk =>
      match checkState (obj o s) with
      | Some e => Some (goto t k (note (HReturn t (Some e)) s))
      | None => Some (goto t (PLock o high dataPacket m :: k) s)
      end
  | PLock o high ty m, XOk =>
      match conn (obj o s) with
      | None => Some (goto t k (if ty =? heartbeatPacket then s else note (HReturn t (Some ErrConnectionClosed)) s))
      | Some _ => Some (goto t (PReserve o high ty m :: k) (upd_obj o (fun x => with_readers (readers x + 1) x) s))
      end
  | PReserve o high ty m, XOk =>
      let n := len m in
      let '(ok, b) := reserve n (negb high) (budget s) in
      Some (goto t (if ok : bool then PSend o high (mkTask ty m n (negb high)) :: k
                    else PUnlock o high ty (Some ErrWriteQueueBytesExceeded) :: k) (set_budget b s))
  | PSend o high q, XOk =>
      let c := chans (obj o s) in
      if closed (wire_of c s) then Some (panic s) else
      match enqueue high q (wire_of c s) with
      | Some w => Some (goto t (PUnlock o high (typ q) None :: k) (set_wire c w s))
      | None => None
      end
  | PSend o high q, XTimeout =>
      if 0 <? writeTimeout opts
      then Some (goto t (PUnlock o high (typ q) (Some ErrDeadlineExceeded) :: k) (doRecycleToPool q s)) else None
  | PUnlock o high ty r, XOk =>
      Some (goto t (if ty =? heartbeatPacket then k else PResult o high r :: k)
              (upd_obj o (fun x => with_readers (readers x - 1) x) s))
  | PResult o high r, XOk => Some (enqueue_result t o high r k s)
  | _, _ => None
  end.

Definition advance (t : nat) (st : stage) (k : list stage) (x : outcome) (s : server) : option server :=
  match st with
  | AInit _ | AConnect _ | AStore _ _ | TCheck _ | TUncheck _ | TFire _ => advance_alloc t st k x s
  | FOpened _ _ | FHanged _ _ | DClose _ _ | DDiscard _ | DSocket _ | DHandler _ _ | DRecycle _ | CWait _
  | GOpened _ _ | GLock _ _ | GSend _ _ | GUnlock _ _ | GDone _ _ | GRecv _ _ _ | GHanged _ _
  | XPartition _ => advance_close t st k x s
  | RStart _ | RLoop _ _ | RRead _ _ | RState _ _ _ | RData _ _ _ | WDone _ => advance_read t st k x s
  | WStart _ | WLoop _ _ | WSelect _ _ | WTask _ _ _ | WWrite _ _ _ | WFail _ | WSignal _ | WOffer _
  | WTaken _ _ | WTick _ _ _ | WBeat _ _ _ => advance_write t st k x s
  | PCheck _ _ _ | PLock _ _ _ _ | PReserve _ _ _ _ | PSend _ _ _ | PUnlock _ _ _ _ | PResult _ _ _ =>
      advance_push t st k x s
  end.

Definition exec (t : nat) (x : action) (s : server) : option server :=
  if panicked s then None else
  match threads s !! t with
  | None | Some [] => begin t x s
  | Some (st :: k) => match x with XGo x => advance t st k x s | _ => None end
  end.

Inductive reachable (b : writeQueueBudget) : server -> Prop :=
| reach_new : reachable b (new_server b)
| reach_exec s t x s' : reachable b s -> exec t x s = Some s' -> reachable b s'.

Fixpoint run (xs : list (nat * action)) (s : server) : option server :=
  match xs with
  | [] => Some s
  | (t, x) :: xs' => match exec t x s with Some s' => run xs' s' | None => None end
  end.
End Ws.
End Ws.
