(* ===== verification/WsConnOk.v ===== *)
(** Every interleaving of a WebSocket server's goroutines: what a step changes
    ([moves]), and the invariant it keeps ([winv]). *)
From stdpp Require Import base numbers list gmap.
From Stdlib Require Import ZArith Lia.
From S2P Require Import Prelude Types Packet Threads WsConn.
Import Ws.

Open Scope Z_scope.

(** ** What a goroutine holds *)

Inductive token :=
| KDone (o : nat)    (* it will call workers.Done *)
| KHold (o : nat)    (* it holds the read lock *)
| KOwn (o : nat)     (* it may register the object *)
| KWait (o : nat)    (* it will give the object back to the pool *)
| KSlot              (* it accounts for a connection in the total *)
| KKeep (c : nat)    (* it may register the socket *)
| KInit (c : nat)    (* it will make an object for it *)
| KCut (c : nat)     (* it will take the socket out of the table *)
| KDisc (c : nat).   (* it will call the disconnect handler *)
#[export] Instance token_eq_dec : EqDecision token.
Proof. solve_decision. Defined.

Definition tokens_of (st : stage) : list token :=
  match st with
  | WDone o => [KDone o]
  | GSend o _ | GUnlock o _ | PReserve o _ _ _ | PSend o _ _ | PUnlock o _ _ _ | WOffer o | WTaken o _ => [KHold o]
  | CWait o => [KWait o]
  | AInit c => [KSlot; KInit c]
  | AStore o c => [KSlot; KKeep c; KOwn o]
  | DRecycle c => [KCut c]
  | DHandler _ c => [KDisc c]
  | _ => []
  end.
Definition tokens (k : list stage) : list token := flat_map tokens_of k.

Definition count (x : token) (l : list token) : nat := length (filter (eq x) l).
Definition tot (x : token) (s : server) : nat := Threads.total (fun k => count x (tokens k)) (threads s).

(** which socket a goroutine acts for, and for which object *)
Definition life_of (st : stage) : list (nat * nat) :=
  match st with
  | AStore o c | RLoop o c | RRead o c | RState o c _ | RData o c _ | WLoop o c | WSelect o c | WTask o c _
  | WWrite o c _ | WTick o c _ | WBeat o c _ | WTaken o c => [(o, c)]
  | _ => []
  end.
Definition lives (k : list stage) : list (nat * nat) := flat_map life_of k.

(** a reader or writer of an object comes before the Done that accounts for it *)
Definition needs (st : stage) : list nat :=
  match st with
  | RStart o | RLoop o _ | RRead o _ | RState o _ _ | RData o _ _ | WStart o | WLoop o _ | WSelect o _
  | WTask o _ _ | WWrite o _ _ | WSignal o | WOffer o | WTaken o _ | WTick o _ _ | WBeat o _ _ => [o]
  | _ => []
  end.
Fixpoint lively (k : list stage) : Prop :=
  match k with [] => True | st :: k' => (forall o, o ∈ needs st -> KDone o ∈ tokens k') /\ lively k' end.

Definition discs (c : nat) (l : list happening) : nat :=
  weigh (fun h => match h with HDisconnect _ c' => if decide (c' = c) then 1 else 0 | _ => 0 end)%nat l.

(** ** What a step does *)

Inductive kind :=
| Quiet
| Allocate (c : nat) | Initialise (o c : nat) | Drop (o c : nat) | Register (o c : nat)
| Acquire (o : nat) | Give (o : nat)
| Shut (o c : nat) (r : bool) | Recycle (o c : nat) | Uncut (c : nat) | Pool (o : nat)
| Leave (o : nat) | Handle (c : nat).
#[export] Instance kind_eq_dec : EqDecision kind.
Proof. solve_decision. Defined.

(** connection, channels, workers and readers of an object *)
Record core := mkCore { k_conn : option nat; k_chans : nat; k_workers : Z; k_readers : Z }.
Definition core_of (o : nat) (s : server) : core :=
  mkCore (conn (obj o s)) (chans (obj o s)) (workers (obj o s)) (readers (obj o s)).

Definition core_after (m : kind) (o : nat) (x : core) : core :=
  match m with
  | Initialise o' c => if decide (o = o') then mkCore (Some c) c (k_workers x + 2) (k_readers x) else x
  | Acquire o' => if decide (o = o') then mkCore (k_conn x) (k_chans x) (k_workers x) (k_readers x + 1) else x
  | Give o' => if decide (o = o') then mkCore (k_conn x) (k_chans x) (k_workers x) (k_readers x - 1) else x
  | Shut o' _ _ => if decide (o = o') then mkCore None (k_chans x) (k_workers x) (k_readers x) else x
  | Leave o' => if decide (o = o') then mkCore (k_conn x) (k_chans x) (k_workers x - 1) (k_readers x) else x
  | _ => x
  end.

Definition closed_after (m : kind) (s : server) (c : nat) : bool :=
  match m with
  | Shut o _ _ => if decide (c = chans (obj o s)) then true else closed (wire_of c s)
  | _ => closed (wire_of c s)
  end.

Definition pool_after (m : kind) (p : list nat) : list nat :=
  match m with
  | Initialise o _ => filter (fun o' => o' <> o) p
  | Pool o => p ++ [o]
  | _ => p
  end.

Definition connections_after (m : kind) (cs : gmap nat nat) : gmap nat nat :=
  match m with
  | Register o c => <[c := o]> cs
  | Recycle _ c => delete c cs
  | _ => cs
  end.

Definition total_after (m : kind) (n : Z) : Z :=
  match m with Allocate _ => n + 1 | Drop _ _ | Recycle _ _ => n - 1 | _ => n end.

Definition removed (m : kind) : list token :=
  match m with
  | Initialise _ c => tokens_of (AInit c)
  | Drop o c | Register o c => tokens_of (AStore o c)
  | Give o => [KHold o]
  | Recycle _ c | Uncut c => [KCut c]
  | Pool o => tokens_of (CWait o)
  | Leave o => [KDone o]
  | Handle c => [KDisc c]
  | _ => []
  end.

Definition added (m : kind) : list token :=
  match m with
  | Allocate c => tokens_of (AInit c)
  | Initialise o c => tokens_of (AStore o c) ++ [KDone o; KDone o]
  | Acquire o => [KHold o]
  | Shut _ c r => KDisc c :: if r then [KCut c] else []
  | Recycle o _ => tokens_of (CWait o)
  | _ => []
  end.

Definition handled (m : kind) (c : nat) : nat :=
  match m with Handle c' => if decide (c' = c) then 1 else 0 | _ => 0 end.

Section Ok.
Context (opts : serverOptions) (packer : Packet.defaultPacker) (heartbeat : Z -> list Z)
  (partition_of : nat -> nat).

Abbreviation exec := (Ws.exec opts packer heartbeat partition_of).

Definition pre (m : kind) (s : server) : Prop :=
  match m with
  | Allocate c => wires s !! c = None /\ total s < maxConnNum opts
  | Initialise o c => o ∈ pool s \/ objs s !! o = None
  | Acquire o => conn (obj o s) <> None
  | Shut o c _ => readers (obj o s) = 0 /\ conn (obj o s) = Some c /\ closed (wire_of (chans (obj o s)) s) = false
  | Recycle o c => connections s !! c = Some o
  | Pool o => workers (obj o s) = 0
  | Leave o => 0 < workers (obj o s)
  | Register o c => exists u k, threads s !! u = Some k /\ (o, c) ∈ lives k
  | _ => True
  end.

Record moves (m : kind) (s s' : server) : Prop := {
  mv_pre : pre m s;
  mv_core : forall o, core_of o s' = core_after m o (core_of o s);
  mv_closed : forall c, closed (wire_of c s') = closed_after m s c;
  mv_wires : forall c, is_Some (wires s !! c) \/ m = Allocate c -> is_Some (wires s' !! c);
  mv_known : forall o, is_Some (objs s !! o) \/ (exists c, m = Initialise o c) -> is_Some (objs s' !! o);
  mv_pool : pool s' = pool_after m (pool s);
  mv_connections : connections s' = connections_after m (connections s);
  mv_total : Ws.total s' = total_after m (Ws.total s);
  mv_tokens : forall x, (tot x s' + count x (removed m) = tot x s + count x (added m))%nat;
  mv_lives : forall u k o c, threads s' !! u = Some k -> (o, c) ∈ lives k ->
    conn (obj o s) = Some c \/ chans (obj o s') = c \/
    exists u' k', threads s !! u' = Some k' /\ (o, c) ∈ lives k';
  mv_lively : (forall u k, threads s !! u = Some k -> lively k) ->
    forall u k, threads s' !! u = Some k -> lively k;
  mv_log : forall c, discs c (log s') = (discs c (log s) + handled m c)%nat;
  mv_panicked : panicked s' = false
}.

(** what a panic would be due to *)
Inductive mishap (s : server) : Prop :=
| mishap_send o : (0 < tot (KHold o) s)%nat -> closed (wire_of (chans (obj o s)) s) = true -> mishap s
| mishap_taken o c u k : (0 < tot (KHold o) s)%nat -> threads s !! u = Some k -> (o, c) ∈ lives k ->
    closed (wire_of c s) = true -> mishap s
| mishap_close o c : conn (obj o s) = Some c -> closed (wire_of (chans (obj o s)) s) = true -> mishap s
| mishap_done o : (0 < tot (KDone o) s)%nat -> workers (obj o s) <= 0 -> mishap s.
End Ok.

#[local] Arguments discs : simpl never.
#[local] Arguments count : simpl never.
#[local] Arguments tokens : simpl never.
#[local] Arguments lives : simpl never.

(** ** Lookups after updates *)

Lemma obj_set o o' x s : obj o (set_obj o' x s) = if decide (o = o') then x else obj o s.
Proof.
  unfold obj, set_obj. cbn. destruct (decide (o = o')) as [->|]; [apply lookup_total_insert_eq|].
  by apply lookup_total_insert_ne.
Qed.
Lemma wire_set c c' x s : wire_of c (set_wire c' x s) = if decide (c = c') then x else wire_of c s.
Proof.
  unfold wire_of, set_wire. cbn. destruct (decide (c = c')) as [->|]; [apply lookup_total_insert_eq|].
  by apply lookup_total_insert_ne.
Qed.
Lemma wire_new c s : wires s !! c = None -> wire_of c s = no_wire.
Proof. intros Hc. unfold wire_of. by rewrite lookup_total_alt, Hc. Qed.
Lemma obj_new o s : objs s !! o = None -> obj o s = no_conn.
Proof. intros Ho. unfold obj. by rewrite lookup_total_alt, Ho. Qed.

Lemma tokens_count_app x l l' : count x (l ++ l') = (count x l + count x l')%nat.
Proof. unfold count. by rewrite filter_app, length_app. Qed.
Lemma tokens_cons st k : tokens (st :: k) = tokens_of st ++ tokens k.
Proof. done. Qed.
Lemma tokens_app k k' : tokens (k ++ k') = tokens k ++ tokens k'.
Proof. apply flat_map_app. Qed.
Lemma discs_one c h :
  discs c [h] = match h with HDisconnect _ c' => if decide (c' = c) then 1%nat else 0%nat | _ => 0%nat end.
Proof. unfold discs, weigh. cbn. lia. Qed.
Lemma discs_app c l l' : discs c (l ++ l') = (discs c l + discs c l')%nat.
Proof. apply weigh_app. Qed.

(** what a set of goroutines holds after one of them moved *)
Lemma tot_goto x t k s :
  (tot x (goto t k s) + match threads s !! t with Some k0 => count x (tokens k0) | None => 0 end
   = tot x s + count x (tokens k))%nat.
Proof. apply (total_set (fun k => count x (tokens k))). Qed.

Lemma tot_spawn x k s : tot x (spawn k s) = (count x (tokens k) + tot x s)%nat.
Proof. apply (total_fresh (fun k => count x (tokens k))). Qed.

Lemma tot_same x s s' : threads s' = threads s -> tot x s' = tot x s.
Proof. intros E. unfold tot. by rewrite E. Qed.

Ltac look :=
  unfold upd_obj, upd_wire, set_obj, set_wire, closed_after, core_of, obj, wire_of in *; cbn in *;
  rewrite ?lookup_total_insert in *; repeat case_decide; simplify_eq/=.

Section Moves.
Context (opts : serverOptions) (packer : Packet.defaultPacker) (heartbeat : Z -> list Z)
  (partition_of : nat -> nat).

Abbreviation moves := (moves opts).
Abbreviation pre := (pre opts).
Abbreviation exec := (Ws.exec opts packer heartbeat partition_of).

(** what is left of [moves] when the goroutines are set aside *)
Record frame (m : kind) (s s' : server) : Prop := {
  fr_core : forall o, core_of o s' = core_after m o (core_of o s);
  fr_closed : forall c, closed (wire_of c s') = closed_after m s c;
  fr_wires : forall c, is_Some (wires s !! c) \/ m = Allocate c -> is_Some (wires s' !! c);
  fr_known : forall o, is_Some (objs s !! o) \/ (exists c, m = Initialise o c) -> is_Some (objs s' !! o);
  fr_pool : pool s' = pool_after m (pool s);
  fr_connections : connections s' = connections_after m (connections s);
  fr_total : Ws.total s' = total_after m (Ws.total s);
  fr_log : forall c, discs c (log s') = (discs c (log s) + handled m c)%nat;
  fr_panicked : panicked s' = panicked s;
  fr_threads : threads s' = threads s
}.

(** where the lives of [k'] come from *)
Definition rooted (s s' : server) (k k' : list stage) : Prop :=
  forall o c, (o, c) ∈ lives k' -> conn (obj o s) = Some c \/ chans (obj o s') = c \/ (o, c) ∈ lives k.

Lemma moves_goto m t k0 k s s1 :
  panicked s = false -> frame m s s1 -> pre m s ->
  default [] (threads s !! t) = k0 ->
  (forall x, count x (tokens k) + count x (removed m) = count x (tokens k0) + count x (added m))%nat ->
  rooted s s1 k0 k -> (lively k0 -> lively k) ->
  moves m s (goto t k s1).
Proof.
  intros Hp [] Hpre Hk0 Hc Hr Hv. split; auto.
  - intros x. pose proof (tot_goto x t k s1) as Ht. rewrite fr_threads0, (tot_same x s s1) in Ht by done.
    specialize (Hc x). assert (count x (tokens []) = 0%nat) as H0 by done.
    destruct (threads s !! t) as [l|]; subst k0.
    + change (default [] (Some l)) with l in Hc. lia.
    + change (default [] None) with (@nil stage) in Hc. lia.
  - intros u k' o c Hu Hl. cbn in Hu. rewrite fr_threads0 in Hu.
    apply lookup_insert_Some in Hu as [[<- <-]|[_ Hu]]; [|eauto 6].
    destruct (Hr o c Hl) as [?|[?|?]]; [by left|by right; left|].
    right; right. destruct (threads s !! t) eqn:E; cbn in Hk0; subst; [eauto|by apply elem_of_nil in H].
  - intros Hl u k' Hu. cbn in Hu. rewrite fr_threads0 in Hu.
    apply lookup_insert_Some in Hu as [[<- <-]|[_ Hu]]; [|eauto].
    apply Hv. destruct (threads s !! t) eqn:E; cbn in Hk0; subst; [eauto|done].
  - cbn. by rewrite fr_panicked0.
Qed.

(** a goroutine started besides *)
Lemma moves_spawn m t k0 k k' s s1 :
  panicked s = false -> frame m s s1 -> pre m s ->
  threads s !! t = Some k0 ->
  (forall x, count x (tokens k) + count x (tokens k') + count x (removed m)
     = count x (tokens k0) + count x (added m))%nat ->
  rooted s s1 k0 k -> (lively k0 -> lively k) -> lives k' = [] -> lively k' ->
  moves m s (spawn k' (goto t k s1)).
Proof.
  intros Hp [] Hpre Hk0 Hc Hr Hv Hl' Hv'. split; auto.
  - intros x. rewrite tot_spawn. pose proof (tot_goto x t k s1) as Ht.
    rewrite fr_threads0, (tot_same x s s1), Hk0 in Ht by done. specialize (Hc x). lia.
  - intros u k1 o c Hu Hl. cbn in Hu. rewrite fr_threads0 in Hu.
    apply lookup_insert_Some in Hu as [[_ <-]|[_ Hu]]; [by rewrite Hl' in Hl; apply elem_of_nil in Hl|].
    apply lookup_insert_Some in Hu as [[<- <-]|[_ Hu]]; [|eauto 6].
    destruct (Hr o c Hl) as [?|[?|?]]; eauto 6.
  - intros Hl u k1 Hu. cbn in Hu. rewrite fr_threads0 in Hu.
    apply lookup_insert_Some in Hu as [[_ <-]|[_ Hu]]; [done|].
    apply lookup_insert_Some in Hu as [[_ <-]|[_ Hu]]; eauto.
  - cbn. by rewrite fr_panicked0.
Qed.

(** *** Tactics *)

Lemma count_nil x : count x [] = 0%nat.
Proof. done. Qed.
Lemma tokens_nil : tokens [] = [].
Proof. done. Qed.
Lemma lives_nil o c : (o, c) ∈ lives [] <-> False.
Proof. split; [apply elem_of_nil|done]. Qed.
Lemma lives_cons st k o c : (o, c) ∈ lives (st :: k) <-> (o, c) ∈ life_of st \/ (o, c) ∈ lives k.
Proof. apply elem_of_app. Qed.
Lemma lives_app k k' o c : (o, c) ∈ lives (k ++ k') <-> (o, c) ∈ lives k \/ (o, c) ∈ lives k'.
Proof. unfold lives. rewrite flat_map_app. apply elem_of_app. Qed.

Lemma count_cons x y l : count x (y :: l) = ((if decide (x = y) then 1 else 0) + count x l)%nat.
Proof. unfold count. rewrite filter_cons. by case_decide. Qed.

Lemma held_pos x t k s : threads s !! t = Some k -> (0 < count x (tokens k))%nat -> (0 < tot x s)%nat.
Proof. intros Ht Hc. pose proof (total_le (fun k => count x (tokens k)) _ _ _ Ht). unfold tot. cbn in *. lia. Qed.

(** held by the head of a goroutine *)
Ltac by_head H :=
  eapply (held_pos _ _ _ _ H); rewrite tokens_cons, tokens_count_app; cbn [tokens_of];
  rewrite count_cons, decide_True by done; lia.

Ltac framed :=
  split; intros; look; rewrite ?discs_app, ?discs_one; cbn; repeat case_decide; simplify_eq/=;
  repeat match goal with
  | H : _ \/ _ |- _ => destruct H as [H|H]
  | H : exists _, _ |- _ => destruct H
  | |- is_Some (<[_ := _]> _ !! _) => apply lookup_insert_is_Some
  end; simplify_eq; auto; try done; try lia; try (by f_equal; lia); try match goal with |- ?a = ?b \/ _ => destruct (decide (a = b)); tauto end.

(** tokens before and after *)
Ltac tallied :=
  let y := fresh in
  intros y; rewrite ?tokens_cons, ?tokens_app, ?tokens_nil, ?tokens_count_app, ?count_nil; cbn [tokens_of removed added];
  rewrite ?tokens_cons, ?tokens_app, ?tokens_nil, ?tokens_count_app, ?count_nil; cbn [tokens_of]; rewrite ?count_cons, ?count_nil; lia.

Ltac rooting :=
  intros ? ? ?; cbn [app] in *; rewrite ?lives_cons, ?lives_app, ?lives_cons, ?lives_nil in *; cbn [life_of] in *;
  rewrite ?elem_of_cons, ?elem_of_nil in *; naive_solver.


Ltac living :=
  cbn [app lively needs] in *; let H := fresh in intros H; destruct_and?; split_and?; auto;
  intros ?; rewrite ?elem_of_cons, ?elem_of_nil; intros; destruct_or?; subst; try done;
  rewrite ?tokens_cons, ?elem_of_app, ?elem_of_cons, ?elem_of_nil; cbn [tokens_of];
  rewrite ?tokens_cons, ?elem_of_app, ?elem_of_cons, ?elem_of_nil in *; cbn [tokens_of] in *;
  rewrite ?elem_of_cons, ?elem_of_nil in *; naive_solver.

Definition explained (s s' : server) : Prop := (exists m, moves m s s') \/ panicked s' = true /\ mishap s.

(** the head of goroutine [t] was replaced *)
Ltac by_kind m :=
  left; exists m;
  match goal with H : threads _ !! ?t = Some ?k0 |- _ =>
    eapply (moves_goto _ t k0);
    [assumption|framed|cbn; try done; try lia; try congruence; by split_and!|by rewrite H|tallied|rooting|living] end.

Lemma push_moves t st k x s s' :
  panicked s = false -> threads s !! t = Some (st :: k) -> advance_push opts t st k x s = Some s' -> explained s s'.
Proof.
  intros Hp Ht H. unfold advance_push, enqueue_result, enqueue in H.
  destruct st; try discriminate H; destruct x; try discriminate H; repeat case_match; simplify_eq.
  all: try solve [by_kind Quiet|by_kind (Acquire o)|by_kind (Give o)].
  right. split; [done|]. apply (mishap_send _ o); [|done]. by_head Ht.
Qed.

Lemma read_moves t st k x s s' :
  panicked s = false -> threads s !! t = Some (st :: k) -> advance_read opts packer heartbeat t st k x s = Some s' ->
  explained s s'.
Proof.
  intros Hp Ht H. unfold advance_read in H.
  destruct st; try discriminate H; destruct x; try discriminate H; repeat case_match; simplify_eq.
  all: try solve [by_kind Quiet|by_kind (Leave o)].
  right. split; [done|]. apply (mishap_done _ o); [by_head Ht|lia].
Qed.

Lemma write_moves t st k x s s' :
  panicked s = false -> threads s !! t = Some (st :: k) -> advance_write opts heartbeat t st k x s = Some s' ->
  explained s s'.
Proof.
  intros Hp Ht H. unfold advance_write, recv_high, recv_low, tick in H.
  destruct st; try discriminate H; destruct x; try discriminate H; repeat case_match; simplify_eq.
  all: try solve [by_kind Quiet|by_kind (Acquire o)|by_kind (Give o)].
  { right. split; [done|]. apply (mishap_send _ o); [by_head Ht|done]. }
  all: right; split; [done|]; eapply (mishap_taken _ o c); [by_head Ht|exact Ht|by apply lives_cons; left; left|done].
Qed.

Lemma check_frame o s : frame Quiet s (checkAuthorize opts o s).
Proof. unfold checkAuthorize, stop_timer. repeat case_match; framed. Qed.
Lemma uncheck_frame o s : frame Quiet s (uncheckAuthorize opts o s).
Proof. unfold uncheckAuthorize, stop_timer. repeat case_match; framed. Qed.

Lemma lively_app k k' : lively k -> lively k' -> lively (k ++ k').
Proof.
  induction k as [|st k IH]; [done|]. cbn. intros [Hn Hk] Hk'. split; [|auto].
  intros o Ho. rewrite tokens_app, elem_of_app. auto.
Qed.

(** what a partition has closed holds nothing *)
Lemma closers_empty l : let k := (fun o => GOpened o true) <$> l in tokens k = [] /\ lives k = lives [] /\ lively k.
Proof.
  induction l as [|o l (E1 & E2 & E3)]; [done|]. cbn [fmap list_fmap].
  split; [by rewrite tokens_cons|]. split; [done|]. split; [by intros ? ?%elem_of_nil|done].
Qed.

Lemma moves_more m k s s1 : moves m s s1 -> tokens k = [] -> lives k = lives [] -> lively k -> moves m s (spawn k s1).
Proof.
  intros [] Hk Hl Hv. split; try done.
  - intros x. rewrite tot_spawn, Hk, count_nil. apply mv_tokens0.
  - intros u k' o c Hu Hin. cbn in Hu. apply lookup_insert_Some in Hu as [[_ <-]|[_ Hu]]; [|by eapply mv_lives0].
    rewrite Hl in Hin. by apply elem_of_nil in Hin.
  - intros H u k' Hu. cbn in Hu. apply lookup_insert_Some in Hu as [[_ <-]|[_ Hu]]; [done|eauto].
Qed.

Lemma partitions_move m l s s1 : moves m s s1 -> moves m s (start_partitions l s1).
Proof.
  intros Hm. induction l as [|i l IH]; [done|]. cbn. apply moves_more; [done..|].
  split; [by intros ? ?%elem_of_nil|done].
Qed.

Lemma close_moves t st k x s s' :
  panicked s = false -> threads s !! t = Some (st :: k) -> advance_close opts partition_of t st k x s = Some s' ->
  explained s s'.
Proof.
  intros Hp Ht H. unfold advance_close, doClose, recycle, enqueue, discardQueuedTasks in H.
  destruct st; try discriminate H; destruct x; try discriminate H; repeat case_match; simplify_eq.
  all: try solve [by_kind Quiet|by_kind (Acquire o)|by_kind (Give o)].
  - right. split; [done|]. by eapply mishap_close.
  - apply negb_false_iff, Z.eqb_eq in H0. by_kind (Shut o n true).
  - apply negb_false_iff, Z.eqb_eq in H0. by_kind (Shut o n false).
  - by_kind (Handle c).
  - left. exists (Recycle n c). cbn [total connections goto].
    apply (moves_spawn (Recycle n c) t (DRecycle c :: k) k [CWait n] s
      (set_connections (delete c (connections s)) (Ws.total s - 1) s)); [done|framed|done|done|tallied|rooting|living|done|split; [by intros ? ?%elem_of_nil|done]].
  - by_kind (Uncut c).
  - by_kind (Pool o).
  - right. split; [done|]. apply (mishap_send _ o); [by_head Ht|done].
  - left. exists Quiet. destruct (closers_empty (snapshot partition_of i s)) as (E1 & E2 & E3).
    apply (moves_goto _ t (XPartition i :: k)); [done|framed|done|by rewrite Ht| | |].
    + intros y. rewrite tokens_app, E1, tokens_cons, !tokens_count_app. cbn [tokens_of removed added]. rewrite ?count_nil. lia.
    + intros ? ?. rewrite lives_app, E2, lives_nil. intros [[]|?]. right; right. apply lives_cons. by right.
    + intros [_ ?]. by apply lively_app.
Qed.

Lemma filter_absent (o : nat) (l : list nat) : o ∉ l -> filter (fun o' => o' <> o) l = l.
Proof.
  induction l as [|o' l IH]; [done|]. rewrite not_elem_of_cons, filter_cons. intros [Ho Hl].
  rewrite decide_True by congruence. by rewrite IH.
Qed.

Lemma spawn_other t k k0 s : threads s !! t = Some k0 -> threads (spawn k s) !! t = Some k0.
Proof.
  intros Ht. cbn. rewrite lookup_insert_ne; [done|]. intros E.
  assert (t ∈ dom (threads s)) as Hd by (apply elem_of_dom; eauto). rewrite <- E in Hd. by apply is_fresh in Hd.
Qed.

Lemma worker_lively st o : needs st = [o] -> lively [st; WDone o].
Proof.
  intros E. cbn. rewrite E. split; [|by (split; [intros ? ?%elem_of_nil|])]. intros o' ->%list_elem_of_singleton. left.
Qed.

Lemma init_moves t c k o now p s :
  panicked s = false -> threads s !! t = Some (AInit c :: k) ->
  (o ∈ pool s /\ p = filter (fun o' => o' <> o) (pool s) \/ o ∉ pool s /\ objs s !! o = None /\ p = pool s) ->
  moves (Initialise o c) s
    (goto t (TCheck o :: AConnect o :: AStore o c :: k)
       (spawn [WStart o; WDone o] (spawn [RStart o; WDone o]
          (upd_obj o (init c (nextID s + 1) now) (set_nextID (nextID s + 1) (set_pool p s)))))).
Proof.
  intros Hp Ht Ho. set (s1 := upd_obj _ _ _).
  assert (threads s1 = threads s) as Hs1 by done.
  assert (frame (Initialise o c) s s1) as [].
  { assert (p = filter (fun o' => o' <> o) (pool s)) as ->.
    { destruct Ho as [[_ ->]|(Hn & _ & ->)]; [done|]. by rewrite filter_absent. }
    subst s1. framed. }
  split; try done.
  - cbn. destruct Ho as [[? _]|(_ & ? & _)]; auto.
  - intros x. set (s2 := spawn _ _). pose proof (tot_goto x t (TCheck o :: AConnect o :: AStore o c :: k) s2) as Hg.
    assert (threads s2 !! t = Some (AInit c :: k)) as E by (unfold s2; eauto using spawn_other).
    rewrite E in Hg. unfold s2 in *. rewrite !tot_spawn, (tot_same x s s1) in * by done. revert Hg.
    rewrite !tokens_cons, !tokens_count_app. cbn [tokens_of removed added]. rewrite ?tokens_count_app, ?count_cons, ?count_nil. lia.
  - intros u k' o' c' Hu Hl. cbn in Hu.
    apply lookup_insert_Some in Hu as [[_ <-]|[_ Hu]].
    + rewrite !lives_cons in Hl. cbn [life_of] in Hl. destruct Hl as [Hl|[Hl|[Hl|Hl]]];
        [by apply elem_of_nil in Hl..| |].
      * apply list_elem_of_singleton in Hl. simplify_eq. right; left.
        specialize (fr_core0 o). apply (f_equal k_chans) in fr_core0. cbn in fr_core0. by rewrite decide_True in fr_core0.
      * right; right. exists t, (AInit c :: k). split; [done|]. apply lives_cons. by right.
    + apply lookup_insert_Some in Hu as [[_ <-]|[_ Hu]]; [by apply elem_of_nil in Hl|].
      apply lookup_insert_Some in Hu as [[_ <-]|[_ Hu]]; [by apply elem_of_nil in Hl|]. eauto 6.
  - intros Hl u k' Hu. cbn in Hu.
    apply lookup_insert_Some in Hu as [[_ <-]|[_ Hu]]; [specialize (Hl _ _ Ht); revert Hl; living|].
    apply lookup_insert_Some in Hu as [[_ <-]|[_ Hu]]; [by eapply worker_lively|].
    apply lookup_insert_Some in Hu as [[_ <-]|[_ Hu]]; [by eapply worker_lively|]. eauto.
Qed.

Lemma alloc_moves t st k x s s' :
  panicked s = false -> threads s !! t = Some (st :: k) -> advance_alloc opts t st k x s = Some s' ->
  explained s s'.
Proof.
  intros Hp Ht H. unfold advance_alloc in H.
  destruct st; try discriminate H; destruct x; try discriminate H.
  - case_decide as Ho.
    + simplify_eq. left. eexists. apply init_moves; [done|done|]. by left.
    + case_decide as Hn; [done|]. simplify_eq. left. eexists. apply init_moves; [done|done|]. right.
      split; [done|]. split; [|done]. by apply eq_None_not_Some.
  - simplify_eq. by_kind Quiet.
  - repeat case_match; simplify_eq; [by_kind (Drop o c)..|].
    assert (exists u k, threads s !! u = Some k /\ (o, c) ∈ lives k) as Hl
      by (eexists _, _; split; [exact Ht|]; apply lives_cons; left; left).
    left. exists (Register o c). apply (moves_goto _ t (AStore o c :: k)); [done|framed|exact Hl|by rewrite Ht|tallied|rooting|living].
  - simplify_eq. left. exists Quiet. apply (moves_goto _ t (TCheck o :: k)); [done|apply check_frame|done|by rewrite Ht|tallied|rooting|living].
  - simplify_eq. left. exists Quiet. apply (moves_goto _ t (TUncheck o :: k)); [done|apply uncheck_frame|done|by rewrite Ht|tallied|rooting|living].
  - repeat case_match; simplify_eq; by_kind Quiet.
Qed.

Lemma moves_still s s1 : panicked s = false -> frame Quiet s s1 -> moves Quiet s s1.
Proof.
  intros Hp []. split; auto.
  - done.
  - intros x. by rewrite (tot_same x s s1).
  - rewrite fr_threads0. eauto 6.
  - by rewrite fr_threads0.
  - by rewrite fr_panicked0.
Qed.

Lemma allocate_frame c f s : wires s !! c = None -> (forall w, closed (f w) = closed w) ->
  frame Quiet s (upd_wire c f (set_wire c no_wire s)).
Proof.
  intros Hc Hf. pose proof (wire_new c s Hc) as Hw. unfold wire_of in Hw.
  split; intros; look; rewrite ?Hf, ?Hw; try done; try lia.
  - destruct H as [H|H]; [|done]. rewrite !lookup_insert_is_Some. destruct (decide (c = c0)); tauto.
  - by destruct H as [H|[? H]].
Qed.

Lemma rejected_frame c s : wires s !! c = None ->
  frame Quiet s (note (HReject c) (upd_wire c with_shut (set_wire c no_wire s))).
Proof.
  intros Hc. destruct (allocate_frame c with_shut s Hc) as []; [done|].
  split; try done. intros c'. cbn. rewrite discs_app, discs_one. cbn. lia.
Qed.

Lemma begin_moves t x s s' :
  panicked s = false -> default [] (threads s !! t) = [] -> begin opts t x s = Some s' -> explained s s'.
Proof.
  intros Hp Ht H. unfold begin, reserve_slot in H.
  destruct x; repeat case_match; simplify_eq.
  all: try solve [left; exists Quiet; apply (moves_goto _ t []); [done|framed|done|done|tallied|rooting|living]].
  4: { left; exists Quiet. apply partitions_move, (moves_goto _ t []); [done|framed|done|done|tallied|rooting|done]. }
  all: assert (wires s !! c = None) as Hc by (by apply eq_None_not_Some).
  - pose proof (wire_new c s Hc) as Hw. unfold wire_of in Hw.
    left. exists (Allocate c). apply (moves_goto _ t []); [done| |cbn in *; split; [done|lia]|done|tallied|rooting|living].
    split; intros; look; rewrite ?Hw; try done; try lia.
    + apply lookup_insert_is_Some. destruct H as [H|H]; simplify_eq; [|by left].
      match goal with |- ?a = ?b \/ _ => destruct (decide (a = b)); tauto end.
    + by destruct H as [H|[? H]].
  - left; exists Quiet. apply moves_still; [done|]. by apply rejected_frame.
  - left; exists Quiet. apply moves_still; [done|]. by apply rejected_frame.
Qed.

(** every step is one of the moves, or a panic that [mishap] explains *)
Lemma exec_moves t x s s' : exec t x s = Some s' -> explained s s'.
Proof.
  unfold Ws.exec. intros H. destruct (panicked s) eqn:Hp; [done|].
  destruct (threads s !! t) as [[|st k]|] eqn:Ht;
    [by apply (begin_moves t x); rewrite ?Ht| |by apply (begin_moves t x); rewrite ?Ht].
  destruct x; try done. unfold advance in H.
  destruct st; lazymatch type of H with
  | advance_alloc _ _ _ _ _ _ = _ => exact (alloc_moves _ _ _ _ _ _ Hp Ht H)
  | advance_close _ _ _ _ _ _ _ = _ => exact (close_moves _ _ _ _ _ _ Hp Ht H)
  | advance_read _ _ _ _ _ _ _ _ = _ => exact (read_moves _ _ _ _ _ _ Hp Ht H)
  | advance_write _ _ _ _ _ _ _ = _ => exact (write_moves _ _ _ _ _ _ Hp Ht H)
  | advance_push _ _ _ _ _ _ = _ => exact (push_moves _ _ _ _ _ _ Hp Ht H)
  end.
Qed.
End Moves.
