(* ===== verification/WsConnInv.v ===== *)
(** The invariant of a WebSocket server, kept by every step. *)
From stdpp Require Import base numbers list gmap.
From Stdlib Require Import ZArith Lia.
From S2P Require Import Prelude Types Packet Threads WsConn WsConnOk.
Import Ws.

Open Scope Z_scope.

(** the tokens of one kind before and after *)
Ltac tokens_pose Hm x :=
  let H := fresh "Hk" in
  pose proof (mv_tokens _ _ _ _ Hm x) as H; cbn [removed added tokens_of app] in H;
  try match type of H with context [if ?b then [KCut _] else []] => destruct b end;
  rewrite ?count_cons, ?count_nil in H.
Ltac tokens_at Hm x := tokens_pose Hm x; repeat (case_decide; try discriminate); simplify_eq.
Ltac tokens_at2 Hm x y := tokens_pose Hm x; tokens_at Hm y.
Ltac tokens_at3 Hm x y z := tokens_pose Hm x; tokens_at2 Hm y z.

Section Inv.
Context (opts : serverOptions).

Record winv (s : server) : Prop := {
  wi_workers : forall o, workers (obj o s) = Z.of_nat (tot (KDone o) s);
  wi_readers : forall o, readers (obj o s) = Z.of_nat (tot (KHold o) s);
  (* an open connection: its channels are its own and open *)
  wi_conn : forall o c, conn (obj o s) = Some c ->
    chans (obj o s) = c /\ closed (wire_of c s) = false /\ is_Some (wires s !! c);
  wi_inj : forall o1 o2 c, conn (obj o1 s) = Some c -> conn (obj o2 s) = Some c -> o1 = o2;
  wi_held : forall o, (0 < tot (KHold o) s)%nat -> conn (obj o s) <> None;
  (* an object is in the pool, registered, or with one goroutine *)
  wi_free : forall o, o ∈ pool s -> tot (KOwn o) s = 0%nat /\ tot (KWait o) s = 0%nat /\
    conn (obj o s) = None /\ tot (KDone o) s = 0%nat /\ forall c, connections s !! c <> Some o;
  wi_nodup : NoDup (pool s);
  wi_own : forall o, (tot (KOwn o) s + tot (KWait o) s <= 1)%nat;
  wi_reg : forall c o, connections s !! c = Some o -> tot (KOwn o) s = 0%nat /\ tot (KWait o) s = 0%nat /\
    chans (obj o s) = c /\ tot (KInit c) s = 0%nat /\ tot (KKeep c) s = 0%nat /\ is_Some (wires s !! c);
  wi_wait : forall o, (0 < tot (KWait o) s)%nat -> conn (obj o s) = None;
  wi_known : forall o, objs s !! o = None -> tot (KOwn o) s = 0%nat /\ tot (KWait o) s = 0%nat /\
    tot (KDone o) s = 0%nat /\ forall c, connections s !! c <> Some o;
  (* a goroutine acts for the socket of its object *)
  wi_live : forall u k o c, threads s !! u = Some k -> (o, c) ∈ lives k -> chans (obj o s) = c;
  wi_lively : forall u k, threads s !! u = Some k -> lively k;
  (* sockets *)
  wi_cut : forall c, (0 < tot (KCut c) s)%nat -> closed (wire_of c s) = true;
  wi_init : forall c, (0 < tot (KInit c) s)%nat ->
    closed (wire_of c s) = false /\ forall o, conn (obj o s) <> Some c;
  wi_keep : forall c, (tot (KInit c) s + tot (KKeep c) s <= 1)%nat /\
    ((0 < tot (KInit c) s + tot (KKeep c) s)%nat -> is_Some (wires s !! c));
  wi_slots : Ws.total s = Z.of_nat (size (connections s)) + Z.of_nat (tot KSlot s);
  wi_max : Ws.total s <= Z.max 0 (maxConnNum opts);
  wi_disc : forall c, (tot (KDisc c) s + discs c (log s) <= if closed (wire_of c s) then 1 else 0)%nat;
  wi_panicked : panicked s = false
}.

(** *** Reading the moves *)

Section Move.
Context (m : kind) (s s' : server) (Hi : winv s) (Hm : moves opts m s s').

Lemma conn_after o : conn (obj o s') = k_conn (core_after m o (core_of o s)).
Proof. by rewrite <- (mv_core _ _ _ _ Hm). Qed.
Lemma chans_after o : chans (obj o s') = k_chans (core_after m o (core_of o s)).
Proof. by rewrite <- (mv_core _ _ _ _ Hm). Qed.
Lemma workers_after o : workers (obj o s') = k_workers (core_after m o (core_of o s)).
Proof. by rewrite <- (mv_core _ _ _ _ Hm). Qed.
Lemma readers_after o : readers (obj o s') = k_readers (core_after m o (core_of o s)).
Proof. by rewrite <- (mv_core _ _ _ _ Hm). Qed.

End Move.

(** an object that is initialised was free *)
Lemma initialised_free o c s s' :
  winv s -> moves opts (Initialise o c) s s' ->
  tot (KOwn o) s = 0%nat /\ tot (KWait o) s = 0%nat /\ conn (obj o s) = None /\ tot (KDone o) s = 0%nat /\
  forall c, connections s !! c <> Some o.
Proof.
  intros Hi Hm. destruct (mv_pre _ _ _ _ Hm) as [Hp|Hn]; [by apply wi_free|].
  destruct (wi_known s Hi o Hn) as (? & ? & ? & ?). rewrite (obj_new o s) by done. by split_and!.
Qed.

Lemma keeps_workers m s s' : winv s -> moves opts m s s' ->
  forall o, workers (obj o s') = Z.of_nat (tot (KDone o) s').
Proof.
  intros Hi Hm o. rewrite (workers_after m s s' Hm). pose proof (wi_workers s Hi o) as Hw.
  destruct m; cbn; tokens_at Hm (KDone o); cbn; try lia.
Qed.

Lemma keeps_readers m s s' : winv s -> moves opts m s s' ->
  forall o, readers (obj o s') = Z.of_nat (tot (KHold o) s').
Proof.
  intros Hi Hm o. rewrite (readers_after m s s' Hm). pose proof (wi_readers s Hi o) as Hw.
  destruct m; cbn; tokens_at Hm (KHold o); cbn; try lia.
Qed.

(** monotone: the channels of a socket stay closed *)
Lemma closed_stays m s s' c : moves opts m s s' -> closed (wire_of c s) = true -> closed (wire_of c s') = true.
Proof. intros Hm Hc. rewrite (mv_closed _ _ _ _ Hm). destruct m; cbn; try done. by case_decide. Qed.

(** only one object closes the channels of a socket *)
Lemma closed_other m s s' c o : winv s -> moves opts m s s' -> conn (obj o s) = Some c ->
  (forall o' c' r, m = Shut o' c' r -> o <> o') -> closed (wire_of c s') = false.
Proof.
  intros Hi Hm Hc Hne. rewrite (mv_closed _ _ _ _ Hm). destruct (wi_conn s Hi o c Hc) as (_ & Hcl & _).
  destruct m; cbn; try done. case_decide as Hw; [|done].
  destruct (mv_pre _ _ _ _ Hm) as (_ & Hc' & _). destruct (wi_conn s Hi _ _ Hc') as (Hch & _).
  destruct (Hne o0 c0 r eq_refl). eapply wi_inj; eauto. congruence.
Qed.

(** an open connection was just made or was open before *)
Lemma conn_from m s s' o c : moves opts m s s' -> conn (obj o s') = Some c ->
  m = Initialise o c \/
  conn (obj o s) = Some c /\ chans (obj o s') = chans (obj o s) /\ forall o' c' r, m = Shut o' c' r -> o <> o'.
Proof.
  intros Hm. rewrite (conn_after m s s' Hm), (chans_after m s s' Hm).
  destruct m; cbn; try case_decide; cbn; intros; simplify_eq; auto; right; split_and!; intros; simplify_eq; auto.
Qed.

Lemma keeps_conn m s s' : winv s -> moves opts m s s' -> forall o c, conn (obj o s') = Some c ->
  chans (obj o s') = c /\ closed (wire_of c s') = false /\ is_Some (wires s' !! c).
Proof.
  intros Hi Hm o c Hc. destruct (conn_from m s s' o c Hm Hc) as [->|(Hc0 & -> & Hne)].
  - tokens_at Hm (KInit c). destruct (wi_init s Hi c) as [Hcl _]; [lia|].
    destruct (wi_keep s Hi c) as [_ Hw]. rewrite (chans_after _ s s' Hm), (mv_closed _ _ _ _ Hm). cbn.
    rewrite decide_True by done. split_and!; [done|done|]. apply (mv_wires _ _ _ _ Hm). left. apply Hw. lia.
  - destruct (wi_conn s Hi o c Hc0) as (? & ? & ?). split; [done|]. split; [eauto using closed_other|].
    apply (mv_wires _ _ _ _ Hm). by left.
Qed.

Lemma keeps_inj m s s' : winv s -> moves opts m s s' -> forall o1 o2 c,
  conn (obj o1 s') = Some c -> conn (obj o2 s') = Some c -> o1 = o2.
Proof.
  intros Hi Hm o1 o2 c H1 H2.
  assert (forall o o', m = Initialise o c -> conn (obj o' s) = Some c -> False) as Hno.
  { intros o o' -> Hc. tokens_at Hm (KInit c). by destruct (wi_init s Hi c) as [_ Hn]; [lia|]; apply (Hn o'). }
  destruct (conn_from m s s' o1 c Hm H1) as [E1|(E1 & _)], (conn_from m s s' o2 c Hm H2) as [E2|(E2 & _)];
    try (by exfalso; eauto); [congruence|by eapply wi_inj].
Qed.

Lemma keeps_held m s s' : winv s -> moves opts m s s' -> forall o, (0 < tot (KHold o) s')%nat ->
  conn (obj o s') <> None.
Proof.
  intros Hi Hm o Ht. rewrite (conn_after m s s' Hm). pose proof (wi_held s Hi o) as Hh.
  pose proof (wi_readers s Hi o) as Hr.
  destruct m; cbn; tokens_at Hm (KHold o); cbn; try (apply Hh; lia); try done.
  - apply (mv_pre _ _ _ _ Hm).
  - destruct (mv_pre _ _ _ _ Hm). lia.
  - destruct (mv_pre _ _ _ _ Hm). lia.
Qed.

Lemma keeps_own m s s' : winv s -> moves opts m s s' -> forall o, (tot (KOwn o) s' + tot (KWait o) s' <= 1)%nat.
Proof.
  intros Hi Hm o. pose proof (wi_own s Hi o).
  assert (forall o' c, m = Initialise o' c -> o = o' -> (tot (KOwn o) s + tot (KWait o) s = 0)%nat) as Hf
    by (intros ? ? -> ->; destruct (initialised_free _ _ _ _ Hi Hm); lia).
  assert (forall o' c, m = Recycle o' c -> o = o' -> (tot (KOwn o) s + tot (KWait o) s = 0)%nat) as Hr
    by (intros ? ? -> ->; destruct (wi_reg s Hi _ _ (mv_pre _ _ _ _ Hm)); lia).
  destruct m; tokens_at2 Hm (KOwn o) (KWait o); try specialize (Hf _ _ eq_refl eq_refl);
    try specialize (Hr _ _ eq_refl eq_refl); try lia.
Qed.

(** an object of the pool, one that was never made: nobody has it *)
Definition idle (o : nat) (s : server) : Prop :=
  tot (KOwn o) s = 0%nat /\ tot (KWait o) s = 0%nat /\ tot (KDone o) s = 0%nat /\ forall c, connections s !! c <> Some o.

Lemma idle_stays m s s' o : winv s -> moves opts m s s' -> idle o s ->
  (forall c, m <> Initialise o c) -> idle o s'.
Proof.
  intros Hi Hm (H1 & H2 & H3 & H4) Hne. unfold idle.
  assert (forall c, connections s' !! c <> Some o) as H5.
  { intros c. rewrite (mv_connections _ _ _ _ Hm). destruct m; cbn; try apply H4.
    - intros [[_ <-]|[_ ?]]%lookup_insert_Some; [tokens_at Hm (KOwn o0); lia|by apply (H4 c)].
    - intros [_ ?]%lookup_delete_Some. by apply (H4 c). }
  destruct m; tokens_at3 Hm (KOwn o) (KWait o) (KDone o);
    split_and!; try done; try lia; try (by exfalso; eapply Hne).
  by exfalso; apply (H4 c), (mv_pre _ _ _ _ Hm).
Qed.

Lemma keeps_free m s s' : winv s -> moves opts m s s' -> forall o, o ∈ pool s' ->
  tot (KOwn o) s' = 0%nat /\ tot (KWait o) s' = 0%nat /\ conn (obj o s') = None /\ tot (KDone o) s' = 0%nat /\
  forall c, connections s' !! c <> Some o.
Proof.
  intros Hi Hm o Hp.
  assert (o ∈ pool s /\ (forall c, m <> Initialise o c) \/ m = Pool o) as [[Hp0 Hne]| ->].
  { rewrite (mv_pool _ _ _ _ Hm) in Hp. destruct m; cbn in Hp; try by left.
    - apply list_elem_of_filter in Hp as [? ?]. left. split; [done|]. congruence.
    - apply elem_of_app in Hp as [?| ->%list_elem_of_singleton]; [by left|by right]. }
  - destruct (wi_free s Hi o Hp0) as (? & ? & Hc & ? & ?).
    destruct (idle_stays m s s' o Hi Hm) as (? & ? & ? & ?); [by split_and!|done|]. split_and!; try done.
    destruct (conn (obj o s')) as [c|] eqn:E; [|done].
    destruct (conn_from m s s' o c Hm E) as [->|[? _]]; [by destruct (Hne c)|congruence].
  - pose proof (wi_own s Hi o). tokens_at3 Hm (KOwn o) (KWait o) (KDone o).
    pose proof (mv_pre _ _ _ _ Hm) as Hw. cbn in Hw. rewrite (wi_workers s Hi) in Hw.
    rewrite (conn_after _ s s' Hm). cbn. rewrite (wi_wait s Hi o) by lia. split_and!; try lia; [done|].
    intros c. rewrite (mv_connections _ _ _ _ Hm). cbn. intros Hc. destruct (wi_reg s Hi c o Hc) as (_ & ? & _). lia.
Qed.

Lemma keeps_nodup m s s' : winv s -> moves opts m s s' -> NoDup (pool s').
Proof.
  intros Hi Hm. rewrite (mv_pool _ _ _ _ Hm). pose proof (wi_nodup s Hi).
  destruct m; cbn; try done; [by apply NoDup_filter|].
  apply NoDup_app. split; [done|]. split; [|apply NoDup_singleton].
  intros o' Ho' ->%list_elem_of_singleton. destruct (wi_free s Hi o Ho') as (_ & ? & _).
  tokens_at Hm (KWait o). lia.
Qed.

Lemma keeps_known m s s' : winv s -> moves opts m s s' -> forall o, objs s' !! o = None ->
  tot (KOwn o) s' = 0%nat /\ tot (KWait o) s' = 0%nat /\ tot (KDone o) s' = 0%nat /\
  forall c, connections s' !! c <> Some o.
Proof.
  intros Hi Hm o Ho.
  assert (is_Some (objs s !! o) \/ (exists c, m = Initialise o c) -> False) as Hn
    by (intros [? ?]%(mv_known _ _ _ _ Hm); congruence).
  apply (idle_stays m s); [done|done| |by eauto].
  apply wi_known; [done|]. apply eq_None_not_Some. auto.
Qed.

(** *** Lives *)

Lemma lively_lives k o c : lively k -> (o, c) ∈ lives k -> KDone o ∈ tokens k \/ KOwn o ∈ tokens k.
Proof.
  induction k as [|st k IH]; [by intros _ ?%elem_of_nil|]. intros [Hn Hl] Hin.
  rewrite tokens_cons, !elem_of_app. apply elem_of_app in Hin as [Hin|Hin]; [|destruct (IH Hl Hin); auto].
  destruct st; cbn in Hin; try (by apply elem_of_nil in Hin); apply list_elem_of_singleton in Hin; simplify_eq;
    try (left; right; apply Hn; by left). right; left. cbn. set_solver.
Qed.

Lemma tot_elem x t k s : threads s !! t = Some k -> x ∈ tokens k -> (0 < tot x s)%nat.
Proof.
  intros Ht Hx. eapply held_pos; [exact Ht|]. unfold count.
  assert (x ∈ filter (eq x) (tokens k)) as H by (by apply list_elem_of_filter).
  destruct (filter _ _); [by apply elem_of_nil in H|cbn; lia].
Qed.

Lemma keeps_live m s s' : winv s -> moves opts m s s' -> forall u k o c,
  threads s' !! u = Some k -> (o, c) ∈ lives k -> chans (obj o s') = c.
Proof.
  intros Hi Hm u k o c Hu Hl.
  assert (chans (obj o s') = chans (obj o s) \/ exists c', m = Initialise o c') as Hch.
  { rewrite (chans_after m s s' Hm). destruct m; cbn; try case_decide; cbn; subst; eauto. }
  destruct (mv_lives _ _ _ _ Hm u k o c Hu Hl) as [Hc|[?|(u' & k' & Hu' & Hl')]]; [| done|].
  - destruct Hch as [->|[c' ->]]; [by apply wi_conn|].
    destruct (initialised_free _ _ _ _ Hi Hm) as (_ & _ & ? & _). congruence.
  - destruct Hch as [->|[c' ->]]; [by eapply wi_live|]. exfalso.
    destruct (initialised_free _ _ _ _ Hi Hm) as (? & _ & _ & ? & _).
    destruct (lively_lives k' o c) as [Hk|Hk]; [by eapply wi_lively|done| |];
      apply (tot_elem _ _ _ _ Hu') in Hk; lia.
Qed.

(** *** Sockets *)

(** the object that will register a socket has its channels *)
Lemma registers_own m o c s s' : winv s -> moves opts m s s' -> m = Register o c -> chans (obj o s) = c.
Proof.
  intros Hi Hm ->. destruct (mv_pre _ _ _ _ Hm) as (u & k & Hu & Hl). by eapply wi_live.
Qed.

Lemma keeps_reg m s s' : winv s -> moves opts m s s' -> forall c o, connections s' !! c = Some o ->
  tot (KOwn o) s' = 0%nat /\ tot (KWait o) s' = 0%nat /\
  chans (obj o s') = c /\ tot (KInit c) s' = 0%nat /\ tot (KKeep c) s' = 0%nat /\ is_Some (wires s' !! c).
Proof.
  intros Hi Hm c o Hc.
  assert (m = Register o c \/ connections s !! c = Some o /\ (forall o', m <> Recycle o' c)) as [->|[Hc0 Hne]].
  { rewrite (mv_connections _ _ _ _ Hm) in Hc. destruct m; cbn in Hc; try (by right).
    - apply lookup_insert_Some in Hc as [[-> ->]|[? ?]]; [by left|by right].
    - apply lookup_delete_Some in Hc as [? ?]. right. split; [done|]. congruence. }
  - pose proof (wi_own s Hi o). destruct (wi_keep s Hi c) as [Hk Hw].
    rewrite (chans_after _ s s' Hm). cbn. rewrite (registers_own _ o c s s' Hi Hm) by done.
    tokens_at3 Hm (KOwn o) (KWait o) (KInit c). tokens_at Hm (KKeep c).
    split_and!; try lia. apply (mv_wires _ _ _ _ Hm). left. apply Hw. lia.
  - destruct (wi_reg s Hi c o Hc0) as (? & ? & Hch & ? & ? & Hw).
    assert (forall o' c', m = Initialise o' c' -> o' <> o /\ c' <> c) as Hin.
    { intros o' c' ->. split; intros ->.
      - destruct (initialised_free _ _ _ _ Hi Hm) as (_ & _ & _ & _ & Hf). by apply (Hf c).
      - tokens_at Hm (KInit c). lia. }
    assert (forall c', m = Allocate c' -> c' <> c) as Hal.
    { intros c' -> ->. destruct (mv_pre _ _ _ _ Hm) as [Hn _]. rewrite Hn in Hw. by destruct Hw. }
    assert (forall o' c', m = Recycle o' c' -> o' <> o) as Hre.
    { intros o' c' -> ->. destruct (wi_reg s Hi c' o (mv_pre _ _ _ _ Hm)) as (_ & _ & ? & _).
      apply (Hne o). congruence. }
    assert (chans (obj o s') = c) as ->.
    { rewrite (chans_after m s s' Hm). destruct m; cbn; try case_decide; cbn; subst; try done.
      by destruct (Hin _ _ eq_refl). }
    assert (is_Some (wires s' !! c)) by (apply (mv_wires _ _ _ _ Hm); by left).
    destruct m; tokens_pose Hm (KOwn o); tokens_pose Hm (KWait o); tokens_at2 Hm (KInit c) (KKeep c);
      try (by destruct (Hin _ _ eq_refl)); try (by destruct (Hal _ eq_refl)); try (by destruct (Hre _ _ eq_refl));
      split_and!; try done; lia.
Qed.

Lemma keeps_wait m s s' : winv s -> moves opts m s s' -> forall o, (0 < tot (KWait o) s')%nat ->
  conn (obj o s') = None.
Proof.
  intros Hi Hm o Ht. destruct (conn (obj o s')) as [c|] eqn:Hc; [exfalso|done].
  destruct (conn_from m s s' o c Hm Hc) as [->|(Hc0 & Hch & Hne)].
  - destruct (initialised_free _ _ _ _ Hi Hm) as (_ & ? & _). tokens_at Hm (KWait o). lia.
  - assert (tot (KWait o) s = 0%nat) as H0.
    { destruct (decide (tot (KWait o) s = 0%nat)); [done|]. rewrite (wi_wait s Hi o) in Hc0 by lia. done. }
    assert (forall c', m = Recycle o c' -> False) as Hre.
    { intros c' ->. destruct (wi_reg s Hi c' o (mv_pre _ _ _ _ Hm)) as (_ & _ & Hc' & _).
      destruct (wi_conn s Hi o c Hc0) as (Hc1 & Hop & _). rewrite (wi_cut s Hi c) in Hop; [done|].
      assert (c' = c) as -> by congruence. tokens_at Hm (KCut c); lia. }
    destruct m; tokens_at Hm (KWait o); try lia. eauto.
Qed.

Lemma keeps_cut m s s' : winv s -> moves opts m s s' -> forall c, (0 < tot (KCut c) s')%nat ->
  closed (wire_of c s') = true.
Proof.
  intros Hi Hm c Ht. destruct (decide (0 < tot (KCut c) s)%nat) as [H0|H0].
  - eapply closed_stays; [done|]. by apply (wi_cut s Hi).
  - rewrite (mv_closed _ _ _ _ Hm). destruct m; tokens_at Hm (KCut c); try lia.
    destruct (mv_pre _ _ _ _ Hm) as (_ & Hc & _). cbn.
    destruct (wi_conn s Hi _ _ Hc) as (-> & _). by rewrite decide_True.
Qed.

Lemma keeps_keep m s s' : winv s -> moves opts m s s' -> forall c,
  (tot (KInit c) s' + tot (KKeep c) s' <= 1)%nat /\
  ((0 < tot (KInit c) s' + tot (KKeep c) s')%nat -> is_Some (wires s' !! c)).
Proof.
  intros Hi Hm c. destruct (wi_keep s Hi c) as [Hk Hw].
  assert (m = Allocate c -> tot (KInit c) s = 0%nat /\ tot (KKeep c) s = 0%nat) as Ha.
  { intros ->. destruct (mv_pre _ _ _ _ Hm) as [Hn _]. rewrite Hn in Hw.
    destruct (decide (tot (KInit c) s + tot (KKeep c) s = 0)%nat); [lia|].
    assert (is_Some (@None wire)) as [? [=]] by (apply Hw; lia). }
  pose proof (mv_wires _ _ _ _ Hm c) as Hs.
  destruct (decide (m = Allocate c)) as [->|Hne].
  - destruct (Ha eq_refl). tokens_at2 Hm (KInit c) (KKeep c). split; [lia|]. intros _. apply Hs. by right.
  - split; [|intros Hp; apply Hs; left; apply Hw];
      destruct m; tokens_at2 Hm (KInit c) (KKeep c); try done; lia.
Qed.

Lemma keeps_init m s s' : winv s -> moves opts m s s' -> forall c, (0 < tot (KInit c) s')%nat ->
  closed (wire_of c s') = false /\ forall o, conn (obj o s') <> Some c.
Proof.
  intros Hi Hm c Ht. destruct (decide (m = Allocate c)) as [->|Hne].
  - destruct (mv_pre _ _ _ _ Hm) as [Hn _]. split.
    + rewrite (mv_closed _ _ _ _ Hm). cbn. by rewrite wire_new.
    + intros o Hc. rewrite (conn_after _ s s' Hm) in Hc. destruct (wi_conn s Hi o c Hc) as (_ & _ & Hw).
      rewrite Hn in Hw. by destruct Hw.
  - assert (0 < tot (KInit c) s)%nat as H0 by (destruct m; tokens_at Hm (KInit c); try done; lia).
    destruct (wi_init s Hi c H0) as [Hcl Hno]. split.
    + rewrite (mv_closed _ _ _ _ Hm). destruct m; cbn; try done. case_decide as Hw; [exfalso|done].
      destruct (mv_pre _ _ _ _ Hm) as (_ & Hc' & _). destruct (wi_conn s Hi _ _ Hc') as (Hch & _).
      apply (Hno o). congruence.
    + intros o Hc. destruct (conn_from m s s' o c Hm Hc) as [->|(Hc0 & _)]; [|by apply (Hno o)].
      destruct (wi_keep s Hi c). tokens_at Hm (KInit c). lia.
Qed.

(** *** Counts *)

Lemma keeps_slots m s s' : winv s -> moves opts m s s' ->
  Ws.total s' = Z.of_nat (size (connections s')) + Z.of_nat (tot KSlot s').
Proof.
  intros Hi Hm. rewrite (mv_total _ _ _ _ Hm), (mv_connections _ _ _ _ Hm), (wi_slots s Hi).
  assert (forall o c, m = Register o c -> connections s !! c = None) as Hr.
  { intros o c ->. destruct (connections s !! c) eqn:Hc; [|done].
    destruct (wi_reg s Hi _ _ Hc) as (_ & _ & _ & _ & ? & _). tokens_at Hm (KKeep c). lia. }
  destruct m; tokens_at Hm KSlot; cbn; try lia.
  - rewrite map_size_insert_None by eauto. lia.
  - pose proof (mv_pre _ _ _ _ Hm) as Hc. cbn in Hc.
    rewrite map_size_delete_Some by (by eexists).
    assert (0 < size (connections s))%nat; [|lia].
    destruct (decide (size (connections s) = 0%nat)) as [E|]; [|lia].
    apply map_size_empty_inv in E. by rewrite E in Hc.
Qed.

Lemma keeps_max m s s' : winv s -> moves opts m s s' -> Ws.total s' <= Z.max 0 (maxConnNum opts).
Proof.
  intros Hi Hm. rewrite (mv_total _ _ _ _ Hm). pose proof (wi_max s Hi). pose proof (mv_pre _ _ _ _ Hm) as Hp.
  destruct m; cbn in *; lia.
Qed.

Lemma keeps_disc m s s' : winv s -> moves opts m s s' -> forall c,
  (tot (KDisc c) s' + discs c (log s') <= if closed (wire_of c s') then 1 else 0)%nat.
Proof.
  intros Hi Hm c. pose proof (wi_disc s Hi c) as Hd. rewrite (mv_log _ _ _ _ Hm).
  assert (closed (wire_of c s) = true -> closed (wire_of c s') = true) as Hst by eauto using closed_stays.
  assert (forall o r, m = Shut o c r -> closed (wire_of c s) = false /\ closed (wire_of c s') = true) as Hsh.
  { intros o r ->. destruct (mv_pre _ _ _ _ Hm) as (_ & Hc & _). destruct (wi_conn s Hi _ _ Hc) as (Hch & Hcl & _).
    split; [done|]. rewrite (mv_closed _ _ _ _ Hm). cbn. by rewrite decide_True. }
  destruct m; tokens_pose Hm (KDisc c); cbn [handled] in *; repeat (case_decide; try discriminate); simplify_eq;
    try (destruct (Hsh _ _ eq_refl) as [E1 E2]; rewrite E1, E2 in *; lia);
    destruct (closed (wire_of c s)), (closed (wire_of c s')); try lia; naive_solver.
Qed.
End Inv.

Section Reach.
Context (opts : serverOptions) (packer : Packet.defaultPacker) (heartbeat : Z -> list Z)
  (partition_of : nat -> nat).

Abbreviation exec := (Ws.exec opts packer heartbeat partition_of).

Lemma winv_new b : winv opts (new_server b).
Proof.
  assert (forall x, tot x (new_server b) = 0%nat) as Ht by done.
  split; intros *; rewrite ?Ht; unfold obj, wire_of; cbn; rewrite ?lookup_total_empty; cbn; try done; try lia.
  all: try (by rewrite lookup_empty). all: try constructor; try (intros []%elem_of_nil).
  all: rewrite ?Ht in *; try lia; try done.
Qed.

Lemma winv_moves m s s' : winv opts s -> moves opts m s s' -> winv opts s'.
Proof.
  intros Hi Hm. split.
  - by apply (keeps_workers opts m s).
  - by apply (keeps_readers opts m s).
  - by apply (keeps_conn opts m s).
  - by apply (keeps_inj opts m s).
  - by apply (keeps_held opts m s).
  - by apply (keeps_free opts m s).
  - by apply (keeps_nodup opts m s).
  - by apply (keeps_own opts m s).
  - by apply (keeps_reg opts m s).
  - by apply (keeps_wait opts m s).
  - by apply (keeps_known opts m s).
  - by apply (keeps_live opts m s).
  - by apply (mv_lively _ _ _ _ Hm), (wi_lively opts).
  - by apply (keeps_cut opts m s).
  - by apply (keeps_init opts m s).
  - by apply (keeps_keep opts m s).
  - by apply (keeps_slots opts m s).
  - by apply (keeps_max opts m s).
  - by apply (keeps_disc opts m s).
  - apply (mv_panicked _ _ _ _ Hm).
Qed.

(** a goroutine that holds the read lock finds the channels open *)
Lemma held_open s o : winv opts s -> (0 < tot (KHold o) s)%nat -> closed (wire_of (chans (obj o s)) s) = false.
Proof.
  intros Hi Ht. destruct (conn (obj o s)) as [c|] eqn:Hc; [|by destruct (wi_held opts s Hi o)].
  by destruct (wi_conn opts s Hi o c Hc) as (-> & ? & _).
Qed.

Lemma no_mishap s : winv opts s -> mishap s -> False.
Proof.
  intros Hi [o Ht Hc|o c u k Ht Hu Hl Hc|o c Hc Hcl|o Ht Hw].
  - by rewrite (held_open s o Hi Ht) in Hc.
  - rewrite <- (wi_live opts s Hi u k o c Hu Hl) in Hc. by rewrite (held_open s o Hi Ht) in Hc.
  - destruct (wi_conn opts s Hi o c Hc) as (E & Hop & _). congruence.
  - rewrite (wi_workers opts s Hi) in Hw. lia.
Qed.

Lemma winv_exec t x s s' : winv opts s -> exec t x s = Some s' -> winv opts s'.
Proof.
  intros Hi H. destruct (exec_moves opts packer heartbeat partition_of t x s s' H) as [[m Hm]|[_ Hm]].
  - by eapply winv_moves.
  - by destruct (no_mishap s Hi Hm).
Qed.

Lemma winv_reachable b s : reachable opts packer heartbeat partition_of b s -> winv opts s.
Proof. induction 1; eauto using winv_new, winv_exec. Qed.

Lemma ws_run_reachable b xs s s' : reachable opts packer heartbeat partition_of b s ->
  run opts packer heartbeat partition_of xs s = Some s' -> reachable opts packer heartbeat partition_of b s'.
Proof.
  revert s. induction xs as [|[t x] xs IH]; cbn; intros s Hr H; [by simplify_eq|].
  destruct (Ws.exec _ _ _ _ t x s) eqn:E; [|done]. eapply IH; [|done]. by eapply reach_exec.
Qed.
End Reach.

(** ** network/ws: a push that waits for ever.  With no write timeout a push into a
    full queue keeps the read lock; when nobody is left to empty the queue the
    connection can never be closed, whatever happens afterwards ([stuck_exec]). *)
(** ** A push that waits for ever *)

(** the stages at which a goroutine takes, or goes on to take, from the queues of [o] *)
Definition takes (o : nat) (st : stage) : Prop :=
  match st with
  | WStart o' | WLoop o' _ | WSelect o' _ | WTask o' _ _ | WWrite o' _ _ | WTick o' _ _ | WBeat o' _ _
  | DDiscard o' => o' = o
  | _ => False
  end.
#[export] Instance takes_dec o st : Decision (takes o st).
Proof. destruct st; cbn; apply _. Defined.

(** goroutine [p] waits for room in the low queue of [o], and no goroutine is left to make any *)
Record stuck_push (opts : serverOptions) (p o c : nat) (q : task) (k : list stage) (s : server) : Prop := {
  sp_push : threads s !! p = Some (PSend o false q :: k);
  sp_conn : conn (obj o s) = Some c;
  sp_only : forall o', chans (obj o' s) = c -> o' = o;
  sp_full : writeQueueSize opts <= Z.of_nat (length (lowPriorityQueue (wire_of c s)));
  sp_none : forall u ku st, threads s !! u = Some ku -> st ∈ ku -> ~ takes o st
}.

(** by evaluation *)
Lemma stuck_check opts p o c q k s :
  threads s !! p = Some (PSend o false q :: k) -> conn (obj o s) = Some c -> c <> 0%nat ->
  map_Forall (fun o' x => chans x = c -> o' = o) (objs s) ->
  writeQueueSize opts <= Z.of_nat (length (lowPriorityQueue (wire_of c s))) ->
  map_Forall (fun _ ku => Forall (fun st => ~ takes o st) ku) (threads s) -> stuck_push opts p o c q k s.
Proof.
  intros Hp Hc Hnz Ho Hf Hn. split; try done.
  - intros o' Hch. unfold obj in Hch. rewrite lookup_total_alt in Hch.
    destruct (objs s !! o') as [x|] eqn:E; cbn in Hch; [by apply (Ho o' x)|by subst].
  - intros u ku st Hu Hin. specialize (Hn u ku Hu). rewrite Forall_forall in Hn. auto.
Qed.

Section Stuck.
Context (opts : serverOptions) (packer : Packet.defaultPacker) (heartbeat : Z -> list Z)
  (partition_of : nat -> nat).
Context (no_timeout : writeTimeout opts <= 0).
Context (p o c : nat) (q : task) (kp : list stage).

Abbreviation exec := (Ws.exec opts packer heartbeat partition_of).
Abbreviation stuck := (stuck_push opts p o c q kp).

Lemma stuck_held s : stuck s -> (0 < tot (KHold o) s)%nat.
Proof. intros []. eapply (held_pos _ p); [done|]. rewrite tokens_cons, tokens_count_app. cbn [tokens_of].
  rewrite count_cons, decide_True by done. lia. Qed.

(** the connection stays as it is *)
Lemma stuck_core m s s' : winv opts s -> stuck s -> moves opts m s s' ->
  conn (obj o s') = Some c /\ (forall o', chans (obj o' s') = c -> o' = o).
Proof.
  intros Hi Hs Hm. pose proof (stuck_held s Hs) as Hh. destruct Hs as [_ Hc Ho _ _].
  assert (forall o' c', m = Initialise o' c' -> c' <> c /\ o' <> o) as Hn.
  { intros o' c' ->. split; intros ->.
    - tokens_at Hm (KInit c). destruct (wi_init _ _ Hi c) as [_ Hno]; [lia|]. by apply (Hno o).
    - destruct (initialised_free _ _ _ _ _ Hi Hm) as (_ & _ & ? & _). congruence. }
  assert (forall c' r, m = Shut o c' r -> False) as Hd.
  { intros c' r ->. destruct (mv_pre _ _ _ _ Hm) as [Hr _]. rewrite (wi_readers _ _ Hi) in Hr. lia. }
  split.
  - rewrite (conn_after opts m s s' Hm). destruct m; cbn; try case_decide; cbn; subst; try done.
    + by destruct (Hn _ _ eq_refl).
    + by destruct (Hd _ _ eq_refl).
  - intros o'. rewrite (chans_after opts m s s' Hm). destruct m; cbn; try case_decide; cbn; subst; try apply Ho.
    intros ->. by destruct (Hn _ _ eq_refl).
Qed.

Definition away (st : stage) : Prop := ~ takes o st.

Record stays (t : nat) (s s' : server) : Prop := {
  st_threads : forall u ku, u <> t -> threads s !! u = Some ku -> threads s' !! u = Some ku;
  st_full : (length (lowPriorityQueue (wire_of c s)) <= length (lowPriorityQueue (wire_of c s')))%nat;
  st_away : (forall u ku, threads s !! u = Some ku -> Forall away ku) ->
    forall u ku, threads s' !! u = Some ku -> Forall away ku
}.

Lemma stays_same t s s1 :
  threads s1 = threads s -> (length (lowPriorityQueue (wire_of c s)) <= length (lowPriorityQueue (wire_of c s1)))%nat ->
  stays t s s1.
Proof. intros E Hl. by split; [rewrite E|..|rewrite E]. Qed.

Lemma stays_to t k s s1 : stays t s s1 ->
  (Forall away (default [] (threads s !! t)) -> Forall away k) -> stays t s (goto t k s1).
Proof.
  intros [H1 H2 H3] Hk. split; [|done|].
  - intros u ku Hne Hu. cbn. rewrite lookup_insert_ne by congruence. auto.
  - intros Ha u ku. cbn. intros [[<- <-]|[_ Hu]]%lookup_insert_Some; [|by apply (H3 Ha u)].
    apply Hk. destruct (threads s !! t) eqn:Et; cbn; [eauto|constructor].
Qed.

Lemma stays_goto t k s s1 :
  threads s1 = threads s -> (length (lowPriorityQueue (wire_of c s)) <= length (lowPriorityQueue (wire_of c s1)))%nat ->
  (Forall away (default [] (threads s !! t)) -> Forall away k) -> stays t s (goto t k s1).
Proof. intros. by apply stays_to; [apply stays_same|]. Qed.

Lemma stays_spawn t k s s1 : stays t s s1 -> dom (threads s) ⊆ dom (threads s1) ->
  Forall away k -> stays t s (spawn k s1).
Proof.
  intros [H1 H2 H3] Hd Hk. split; [|done|].
  - intros u ku Hne Hu. cbn. rewrite lookup_insert_ne; [by apply H1|]. intros <-.
    apply (is_fresh (dom (threads s1))), Hd. apply elem_of_dom. eauto.
  - intros Ha u ku. cbn. intros [[_ <-]|[_ Hu]]%lookup_insert_Some; [done|eauto].
Qed.

Ltac staying :=
  apply stays_goto;
  [done
  |look; rewrite ?lookup_total_insert in *; repeat case_decide; simplify_eq/=; rewrite ?length_app; cbn; try done; try lia
  |match goal with H : threads _ !! _ = _ |- _ => rewrite H end; cbn [default from_option Datatypes.id]; unfold away;
   cbn [app]; rewrite ?Forall_cons; cbn [takes]; intuition congruence].

Lemma push_stays t st k x s s' : threads s !! t = Some (st :: k) ->
  advance_push opts t st k x s = Some s' -> stays t s s'.
Proof.
  intros Ht H. unfold advance_push, enqueue_result, enqueue in H.
  destruct st; try discriminate H; destruct x; try discriminate H; repeat case_match; simplify_eq.
  all: try solve [by split|staying].
Qed.

Lemma read_stays t st k x s s' : threads s !! t = Some (st :: k) ->
  advance_read opts packer heartbeat t st k x s = Some s' -> stays t s s'.
Proof.
  intros Ht H. unfold advance_read in H.
  destruct st; try discriminate H; destruct x; try discriminate H; repeat case_match; simplify_eq.
  all: try solve [by split|staying].
Qed.

Lemma write_stays t st k x s s' : threads s !! t = Some (st :: k) -> stuck s ->
  advance_write opts heartbeat t st k x s = Some s' -> stays t s s'.
Proof.
  intros Ht [_ _ Ho _ Hn] H. pose proof (fun st' => Hn _ _ st' Ht) as Ha. unfold advance_write, recv_high, recv_low, tick in H.
  destruct st; try discriminate H;
    try (assert (chans (obj o0 s) <> c) by (intros ?%Ho; eapply Ha; [by left|done]); clear Ho);
    destruct x; try discriminate H; repeat case_match; simplify_eq.
  all: try solve [by split|staying].
Qed.

Lemma close_stays t st k x s s' : threads s !! t = Some (st :: k) -> winv opts s -> stuck s ->
  advance_close opts partition_of t st k x s = Some s' -> stays t s s'.
Proof.
  intros Ht Hi Hs H. pose proof (stuck_held s Hs) as Hh. destruct Hs as [_ _ Ho _ Hn].
  pose proof (fun st' => Hn _ _ st' Ht) as Ha.
  assert (forall o', readers (obj o' s) = 0 -> o' <> o) as Hr by (intros o' Hz ->; rewrite (wi_readers _ _ Hi) in Hz; lia).
  unfold advance_close, doClose, recycle, enqueue, discardQueuedTasks in H.
  destruct st; try discriminate H;
    try (assert (chans (obj o0 s) <> c) by (intros ?%Ho; eapply Ha; [by left|done]); clear Ho);
    destruct x; try discriminate H; repeat case_match; simplify_eq.
  all: repeat match goal with E : negb (_ =? _) = false |- _ => apply negb_false_iff, Z.eqb_eq, Hr in E end.
  all: try solve [by split|staying].
  - apply stays_spawn; [|cbn; set_solver|repeat constructor; by intros ?].
    change (set_connections _ _ _) with (goto t k (set_connections (delete c0 (connections s)) (total s - 1) s)). staying.
  - apply stays_goto; [done|done|]. rewrite Ht. unfold away. cbn. rewrite Forall_cons, Forall_app. intros [_ ?].
    split; [|done]. apply Forall_fmap, Forall_true. by intros ? ?.
Qed.

Lemma alloc_stays t st k x s s' : threads s !! t = Some (st :: k) -> winv opts s -> stuck s ->
  advance_alloc opts t st k x s = Some s' -> stays t s s'.
Proof.
  intros Ht Hi [_ Hc Ho _ Hn] H. pose proof (fun st' => Hn _ _ st' Ht) as Ha.
  assert (forall o', objs s !! o' = None \/ o' ∈ pool s -> o' <> o) as Hf.
  { intros o' [Hno|Hp] ->; [by rewrite obj_new in Hc|]. destruct (wi_free _ _ Hi o Hp) as (_ & _ & ? & _). congruence. }
  unfold advance_alloc, checkAuthorize, uncheckAuthorize, stop_timer in H.
  destruct st; try discriminate H; destruct x; try discriminate H; repeat case_match; simplify_eq.
  all: try solve [by split|staying].
  all: assert (o0 <> o) by (apply Hf; (by right) || (left; by apply eq_None_not_Some)).
  all: apply stays_to; [|rewrite Ht; cbn; unfold away; rewrite !Forall_cons; cbn; tauto].
  all: apply stays_spawn; [|cbn; set_solver|repeat constructor; by intros ?].
  all: apply stays_spawn; [by apply stays_same|done|repeat constructor; by intros ?].
Qed.

Lemma new_low c' w s : wires s !! c' = None ->
  (length (lowPriorityQueue (wire_of c s)) <= length (lowPriorityQueue (wire_of c (set_wire c' w s))))%nat.
Proof. intros Hc. rewrite wire_set. case_decide; [subst; rewrite wire_new by done; cbn; lia|done]. Qed.

Lemma partitions_stay t l s s1 : stays t s s1 -> dom (threads s) ⊆ dom (threads s1) ->
  stays t s (start_partitions l s1) /\ dom (threads s) ⊆ dom (threads (start_partitions l s1)).
Proof.
  intros Hs Hd. induction l as [|i l [IH1 IH2]]; [done|]. cbn. split; [|set_solver].
  apply stays_spawn; [done|done|]. repeat constructor. by intros ?.
Qed.

Lemma begin_stays t x s s' : default [] (threads s !! t) = [] -> begin opts t x s = Some s' -> stays t s s'.
Proof.
  intros Ht H. unfold begin, reserve_slot in H.
  destruct x; repeat case_match; simplify_eq.
  all: try match goal with E : ~ is_Some _ |- _ => pose proof (proj2 (eq_None_not_Some _) E) end.
  all: try (apply stays_same; [done|]; change (wire_of c (note _ ?x)) with (wire_of c x); unfold upd_wire;
    rewrite wire_set; destruct (decide (c = c0)); [subst; rewrite wire_new by done; cbn; lia|rewrite wire_set, decide_False by done; done]).
  all: try (apply partitions_stay; [|cbn; set_solver]).
  all: apply stays_goto; [done|first [reflexivity|by apply (new_low c0 no_wire)]|].
  all: rewrite Ht; intros _; repeat constructor; by intros ?.
Qed.

(** nothing that happens afterwards lets the push return or the connection go *)
Lemma stuck_exec t x s s' : winv opts s -> stuck s -> exec t x s = Some s' -> stuck s'.
Proof.
  intros Hi Hs H.
  assert (stays t s s' /\ t <> p) as [[Hth Hfull Haway] Htp].
  { unfold Ws.exec in H. destruct (panicked s); [done|]. destruct (threads s !! t) as [[|st k]|] eqn:Ht.
    - split; [by apply (begin_stays t x); [rewrite Ht|]|]. intros ->. rewrite (sp_push _ _ _ _ _ _ _ Hs) in Ht. done.
    - destruct x; try done. split.
      + unfold advance in H. destruct st; eauto using alloc_stays, close_stays, read_stays, write_stays, push_stays.
      + intros ->. rewrite (sp_push _ _ _ _ _ _ _ Hs) in Ht. simplify_eq. cbn in H.
        pose proof (sp_conn _ _ _ _ _ _ _ Hs) as Hc. destruct (wi_conn _ _ Hi o c Hc) as (Hch & Hop & _).
        pose proof (sp_full _ _ _ _ _ _ _ Hs) as Hf. rewrite Hch, Hop in H. unfold enqueue in H.
        destruct x; try done; repeat case_match; try done; lia.
    - split; [by apply (begin_stays t x); [rewrite Ht|]|]. intros ->. rewrite (sp_push _ _ _ _ _ _ _ Hs) in Ht. done. }
  destruct (exec_moves _ _ _ _ _ _ _ _ H) as [[m Hm]|[_ Hm]]; [|by destruct (no_mishap _ _ Hi Hm)].
  destruct (stuck_core m s s' Hi Hs Hm) as [Hc Ho]. destruct Hs as [Hp _ _ Hf Hn]. split; [by eauto|done|done|lia|].
  intros u ku st Hu Hin. specialize (Haway (fun u ku Hu => proj2 (Forall_forall _ _) (fun st => Hn u ku st Hu)) u ku Hu).
  rewrite Forall_forall in Haway. by apply Haway.
Qed.

(** its place in the table *)
Lemma stuck_registered t x s s' : winv opts s -> stuck s -> connections s !! c = Some o -> exec t x s = Some s' ->
  connections s' !! c = Some o.
Proof.
  intros Hi Hs Hc H. destruct (exec_moves _ _ _ _ _ _ _ _ H) as [[m Hm]|[_ Hm]]; [|by destruct (no_mishap _ _ Hi Hm)].
  rewrite (mv_connections _ _ _ _ Hm). destruct m; cbn; try done.
  - rewrite lookup_insert_ne; [done|]. intros ->. destruct (wi_reg _ _ Hi c o Hc) as (_ & _ & _ & _ & ? & _).
    tokens_at Hm (KKeep c). lia.
  - rewrite lookup_delete_ne; [done|]. intros ->. destruct (wi_conn _ _ Hi o c (sp_conn _ _ _ _ _ _ _ Hs)) as (_ & Hop & _).
    rewrite (wi_cut _ _ Hi c) in Hop; [done|]. tokens_at Hm (KCut c). lia.
Qed.

Lemma stuck_run xs s s' : winv opts s -> stuck s -> connections s !! c = Some o ->
  run opts packer heartbeat partition_of xs s = Some s' ->
  winv opts s' /\ stuck s' /\ connections s' !! c = Some o.
Proof.
  revert s. induction xs as [|[t x] xs IH]; cbn; intros s Hi Hs Hc H; [by simplify_eq|].
  destruct (Ws.exec _ _ _ _ t x s) eqn:E; [|done].
  eapply IH; [by eapply winv_exec|by eapply stuck_exec|by eapply stuck_registered|done].
Qed.
End Stuck.
