(* ===== verification/WsConnClaims.v ===== *)
(** What holds of a WebSocket server's connections whatever the goroutines, the
    network and the application do, and what can go wrong with them. *)
From stdpp Require Import base numbers list gmap.
From Stdlib Require Import ZArith Lia.
From S2P Require Import Prelude Binary Types Packet Session Ownership Gate Threads WsConn WsConnOk WsConnInv.
Import Ws.

Open Scope Z_scope.

(** the default options, with the length of a write queue as an argument *)
Definition some_options (queue : Z) : serverOptions :=
  mkServerOptions 5000 0 queue 0 10000000000 RespHeartbeat true 0.

Definition go (t : nat) (n : nat) : list (nat * action) := repeat (t, XGo XOk) n.

(** goroutine 0 accepts socket [c] with object [o]; its reader and its writer
    are the goroutines [r] and [w] *)
Definition accept (c o : nat) : list (nat * action) := [(0%nat, XAllocate c); (0%nat, XGo (XPick o 0))] ++ go 0 3.
Definition workers_start (r w : nat) : list (nat * action) := go r 2 ++ go w 1.

(** the socket fails under its reader *)
Definition read_fails (r : nat) : list (nat * action) := (r, XGo XErr) :: go r 7 ++ go r 1.

Definition push_to (t o : nat) (m : list Z) (n : nat) : list (nat * action) := (t, XPush o m) :: go t n.

(** the socket fails before its connect handler ran *)
Definition early_reset : list (nat * action) :=
  [(0%nat, XAllocate 0); (0%nat, XGo (XPick 0 0))] ++ go 1 2 ++ read_fails 1 ++ go 0 3.

(** two messages wait, a third is pushed, and the writer fails *)
Definition push_blocked : list (nat * action) :=
  accept 1 1 ++ workers_start 1 2 ++ [(2%nat, XGo XDefault)] ++
  push_to 3 1 [1] 6 ++ [(2%nat, XGo XLow)] ++ go 2 1 ++ push_to 3 1 [2] 6 ++ push_to 3 1 [3] 6 ++
  push_to 3 1 [4] 3 ++ [(2%nat, XGo XErr)] ++ go 2 3.

(** a connection comes and goes, and its object serves the next *)
Definition reused : list (nat * action) :=
  accept 0 0 ++ workers_start 1 2 ++ read_fails 1 ++ [(2%nat, XGo XHigh)] ++ go 2 1 ++ go 3 1 ++
  accept 1 0 ++ workers_start 4 5.

Definition some_packer : Packet.defaultPacker := Packet.mkPacker (Packet.mkOptions Binary.BigEndian 2 2 5000 false) [].
Definition no_heartbeat (now : Z) : list Z := [].
Definition some_run (queue : Z) (xs : list (nat * action)) : option server :=
  Ws.run (some_options queue) some_packer no_heartbeat (fun c => c) xs (new_server (newWriteQueueBudget 0 0)).

(** the gate's handlers, as the server calls them *)
Section Gate.
Context {S : Type} `{OwnershipStore S}.
Context (ctx : option error) (locator_UnbindGate : Z -> option error).

Definition hear (h : happening) : ST (Gate.Gate S) unit :=
  match h with
  | HConnect o _ => Gate.handleConnect o
  | HDisconnect o _ => Gate.handleDisconnect ctx locator_UnbindGate [] o
  | _ => st_ret tt
  end.

(** xcall.Call recovers a goroutine that panics *)
Definition hear_all (hs : list happening) (g : Gate.Gate S) : Gate.Gate S := fold_left (fun g h => snd (hear h g)) hs g.
End Gate.

Section Claims.
Context (opts : serverOptions) (packer : Packet.defaultPacker) (heartbeat : Z -> list Z)
  (partition_of : nat -> nat).

Abbreviation reachable := (Ws.reachable opts packer heartbeat partition_of).
Abbreviation run := (Ws.run opts packer heartbeat partition_of).

(** C10: No goroutine works on a recycled object: one that reads, writes or
    registers socket [c] for object [o] finds the channels of [c] in the
    object, which is not in the pool and registered for no other socket. *)
Theorem goroutines_keep_their_socket b s u k o c : reachable b s ->
  threads s !! u = Some k -> (o, c) ∈ lives k ->
  chans (obj o s) = c /\ o ∉ pool s /\ forall c', connections s !! c' = Some o -> c' = c.
Proof.
  intros Hr Hu Hl. assert (winv opts s) as Hi by (by eapply winv_reachable).
  pose proof (wi_live _ _ Hi u k o c Hu Hl) as Hc. split_and!; [done| |].
  - intros Hp. destruct (wi_free _ _ Hi o Hp) as (? & _ & _ & ? & _).
    destruct (lively_lives k o c) as [Hk|Hk]; [by eapply (wi_lively opts)|done| |];
      apply (tot_elem _ _ _ _ Hu) in Hk; lia.
  - intros c' Hc'. destruct (wi_reg _ _ Hi c' o Hc') as (_ & _ & ? & _). congruence.
Qed.

(** The connections of the table and the slots taken for those on their way
    into it are what [total] counts, and they are never more than [maxConnNum]. *)
Theorem slots_bounded b s : reachable b s ->
  Ws.total s = Z.of_nat (size (connections s)) + Z.of_nat (tot KSlot s) /\
  Z.of_nat (size (connections s)) <= Z.max 0 (maxConnNum opts).
Proof.
  intros Hr. assert (winv opts s) as Hi by (by eapply winv_reachable).
  pose proof (wi_slots _ _ Hi). pose proof (wi_max _ _ Hi). lia.
Qed.


(** The disconnect handler runs at most once for a socket, and only when its
    channels are closed. *)
Theorem disconnects_once b s c : reachable b s ->
  (discs c (log s) <= 1)%nat /\ ((0 < discs c (log s))%nat -> closed (wire_of c s) = true).
Proof.
  intros Hr. assert (winv opts s) as Hi by (by eapply winv_reachable).
  pose proof (wi_disc _ _ Hi c). destruct (closed (wire_of c s)); split; try done; lia.
Qed.

(** C30: With no write timeout: once a push waits for room in a queue that nobody
    empties, it never returns, the connection is never torn down, keeps its
    place in the table and its disconnect handler is never called. *)
Theorem blocked_push_keeps_connection b s p o c q k xs s' :
  writeTimeout opts <= 0 -> reachable b s -> stuck_push opts p o c q k s -> connections s !! c = Some o ->
  run xs s = Some s' ->
  threads s' !! p = Some (PSend o false q :: k) /\ conn (obj o s') = Some c /\
  connections s' !! c = Some o /\ discs c (log s') = 0%nat.
Proof.
  intros Hw Hr Hs Hc H. assert (winv opts s) as Hi by (by eapply winv_reachable).
  destruct (stuck_run opts packer heartbeat partition_of Hw p o c q k xs s s') as (Hi' & Hs' & Hc'); try done.
  destruct Hs' as [? Hconn _ _ _]. split_and!; [done..|].
  pose proof (wi_disc _ _ Hi' c) as Hd. destruct (wi_conn _ _ Hi' o c Hconn) as (_ & Hop & _).
  rewrite Hop in Hd. lia.
Qed.
End Claims.

(** A socket that fails before its connect handler ran: the server calls the
    disconnect handler first and the connect handler afterwards.  The gate's
    disconnect handler then panics (the WaitGroup would become negative) and
    its connect handler registers the closed connection, which no disconnect
    will remove. *)
Theorem early_reset_leaves_connection (opts : serverOptions) packer heartbeat partition_of b (S : Type)
    `{OwnershipStore S} (st : option S) ctx locator :
  0 < maxConnNum opts ->
  exists s, Ws.run opts packer heartbeat partition_of early_reset (new_server b) = Some s /\
    log s = [HDisconnect 0 0; HConnect 0 0] /\ connections s = ∅ /\ shut (wire_of 0 s) = true /\
    let g := Gate.mkGate (Session.Session.mkWorld Session.Session.NewSession {[ 0%nat := mkConn (id (obj 0 s)) (uid (obj 0 s)) ∅ ]} [])
      st Cluster.Shut 0 [] in
    fst (hear ctx locator (HDisconnect 0 0) g) = Panic /\
    Session.Session.conns (Session.Session.sess (Gate.world (hear_all ctx locator (log s) g))) !! id (obj 0 s) = Some 0%nat.
Proof.
  intros Hm. destruct opts as [[|mx|mx] wt wq sl hi hm pi [|au|au]]; try (by cbn in Hm).
  all: eexists; split; [vm_compute; reflexivity|]; by vm_compute.
Qed.

Lemma early_reset_leaves_connection_witness :
  exists s, some_run 2 early_reset = Some s /\ log s = [HDisconnect 0 0; HConnect 0 0].
Proof.
  destruct (early_reset_leaves_connection (some_options 2) some_packer no_heartbeat (fun c => c)
    (newWriteQueueBudget 0 0) Ownership.MemoryOwnershipStore.MemoryOwnershipStore None None (fun _ => None)) as (s & Hr & Hl & _); [done|].
  by exists s.
Defined.

(** *** Runs *)

Lemma some_run_reachable queue xs s : some_run queue xs = Some s ->
  Ws.reachable (some_options queue) some_packer no_heartbeat (fun c => c) (newWriteQueueBudget 0 0) s.
Proof. intros H. eapply ws_run_reachable; [apply reach_new|exact H]. Qed.

Lemma goroutines_keep_their_socket_witness : exists s k,
  some_run 2 reused = Some s /\ threads s !! 4%nat = Some k /\ chans (obj 0 s) = 1%nat /\ (0%nat ∉ pool s).
Proof.
  destruct (some_run 2 reused) as [s|] eqn:E; [|by vm_compute in E].
  assert (threads s !! 4%nat = Some [RRead 0 1; WDone 0]) as Hk by (vm_compute in E; injection E as <-; vm_compute; reflexivity).
  exists s, [RRead 0 1; WDone 0].
  destruct (goroutines_keep_their_socket (some_options 2) some_packer no_heartbeat (fun c => c)
    (newWriteQueueBudget 0 0) s 4 _ 0 1 (some_run_reachable _ _ _ E) Hk) as (Hc & Hp & _); [by left|].
  split_and!; [reflexivity|assumption..].
Defined.

Lemma slots_bounded_witness : exists s,
  some_run 2 reused = Some s /\ Ws.total s = Z.of_nat (size (connections s)) + Z.of_nat (tot KSlot s).
Proof.
  destruct (some_run 2 reused) as [s|] eqn:E; [|by vm_compute in E]. exists s. split; [reflexivity|].
  exact (proj1 (slots_bounded (some_options 2) some_packer no_heartbeat (fun c => c)
    (newWriteQueueBudget 0 0) s (some_run_reachable _ _ _ E))).
Defined.


Lemma disconnects_once_witness : exists s, some_run 2 reused = Some s /\
  (discs 0 (log s) <= 1)%nat /\ closed (wire_of 0 s) = true.
Proof.
  destruct (some_run 2 reused) as [s|] eqn:E; [|by vm_compute in E]. exists s. split; [reflexivity|].
  destruct (disconnects_once _ _ _ _ _ s 0 (some_run_reachable _ _ _ E)) as [H1 H2]. split; [assumption|].
  apply H2. vm_compute in E. injection E as <-. vm_compute. lia.
Defined.

Lemma push_blocked_stuck s : some_run 2 push_blocked = Some s ->
  stuck_push (some_options 2) 3 1 1 (mkTask dataPacket [4] 1 true) [] s /\
  connections s !! 1%nat = Some 1%nat /\ state (obj 1 s) = ConnClosed.
Proof.
  intros E. vm_compute in E. injection E as <-. split_and!; [apply stuck_check|vm_compute; reflexivity..];
    solve [vm_compute; reflexivity|vm_compute; done|apply (bool_decide_unpack _); vm_compute; exact I].
Qed.

Lemma blocked_push_keeps_connection_witness : exists s, some_run 2 push_blocked = Some s /\
  state (obj 1 s) = ConnClosed /\
  forall xs s', Ws.run (some_options 2) some_packer no_heartbeat (fun c => c) xs s = Some s' ->
    connections s' !! 1%nat = Some 1%nat /\ discs 1 (log s') = 0%nat.
Proof.
  destruct (some_run 2 push_blocked) as [s|] eqn:E; [|by vm_compute in E]. exists s.
  destruct (push_blocked_stuck s E) as (Hs & Hc & Hst). split_and!; [reflexivity|assumption|]. intros xs s' Hr.
  destruct (blocked_push_keeps_connection (some_options 2) some_packer no_heartbeat (fun c => c) _ s 3 1 1 _ _ xs s'
    ltac:(done) (some_run_reachable _ _ _ E) Hs Hc Hr) as (_ & _ & ? & ?). split; assumption.
Defined.
