(* ===== verification/WsBudget.v ===== *)
(** network/ws: the byte budget that all connections of a server share.  Every
    byte the budget counts is in a queue or with the goroutine that puts it in
    or takes it out. *)
From stdpp Require Import base numbers list gmap.
From Stdlib Require Import ZArith Lia.
From S2P Require Import Prelude Types Packet Threads WsConn WsConnOk WsConnInv WsConnClaims.
Import Ws.

Open Scope Z_scope.

(** bytes of a task; with [low], of a low-priority one only *)
Definition bytes_of (low : bool) (q : task) : nat :=
  if low && negb (lowPriority q) then 0 else Z.to_nat (queuedBytes q).
Definition in_hand (low : bool) (st : stage) : nat :=
  match st with PSend _ _ q | WTask _ _ q | WWrite _ _ q => bytes_of low q | _ => 0 end.
Definition queued (w : wire) : list task := highPriorityQueue w ++ lowPriorityQueue w.

Definition in_threads (low : bool) (s : server) : nat := Threads.total (weigh (in_hand low)) (threads s).
Definition in_queues (low : bool) (s : server) : nat := Threads.total (weigh (bytes_of low)) (queued <$> wires s).
Definition in_flight (low : bool) (s : server) : nat := in_threads low s + in_queues low s.

Definition spent (low : bool) (b : writeQueueBudget) : Z := if low then lowPriorityBytes b else b_queuedBytes b.
Definition allowed (low : bool) (b : writeQueueBudget) : Z := if low then maxBytes b - highReserveBytes b else maxBytes b.

Record sound (b0 : writeQueueBudget) (s : server) : Prop := {
  so_max : maxBytes (budget s) = maxBytes b0;
  so_reserve : highReserveBytes (budget s) = highReserveBytes b0;
  so_spent : forall low, spent low (budget s) = Z.of_nat (in_flight low s);
  so_bound : forall low, spent low (budget s) <= allowed low (budget s)
}.

(** *** Sums *)

Lemma weigh_nil {A} (f : A -> nat) : weigh f [] = 0%nat.
Proof. done. Qed.

Lemma queues_set low c w s :
  (in_queues low (set_wire c w s) + weigh (bytes_of low) (queued (wire_of c s))
   = in_queues low s + weigh (bytes_of low) (queued w))%nat.
Proof.
  unfold in_queues, set_wire. cbn [wires]. rewrite fmap_insert.
  pose proof (total_set (weigh (bytes_of low)) (queued <$> wires s) c (queued w)) as H.
  rewrite lookup_fmap in H. unfold wire_of. rewrite lookup_total_alt.
  destruct (wires s !! c); cbn in *; lia.
Qed.

Lemma threads_goto low t k s :
  (in_threads low (goto t k s) + weigh (in_hand low) (default [] (threads s !! t))
   = in_threads low s + weigh (in_hand low) k)%nat.
Proof.
  unfold in_threads. pose proof (total_set (weigh (in_hand low)) (threads s) t k) as H.
  cbn [goto threads]. destruct (threads s !! t) as [k0|].
  - change (default [] (Some k0)) with k0. lia.
  - change (weigh (in_hand low) (default [] None)) with 0%nat. lia.
Qed.

Lemma threads_spawn low k s : in_threads low (spawn k s) = (weigh (in_hand low) k + in_threads low s)%nat.
Proof. apply total_fresh. Qed.

(** *** The budget *)

Lemma reserve_spent n low b ok b' : 0 < maxBytes b -> 0 <= n -> reserve n low b = (ok, b') ->
  (forall l, spent l b <= allowed l b) ->
  maxBytes b' = maxBytes b /\ highReserveBytes b' = highReserveBytes b /\
  (forall l, spent l b' = spent l b + if ok && (negb l || low) then n else 0) /\
  (forall l, spent l b' <= allowed l b').
Proof.
  intros Hm Hn H Hb. pose proof (Hb true) as Ht. pose proof (Hb false) as Hf. unfold reserve in H.
  destruct b as [mx hr qb lb]. cbn in *. repeat case_match; simplify_eq/=; split_and!; try done.
  all: intros []; cbn in *; try lia; destruct low; cbn in *; lia.
Qed.

Lemma release_spent q b : 0 < maxBytes b ->
  (forall l, Z.of_nat (bytes_of l q) <= spent l b) -> (forall l, spent l b <= allowed l b) ->
  maxBytes (release (queuedBytes q) (lowPriority q) b) = maxBytes b /\
  highReserveBytes (release (queuedBytes q) (lowPriority q) b) = highReserveBytes b /\
  (forall l, spent l (release (queuedBytes q) (lowPriority q) b) = spent l b - Z.of_nat (bytes_of l q)) /\
  (forall l, spent l (release (queuedBytes q) (lowPriority q) b) <= allowed l (release (queuedBytes q) (lowPriority q) b)).
Proof.
  intros Hm Hle Hb. pose proof (Hle true) as H1. pose proof (Hle false) as H2.
  pose proof (Hb true) as Ht. pose proof (Hb false) as Hf. unfold release, bytes_of in *.
  destruct b as [mx hr qb lb]. cbn in *. destruct (mx <=? 0) eqn:E; [lia|]. cbn.
  destruct (queuedBytes q <=? 0) eqn:E2; cbn.
  - split_and!; try done. intros []; cbn; repeat case_match; lia.
  - split_and!; try done; intros []; cbn in *; destruct (lowPriority q); cbn in *; repeat case_match; lia.
Qed.

(** *** Steps *)

Section Steps.
Context (opts : serverOptions) (packer : Packet.defaultPacker) (heartbeat : Z -> list Z)
  (partition_of : nat -> nat) (b0 : writeQueueBudget) (limited : 0 < maxBytes b0).

Lemma sound_same s s' : sound b0 s -> budget s' = budget s ->
  (forall low, in_flight low s' = in_flight low s) -> sound b0 s'.
Proof. intros [] Hb Hf. split; rewrite ?Hb; try done. intros low. by rewrite Hf. Qed.

Lemma sound_release q s s' : sound b0 s ->
  budget s' = release (queuedBytes q) (lowPriority q) (budget s) ->
  (forall low, in_flight low s' + bytes_of low q = in_flight low s)%nat -> sound b0 s'.
Proof.
  intros [Hm Hr Hs Hb] E Hf.
  destruct (release_spent q (budget s)) as (E1 & E2 & E3 & E4); [lia| |done|].
  { intros low. specialize (Hf low). rewrite Hs. lia. }
  rewrite <- E in *. split; [congruence|congruence| |done].
  intros low. rewrite E3, Hs. specialize (Hf low). lia.
Qed.

Lemma sound_reserve n l s s' ok b : sound b0 s -> reserve n l (budget s) = (ok, b) -> 0 <= n -> budget s' = b ->
  (forall low, in_flight low s' = in_flight low s + if ok && (negb low || l) then Z.to_nat n else 0)%nat -> sound b0 s'.
Proof.
  intros [Hm Hr Hs Hb] E Hn Eb Hf. destruct (reserve_spent n l (budget s) ok b) as (E1 & E2 & E3 & E4); [lia|done..|].
  rewrite <- Eb in *. split; [congruence|congruence| |done].
  intros low. rewrite E3, Hs, Hf. case_match; lia.
Qed.

Lemma flight_goto low t k0 k s s1 : default [] (threads s !! t) = k0 -> threads s1 = threads s ->
  (in_flight low (goto t k s1) + weigh (in_hand low) k0 + in_queues low s
   = in_flight low s + weigh (in_hand low) k + in_queues low s1)%nat.
Proof.
  intros Ht E. unfold in_flight. pose proof (threads_goto low t k s1) as H. rewrite E, Ht in H.
  assert (in_threads low s1 = in_threads low s) as E1 by (unfold in_threads; by rewrite E).
  change (in_queues low (goto t k s1)) with (in_queues low s1). lia.
Qed.

(** the queues of [s1], which is [s] but for one socket or none *)
Ltac queues low s s1 :=
  first
  [ assert (in_queues low s1 = in_queues low s) by reflexivity
  | lazymatch s1 with context [upd_wire ?c ?f s] =>
      pose proof (queues_set low c (f (wire_of c s)) s);
      assert (in_queues low s1 = in_queues low (set_wire c (f (wire_of c s)) s)) by reflexivity end
  | lazymatch s1 with context [set_wire ?c ?w s] =>
      pose proof (queues_set low c w s); assert (in_queues low s1 = in_queues low (set_wire c w s)) by reflexivity end ].

Ltac books :=
  let low := fresh "low" in intros low;
  lazymatch goal with H : threads ?s !! ?t = Some ?k0 |- context [goto ?t ?k ?s1] =>
    pose proof (flight_goto low t k0 k s s1 (f_equal (default []) H) eq_refl); queues low s s1 end;
  unfold queued in *; cbn [highPriorityQueue lowPriorityQueue with_high with_low with_closed with_done with_shut with_sent app] in *;
  repeat match goal with E : highPriorityQueue _ = _ |- _ => rewrite E in * | E : lowPriorityQueue _ = _ |- _ => rewrite E in * end;
  rewrite ?weigh_app, ?weigh_cons, ?weigh_nil in *; cbn [in_hand app] in *; lia.

(** what a goroutine's next stages hold, when no queue changes *)
Tactic Notation "posted" constr(low) "as" ident(Hf) :=
  lazymatch goal with H : threads ?s !! ?t = Some ?k0 |- context [goto ?t ?k ?s1] =>
    pose proof (flight_goto low t k0 k s s1 (f_equal (default []) H) eq_refl) as Hf;
    change (in_queues low s1) with (in_queues low s) in Hf end.

(** a step that leaves the budget alone, one that gives a task's bytes back *)
Ltac unspent := match goal with |- sound _ ?s' =>
  lazymatch goal with H : sound _ ?s |- _ => solve [apply (sound_same s); [done|done|by intros|..] | apply (sound_same s); [done|done|books]] end end.
Ltac given_back q := lazymatch goal with H : sound _ ?s |- _ => apply (sound_release q s); [done|done|books] end.

Lemma push_sound t st k x s s' : threads s !! t = Some (st :: k) -> sound b0 s ->
  advance_push opts t st k x s = Some s' -> sound b0 s'.
Proof.
  intros Ht Hs H. unfold advance_push, enqueue_result, enqueue in H.
  destruct st; try discriminate H; destruct x; try discriminate H; repeat case_match; simplify_eq.
  all: try solve [unspent|given_back t0].
  all: eapply (sound_reserve (len m) (negb high) s); [done|done|unfold len; lia|done|].
  all: intros low; posted low as Hf.
  all: rewrite !weigh_cons in Hf; cbn [in_hand] in Hf; unfold bytes_of in Hf;
    cbn [queuedBytes lowPriority] in Hf; destruct low, high; cbn [andb orb negb] in *; lia.
Qed.

Lemma read_sound t st k x s s' : threads s !! t = Some (st :: k) -> sound b0 s ->
  advance_read opts packer heartbeat t st k x s = Some s' -> sound b0 s'.
Proof.
  intros Ht Hs H. unfold advance_read in H.
  destruct st; try discriminate H; destruct x; try discriminate H; repeat case_match; simplify_eq.
  all: unspent.
Qed.

Lemma write_sound t st k x s s' : threads s !! t = Some (st :: k) -> sound b0 s ->
  advance_write opts heartbeat t st k x s = Some s' -> sound b0 s'.
Proof.
  intros Ht Hs H. unfold advance_write, recv_high, recv_low, tick in H.
  destruct st; try discriminate H; destruct x; try discriminate H; repeat case_match; simplify_eq.
  all: try solve [unspent|given_back t0].
Qed.

Lemma flight_spawn low k s : in_flight low (spawn k s) = (weigh (in_hand low) k + in_flight low s)%nat.
Proof. unfold in_flight. rewrite threads_spawn. change (in_queues low (spawn k s)) with (in_queues low s). lia. Qed.

Lemma snapshot_empty low l : weigh (in_hand low) ((fun o => GOpened o true) <$> l) = 0%nat.
Proof. by induction l as [|? ? IH]; [|cbn [fmap list_fmap]; rewrite weigh_cons, IH]. Qed.

Lemma close_sound t st k x s s' : threads s !! t = Some (st :: k) -> sound b0 s ->
  advance_close opts partition_of t st k x s = Some s' -> sound b0 s'.
Proof.
  intros Ht Hs H. unfold advance_close, doClose, recycle, enqueue, discardQueuedTasks in H.
  destruct st; try discriminate H; destruct x; try discriminate H; repeat case_match; simplify_eq.
  all: try solve [unspent|given_back t0].
  - apply (sound_same s); [done|done|]. intros low. rewrite flight_spawn.
    change (in_flight low (set_connections _ _ ?x)) with (in_flight low x). posted low as Hf.
    rewrite ?weigh_cons, ?weigh_nil in *. cbn [in_hand] in *. lia.
  - apply (sound_same s); [done|done|]. intros low.
    set (q := mkTask _ _ _ _). assert (bytes_of low q = 0%nat) as Hq by (by destruct low). revert low Hq. clearbody q.
    books.
  - apply (sound_same s); [done|done|]. intros low. posted low as Hf.
    rewrite weigh_app, snapshot_empty, ?weigh_cons in *. cbn [in_hand] in *. lia.
Qed.

(** the workers of a new connection have nothing in hand *)
Lemma started_sound t k0 k k1 k2 s s1 : threads s !! t = Some k0 -> sound b0 s ->
  threads s1 = threads s -> wires s1 = wires s -> budget s1 = budget s ->
  (forall low, weigh (in_hand low) k1 = 0 /\ weigh (in_hand low) k2 = 0 /\ weigh (in_hand low) k = weigh (in_hand low) k0)%nat ->
  sound b0 (goto t k (spawn k1 (spawn k2 s1))).
Proof.
  intros Ht Hs E1 E2 E3 Hw. apply (sound_same s); [done|done|]. intros low. destruct (Hw low) as (H1 & H2 & H3).
  set (s2 := spawn _ _). assert (threads s2 !! t = Some k0) as Ht2 by (unfold s2; apply spawn_other, spawn_other; by rewrite E1).
  pose proof (flight_goto low t _ k s2 s2 (f_equal (default []) Ht2) eq_refl) as Hf.
  change (default [] (Some k0)) with k0 in Hf.
  assert (in_flight low s2 = in_flight low s1) as Hs2 by (unfold s2; rewrite !flight_spawn; lia).
  assert (in_flight low s1 = in_flight low s) by (unfold in_flight, in_threads, in_queues; by rewrite E1, E2). lia.
Qed.

Lemma alloc_sound t st k x s s' : threads s !! t = Some (st :: k) -> sound b0 s ->
  advance_alloc opts t st k x s = Some s' -> sound b0 s'.
Proof.
  intros Ht Hs H. unfold advance_alloc, checkAuthorize, uncheckAuthorize, stop_timer in H.
  destruct st; try discriminate H; destruct x; try discriminate H; repeat case_match; simplify_eq.
  all: try solve [unspent].
  all: by eapply started_sound.
Qed.

Lemma partitions_sound l s : sound b0 s -> sound b0 (start_partitions l s).
Proof.
  intros Hs. induction l as [|i l IH]; [done|]. cbn. eapply sound_same; [exact IH|done|].
  intros low. by rewrite flight_spawn.
Qed.

Lemma begin_sound t x s s' : default [] (threads s !! t) = [] -> sound b0 s ->
  begin opts t x s = Some s' -> sound b0 s'.
Proof.
  intros Ht Hs H. unfold begin, reserve_slot in H.
  assert (forall k s1, (forall low, weigh (in_hand low) k = 0)%nat -> threads s1 = threads s -> budget s1 = budget s ->
    (forall low, in_queues low s1 = in_queues low s) -> sound b0 (goto t k s1)) as Hg.
  { intros k s1 Hk E1 E2 E3. apply (sound_same s); [done|done|]. intros low.
    pose proof (flight_goto low t _ k s s1 Ht E1) as Hf. rewrite Hk, weigh_nil, E3 in Hf. lia. }
  assert (forall c w low, wires s !! c = None -> queued w = [] -> in_queues low (set_wire c w s) = in_queues low s) as Hq.
  { intros c w low Hc Hw. pose proof (queues_set low c w s) as H'. rewrite wire_new, Hw in H' by done.
    change (queued no_wire) with (@nil task) in H'. lia. }
  destruct x; repeat case_match; simplify_eq.
  all: try match goal with E : ~ is_Some _ |- _ => pose proof (proj2 (eq_None_not_Some _) E) end.
  all: try apply partitions_sound.
  all: try (apply Hg; [done|done|done|]; intros low; first [reflexivity|by apply (Hq c no_wire)]).
  all: apply (sound_same s); [done|done|]; intros low; unfold in_flight; f_equal;
    etrans; [|apply (Hq c (with_shut no_wire)); done]; unfold in_queues, upd_wire, note, set_wire; cbn [wires];
    unfold wire_of; cbn [wires]; by rewrite lookup_total_insert_eq, insert_insert_eq.
Qed.

Lemma sound_exec t x s s' : sound b0 s -> Ws.exec opts packer heartbeat partition_of t x s = Some s' -> sound b0 s'.
Proof.
  unfold Ws.exec. intros Hs H. destruct (panicked s); [done|].
  destruct (threads s !! t) as [[|st k]|] eqn:Ht;
    [by apply (begin_sound t x s); rewrite ?Ht| |by apply (begin_sound t x s); rewrite ?Ht].
  destruct x; try done. unfold advance in H.
  destruct st; lazymatch type of H with
  | advance_alloc _ _ _ _ _ _ = _ => exact (alloc_sound _ _ _ _ _ _ Ht Hs H)
  | advance_close _ _ _ _ _ _ _ = _ => exact (close_sound _ _ _ _ _ _ Ht Hs H)
  | advance_read _ _ _ _ _ _ _ _ = _ => exact (read_sound _ _ _ _ _ _ Ht Hs H)
  | advance_write _ _ _ _ _ _ _ = _ => exact (write_sound _ _ _ _ _ _ Ht Hs H)
  | advance_push _ _ _ _ _ _ = _ => exact (push_sound _ _ _ _ _ _ Ht Hs H)
  end.
Qed.

Lemma sound_reachable s : spent false b0 = 0 -> spent true b0 = 0 -> (forall low, 0 <= allowed low b0) ->
  reachable opts packer heartbeat partition_of b0 s -> sound b0 s.
Proof.
  intros H1 H2 Ha. induction 1; [|by eauto using sound_exec].
  split; [done|done|..]; intros []; change (budget (new_server b0)) with b0.
  - by rewrite H2.
  - by rewrite H1.
  - rewrite H2. apply Ha.
  - rewrite H1. apply Ha.
Qed.
End Steps.

(** C12: The bytes of all messages that wait in the write queues of all connections,
    or are being put in or taken out, never exceed [maxWriteQueueBytes]; those of
    pushes leave the reserve of the high priority free; and a Send that fits into
    the reserve besides the Sends that wait is always admitted. *)
Theorem queued_bytes_bounded opts packer heartbeat partition_of mx hr s :
  0 < mx -> reachable opts packer heartbeat partition_of (newWriteQueueBudget mx hr) s ->
  let reserved := Z.min (Z.max 0 hr) mx in
  Z.of_nat (in_flight false s) <= mx /\ Z.of_nat (in_flight true s) <= mx - reserved /\
  forall n, n + (Z.of_nat (in_flight false s) - Z.of_nat (in_flight true s)) <= reserved ->
    fst (reserve n false (budget s)) = true.
Proof.
  intros Hm Hr. set (b0 := newWriteQueueBudget mx hr) in *.
  assert (maxBytes b0 = mx /\ highReserveBytes b0 = Z.min (Z.max 0 hr) mx) as [E1 E2].
  { unfold b0, newWriteQueueBudget. cbn. repeat case_match; lia. }
  destruct (sound_reachable opts packer heartbeat partition_of b0 ltac:(lia) s) as [M R Sp Bo]; [done|done| |done|].
  { intros []; unfold allowed; lia. }
  pose proof (Sp false) as Sf. pose proof (Sp true) as St. pose proof (Bo false) as Bf. pose proof (Bo true) as Bt.
  unfold spent, allowed in *. rewrite M, R, E1, E2 in *. cbn zeta. split_and!; [lia|lia|].
  intros n Hn. unfold reserve. repeat case_match; cbn; try done; lia.
Qed.

Lemma queued_bytes_bounded_witness : exists s,
  Ws.run (some_options 2) some_packer no_heartbeat (fun c => c)
    (accept 1 1 ++ push_to 3 1 [1; 2; 3] 6 ++ push_to 3 1 [4; 5] 5) (new_server (newWriteQueueBudget 8 4)) = Some s /\
  in_flight true s = 3%nat /\ fst (reserve 4 false (budget s)) = true.
Proof.
  destruct (Ws.run _ _ _ _ _ _) as [s|] eqn:E; [|by vm_compute in E]. exists s. split; [reflexivity|].
  destruct (queued_bytes_bounded (some_options 2) some_packer no_heartbeat (fun c => c) 8 4 s) as (_ & _ & H);
    [lia|eapply ws_run_reachable; [apply reach_new|exact E]|].
  vm_compute in E. injection E as <-. split; [vm_compute; reflexivity|]. apply H. vm_compute. discriminate.
Defined.
