(* ===== verification/TcpConn.v ===== *)
(** network/tcp: a TCP server's connections (server_conn.go,
    server_conn_mgr.go).

    As in [WsConn] a goroutine is the list of what it still has to do and every
    access to shared memory is one stage; connection objects are pooled, and the
    channels of socket [c] are part of [wire] [c].  Here an object goes back to
    the pool at once, the reader and the writer take [conn] and the queue from
    its fields without a lock, and goroutine 0 is the accept loop. *)
From stdpp Require Import base numbers list gmap.
From Stdlib Require Import ZArith Lia.
From S2P Require Import Prelude Types Packet WsConn.

Open Scope Z_scope.

Module Tcp.
Import Ws(ConnOpened, ConnHanged, ConnClosed, HeartbeatMechanism, RespHeartbeat, TickHeartbeat,
  offer, DIdle, DOffered, DTaken).

(** def.go *)
Definition closeSig : Z := 0.
Definition dataPacket : Z := 1.
Record task := mkTask { typ : Z; msg : list Z }.

(** what a connection reads of server_options.go *)
Record serverOptions := mkServerOptions {
  maxConnNum : Z; writeTimeout : Z; writeQueueSize : Z;
  heartbeatInterval : Z; heartbeatMechanism : HeartbeatMechanism; authorizeTimeout : Z
}.

(** ** The shared memory *)

(** a socket, with the channels its connection object makes for it *)
Record wire := mkWire {
  queue : list task;
  closed : bool; (* the queue, [done] and [close] *)
  done : offer;
  shut : bool; (* the socket itself *)
  sent : list (list Z)
}.
Definition no_wire : wire := mkWire [] false DIdle false [].
#[export] Instance wire_inhabited : Inhabited wire := populate no_wire.

Record serverConn := mkServerConn {
  id : Z;
  uid : Z;
  state : Z;
  conn : option nat;
  chans : nat; (* whose [done] and [close] *)
  taskQueue : option nat; (* nil, or whose queue *)
  readers : Z;
  lastHeartbeatTime : Z;
  authorizeTimer : option nat
}.
Definition no_conn : serverConn := mkServerConn 0 0 0 None 0 None 0 0 None.
#[export] Instance serverConn_inhabited : Inhabited serverConn := populate no_conn.

Inductive stage :=
(* allocate *)
| AInit (c : nat) | AConnect (o : nat) | AStore (o c : nat) | AAdd
(* checkAuthorize, uncheckAuthorize, the timer's function *)
| TCheck (o : nat) | TUncheck (o : nat) | TFire (o : nat)
(* forceClose: the two swaps *)
| FOpened (o : nat) (r : bool) | FHanged (o : nat) (r : bool)
(* doClose *)
| DClose (o : nat) (r : bool) | DSocket (c : nat) | DHandler (o c : nat)
(* recycle *)
| DRecycle (c : nat) | DPut (o : nat) | DSub
(* graceClose *)
| GOpened (o : nat) (r : bool) | GLock (o : nat) (r : bool) | GSend (o : nat) (r : bool)
| GUnlock (o : nat) (r : bool) | GDone (o : nat) (r : bool) | GRecv (o c : nat) (r : bool) | GHanged (o : nat) (r : bool)
(* read; [c] is nil when the connection was closed before the goroutine began *)
| RStart (o : nat) | RLoop (o : nat) (c : option nat) | RRead (o : nat) (c : option nat)
| RState (o c : nat) (data : list Z) | RData (o c : nat) (data : list Z) | RBeat (o c : nat) (now : Z)
(* write *)
| WStart (o : nat) | WLoop (o : nat) (c : option nat) | WSelect (o : nat) (c q : option nat)
| WTask (o : nat) (c : option nat) (t : task) | WWrite (o : nat) (c : option nat) (t : task)
| WSignal (o : nat) | WOffer (o : nat) | WTaken (o c : nat)
| WTick (o : nat) (c : option nat) (now : Z) | WBeat (o : nat) (c : option nat) (now : Z)
(* Send *)
| SCheck (o : nat) (m : list Z) | SConn (o : nat) (m : list Z) | SWrite (c : nat) (m : list Z)
(* Push *)
| PCheck (o : nat) (m : list Z) | PLock (o : nat) (m : list Z) | PFull (o : nat) (m : list Z)
| PSend (o : nat) (timed : bool) (t : task) | PUnlock (o : nat) (r : option error)
(* partition.close: the entries its loop has met *)
| XPartition (i : nat) (seen : list nat).

Inductive happening :=
| HConnect (o c : nat) | HDisconnect (o c : nat) | HReceive (o c : nat) (data : list Z)
| HReturn (t : nat) (r : option error) | HReject (c : nat).

Record server := mkServer {
  objs : gmap nat serverConn;
  wires : gmap nat wire;
  pool : list nat;
  connections : gmap nat nat;
  total : Z;
  nextID : Z;
  timers : gmap nat nat;
  threads : gmap nat (list stage);
  log : list happening;
  panicked : bool
}.
Definition new_server : server := mkServer ∅ ∅ [] ∅ 0 0 ∅ {[ 0%nat := [] ]} [] false.

(** *** Updates *)
Definition set_obj (o : nat) (x : serverConn) (s : server) : server :=
  mkServer (<[o := x]> (objs s)) (wires s) (pool s) (connections s) (total s) (nextID s) (timers s) (threads s) (log s) (panicked s).
Definition set_wire (c : nat) (x : wire) (s : server) : server :=
  mkServer (objs s) (<[c := x]> (wires s)) (pool s) (connections s) (total s) (nextID s) (timers s) (threads s) (log s) (panicked s).
Definition set_pool (p : list nat) (s : server) : server :=
  mkServer (objs s) (wires s) p (connections s) (total s) (nextID s) (timers s) (threads s) (log s) (panicked s).
Definition set_connections (cs : gmap nat nat) (s : server) : server :=
  mkServer (objs s) (wires s) (pool s) cs (total s) (nextID s) (timers s) (threads s) (log s) (panicked s).
Definition set_total (n : Z) (s : server) : server :=
  mkServer (objs s) (wires s) (pool s) (connections s) n (nextID s) (timers s) (threads s) (log s) (panicked s).
Definition set_nextID (n : Z) (s : server) : server :=
  mkServer (objs s) (wires s) (pool s) (connections s) (total s) n (timers s) (threads s) (log s) (panicked s).
Definition set_timers (ts : gmap nat nat) (s : server) : server :=
  mkServer (objs s) (wires s) (pool s) (connections s) (total s) (nextID s) ts (threads s) (log s) (panicked s).
Definition goto (t : nat) (k : list stage) (s : server) : server :=
  mkServer (objs s) (wires s) (pool s) (connections s) (total s) (nextID s) (timers s) (<[t := k]> (threads s)) (log s) (panicked s).
Definition note (h : happening) (s : server) : server :=
  mkServer (objs s) (wires s) (pool s) (connections s) (total s) (nextID s) (timers s) (threads s) (log s ++ [h]) (panicked s).
Definition panic (s : server) : server :=
  mkServer (objs s) (wires s) (pool s) (connections s) (total s) (nextID s) (timers s) (threads s) (log s) true.

Definition obj (o : nat) (s : server) : serverConn := objs s !!! o.
Definition wire_of (c : nat) (s : server) : wire := wires s !!! c.

Definition with_uid (u : Z) (x : serverConn) : serverConn :=
  mkServerConn (id x) u (state x) (conn x) (chans x) (taskQueue x) (readers x) (lastHeartbeatTime x) (authorizeTimer x).
Definition with_state (st : Z) (x : serverConn) : serverConn :=
  mkServerConn (id x) (uid x) st (conn x) (chans x) (taskQueue x) (readers x) (lastHeartbeatTime x) (authorizeTimer x).
Definition with_conn (c q : option nat) (x : serverConn) : serverConn :=
  mkServerConn (id x) (uid x) (state x) c (chans x) q (readers x) (lastHeartbeatTime x) (authorizeTimer x).
Definition with_readers (n : Z) (x : serverConn) : serverConn :=
  mkServerConn (id x) (uid x) (state x) (conn x) (chans x) (taskQueue x) n (lastHeartbeatTime x) (authorizeTimer x).
Definition with_last (n : Z) (x : serverConn) : serverConn :=
  mkServerConn (id x) (uid x) (state x) (conn x) (chans x) (taskQueue x) (readers x) n (authorizeTimer x).
Definition with_timer (tm : option nat) (x : serverConn) : serverConn :=
  mkServerConn (id x) (uid x) (state x) (conn x) (chans x) (taskQueue x) (readers x) (lastHeartbeatTime x) tm.

Definition with_queue (q : list task) (x : wire) : wire := mkWire q (closed x) (done x) (shut x) (sent x).
Definition with_closed (x : wire) : wire := mkWire (queue x) true (done x) (shut x) (sent x).
Definition with_done (d : offer) (x : wire) : wire := mkWire (queue x) (closed x) d (shut x) (sent x).
Definition with_shut (x : wire) : wire := mkWire (queue x) (closed x) (done x) true (sent x).
Definition with_sent (m : list Z) (x : wire) : wire := mkWire (queue x) (closed x) (done x) (shut x) (sent x ++ [m]).

Definition upd_obj (o : nat) (f : serverConn -> serverConn) (s : server) : server := set_obj o (f (obj o s)) s.
Definition upd_wire (c : nat) (f : wire -> wire) (s : server) : server := set_wire c (f (wire_of c s)) s.

(** xcall.Go *)
Definition spawn (k : list stage) (s : server) : server := goto (fresh (dom (threads s))) k s.

Inductive outcome :=
| XOk | XErr | XTimeout | XPick (o : nat) (now : Z) | XEntry (c : nat) | XRead (now : Z) (data : list Z)
| XTick (now : Z) | XDefault.

(** the calls of the accept loop, the clock, the application and Stop *)
Inductive action :=
| XAllocate (c : nat) | XFireTimer (tm : nat)
| XSend (o : nat) (m : list Z) | XPush (o : nat) (m : list Z) | XClose (o : nat) (force : bool)
| XBind (o : nat) (u : Z) | XUnbind (o : nat) | XStop
| XGo (x : outcome).

Section Tcp.
Context (opts : serverOptions).
(** packet.CheckHeartbeat and packet.PackHeartbeat *)
Context (packer : Packet.defaultPacker) (heartbeat : Z -> list Z).
(** the index of a socket's partition *)
Context (partition_of : nat -> nat).

(** *** server_conn.go *)
Definition checkState (x : serverConn) : option error :=
  if state x =? ConnHanged then Some ErrConnectionHanged
  else if state x =? ConnClosed then Some ErrConnectionClosed else None.

Definition isClosed (x : serverConn) : bool := state x =? ConnClosed.

(** init, without the goroutines it starts *)
Definition init (c : nat) (ident now : Z) (x : serverConn) : serverConn :=
  mkServerConn ident 0 ConnOpened (Some c) c (Some c) (readers x) now None.

(** Timer.Stop *)
Definition stop_timer (tm : option nat) (s : server) : server :=
  match tm with Some tm => set_timers (delete tm (timers s)) s | None => s end.

Definition checkAuthorize (o : nat) (s : server) : server :=
  if 0 <? authorizeTimeout opts then
    let tm := fresh (dom (timers s)) in
    stop_timer (authorizeTimer (obj o s)) (upd_obj o (with_timer (Some tm)) (set_timers (<[tm := o]> (timers s)) s))
  else s.

Definition uncheckAuthorize (o : nat) (s : server) : server :=
  if 0 <? authorizeTimeout opts
  then stop_timer (authorizeTimer (obj o s)) (upd_obj o (with_timer None) s) else s.

(** the locked part of doClose *)
Definition doClose (t o : nat) (r : bool) (k : list stage) (s : server) : option server :=
  if negb (readers (obj o s) =? 0) then None else
  match conn (obj o s) with
  | None => Some (goto t k s)
  | Some c =>
      let w := chans (obj o s) in
      if closed (wire_of w s) then Some (panic s) else
      Some (goto t (DSocket c :: DHandler o c :: (if r then [DRecycle c] else []) ++ k)
              (upd_obj o (with_conn None None) (upd_wire w with_closed s)))
  end.

(** a send on a queue; a full one waits, and nil waits for ever *)
Definition enqueue (q : option nat) (t : task) (s : server) : option server :=
  match q with
  | None => None
  | Some c =>
      if closed (wire_of c s) then Some (panic s)
      else if Z.of_nat (length (queue (wire_of c s))) <? writeQueueSize opts
      then Some (upd_wire c (fun w => with_queue (queue w ++ [t]) w) s) else None
  end.

(** a write to a socket; a nil connection panics, which ends the goroutine *)
Definition write_socket (t : nat) (c : option nat) (m : list Z) (x : outcome) (next k : list stage) (s : server) : option server :=
  match c, x with
  | None, XOk => Some (goto t k s)
  | Some c, XOk => if shut (wire_of c s) then None else Some (goto t next (upd_wire c (with_sent m) s))
  | Some _, XErr => Some (goto t next s)
  | _, _ => None
  end.

(** *** Calls *)

(** close: one goroutine for each partition *)
Definition start_partitions (l : list nat) (s : server) : server := foldr (fun i s => spawn [XPartition i []] s) s l.

Definition begin (t : nat) (x : action) (s : server) : option server :=
  match x with
  | XAllocate c =>
      if negb (t =? 0)%nat || bool_decide (is_Some (wires s !! c)) then None else
      let s := set_wire c no_wire s in
      if maxConnNum opts <=? total s then Some (note (HReject c) (upd_wire c with_shut s))
      else Some (goto t [AInit c] s)
  | XFireTimer tm =>
      match timers s !! tm with
      | Some o => Some (goto t [TFire o] (set_timers (delete tm (timers s)) s))
      | None => None
      end
  | XSend o m => Some (goto t [SCheck o m] s)
  | XPush o m => Some (goto t [PCheck o m] s)
  | XClose o force => Some (goto t [if force : bool then FOpened o true else GOpened o true] s)
  | XBind o u => Some (goto t [TUncheck o] (upd_obj o (with_uid u) s))
  | XUnbind o => Some (goto t [TCheck o] (upd_obj o (with_uid 0) s))
  | XStop => Some (start_partitions (seq 0 10) (goto t [] s))
  | XGo _ => None
  end.

(** *** Stages; [k] is what follows *)

(** one step of allocate and init *)
Definition advance_alloc (t : nat) (st : stage) (k : list stage) (x : outcome) (s : server) : option server :=
  match st, x with
  | AInit c, XPick o now =>
      let free := if decide (o ∈ pool s) then Some (filter (fun o' => o' <> o) (pool s))
                  else if decide (is_Some (objs s !! o)) then None else Some (pool s) in
      match free with
      | None => None
      | Some p =>
          let s := set_nextID (nextID s + 1) (set_pool p s) in
          let s := upd_obj o (init c (nextID s) now) s in
          Some (goto t (TCheck o :: AConnect o :: AStore o c :: AAdd :: k) (spawn [WStart o] (spawn [RStart o] s)))
      end
  | AConnect o, XOk => Some (goto t k (note (HConnect o (chans (obj o s))) s))
  | AStore o c, XOk => Some (goto t k (set_connections (<[c := o]> (connections s)) s))
  | AAdd, XOk => Some (goto t k (set_total (total s + 1) s))
  | TCheck o, XOk => Some (goto t k (checkAuthorize o s))
  | TUncheck o, XOk => Some (goto t k (uncheckAuthorize o s))
  | TFire o, XOk => Some (goto t (if uid (obj o s) =? 0 then FOpened o true :: k else k) s)
  | _, _ => None
  end.

(** the entries of a partition its loop has not met *)
Definition unseen (i : nat) (seen : list nat) (s : server) : list (nat * nat) :=
  filter (fun p => partition_of p.1 mod 10 = i /\ p.1 ∉ seen)%nat (map_to_list (connections s)).

(** one step of forceClose, graceClose, doClose, recycle and partition.close *)
Definition advance_close (t : nat) (st : stage) (k : list stage) (x : outcome) (s : server) : option server :=
  match st, x with
  | FOpened o r, XOk =>
      Some (if state (obj o s) =? ConnOpened
            then goto t (TUncheck o :: DClose o r :: k) (upd_obj o (with_state ConnClosed) s)
            else goto t (FHanged o r :: k) s)
  | FHanged o r, XOk =>
      Some (if state (obj o s) =? ConnHanged
            then goto t (TUncheck o :: DClose o r :: k) (upd_obj o (with_state ConnClosed) s)
            else goto t k s)
  | GOpened o r, XOk =>
      Some (if state (obj o s) =? ConnOpened
            then goto t (TUncheck o :: GLock o r :: k) (upd_obj o (with_state ConnHanged) s)
            else goto t k s)
  | GLock o r, XOk =>
      match conn (obj o s) with
      | None => Some (goto t k s)
      | Some _ => Some (goto t (GSend o r :: k) (upd_obj o (fun x => with_readers (readers x + 1) x) s))
      end
  | GSend o r, XOk =>
      match enqueue (taskQueue (obj o s)) (mkTask closeSig []) s with
      | Some s' => Some (goto t (GUnlock o r :: k) s')
      | None => None
      end
  | GUnlock o r, XOk => Some (goto t (GDone o r :: k) (upd_obj o (fun x => with_readers (readers x - 1) x) s))
  | GDone o r, XOk => Some (goto t (GRecv o (chans (obj o s)) r :: k) s)
  | GRecv o c r, XOk =>
      match done (wire_of c s) with
      | DOffered => Some (goto t (GHanged o r :: k) (upd_wire c (with_done DTaken) s))
      | _ => if closed (wire_of c s) then Some (goto t (GHanged o r :: k) s) else None
      end
  | GHanged o r, XOk =>
      Some (if state (obj o s) =? ConnHanged
            then goto t (DClose o r :: k) (upd_obj o (with_state ConnClosed) s) else goto t k s)
  | DClose o r, XOk => doClose t o r k s
  | DSocket c, (XOk | XErr) => Some (goto t k (upd_wire c with_shut s))
  | DHandler o c, XOk => Some (goto t k (note (HDisconnect o c) s))
  | DRecycle c, XOk =>
      match connections s !! c with
      | Some o => Some (goto t (DPut o :: DSub :: k) (set_connections (delete c (connections s)) s))
      | None => Some (goto t k s)
      end
  | DPut o, XOk => Some (goto t k (set_pool (pool s ++ [o]) s))
  | DSub, XOk => Some (goto t k (set_total (total s - 1) s))
  | XPartition i seen, XEntry c =>
      match connections s !! c with
      | Some o => if bool_decide ((c, o) ∈ unseen i seen s)
                  then Some (goto t (GOpened o true :: XPartition i (c :: seen) :: k) s) else None
      | None => None
      end
  | XPartition i seen, XDefault => match unseen i seen s with [] => Some (goto t k s) | _ => None end
  | _, _ => None
  end.

(** one step of read *)
Definition advance_read (t : nat) (st : stage) (k : list stage) (x : outcome) (s : server) : option server :=
  match st, x with
  | RStart o, XOk => Some (goto t (RLoop o (conn (obj o s)) :: k) s)
  | RLoop o c, XOk =>
      Some (goto t (if closed (wire_of (chans (obj o s)) s) then k else RRead o c :: k) s)
  | RRead o None, XOk => Some (goto t k s)
  | RRead o (Some c), XErr => Some (goto t (FOpened o true :: k) s)
  | RRead o (Some c), XRead now data =>
      if shut (wire_of c s) then None else
      Some (goto t (RState o c data :: k)
              (if 0 <? heartbeatInterval opts then upd_obj o (with_last now) s else s))
  | RState o c data, XOk =>
      Some (goto t (if state (obj o s) =? ConnHanged then RLoop o (Some c) :: k
                    else if state (obj o s) =? ConnClosed then k
                    else match data with [] => RLoop o (Some c) :: k | _ => RData o c data :: k end) s)
  | RData o c data, XTick now =>
      match Packet.CheckHeartbeat packer data with
      | Ok true =>
          Some (goto t match heartbeatMechanism opts with
                       | RespHeartbeat => RBeat o c now :: RLoop o (Some c) :: k
                       | TickHeartbeat => RLoop o (Some c) :: k
                       end s)
      | Ok false => Some (goto t (RLoop o (Some c) :: k) (note (HReceive o c data) s))
      | _ => Some (goto t (RLoop o (Some c) :: k) s)
      end
  | RBeat o c now, _ => write_socket t (Some c) (heartbeat now) x k k s
  | _, _ => None
  end.

(** doHandleHeartbeat, up to the write *)
Definition tick (t o : nat) (c : option nat) (now : Z) (k : list stage) (s : server) : server :=
  if lastHeartbeatTime (obj o s) <? now - 2 * heartbeatInterval opts then goto t (FOpened o true :: k) s
  else if isClosed (obj o s) then goto t k s
  else match heartbeatMechanism opts with
  | TickHeartbeat => goto t (WBeat o c now :: k) s
  | RespHeartbeat => goto t (WLoop o c :: k) s
  end.

(** one step of write *)
Definition advance_write (t : nat) (st : stage) (k : list stage) (x : outcome) (s : server) : option server :=
  match st, x with
  | WStart o, XOk => Some (goto t (WLoop o (conn (obj o s)) :: k) s)
  | WLoop o c, XOk => Some (goto t (WSelect o c (taskQueue (obj o s)) :: k) s)
  | WSelect o c (Some w), XOk =>
      match queue (wire_of w s) with
      | q :: qs => Some (goto t (WTask o c q :: k) (upd_wire w (with_queue qs) s))
      | [] => if closed (wire_of w s) then Some (goto t k s) else None
      end
  | WSelect o c _, XTick now =>
      if 0 <? heartbeatInterval opts then Some (goto t (WTick o c now :: k) s) else None
  | WTask o c q, XOk =>
      Some (goto t (if typ q =? closeSig then WSignal o :: k
                    else if isClosed (obj o s) then k else WWrite o c q :: k) s)
  | WWrite o c q, _ => write_socket t c (msg q) x (WLoop o c :: k) k s
  | WSignal o, XOk =>
      match conn (obj o s) with
      | None => Some (goto t k s)
      | Some _ => Some (goto t (WOffer o :: k) (upd_obj o (fun x => with_readers (readers x + 1) x) s))
      end
  | WOffer o, XOk =>
      let c := chans (obj o s) in
      if closed (wire_of c s) then Some (panic s) else
      match done (wire_of c s) with
      | DIdle => Some (goto t (WTaken o c :: k) (upd_wire c (with_done DOffered) s))
      | _ => None
      end
  | WTaken o c, XOk =>
      match done (wire_of c s) with
      | DTaken => Some (goto t k (upd_obj o (fun x => with_readers (readers x - 1) x) (upd_wire c (with_done DIdle) s)))
      | _ => if closed (wire_of c s) then Some (panic s) else None
      end
  | WTick o c now, XOk => Some (tick t o c now k s)
  | WBeat o c now, _ => write_socket t c (heartbeat now) x (WLoop o c :: k) k s
  | _, _ => None
  end.

(** one step of Send and Push *)
Definition advance_push (t : nat) (st : stage) (k : list stage) (x : outcome) (s : server) : option server :=
  match st, x with
  | SCheck o m, XOk =>
      Some match checkState (obj o s) with
           | Some e => goto t k (note (HReturn t (Some e)) s)
           | None => goto t (SConn o m :: k) s
           end
  | SConn o m, XOk =>
      Some match conn (obj o s) with
           | None => goto t k (note (HReturn t (Some ErrConnectionClosed)) s)
           | Some c => goto t (SWrite c m :: k) s
           end
  | SWrite c m, XOk =>
      if shut (wire_of c s) then None else Some (goto t k (note (HReturn t None) (upd_wire c (with_sent m) s)))
  | SWrite c m, XErr => Some (goto t k (note (HReturn t (Some ErrConnectionClosed)) s))
  | PCheck o m, XOk =>
      Some match checkState (obj o s) with
           | Some e => goto t k (note (HReturn t (Some e)) s)
           | None => goto t (PLock o m :: k) s
           end
  | PLock o m, XOk =>
      Some match conn (obj o s) with
           | None => goto t k (note (HReturn t (Some ErrConnectionClosed)) s)
           | Some _ => goto t (PFull o m :: k) (upd_obj o (fun x => with_readers (readers x + 1) x) s)
           end
  | PFull o m, XOk =>
      let full := match taskQueue (obj o s) with
                  | Some c => Z.of_nat (length (queue (wire_of c s))) =? writeQueueSize opts
                  | None => true
                  end in
      Some (goto t (PSend o ((0 <? writeTimeout opts) && full) (mkTask dataPacket m) :: k) s)
  | PSend o timed q, XOk =>
      match enqueue (taskQueue (obj o s)) q s with
      | Some s' => Some (goto t (PUnlock o None :: k) s')
      | None => None
      end
  | PSend o true q, XTimeout => Some (goto t (PUnlock o (Some ErrDeadlineExceeded) :: k) s)
  | PUnlock o r, XOk => Some (goto t k (note (HReturn t r) (upd_obj o (fun x => with_readers (readers x - 1) x) s)))
  | _, _ => None
  end.

Definition advance (t : nat) (st : stage) (k : list stage) (x : outcome) (s : server) : option server :=
  match st with
  | AInit _ | AConnect _ | AStore _ _ | AAdd | TCheck _ | TUncheck _ | TFire _ => advance_alloc t st k x s
  | FOpened _ _ | FHanged _ _ | DClose _ _ | DSocket _ | DHandler _ _ | DRecycle _ | DPut _ | DSub
  | GOpened _ _ | GLock _ _ | GSend _ _ | GUnlock _ _ | GDone _ _ | GRecv _ _ _ | GHanged _ _
  | XPartition _ _ => advance_close t st k x s
  | RStart _ | RLoop _ _ | RRead _ _ | RState _ _ _ | RData _ _ _ | RBeat _ _ _ => advance_read t st k x s
  | WStart _ | WLoop _ _ | WSelect _ _ _ | WTask _ _ _ | WWrite _ _ _ | WSignal _ | WOffer _
  | WTaken _ _ | WTick _ _ _ | WBeat _ _ _ => advance_write t st k x s
  | SCheck _ _ | SConn _ _ | SWrite _ _ | PCheck _ _ | PLock _ _ | PFull _ _ | PSend _ _ _ | PUnlock _ _ =>
      advance_push t st k x s
  end.

Definition exec (t : nat) (x : action) (s : server) : option server :=
  if panicked s then None else
  match threads s !! t with
  | None | Some [] => begin t x s
  | Some (st :: k) => match x with XGo x => advance t st k x s | _ => None end
  end.

Inductive reachable : server -> Prop :=
| reach_new : reachable new_server
| reach_exec s t x s' : reachable s -> exec t x s = Some s' -> reachable s'.

Fixpoint run (xs : list (nat * action)) (s : server) : option server :=
  match xs with
  | [] => Some s
  | (t, x) :: xs' => match exec t x s with Some s' => run xs' s' | None => None end
  end.
End Tcp.
End Tcp.
