(* ===== verification/TcpConnOk.v ===== *)
(** Every interleaving of a TCP server's goroutines: what a step changes of its
    table, and the invariant of its counter. *)
From stdpp Require Import base numbers list gmap.
From Stdlib Require Import ZArith Lia.
From S2P Require Import Prelude Types Packet Threads WsConn TcpConn.
Import Tcp.

Open Scope Z_scope.

(** stages that matter for the table *)
Definition counted (st : stage) : bool :=
  match st with AInit _ | AStore _ _ | AAdd | DRecycle _ | DSub => true | _ => false end.
(** stages of the accept loop *)
Definition accepts (st : stage) : bool := match st with AInit _ | AStore _ _ | AAdd => true | _ => false end.
Definition plain (k : list stage) : Prop := Forall (fun st => accepts st = false) k.

Definition tot (f : stage -> nat) (s : server) : nat := Threads.total (weigh f) (threads s).

Inductive kind :=
| Quiet | Allocate (c : nat) | Initialise (o c : nat) | Store (o c : nat) | Add
| Shut (c : nat) | Cut (c : nat) | Miss (c : nat) | Sub.
#[export] Instance tcp_kind_eq_dec : EqDecision kind.
Proof. solve_decision. Defined.

Definition removed (m : kind) : list stage :=
  match m with
  | Initialise _ c => [AInit c] | Store o c => [AStore o c] | Add => [AAdd]
  | Cut c | Miss c => [DRecycle c] | Sub => [DSub] | _ => []
  end.
Definition added (m : kind) : list stage :=
  match m with
  | Allocate c => [AInit c] | Initialise o c => [AStore o c; AAdd]
  | Shut c => [DRecycle c] | Cut c => [DSub] | _ => []
  end.
Definition table_after (m : kind) (cs : gmap nat nat) : gmap nat nat :=
  match m with Store o c => <[c := o]> cs | Cut c => delete c cs | _ => cs end.
Definition total_after (m : kind) (n : Z) : Z := match m with Add => n + 1 | Sub => n - 1 | _ => n end.

Definition pre (m : kind) (s : server) : Prop :=
  match m with
  | Allocate c => wires s !! c = None
  | Shut c => exists o, conn (obj o s) = Some c
  | Cut c => is_Some (connections s !! c)
  | _ => True
  end.

Record moves (m : kind) (s s' : server) : Prop := {
  mv_pre : pre m s;
  mv_wires : forall c, is_Some (wires s !! c) \/ m = Allocate c -> is_Some (wires s' !! c);
  mv_table : connections s' = table_after m (connections s);
  mv_total : Tcp.total s' = total_after m (Tcp.total s);
  mv_conn : forall o c, conn (obj o s') = Some c -> conn (obj o s) = Some c \/ m = Initialise o c;
  mv_stages : forall f, (forall st, counted st = false -> f st = 0%nat) ->
    (tot f s' + weigh f (removed m) = tot f s + weigh f (added m))%nat;
  mv_plain : (forall u k, u <> 0%nat -> threads s !! u = Some k -> plain k) ->
    forall u k, u <> 0%nat -> threads s' !! u = Some k -> plain k;
  mv_zero : is_Some (threads s !! 0%nat) -> is_Some (threads s' !! 0%nat)
}.

(** what is left when the goroutines are set aside *)
Record frame (m : kind) (s s' : server) : Prop := {
  fr_wires : forall c, is_Some (wires s !! c) \/ m = Allocate c -> is_Some (wires s' !! c);
  fr_table : connections s' = table_after m (connections s);
  fr_total : Tcp.total s' = total_after m (Tcp.total s);
  fr_conn : forall o c, conn (obj o s') = Some c -> conn (obj o s) = Some c \/ m = Initialise o c;
  fr_threads : threads s' = threads s
}.

Lemma tcp_tot_goto f t k s :
  (tot f (goto t k s) + weigh f (default [] (threads s !! t)) = tot f s + weigh f k)%nat.
Proof.
  unfold tot. pose proof (total_set (weigh f) (threads s) t k) as H. cbn [goto threads].
  destruct (threads s !! t) as [k0|].
  - change (default [] (Some k0)) with k0. lia.
  - change (weigh f (default [] None)) with 0%nat. lia.
Qed.
Lemma tcp_tot_spawn f k s : tot f (spawn k s) = (weigh f k + tot f s)%nat.
Proof. apply total_fresh. Qed.

Lemma tcp_moves_goto m t k0 k s s1 :
  frame m s s1 -> pre m s -> default [] (threads s !! t) = k0 ->
  (forall f, (forall st, counted st = false -> f st = 0) ->
     weigh f k + weigh f (removed m) = weigh f k0 + weigh f (added m))%nat ->
  (t <> 0%nat -> plain k0 -> plain k) -> moves m s (goto t k s1).
Proof.
  intros [] Hpre Hk0 Hw Hp. split; auto.
  - intros f Hf. pose proof (tcp_tot_goto f t k s1) as Ht. specialize (Hw f Hf). rewrite fr_threads0, Hk0 in Ht.
    assert (tot f s1 = tot f s) by (unfold tot; by rewrite fr_threads0). lia.
  - intros Hpl u k' Hu. cbn. rewrite fr_threads0. intros [[<- <-]|[_ H]]%lookup_insert_Some; [|eauto].
    apply Hp; [done|]. destruct (threads s !! t) eqn:E; cbn in Hk0; subst; [eauto|constructor].
  - cbn. rewrite fr_threads0. intros H. apply lookup_insert_is_Some. destruct (decide (t = 0%nat)); auto.
Qed.

Lemma tcp_moves_spawn m k s s1 :
  moves m s s1 -> is_Some (threads s !! 0%nat) -> (forall st, st ∈ k -> counted st = false) -> moves m s (spawn k s1).
Proof.
  intros [] Hz Hk. split; auto.
  - intros f Hf. rewrite tcp_tot_spawn. rewrite <- mv_stages0 by done.
    assert (weigh f k = 0%nat); [|lia]. clear -Hk Hf. induction k as [|st k IH]; [done|].
    rewrite weigh_cons, (Hf st) by (apply Hk; left). rewrite IH; [done|]. intros st' ?. apply Hk. by right.
  - intros Hpl u k' Hu. cbn. intros [[_ <-]|[_ H]]%lookup_insert_Some; [|eauto].
    apply Forall_forall. intros st Hst%Hk. by destruct st.
  - intros _. cbn. rewrite lookup_insert_is_Some. destruct (decide (fresh (dom (threads s1)) = 0%nat)); auto.
Qed.

Lemma tcp_moves_still s s1 : frame Quiet s s1 -> moves Quiet s s1.
Proof.
  intros []. split; auto; rewrite ?fr_threads0; auto.
  - done.
  - intros f Hf. unfold tot. by rewrite fr_threads0.
Qed.

(** a goroutine that starts another and goes on *)
Lemma tcp_goto_spawn t k k1 s : is_Some (threads s !! t) -> goto t k (spawn k1 s) = spawn k1 (goto t k s).
Proof.
  intros Ht. unfold spawn. set (u := fresh (dom (threads s))).
  assert (fresh (dom (threads (goto t k s))) = u) as -> by (cbn; by rewrite dom_insert_lookup_L).
  assert (u <> t) by (intros <-; apply elem_of_dom in Ht; by apply (is_fresh (dom (threads s)))).
  unfold goto. cbn. f_equal. by rewrite insert_insert_ne.
Qed.

(** *** Tactics *)
Ltac tlook :=
  unfold upd_obj, upd_wire, set_obj, set_wire, obj, wire_of in *; cbn in *;
  rewrite ?lookup_total_insert in *; repeat case_decide; simplify_eq/=.

Ltac framed :=
  split; intros; tlook;
  repeat match goal with
  | H : _ \/ _ |- _ => destruct H as [H|H]
  | |- is_Some (<[_ := _]> _ !! _) => apply lookup_insert_is_Some
  end; simplify_eq; auto; try done;
  try match goal with |- ?a = ?b \/ _ => destruct (decide (a = b)); tauto end.

Ltac weighed :=
  let f := fresh "f" in let Hf := fresh "Hf" in
  intros f Hf; cbn [removed added app]; rewrite ?weigh_app, ?weigh_cons; unfold weigh; cbn [sum_list_with];
  repeat match goal with |- context [f ?st] => rewrite (Hf st) by reflexivity end; lia.

Ltac plainly := intros ?; unfold plain; cbn [app]; rewrite ?Forall_cons, ?Forall_app; cbn; intuition (try congruence; auto).

Ltac by_kind m :=
  exists m;
  match goal with H : threads _ !! ?t = Some ?k0 |- _ =>
    eapply (tcp_moves_goto _ t k0); [framed|cbn; by eauto|by rewrite H|weighed|plainly] end.

Section Moves.
Context (opts : serverOptions) (packer : Packet.defaultPacker) (heartbeat : Z -> list Z)
  (partition_of : nat -> nat).

Lemma tcp_push_moves t st k x s s' : threads s !! t = Some (st :: k) ->
  advance_push opts t st k x s = Some s' -> exists m, moves m s s'.
Proof.
  intros Ht H. unfold advance_push, enqueue in H.
  destruct st; try discriminate H; destruct x; try discriminate H; repeat case_match; simplify_eq.
  all: try by_kind Quiet.
Qed.

Lemma tcp_read_moves t st k x s s' : threads s !! t = Some (st :: k) ->
  advance_read opts packer heartbeat t st k x s = Some s' -> exists m, moves m s s'.
Proof.
  intros Ht H. unfold advance_read, write_socket in H.
  destruct st; try discriminate H; destruct x; try discriminate H; repeat case_match; simplify_eq.
  all: by_kind Quiet.
Qed.

Lemma tcp_write_moves t st k x s s' : threads s !! t = Some (st :: k) ->
  advance_write opts heartbeat t st k x s = Some s' -> exists m, moves m s s'.
Proof.
  intros Ht H. unfold advance_write, write_socket, tick in H.
  destruct st; try discriminate H; destruct x; try discriminate H; repeat case_match; simplify_eq.
  all: first [by_kind Quiet|exists Quiet; apply tcp_moves_still; framed].
Qed.

Lemma tcp_close_moves t st k x s s' : threads s !! t = Some (st :: k) ->
  advance_close opts partition_of t st k x s = Some s' -> exists m, moves m s s'.
Proof.
  intros Ht H. unfold advance_close, doClose, enqueue in H.
  destruct st; try discriminate H; destruct x; try discriminate H; repeat case_match; simplify_eq.
  all: try solve [by_kind Quiet|by_kind (Cut c)|by_kind (Miss c)|by_kind Sub].
  - exists Quiet. apply tcp_moves_still. framed.
  - by_kind (Shut n).
Qed.

Lemma tcp_alloc_moves t st k x s s' : threads s !! t = Some (st :: k) -> is_Some (threads s !! 0%nat) ->
  advance_alloc opts t st k x s = Some s' -> exists m, moves m s s'.
Proof.
  intros Ht Hz H. unfold advance_alloc, checkAuthorize, uncheckAuthorize, stop_timer in H.
  destruct st; try discriminate H; destruct x; try discriminate H; repeat case_match; simplify_eq.
  all: try solve [by_kind Quiet|by_kind (Store o c)|by_kind Add].
  all: exists (Initialise o c).
  all: rewrite tcp_goto_spawn by (cbn; rewrite lookup_insert_is_Some, Ht; by destruct (decide (fresh (dom (threads s)) = t)); eauto).
  all: apply tcp_moves_spawn; [|done|by intros ? ->%list_elem_of_singleton].
  all: rewrite tcp_goto_spawn by (cbn; by eauto).
  all: apply tcp_moves_spawn; [|done|by intros ? ->%list_elem_of_singleton].
  all: apply (tcp_moves_goto _ t (AInit c :: k)); [framed|done|by rewrite Ht|weighed|plainly].
Qed.

Lemma partitions_moves m l s s1 : moves m s s1 -> is_Some (threads s !! 0%nat) -> moves m s (start_partitions l s1).
Proof.
  intros Hm Hz. induction l as [|i l IH]; [done|]. cbn. apply tcp_moves_spawn; [done|done|].
  by intros ? ->%list_elem_of_singleton.
Qed.

Lemma tcp_begin_moves t x s s' : default [] (threads s !! t) = [] -> is_Some (threads s !! 0%nat) ->
  begin opts t x s = Some s' -> exists m, moves m s s'.
Proof.
  intros Ht Hz H. unfold begin in H.
  destruct x; repeat case_match; simplify_eq.
  all: try solve [exists Quiet; apply (tcp_moves_goto _ t []); [framed|done|done|weighed|plainly]].
  - exists Quiet. apply tcp_moves_still. split; try done; cbn; intros.
    + destruct H as [?|?]; [|done]. rewrite !lookup_insert_is_Some. destruct (decide (c = c0)); tauto.
    + by left.
  - apply orb_false_iff in H0 as [H0 Hw]. apply negb_false_iff, Nat.eqb_eq in H0. apply bool_decide_eq_false in Hw.
    exists (Allocate c). apply (tcp_moves_goto _ t []); [|by apply eq_None_not_Some|done|weighed|done].
    split; try done; cbn; intros; [|by left]. rewrite lookup_insert_is_Some.
    destruct H as [?|?]; simplify_eq; [destruct (decide (c = c0)); tauto|by left].
  - exists Quiet. apply partitions_moves; [|done].
    apply (tcp_moves_goto _ t []); [framed|done|done|weighed|plainly].
Qed.

Lemma tcp_exec_moves t x s s' : is_Some (threads s !! 0%nat) ->
  exec opts packer heartbeat partition_of t x s = Some s' -> exists m, moves m s s'.
Proof.
  unfold exec. intros Hz H. destruct (panicked s); [done|].
  destruct (threads s !! t) as [[|st k]|] eqn:Ht;
    [by apply (tcp_begin_moves t x); rewrite ?Ht| |by apply (tcp_begin_moves t x); rewrite ?Ht].
  destruct x; try done. unfold advance in H.
  destruct st; lazymatch type of H with
  | advance_alloc _ _ _ _ _ _ = _ => exact (tcp_alloc_moves _ _ _ _ _ _ Ht Hz H)
  | advance_close _ _ _ _ _ _ _ = _ => exact (tcp_close_moves _ _ _ _ _ _ Ht H)
  | advance_read _ _ _ _ _ _ _ _ = _ => exact (tcp_read_moves _ _ _ _ _ _ Ht H)
  | advance_write _ _ _ _ _ _ _ = _ => exact (tcp_write_moves _ _ _ _ _ _ Ht H)
  | advance_push _ _ _ _ _ _ = _ => exact (tcp_push_moves _ _ _ _ _ _ Ht H)
  end.
Qed.
End Moves.

(** ** The counter *)

Definition coming (c : nat) (st : stage) : nat :=
  match st with AInit c' | AStore _ c' => if decide (c' = c) then 1 else 0 | _ => 0 end.
Definition stores (st : stage) : nat := match st with AStore _ _ => 1 | _ => 0 end.
Definition adds (st : stage) : nat := match st with AAdd => 1 | _ => 0 end.
Definition subs (st : stage) : nat := match st with DSub => 1 | _ => 0 end.

Record tinv (s : server) : Prop := {
  ti_once : forall c, (tot (coming c) s <= 1)%nat;
  ti_coming : forall c, (0 < tot (coming c) s)%nat -> is_Some (wires s !! c) /\ connections s !! c = None;
  ti_known : forall c, is_Some (connections s !! c) -> is_Some (wires s !! c);
  ti_total : Tcp.total s + Z.of_nat (tot adds s) =
    Z.of_nat (size (connections s)) + Z.of_nat (tot subs s) + Z.of_nat (tot stores s);
  ti_plain : forall u k, u <> 0%nat -> threads s !! u = Some k -> plain k;
  ti_zero : is_Some (threads s !! 0%nat)
}.

Lemma coming_after m s s' c : moves m s s' ->
  (tot (coming c) s' + weigh (coming c) (removed m) = tot (coming c) s + weigh (coming c) (added m))%nat.
Proof. intros Hm. apply (mv_stages _ _ _ Hm). by intros []. Qed.

Lemma allocated_new s s' c : tinv s -> moves (Allocate c) s s' -> tot (coming c) s = 0%nat /\ connections s !! c = None.
Proof.
  intros Hi Hm. pose proof (mv_pre _ _ _ Hm) as Hn. cbn in Hn. split.
  - destruct (decide (0 < tot (coming c) s)%nat) as [H|]; [|lia]. apply (ti_coming s Hi) in H as [[? H] _]. congruence.
  - destruct (connections s !! c) eqn:E; [|done]. destruct (ti_known s Hi c) as [? ?]; [by rewrite E|congruence].
Qed.

Lemma tkeeps_coming m s s' c : tinv s -> moves m s s' -> (tot (coming c) s' <= 1)%nat /\
  ((0 < tot (coming c) s')%nat -> is_Some (wires s' !! c) /\ connections s' !! c = None).
Proof.
  intros Hi Hm. pose proof (coming_after _ _ _ c Hm) as Hc. pose proof (ti_once s Hi c) as Ho. pose proof (ti_coming s Hi c) as Hw.
  pose proof (mv_wires _ _ _ Hm c) as Hs. rewrite (mv_table _ _ _ Hm).
  destruct (decide (m = Allocate c)) as [E|Hne].
  { subst m. destruct (allocated_new s s' c Hi Hm) as [H1 H2]. cbn in Hc. rewrite decide_True in Hc by done.
    split; [lia|]. intros _. split; [apply Hs; by right|done]. }
  destruct m; cbn in Hc; repeat case_decide; simplify_eq; split; try lia; intros Hp;
    (destruct Hw as [? Hn]; [lia|]; split; [apply Hs; by left|]; cbn; try done).
  - by rewrite lookup_insert_ne.
  - apply lookup_delete_None. by right.
Qed.

Lemma tkeeps_known m s s' c : tinv s -> moves m s s' -> is_Some (connections s' !! c) -> is_Some (wires s' !! c).
Proof.
  intros Hi Hm. rewrite (mv_table _ _ _ Hm). intros H. apply (mv_wires _ _ _ Hm). left.
  destruct m; cbn in H; try (by apply (ti_known s Hi)).
  - apply lookup_insert_is_Some in H as [<-|[_ ?]]; [|by apply (ti_known s Hi)].
    pose proof (coming_after _ _ _ c0 Hm) as Hc. cbn in Hc. rewrite decide_True in Hc by done. apply (ti_coming s Hi). lia.
  - apply lookup_delete_is_Some in H as [_ ?]. by apply (ti_known s Hi).
Qed.

Lemma tkeeps_total m s s' : tinv s -> moves m s s' ->
  Tcp.total s' + Z.of_nat (tot adds s') =
    Z.of_nat (size (connections s')) + Z.of_nat (tot subs s') + Z.of_nat (tot stores s').
Proof.
  intros Hi Hm. pose proof (ti_total s Hi) as Ht. rewrite (mv_total _ _ _ Hm), (mv_table _ _ _ Hm).
  pose proof (mv_stages _ _ _ Hm adds ltac:(by intros [])) as H1.
  pose proof (mv_stages _ _ _ Hm subs ltac:(by intros [])) as H2.
  pose proof (mv_stages _ _ _ Hm stores ltac:(by intros [])) as H3.
  pose proof (mv_pre _ _ _ Hm) as Hp.
  assert (forall o c, m = Store o c -> connections s !! c = None) as Hst.
  { intros o c ->. pose proof (coming_after _ _ _ c Hm) as Hc. cbn in Hc. rewrite decide_True in Hc by done.
    apply (ti_coming s Hi). lia. }
  destruct m; cbn in *; try lia.
  - rewrite map_size_insert_None by eauto. lia.
  - rewrite map_size_delete_Some by done.
    assert (size (connections s) <> 0%nat); [|lia]. intros E%map_size_empty_inv. rewrite E in Hp. by destruct Hp.
Qed.

Lemma tinv_moves m s s' : tinv s -> moves m s s' -> tinv s'.
Proof.
  intros Hi Hm. split.
  - intros c. by apply (tkeeps_coming m s).
  - intros c. by apply (tkeeps_coming m s).
  - intros c. by apply (tkeeps_known m s).
  - by apply (tkeeps_total m s).
  - apply (mv_plain _ _ _ Hm), Hi.
  - apply (mv_zero _ _ _ Hm), Hi.
Qed.

(** ** Connections that stay in the table *)

Definition cuts (c : nat) (st : stage) : nat :=
  match st with DRecycle c' => if decide (c' = c) then 1 else 0 | _ => 0 end.

Definition inits (c : nat) (st : stage) : nat :=
  match st with AInit c' => if decide (c' = c) then 1 else 0 | _ => 0 end.

Lemma inits_coming c s : (0 < tot (inits c) s)%nat -> (0 < tot (coming c) s)%nat.
Proof.
  intros (u & k & Hu & Hp)%total_pos. apply weigh_pos in Hp as (st & Hst & Hp).
  pose proof (total_le (weigh (coming c)) _ _ _ Hu) as H1. pose proof (weigh_in (coming c) st k Hst) as H2.
  unfold tot. destruct st; cbn in *; repeat case_decide; lia.
Qed.

(** in the table, closed, and nobody is left to take it out *)
Record dead (c : nat) (s : server) : Prop := {
  dd_table : is_Some (connections s !! c);
  dd_conn : forall o, conn (obj o s) <> Some c;
  dd_cuts : tot (cuts c) s = 0%nat
}.

(** by evaluation *)
Lemma dead_check c s : is_Some (connections s !! c) -> map_Forall (fun _ x => conn x <> Some c) (objs s) ->
  tot (cuts c) s = 0%nat -> dead c s.
Proof.
  intros Ht Ho Hc. split; try done. intros o H. unfold obj in H. rewrite lookup_total_alt in H.
  destruct (objs s !! o) as [x|] eqn:E; cbn in H; [by apply (Ho o x)|done].
Qed.

Lemma dead_moves m c s s' : tinv s -> dead c s -> moves m s s' -> dead c s'.
Proof.
  intros Hi [Ht Hc Hk] Hm.
  pose proof (mv_stages _ _ _ Hm (cuts c) ltac:(by intros [])) as Hs.
  assert (tot (coming c) s = 0%nat) as H0.
  { destruct (decide (0 < tot (coming c) s)%nat) as [H|]; [|lia]. apply (ti_coming s Hi) in H as [_ H].
    rewrite H in Ht. by destruct Ht. }
  split.
  - rewrite (mv_table _ _ _ Hm). destruct m; cbn in *; try done.
    + apply lookup_insert_is_Some. destruct (decide (c0 = c)); auto.
    + apply lookup_delete_is_Some. split; [|done]. intros ->. rewrite decide_True in Hs by done. lia.
  - intros o Ho. destruct (mv_conn _ _ _ Hm o c Ho) as [?| ->]; [by apply (Hc o)|].
    pose proof (mv_stages _ _ _ Hm (inits c) ltac:(by intros [])) as Hc'. cbn in Hc'. rewrite decide_True in Hc' by done.
    assert (0 < tot (coming c) s)%nat by (apply inits_coming; lia). lia.
  - destruct m; cbn in *; try lia; repeat case_decide; subst; try lia.
    by destruct (mv_pre _ _ _ Hm) as [o Ho]; destruct (Hc o).
Qed.

Lemma dead_counted l s : NoDup l -> (forall c, c ∈ l -> dead c s) -> (length l <= size (connections s))%nat.
Proof.
  intros Hn Hd. rewrite <- (size_dom (D := gset nat)), <- (size_list_to_set (C := gset nat) l) by done.
  apply subseteq_size. intros c Hc%elem_of_list_to_set. apply elem_of_dom. by destruct (Hd c Hc).
Qed.

(** no slot is pending when the accept loop is idle *)
Lemma idle_accepted f s : tinv s -> threads s !! 0%nat = Some [] ->
  (forall st, accepts st = false -> f st = 0%nat) -> tot f s = 0%nat.
Proof.
  intros Hi Hz Hf. apply total_none. intros u k Hu. destruct (decide (u = 0%nat)) as [->|Hne]; [by simplify_eq|].
  pose proof (ti_plain s Hi u k Hne Hu) as Hp. clear -Hp Hf.
  induction Hp as [|st k Hst _ IH]; [done|]. rewrite weigh_cons, Hf, IH by done. done.
Qed.

Section Reach.
Context (opts : serverOptions) (packer : Packet.defaultPacker) (heartbeat : Z -> list Z)
  (partition_of : nat -> nat).

Lemma tinv_new : tinv new_server.
Proof.
  assert (forall f, tot f new_server = 0%nat) as Ht.
  { intros f. apply total_none. intros u k. cbn. intros [<- <-]%lookup_singleton_Some. done. }
  split.
  - intros c. rewrite Ht. lia.
  - intros c. rewrite Ht. lia.
  - intros c [? H]. cbn in H. by rewrite lookup_empty in H.
  - by rewrite !Ht.
  - intros u k Hu. cbn. by intros [<- _]%lookup_singleton_Some.
  - cbn. rewrite lookup_singleton_eq. by eexists.
Qed.

Lemma tinv_exec t x s s' : tinv s -> exec opts packer heartbeat partition_of t x s = Some s' -> tinv s'.
Proof.
  intros Hi H. destruct (tcp_exec_moves opts packer heartbeat partition_of t x s s' (ti_zero s Hi) H) as [m Hm].
  by eapply tinv_moves.
Qed.

Lemma tinv_reachable s : reachable opts packer heartbeat partition_of s -> tinv s.
Proof. induction 1; eauto using tinv_new, tinv_exec. Qed.

Lemma tcp_run_reachable xs s s' : reachable opts packer heartbeat partition_of s ->
  run opts packer heartbeat partition_of xs s = Some s' -> reachable opts packer heartbeat partition_of s'.
Proof.
  revert s. induction xs as [|[t x] xs IH]; cbn; intros s Hr H; [by simplify_eq|].
  destruct (exec _ _ _ _ t x s) eqn:E; [|done]. eapply IH; [|done]. by eapply reach_exec.
Qed.

Lemma dead_run c xs s s' : tinv s -> dead c s -> run opts packer heartbeat partition_of xs s = Some s' -> dead c s'.
Proof.
  revert s. induction xs as [|[t x] xs IH]; cbn; intros s Hi Hd H; [by simplify_eq|].
  destruct (exec _ _ _ _ t x s) as [s1|] eqn:E; [|done].
  destruct (tcp_exec_moves opts packer heartbeat partition_of t x s s1 (ti_zero s Hi) E) as [m Hm].
  eapply IH; [by eapply tinv_exec| |done]. by eapply dead_moves.
Qed.
End Reach.
