(* ===== verification/TcpConnClaims.v ===== *)
(** What goes wrong with a TCP server's connections, for every server and
    whatever happens afterwards. *)
From stdpp Require Import base numbers list gmap.
From Stdlib Require Import ZArith Lia.
From S2P Require Import Prelude Binary Types Packet Threads WsConn TcpConn TcpConnOk.
Import Tcp.

Open Scope Z_scope.

Definition tcp_go (t : nat) (n : nat) : list (nat * action) := repeat (t, XGo XOk) n.

(** the accept loop takes socket [c] up to its connect handler, with object [o] *)
Definition take_up (c o : nat) : list (nat * action) := [(0%nat, XAllocate c); (0%nat, XGo (XPick o 0))].

(** socket [c] fails before it is registered; [r] is its reader *)
Definition reset_early (c o r : nat) : list (nat * action) :=
  take_up c o ++ tcp_go r 2 ++ [(r, XGo XErr)] ++ tcp_go r 6 ++ tcp_go 0 4.

(** two sockets do *)
Definition both_reset : list (nat * action) := reset_early 0 0 1 ++ reset_early 1 1 3.

(** the application closes socket 0, whose object serves socket 1 when the reader of socket 0 finds the error *)
Definition reader_late : list (nat * action) :=
  take_up 0 0 ++ tcp_go 0 4 ++ tcp_go 1 2 ++ [(3%nat, XClose 0 true)] ++ tcp_go 3 8 ++
  take_up 1 0 ++ tcp_go 0 4 ++ [(1%nat, XGo XErr)] ++ tcp_go 1 5.

(** the writer of socket 0 is in a write when the application closes it; afterwards it takes the next client's message *)
Definition writer_late : list (nat * action) :=
  take_up 0 0 ++ tcp_go 0 4 ++ tcp_go 2 2 ++ [(3%nat, XPush 0 [1])] ++ tcp_go 3 5 ++ tcp_go 2 2 ++
  [(4%nat, XClose 0 true)] ++ tcp_go 4 8 ++ take_up 1 0 ++ tcp_go 0 4 ++ [(2%nat, XGo XErr)] ++ tcp_go 2 1 ++
  [(3%nat, XPush 0 [2])] ++ tcp_go 3 5 ++ tcp_go 2 2 ++ [(2%nat, XGo XErr)].

Definition two_slots : serverOptions := mkServerOptions 2 0 1024 10000000000 Ws.RespHeartbeat 0.
Definition tcp_packer : Packet.defaultPacker := Packet.mkPacker (Packet.mkOptions BigEndian 2 2 5000 false) [].
Definition tcp_run (xs : list (nat * action)) (s : server) : option server :=
  Tcp.run two_slots tcp_packer (fun _ => []) (fun c => c) xs s.

Section Claims.
Context (opts : serverOptions) (packer : Packet.defaultPacker) (heartbeat : Z -> list Z)
  (partition_of : nat -> nat).

Abbreviation reachable := (Tcp.reachable opts packer heartbeat partition_of).
Abbreviation run := (Tcp.run opts packer heartbeat partition_of).
Abbreviation exec := (Tcp.exec opts packer heartbeat partition_of).

(** C40: Sockets that failed before they were registered stay in the table for ever
    and count as connections: once there are [maxConnNum] of them the server
    turns every client away, whatever happens afterwards. *)
Theorem early_resets_exhaust_server s l xs s' c s'' :
  reachable s -> NoDup l -> (forall c, c ∈ l -> dead c s) -> maxConnNum opts <= Z.of_nat (length l) ->
  run xs s = Some s' -> exec 0 (XAllocate c) s' = Some s'' ->
  log s'' = log s' ++ [HReject c] /\ shut (wire_of c s'') = true /\ connections s'' = connections s'.
Proof.
  intros Hr Hn Hd Hm Hx H. assert (tinv s) as Hi by (by eapply tinv_reachable).
  assert (tinv s') as Hi' by (by eapply tinv_reachable, tcp_run_reachable).
  assert (length l <= size (connections s'))%nat as Hl by (apply dead_counted; eauto using dead_run).
  unfold Tcp.exec in H. destruct (panicked s'); [done|].
  destruct (ti_zero s' Hi') as [[|st k] Hz]; rewrite Hz in H; [|done]. cbn in H.
  destruct (bool_decide _); [done|]. cbn in H.
  pose proof (ti_total s' Hi') as Ht.
  rewrite (idle_accepted adds s' Hi' Hz), (idle_accepted stores s' Hi' Hz) in Ht by (by intros []).
  assert (maxConnNum opts <=? Tcp.total s' = true) as E by lia. rewrite E in H. simplify_eq. cbn.
  split_and!; [done| |done]. unfold wire_of, upd_wire. cbn. by rewrite !lookup_total_insert_eq.
Qed.

(** A reader that finds the error of its closed socket after the object was used
    again closes the next client's connection: nothing failed on socket 1 and
    nobody closed it, and it is shut and reported as disconnected. *)
Theorem late_reader_cuts_next_client : 1 < maxConnNum opts ->
  exists s, run reader_late new_server = Some s /\
    log s = [HConnect 0 0; HDisconnect 0 0; HConnect 0 1; HDisconnect 0 1] /\
    shut (wire_of 1 s) = true /\ conn (obj 0 s) = None.
Proof.
  intros Hm. destruct opts as [[|[mx|mx|]|mx] wt wq hi hm [|au|au]]; try (by cbn in Hm).
  all: eexists; split; [vm_compute; reflexivity|]; vm_compute; by split_and!.
Qed.

(** As for the reader: a writer that outlives its socket takes a message pushed
    to the next client from the queue of the object and writes it to the closed
    socket; the push was reported as done. *)
Theorem late_writer_loses_message : 1 < maxConnNum opts -> 0 < writeQueueSize opts ->
  exists s, run writer_late new_server = Some s /\
    log s = [HConnect 0 0; HReturn 3 None; HDisconnect 0 0; HConnect 0 1; HReturn 3 None] /\
    conn (obj 0 s) = Some 1%nat /\ sent (wire_of 1 s) = [] /\ queue (wire_of 1 s) = [].
Proof.
  intros Hm Hq. destruct opts as [[|[mx|mx|]|mx] [|wt|wt] [|wq|wq] hi hm [|au|au]]; try (by cbn in Hm); try (by cbn in Hq).
  all: eexists; split; [vm_compute; reflexivity|]; vm_compute; by split_and!.
Qed.
End Claims.

(** *** Runs *)

Lemma late_reader_cuts_next_client_witness :
  exists s, tcp_run reader_late new_server = Some s /\ shut (wire_of 1 s) = true.
Proof.
  destruct (late_reader_cuts_next_client two_slots tcp_packer (fun _ => []) (fun c => c)) as (s & H1 & _ & H2 & _);
    [done|]. exists s. split; assumption.
Defined.

Lemma both_reset_dead s : tcp_run both_reset new_server = Some s -> forall c, c ∈ [0%nat; 1%nat] -> dead c s.
Proof.
  intros E. vm_compute in E. injection E as <-.
  intros c Hc. apply elem_of_cons in Hc as [->| ->%list_elem_of_singleton]; apply dead_check;
    solve [vm_compute; reflexivity|vm_compute; eauto|apply (bool_decide_unpack _); vm_compute; exact I].
Qed.

Lemma early_resets_exhaust_server_witness : exists s, tcp_run both_reset new_server = Some s /\
  (forall c, c ∈ [0%nat; 1%nat] -> dead c s) /\ forall xs s' c s'', tcp_run xs s = Some s' ->
  Tcp.exec two_slots tcp_packer (fun _ => []) (fun c => c) 0 (XAllocate c) s' = Some s'' -> log s'' = log s' ++ [HReject c].
Proof.
  destruct (tcp_run both_reset new_server) as [s|] eqn:E; [|by vm_compute in E].
  exists s. split; [reflexivity|]. split; [apply both_reset_dead; exact E|]. intros xs s' c s'' Hx H.
  destruct (early_resets_exhaust_server two_slots tcp_packer (fun _ => []) (fun c => c) s [0%nat; 1%nat] xs s' c s'')
    as (Hl & _); try assumption.
  - exact (tcp_run_reachable _ _ _ _ _ _ _ (reach_new _ _ _ _) E).
  - apply (bool_decide_unpack _). vm_compute. exact I.
  - apply both_reset_dead, E.
  - vm_compute. discriminate.
Defined.
