(* ===== verification/Decimal.v ===== *)
(** Decimal numbers as the strings Redis and package strconv hold: printing,
    parsing, and the comparison of canonical strings by length and then by
    characters, which is the comparison of the numbers. *)
From stdpp Require Import base numbers list.
From Stdlib Require Import ZArith Lia.
From S2P Require Import Prelude.

Open Scope Z_scope.

Definition digit (c : Z) : bool := (48 <=? c) && (c <=? 57).

(** strconv.FormatUint(n, 10) *)
Fixpoint format (fuel : nat) (n : Z) (acc : list Z) : list Z :=
  let acc' := (48 + n mod 10) :: acc in
  if n <? 10 then acc' else
  match fuel with O => acc' | S fuel' => format fuel' (n / 10) acc' end.
Definition FormatUint (n : Z) : list Z := format 20 n [].

(** the number a string of digits stands for *)
Definition value (v : list Z) : Z := foldl (fun a c => a * 10 + (c - 48)) 0 v.

(** strconv.ParseUint(v, 10, bits) *)
Definition ParseUint (bits : Z) (v : list Z) : option Z :=
  match v with
  | [] => None
  | _ => if forallb digit v && (value v <? 2 ^ bits) then Some (value v) else None
  end.

(** strings are compared byte by byte *)
Fixpoint lex (a b : list Z) : comparison :=
  match a, b with
  | [], [] => Eq
  | [], _ => Lt
  | _, [] => Gt
  | x :: a', y :: b' => match x ?= y with Eq => lex a' b' | r => r end
  end.

(** no sign, no leading zero *)
Definition canonical (v : list Z) : Prop :=
  v <> [] /\ forallb digit v = true /\ (length v = 1%nat \/ head v <> Some 48).

(** ** Values *)

Lemma value_acc v a : foldl (fun a c => a * 10 + (c - 48)) a v = a * 10 ^ Z.of_nat (length v) + value v.
Proof.
  unfold value. revert a. induction v as [|c v IH]; intros a; cbn [foldl length]; [lia|].
  rewrite IH, (IH (0 * 10 + (c - 48))). rewrite Nat2Z.inj_succ, Z.pow_succ_r by lia. lia.
Qed.

Lemma value_cons c v : value (c :: v) = (c - 48) * 10 ^ Z.of_nat (length v) + value v.
Proof. unfold value at 1. cbn [foldl]. rewrite value_acc. lia. Qed.

Lemma value_bound v : forallb digit v = true -> 0 <= value v < 10 ^ Z.of_nat (length v).
Proof.
  induction v as [|c v IH]; [by intros; unfold value; cbn; lia|].
  cbn [forallb length]. rewrite andb_true_iff. intros [Hc Hv]. specialize (IH Hv). unfold digit in Hc.
  rewrite value_cons, Nat2Z.inj_succ, Z.pow_succ_r by lia. nia.
Qed.

(** a canonical string of more than one digit is at least the power of ten below it *)
Lemma value_length v : canonical v -> (1 < length v)%nat -> 10 ^ (Z.of_nat (length v) - 1) <= value v.
Proof.
  intros (Hne & Hd & Hz) Hl. destruct v as [|c v]; [done|]. cbn [forallb length head] in *.
  apply andb_true_iff in Hd as [Hc Hd]. pose proof (value_bound v Hd). unfold digit in Hc.
  rewrite value_cons. replace (Z.of_nat (S (length v)) - 1) with (Z.of_nat (length v)) by lia.
  assert (c <> 48) by (destruct Hz as [?|Hz]; [lia|congruence]). nia.
Qed.

Lemma shorter_less a b : canonical a -> canonical b -> (length a < length b)%nat -> value a < value b.
Proof.
  intros Ha Hb Hl. pose proof (value_bound a ltac:(apply Ha)).
  assert (1 < length b)%nat by (destruct Ha as [Ha _], a; cbn in *; [done|lia]).
  pose proof (value_length b Hb ltac:(done)).
  assert (10 ^ Z.of_nat (length a) <= 10 ^ (Z.of_nat (length b) - 1)) by (apply Z.pow_le_mono_r; lia). lia.
Qed.

Lemma lex_value a b : length a = length b -> forallb digit a = true -> forallb digit b = true ->
  lex a b = (value a ?= value b).
Proof.
  revert b. induction a as [|x a IH]; intros [|y b]; try done. cbn [length forallb lex].
  rewrite !andb_true_iff. intros [= Hl] [Hx Ha] [Hy Hb].
  pose proof (value_bound a Ha). pose proof (value_bound b Hb). rewrite !value_cons, Hl, (IH b) by done.
  rewrite Hl in *. set (p := 10 ^ Z.of_nat (length b)) in *. symmetry.
  destruct (Z.compare_spec x y) as [->| |].
  - rewrite Z.add_compare_mono_l. done.
  - apply Z.compare_lt_iff. nia.
  - apply Z.compare_gt_iff. nia.
Qed.

(** ** Printing *)

Lemma format_spec fuel n acc : 0 <= n < 10 ^ Z.of_nat (S fuel) ->
  exists v, format fuel n acc = v ++ acc /\ canonical v /\ value v = n.
Proof.
  revert n acc. induction fuel as [|fuel IH]; intros n acc Hn; cbn [format].
  - exists [48 + n mod 10]. cbn in Hn. rewrite Z.mod_small by lia.
    split; [by case_match|]. split; [|unfold value; cbn; lia].
    split; [done|]. split; [|by left]. unfold digit. cbn. lia.
  - destruct (Z.ltb_spec n 10) as [Hlt|Hge].
    + exists [48 + n mod 10]. rewrite Z.mod_small by lia. split; [done|]. split; [|unfold value; cbn; lia].
      split; [done|]. split; [|by left]. unfold digit. cbn. lia.
    + rewrite Nat2Z.inj_succ, Z.pow_succ_r in Hn by lia.
      destruct (IH (n / 10) ((48 + n mod 10) :: acc)) as (v & -> & (Hne & Hd & Hz) & Hv).
      { split; [apply Z.div_pos; lia|]. apply Z.div_lt_upper_bound; lia. }
      pose proof (Z.mod_pos_bound n 10 ltac:(lia)). pose proof (Z.div_mod n 10 ltac:(lia)).
      exists (v ++ [48 + n mod 10]). split; [by rewrite <- app_assoc|]. split.
      * split; [by destruct v|]. split.
        { rewrite forallb_app, Hd. unfold digit. cbn. lia. }
        right. destruct v as [|c v]; [done|]. cbn. destruct Hz as [Hl|Hz]; [|done].
        destruct v; [|done]. unfold value in Hv. cbn in Hv.
        assert (0 < n / 10) by (apply Z.div_str_pos; lia). intros [= ->]. lia.
      * unfold value. rewrite foldl_app. cbn [foldl]. fold (value v). lia.
Qed.

Lemma FormatUint_spec n : 0 <= n < 2 ^ 64 -> canonical (FormatUint n) /\ value (FormatUint n) = n.
Proof.
  intros Hn. destruct (format_spec 20 n []) as (v & E & Hc & Hv).
  - change (Z.of_nat 21) with 21. lia.
  - unfold FormatUint. rewrite E, app_nil_r. done.
Qed.

(** a canonical string is the print of its number *)
Lemma canonical_inj a b : canonical a -> canonical b -> value a = value b -> a = b.
Proof.
  intros Ha Hb Hv. destruct (lt_eq_lt_dec (length a) (length b)) as [[Hl|Hl]|Hl].
  - pose proof (shorter_less a b Ha Hb Hl). lia.
  - destruct Ha as (_ & Ha & _), Hb as (_ & Hb & _).
    assert (lex a b = Eq) as E by (rewrite lex_value by done; by apply Z.compare_eq_iff). clear Hv.
    revert b Hl Hb E. induction a as [|x a IH]; intros [|y b]; try done. cbn. intros [= Hl].
    cbn in Ha. rewrite andb_true_iff in *. destruct Ha as [_ Ha]. intros [_ Hb].
    destruct (Z.compare_spec x y) as [->| |]; [|done..]. intros E. f_equal. by apply IH.
  - pose proof (shorter_less b a Hb Ha Hl). lia.
Qed.

Lemma FormatUint_inj a b : 0 <= a < 2 ^ 64 -> 0 <= b < 2 ^ 64 -> FormatUint a = FormatUint b -> a = b.
Proof.
  intros Ha Hb E. destruct (FormatUint_spec a Ha) as [_ <-]. destruct (FormatUint_spec b Hb) as [_ <-]. by rewrite E.
Qed.

Lemma parse_format bits n : 0 <= n < 2 ^ bits -> bits <= 64 -> ParseUint bits (FormatUint n) = Some n.
Proof.
  intros Hn Hb. assert (n < 2 ^ 64) by (pose proof (Z.pow_le_mono_r 2 bits 64 ltac:(lia) Hb); lia).
  destruct (FormatUint_spec n ltac:(lia)) as [(Hne & Hd & _) Hv]. unfold ParseUint.
  destruct (FormatUint n) as [|c v] eqn:E; [done|]. rewrite Hd, Hv. cbn [andb].
  by destruct (Z.ltb_spec n (2 ^ bits)); [|lia].
Qed.

Lemma value_format v : canonical v -> value v < 2 ^ 64 -> v = FormatUint (value v).
Proof.
  intros Hc Hv. pose proof (value_bound v ltac:(apply Hc)).
  destruct (FormatUint_spec (value v) ltac:(lia)) as [Hf E]. by apply canonical_inj.
Qed.
