(* ===== verification/RedisStore.v ===== *)
(** session/redis: the ownership store that gates share through Redis
    (script.go, store.go).

    A user's hash holds three decimal strings.  The Lua scripts are functions on
    a hash; a call of the store is a goroutine whose stages are its calls of
    Redis and of the range allocator.  The client may run a script again when it
    got no answer ([XLost]), a hash may be lost as a whole ([XLose]), and the
    allocator, which is not part of the repository, answers by [XUse] and [XRet];
    [contract] is what README.md asks of it. *)
From stdpp Require Import base numbers list gmap strings.
From Stdlib Require Import ZArith Lia Ascii.
From S2P Require Import Prelude Types Decimal.

Open Scope Z_scope.

Module Redis.

Definition bytes (s : string) : list Z := (fun c => Z.of_N (N_of_ascii c)) <$> String.list_ascii_of_string s.

(** ** script.go *)

(** the fields of a hash; a key without fields does not exist *)
Record hash := mkHash { generation : option (list Z); current : option (list Z); range_end : option (list Z) }.
Definition no_hash : hash := mkHash None None None.
#[export] Instance hash_inhabited : Inhabited hash := populate no_hash.
#[export] Instance hash_eq_dec : EqDecision hash.
Proof. solve_decision. Defined.

Definition max : list Z := bytes "9223372036854775807".

(** tostring(v) matches ^%d+$, has no leading zero and is at most [max] *)
Definition valid (v : list Z) : bool :=
  match v with
  | [] => false
  | c :: _ =>
      forallb digit v && ((length v =? 1)%nat || negb (c =? 48)) &&
      ((length v <? length max)%nat || (length v =? length max)%nat && match lex v max with Gt => false | _ => true end)
  end.

Definition compare (a b : list Z) : comparison :=
  if negb (length a =? length b)%nat then if (length a <? length b)%nat then Lt else Gt
  else if bool_decide (a = b) then Eq else lex a b.

Definition le_compare (a b : list Z) : bool := match compare a b with Gt => false | _ => true end.
Definition lt_compare (a b : list Z) : bool := match compare a b with Lt => true | _ => false end.

(** generation and range_end of a hash; None is error() *)
Definition state (h : hash) : option (list Z * option (list Z)) :=
  match generation h with
  | None => match current h, range_end h with None, None => Some (bytes "0", None) | _, _ => None end
  | Some g =>
      if negb (valid g) ||
         match current h with Some c => negb (valid c) || bool_decide (c = bytes "0") || negb (le_compare c g) | None => false end ||
         match range_end h with Some l => negb (valid l) || negb (le_compare g l) | None => false end
      then None else Some (g, range_end h)
  end.

(** HINCRBY key field 1 on a signed 64-bit number *)
Definition hincrby (v : option (list Z)) : option (list Z) :=
  match v with
  | None => Some (FormatUint 1)
  | Some v => match ParseUint 63 v with
              | Some n => if n =? 2 ^ 63 - 1 then None else Some (FormatUint (n + 1))
              | None => None
              end
  end.

(** what a script answers: a table of strings, or an error *)
Definition answer : Type := option (list (list Z)).

Definition advance (h : hash) : hash * answer :=
  match hincrby (generation h) with
  | None => (h, None)
  | Some exact => (mkHash (Some exact) (Some exact) (range_end h), Some [bytes "ok"; exact])
  end.

Definition acquireScript (h : hash) : hash * answer :=
  match state h with
  | None => (h, None)
  | Some (g, Some limit) => if lt_compare g limit then advance h else (h, Some [bytes "range"; g])
  | Some (g, None) => (h, Some [bytes "range"; g])
  end.

Definition initializeRangeScript (first last : list Z) (h : hash) : hash * answer :=
  match state h with
  | None => (h, None)
  | Some (g, limit) =>
      if match limit with Some limit => lt_compare g limit | None => false end then advance h else
      if negb (valid first) || negb (valid last) || bool_decide (first = bytes "0") ||
         negb (le_compare first last) || le_compare first g
      then (h, None)
      else (mkHash (Some first) (Some first) (Some last), Some [bytes "ok"; first])
  end.

Definition releaseScript (arg : list Z) (h : hash) : hash * Z :=
  if bool_decide (current h = Some arg) then (mkHash (generation h) None (range_end h), 1) else (h, 0).

(** ** store.go *)

Definition ErrGenerationRangeRequired : error := ErrNew "session ownership requires a durable generation range allocator".
Definition ErrInvalidGenerationRange : error := ErrNew "invalid session ownership generation range or allocator reply".

Definition MaxInt64 : Z := 2 ^ 63 - 1.

Definition decodeRangeReply (values : list (list Z)) : res (Z * bool) :=
  match values with
  | [tag; v] =>
      if negb (bool_decide (tag = bytes "ok")) && negb (bool_decide (tag = bytes "range")) then Err ErrInvalidGenerationRange else
      match ParseUint 63 v with
      | Some n =>
          if negb (bool_decide (FormatUint n = v)) || bool_decide (tag = bytes "ok") && (n =? 0)
          then Err ErrInvalidGenerationRange else Ok (n, bool_decide (tag = bytes "range"))
      | None => Err ErrInvalidGenerationRange
      end
  | _ => Err ErrInvalidGenerationRange
  end.

(** ** Calls *)

Inductive stage :=
(* Acquire: the first script; inside the allocator, with the number of its calls
   back, the generation and the result of the last; the second script, and
   whether Redis has run it; the last look at the context *)
| SEnter (uid : Z) | SAcquire (uid : Z)
| SAlloc (uid floor calls gen : Z) (r : option error)
| SInit (uid floor calls start fin : Z) (again : bool) | SLeave (uid gen : Z)
| CEnter (uid : Z) | CRead (uid : Z)
| REnter (uid : Z) (token : Token) | RRun (uid : Z) (token : Token).

Inductive happening :=
| EIssue (uid gen : Z) (* a script made [gen] the owner *)
| EAcquire (t : nat) (r : res Token)
| ECurrent (t : nat) (r : res (option Token))
| ERelease (t : nat) (r : res bool).

Record store := mkStore {
  db : gmap (list Z) hash;
  reserved : gmap Z Z; (* the allocator's record of the last generation reserved *)
  lock : gmap Z nat; (* its lock *)
  threads : gmap nat (list stage);
  log : list happening
}.
Definition NewStore : store := mkStore ∅ ∅ ∅ ∅ [].

Definition goto (t : nat) (k : list stage) (s : store) : store :=
  mkStore (db s) (reserved s) (lock s) (<[t := k]> (threads s)) (log s).
Definition note (h : happening) (s : store) : store :=
  mkStore (db s) (reserved s) (lock s) (threads s) (log s ++ [h]).
Definition set_hash (k : list Z) (h : hash) (s : store) : store :=
  mkStore (<[k := h]> (db s)) (reserved s) (lock s) (threads s) (log s).
Definition set_reserved (uid n : Z) (s : store) : store :=
  mkStore (db s) (<[uid := n]> (reserved s)) (lock s) (threads s) (log s).
Definition set_lock (uid : Z) (t : option nat) (s : store) : store :=
  mkStore (db s) (reserved s) (match t with Some t => <[uid := t]> (lock s) | None => delete uid (lock s) end) (threads s) (log s).

Inductive outcome := XOk | XErr (e : error) | XLost | XUse (start fin : Z) | XRet (r : option error).
Inductive action := XAcquire (uid : Z) | XCurrent (uid : Z) | XRelease (uid : Z) (token : Token) | XLose (uid : Z) | XGo (x : outcome).

Section Redis.
Context (prefix : list Z) (has_allocator : bool).

Definition key (uid : Z) : list Z := prefix ++ bytes ":" ++ FormatUint uid.
Definition hash_of (uid : Z) (s : store) : hash := db s !!! key uid.

(** a script ran on the hash of [uid]: what it issued is noted *)
Definition ran (uid : Z) (h : hash) (a : answer) (s : store) : store :=
  let s' := set_hash (key uid) h s in
  match a with
  | Some [tag; v] => if bool_decide (tag = bytes "ok") then note (EIssue uid (value v)) s' else s'
  | _ => s'
  end.

(** Acquire, from the answer of the first script *)
Definition acquired (t : nat) (uid : Z) (a : answer) (s : store) : store :=
  match a with
  | None => goto t [] (note (EAcquire t (Err ErrUnknownError)) s)
  | Some values =>
      match decodeRangeReply values with
      | Ok (gen, false) => goto t [] (note (EAcquire t (Ok (mkToken uid gen))) s)
      | Ok (gen, true) =>
          if gen =? MaxInt64 then goto t [] (note (EAcquire t (Err ErrOwnershipGenerationExhausted)) s)
          else if negb has_allocator then goto t [] (note (EAcquire t (Err ErrGenerationRangeRequired)) s)
          else goto t [SAlloc uid gen 0 gen None] s
      | Err e => goto t [] (note (EAcquire t (Err e)) s)
      | Panic => s
      end
  end.

(** the callback, from the answer of the second script *)
Definition initialized (t : nat) (uid floor calls : Z) (a : answer) (s : store) : store :=
  match a with
  | None => goto t [SAlloc uid floor calls floor (Some ErrUnknownError)] s
  | Some values =>
      match decodeRangeReply values with
      | Ok (gen, needs) =>
          goto t [SAlloc uid floor calls gen
                    (if needs || (gen <=? floor) then Some ErrInvalidGenerationRange else None)] s
      | Err e => goto t [SAlloc uid floor calls 0 (Some e)] s
      | Panic => s
      end
  end.

Definition Current (uid : Z) (s : store) : res (option Token) :=
  match current (hash_of uid s) with
  | None => Ok None
  | Some v =>
      match ParseUint 63 v with
      | None => Err ErrUnknownError
      | Some gen => if (gen =? 0) || negb (bool_decide (FormatUint gen = v)) then Err ErrOwnershipGenerationExhausted
                    else Ok (Some (mkToken uid gen))
      end
  end.

Definition step (t : nat) (st : stage) (x : outcome) (s : store) : option store :=
  match st, x with
  | SEnter uid, XErr e => Some (goto t [] (note (EAcquire t (Err e)) s))
  | SEnter uid, XOk =>
      Some (if uid <=? 0 then goto t [] (note (EAcquire t (Err ErrInvalidArgument)) s) else goto t [SAcquire uid] s)
  | SAcquire uid, XErr e => Some (goto t [] (note (EAcquire t (Err e)) s))
  | SAcquire uid, XLost => let '(h, a) := acquireScript (hash_of uid s) in Some (goto t [SAcquire uid] (ran uid h a s))
  | SAcquire uid, XOk => let '(h, a) := acquireScript (hash_of uid s) in Some (acquired t uid a (ran uid h a s))
  | SAlloc uid floor calls gen r, XUse start last =>
      let s := set_lock uid (Some t) (set_reserved uid last s) in
      let calls := calls + 1 in
      Some (if negb (calls =? 1) || (start <=? floor) || (start =? 0) || (last <? start) || (MaxInt64 <? last)
            then goto t [SAlloc uid floor calls gen (Some ErrInvalidGenerationRange)] s
            else goto t [SInit uid floor calls start last false] s)
  | SInit uid floor calls start last _, XLost =>
      let '(h, a) := initializeRangeScript (FormatUint start) (FormatUint last) (hash_of uid s) in
      Some (goto t [SInit uid floor calls start last true] (ran uid h a s))
  | SInit uid floor calls start last _, XOk =>
      let '(h, a) := initializeRangeScript (FormatUint start) (FormatUint last) (hash_of uid s) in
      Some (initialized t uid floor calls a (ran uid h a s))
  | SInit uid floor calls start last _, XErr e => Some (goto t [SAlloc uid floor calls floor (Some e)] s)
  | SAlloc uid floor calls gen r, XRet r' =>
      let s := if bool_decide (lock s !! uid = Some t) then set_lock uid None s else s in
      Some match r' with
           | Some e => goto t [] (note (EAcquire t (Err e)) s)
           | None => if negb (calls =? 1) || (gen =? 0)
                     then goto t [] (note (EAcquire t (Err ErrInvalidGenerationRange)) s)
                     else goto t [SLeave uid gen] s
           end
  | SLeave uid gen, XErr e => Some (goto t [] (note (EAcquire t (Err e)) s))
  | SLeave uid gen, XOk => Some (goto t [] (note (EAcquire t (Ok (mkToken uid gen))) s))
  | CEnter uid, XErr e => Some (goto t [] (note (ECurrent t (Err e)) s))
  | CEnter uid, XOk =>
      Some (if uid <=? 0 then goto t [] (note (ECurrent t (Err ErrInvalidArgument)) s) else goto t [CRead uid] s)
  | CRead uid, XErr e => Some (goto t [] (note (ECurrent t (Err e)) s))
  | CRead uid, XOk => Some (goto t [] (note (ECurrent t (Current uid s)) s))
  | REnter uid token, XErr e => Some (goto t [] (note (ERelease t (Err e)) s))
  | REnter uid token, XOk =>
      Some (if (uid <=? 0) || negb (UID token =? uid) || (Generation token =? 0)
            then goto t [] (note (ERelease t (Err ErrInvalidArgument)) s) else goto t [RRun uid token] s)
  | RRun uid token, XErr e => Some (goto t [] (note (ERelease t (Err e)) s))
  | RRun uid token, XLost =>
      Some (goto t [RRun uid token] (set_hash (key uid) (releaseScript (FormatUint (Generation token)) (hash_of uid s)).1 s))
  | RRun uid token, XOk =>
      let '(h, n) := releaseScript (FormatUint (Generation token)) (hash_of uid s) in
      Some (goto t [] (note (ERelease t (Ok (n =? 1))) (set_hash (key uid) h s)))
  | _, _ => None
  end.

Definition exec (t : nat) (x : action) (s : store) : option store :=
  match x, default [] (threads s !! t) with
  | XLose uid, _ => Some (mkStore (delete (key uid) (db s)) (reserved s) (lock s) (threads s) (log s))
  | XAcquire uid, [] => Some (goto t [SEnter uid] s)
  | XCurrent uid, [] => Some (goto t [CEnter uid] s)
  | XRelease uid token, [] => Some (goto t [REnter uid token] s)
  | XGo x, st :: _ => step t st x s
  | _, _ => None
  end.

(** What is asked of the allocator: it reserves above the floor and everything
    it reserved before for the user, keeps the user locked until it returns, and
    returns an error when the callback did.  Users and generations have their width. *)
Definition allocator (t : nat) (x : action) (s : store) : Prop :=
  match x with
  | XGo (XUse start fin) =>
      forall uid floor calls gen r, threads s !! t = Some [SAlloc uid floor calls gen r] ->
        (lock s !! uid = None \/ lock s !! uid = Some t) /\
        floor < start /\ default 0 (reserved s !! uid) < start /\ start <= fin < 2 ^ 64
  | XGo (XRet None) => forall uid floor calls gen r, threads s !! t = Some [SAlloc uid floor calls gen r] -> r = None
  | XLose uid => 0 < uid < 2 ^ 63
  | XAcquire uid | XCurrent uid => uid < 2 ^ 63
  | XRelease uid token => uid < 2 ^ 63 /\ inU 64 (Generation token)
  | _ => True
  end.

(** And of Redis: a hash is not lost between a first run of the initializing
    script that got no answer and a second. *)
Definition contract (t : nat) (x : action) (s : store) : Prop :=
  allocator t x s /\
  match x with
  | XLose uid => forall u floor calls start fin, threads s !! u <> Some [SInit uid floor calls start fin true]
  | _ => True
  end.

Inductive reachable (C : nat -> action -> store -> Prop) : store -> Prop :=
| reach_new : reachable C NewStore
| reach_exec s t x s' : reachable C s -> C t x s -> exec t x s = Some s' -> reachable C s'.

Fixpoint run (xs : list (nat * action)) (s : store) : option store :=
  match xs with
  | [] => Some s
  | (t, x) :: xs' => match exec t x s with Some s' => run xs' s' | None => None end
  end.
End Redis.
End Redis.
