(* ===== verification/RedisStoreOk.v ===== *)
(** session/redis: what the Lua scripts do, in terms of the numbers their
    strings stand for. *)
From stdpp Require Import base numbers list gmap strings.
From Stdlib Require Import ZArith Lia Sorted.
From S2P Require Import Prelude Types Decimal RedisStore Threads.
Import Redis.

Open Scope Z_scope.

Lemma max_value : canonical max /\ value max = MaxInt64.
Proof. split; [|by vm_compute]. split; [done|]. split; [by vm_compute|]. by right. Qed.

(** the Lua test accepts exactly the prints of the numbers Redis can count to *)
Lemma valid_spec v : valid v = true <-> exists n, 0 <= n <= MaxInt64 /\ v = FormatUint n.
Proof.
  destruct max_value as [Hmc Hmv]. split.
  - intros H. destruct v as [|c v]; [done|]. unfold valid in H. set (w := c :: v) in *.
    rewrite !andb_true_iff, !orb_true_iff, !andb_true_iff, Nat.eqb_eq, negb_true_iff, Z.eqb_neq, Nat.ltb_lt, Nat.eqb_eq in H.
    destruct H as [[Hd Hz] Hm].
    assert (canonical w) as Hc by (split; [done|]; split; [done|]; destruct Hz as [?|Hz]; [by left|right; by intros [= ->]]).
    assert (value w <= MaxInt64) as Hv.
    { rewrite <- Hmv. destruct Hm as [Hl|[Hl Hx]]; [by apply Z.lt_le_incl, shorter_less|].
      rewrite lex_value in Hx; [|done|done|apply Hmc]. destruct (Z.compare_spec (value w) (value max)); [lia|lia|done]. }
    pose proof (value_bound w Hd). exists (value w). split; [lia|]. apply value_format; [done|]. unfold MaxInt64 in Hv. lia.
  - intros (n & Hn & ->). destruct (FormatUint_spec n) as [Hc Hv]; [unfold MaxInt64 in Hn; lia|].
    set (w := FormatUint n) in *. destruct w as [|c v] eqn:E; [by destruct Hc|]. unfold valid. fold w in Hc, Hv.
    rewrite <- E in *. clearbody w. destruct Hc as (Hne & Hd & Hz).
    rewrite !andb_true_iff, !orb_true_iff, !andb_true_iff, Nat.eqb_eq, negb_true_iff, Z.eqb_neq, Nat.ltb_lt, Nat.eqb_eq.
    split; [split; [done|]|].
    + destruct Hz as [?|Hz]; [by left|right]. intros ->. by rewrite E in Hz.
    + destruct (lt_eq_lt_dec (length w) (length max)) as [[Hl|Hl]|Hl]; [by left| |].
      * right. split; [done|]. rewrite lex_value; [|done|done|apply Hmc].
        destruct (Z.compare_spec (value w) (value max)); [done|done|lia].
      * pose proof (shorter_less max w Hmc (conj Hne (conj Hd Hz)) Hl). lia.
Qed.

(** the Lua comparison of the prints is the comparison of the numbers *)
Lemma compare_numbers a b : 0 <= a < 2 ^ 64 -> 0 <= b < 2 ^ 64 ->
  compare (FormatUint a) (FormatUint b) = (a ?= b).
Proof.
  intros Ha Hb. destruct (FormatUint_spec a Ha) as [Hca Hva], (FormatUint_spec b Hb) as [Hcb Hvb].
  rewrite <- Hva, <- Hvb at 2. set (v := FormatUint a) in *. set (w := FormatUint b) in *. clearbody v w. clear a b Ha Hb Hva Hvb.
  unfold compare. destruct (Nat.eqb_spec (length v) (length w)) as [Hl|Hl]; cbn [negb].
  - case_bool_decide as E; [subst; symmetry; apply Z.compare_refl|]. apply lex_value; [done|apply Hca|apply Hcb].
  - destruct (Nat.ltb_spec (length v) (length w)) as [Hlt|Hge]; symmetry.
    + by apply Z.compare_lt_iff, shorter_less.
    + apply Z.compare_gt_iff, shorter_less; [done|done|lia].
Qed.

(** ** Hashes as numbers: the last generation, the end of its range, and whether it owns the user *)

Definition rep (o : option (Z * Z * bool)) : hash :=
  match o with
  | None => no_hash
  | Some (g, e, owned) => mkHash (Some (FormatUint g)) (if owned : bool then Some (FormatUint g) else None) (Some (FormatUint e))
  end.

Definition ranged (o : option (Z * Z * bool)) : Prop :=
  match o with None => True | Some (g, e, _) => 0 < g <= e /\ e <= MaxInt64 end.

Lemma format_zero n : 0 < n < 2 ^ 64 -> FormatUint n <> bytes "0".
Proof. intros Hn E. apply (FormatUint_inj n 0) in E; lia. Qed.

Ltac num := unfold MaxInt64 in *; lia.

Lemma state_rep o : ranged o -> state (rep o) =
  Some match o with None => (FormatUint 0, None) | Some (g, e, _) => (FormatUint g, Some (FormatUint e)) end.
Proof.
  destruct o as [[[g e] owned]|]; [|done]. intros [Hg He]. unfold state. cbn [generation current range_end rep].
  assert (valid (FormatUint g) = true) as -> by (apply valid_spec; exists g; split; [num|done]).
  assert (valid (FormatUint e) = true) as E by (apply valid_spec; exists e; split; [num|done]).
  assert (le_compare (FormatUint g) (FormatUint g) = true) as Egg
    by (unfold le_compare; rewrite compare_numbers, Z.compare_refl by num; done).
  assert (le_compare (FormatUint g) (FormatUint e) = true) as Ege.
  { unfold le_compare. rewrite compare_numbers by num. destruct (Z.compare_spec g e); [done|done|lia]. }
  destruct owned; rewrite ?E, ?Ege; [|done].
  assert (valid (FormatUint g) = true) as -> by (apply valid_spec; exists g; split; [num|done]).
  rewrite Egg, bool_decide_false; [done|]. apply format_zero. num.
Qed.

Lemma lt_numbers a b : 0 <= a < 2 ^ 64 -> 0 <= b < 2 ^ 64 -> lt_compare (FormatUint a) (FormatUint b) = (a <? b).
Proof.
  intros Ha Hb. unfold lt_compare. rewrite compare_numbers by done. unfold Z.ltb. by destruct (a ?= b).
Qed.
Lemma le_numbers a b : 0 <= a < 2 ^ 64 -> 0 <= b < 2 ^ 64 -> le_compare (FormatUint a) (FormatUint b) = (a <=? b).
Proof.
  intros Ha Hb. unfold le_compare. rewrite compare_numbers by done. unfold Z.leb. by destruct (a ?= b).
Qed.

Lemma advance_rep g e owned : 0 < g < e -> e <= MaxInt64 ->
  advance (rep (Some (g, e, owned))) = (rep (Some (g + 1, e, true)), Some [bytes "ok"; FormatUint (g + 1)]).
Proof.
  intros Hg He. unfold advance, hincrby. cbn [generation rep range_end].
  rewrite parse_format by (unfold MaxInt64 in *; lia). by destruct (Z.eqb_spec g (2 ^ 63 - 1)); [num|].
Qed.

Lemma acquire_rep o : ranged o -> acquireScript (rep o) =
  match o with
  | None => (rep None, Some [bytes "range"; FormatUint 0])
  | Some (g, e, _) => if g <? e then (rep (Some (g + 1, e, true)), Some [bytes "ok"; FormatUint (g + 1)])
                      else (rep o, Some [bytes "range"; FormatUint g])
  end.
Proof.
  intros Hr. unfold acquireScript. rewrite state_rep by done. destruct o as [[[g e] owned]|]; [|done].
  destruct Hr as [Hg He]. rewrite lt_numbers by num. destruct (Z.ltb_spec g e); [|done]. by apply advance_rep; [lia|].
Qed.

Lemma initialize_rep o first last : ranged o -> 0 < first <= last -> last <= MaxInt64 ->
  initializeRangeScript (FormatUint first) (FormatUint last) (rep o) =
  let fresh := (rep (Some (first, last, true)), Some [bytes "ok"; FormatUint first]) in
  match o with
  | None => fresh
  | Some (g, e, _) => if g <? e then (rep (Some (g + 1, e, true)), Some [bytes "ok"; FormatUint (g + 1)])
                      else if first <=? g then (rep o, None) else fresh
  end.
Proof.
  intros Hr Hf Hl. unfold initializeRangeScript. rewrite state_rep by done.
  assert (valid (FormatUint first) = true) as E1 by (apply valid_spec; exists first; split; [num|done]).
  assert (valid (FormatUint last) = true) as E2 by (apply valid_spec; exists last; split; [num|done]).
  rewrite E1, E2, (bool_decide_false (FormatUint first = bytes "0")) by (apply format_zero; num).
  rewrite (le_numbers first last) by num. assert (first <=? last = true) as E3 by lia. rewrite E3. cbn [negb orb].
  destruct o as [[[g e] owned]|].
  - destruct Hr as [Hg He]. rewrite lt_numbers, le_numbers by num. destruct (Z.ltb_spec g e); [|done].
    by apply advance_rep; [lia|].
  - rewrite (le_numbers first 0) by num. by assert (first <=? 0 = false) as -> by lia.
Qed.

Lemma release_rep o n : ranged o -> 0 <= n < 2 ^ 64 -> releaseScript (FormatUint n) (rep o) =
  match o with
  | Some (g, e, true) => if g =? n then (rep (Some (g, e, false)), 1) else (rep o, 0)
  | _ => (rep o, 0)
  end.
Proof.
  intros Hr Hn. unfold releaseScript. destruct o as [[[g e] []]|]; [|done|done]. cbn [current rep].
  destruct Hr as [Hg He]. destruct (Z.eqb_spec g n) as [->|Hne]; [by rewrite bool_decide_true|].
  rewrite bool_decide_false; [done|]. intros [= E]. apply FormatUint_inj in E; num.
Qed.

Lemma decode_ok g : 0 < g <= MaxInt64 -> decodeRangeReply [bytes "ok"; FormatUint g] = Ok (g, false).
Proof.
  intros Hg. unfold decodeRangeReply. rewrite bool_decide_true by done. cbn [negb andb].
  rewrite parse_format by (unfold MaxInt64 in *; lia). rewrite bool_decide_true by done.
  by assert (g =? 0 = false) as -> by lia.
Qed.
Lemma decode_range g : 0 <= g <= MaxInt64 -> decodeRangeReply [bytes "range"; FormatUint g] = Ok (g, true).
Proof.
  intros Hg. unfold decodeRangeReply. rewrite (bool_decide_true (bytes "range" = bytes "range")) by done.
  rewrite andb_false_r, parse_format by (unfold MaxInt64 in *; lia). by rewrite bool_decide_true.
Qed.

(** ** session/redis: the invariant of the shared store under every interleaving of
    calls, lost answers and lost hashes that [contract] allows. *)
(** ** What was issued, and what was returned *)

Definition issue_of (uid : Z) (h : happening) : list Z :=
  match h with EIssue u g => if decide (u = uid) then [g] else [] | _ => [] end.
Definition issued (uid : Z) (s : store) : list Z := flat_map (issue_of uid) (log s).
Definition latest (uid : Z) (s : store) : Z := default 0 (last (issued uid s)).
Definition watermark (uid : Z) (s : store) : Z := default 0 (reserved s !! uid).

Definition user (uid : Z) : Prop := 0 < uid < 2 ^ 63.

Definition returns (uid g : Z) (h : happening) : nat :=
  match h with EAcquire _ (Ok t) => if decide (t = mkToken uid g) then 1 else 0 | _ => 0 end.
Definition issues (uid g : Z) (h : happening) : nat :=
  match h with EIssue u g' => if decide (u = uid /\ g' = g) then 1 else 0 | _ => 0 end.
(** a generation a call has got and not yet returned *)
Definition pending (uid g : Z) (st : stage) : nat :=
  match st with
  | SAlloc u _ calls g' None => if decide (calls = 1 /\ u = uid /\ g' = g) then 1 else 0
  | SLeave u g' => if decide (u = uid /\ g' = g) then 1 else 0
  | _ => 0
  end.
Definition waiting (uid g : Z) (s : store) : nat := Threads.total (weigh (pending uid g)) (threads s).

Section Inv.
Context (prefix : list Z) (has_allocator : bool).
Abbreviation key := (key prefix).
Abbreviation hash_of := (hash_of prefix).
Abbreviation ran := (ran prefix).

(** the hash of a user, in numbers *)
Definition holds (uid : Z) (o : option (Z * Z * bool)) (s : store) : Prop :=
  hash_of uid s = rep o /\ ranged o /\
  match o with None => True | Some (g, e, _) => g = latest uid s /\ e <= watermark uid s end.

Definition stage_ok (t : nat) (st : stage) (s : store) : Prop :=
  match st with
  | SEnter uid | CEnter uid => uid < 2 ^ 63
  | SAcquire uid | CRead uid => user uid
  | SAlloc uid floor calls gen r => user uid /\ 0 <= floor <= MaxInt64 /\ 0 <= calls
  | SInit uid floor calls start last ran =>
      user uid /\ 0 <= floor <= MaxInt64 /\ calls = 1 /\ lock s !! uid = Some t /\
      0 < start <= last /\ last <= MaxInt64 /\ last <= watermark uid s /\
      (ran = true -> hash_of uid s <> no_hash) /\
      (ran = false -> latest uid s < start /\ forall g e b, holds uid (Some (g, e, b)) s -> e < start)
  | SLeave uid gen => user uid
  | REnter uid token => uid < 2 ^ 63 /\ inU 64 (Generation token)
  | RRun uid token => user uid /\ inU 64 (Generation token)
  end.

(** all but the goroutine that moves *)
Record rinv_but (t : option nat) (s : store) : Prop := {
  ri_hash : forall uid, user uid -> exists o, holds uid o s;
  ri_sorted : forall uid, StronglySorted Z.lt (issued uid s) /\ Forall (fun g => 0 < g) (issued uid s);
  ri_mark : forall uid, latest uid s <= watermark uid s;
  ri_threads : forall u k, Some u <> t -> threads s !! u = Some k -> k = [] \/ exists st, k = [st] /\ stage_ok u st s
}.
Definition rinv (s : store) : Prop := rinv_but None s.

(** every generation is returned at most as often as it was issued *)
Definition accounted (s : store) : Prop := forall uid g,
  (waiting uid g s + weigh (returns uid g) (log s) <= weigh (issues uid g) (log s))%nat.

(** ** Keys *)

Lemma key_inj u v : user u -> user v -> key u = key v -> u = v.
Proof.
  unfold user. intros Hu Hv E. unfold Redis.key in E. apply app_inv_head, app_inv_head in E.
  apply FormatUint_inj in E; lia.
Qed.

Lemma hash_set u v h s : user u -> user v -> hash_of u (set_hash (key v) h s) = if decide (u = v) then h else hash_of u s.
Proof.
  intros Hu Hv. unfold Redis.hash_of, set_hash. cbn. case_decide as E; [subst; apply lookup_total_insert_eq|].
  rewrite lookup_total_insert_ne; [done|]. by intros ?%key_inj.
Qed.

(** ** Logs *)

Lemma issued_note uid h s : issued uid (note h s) = issued uid s ++ issue_of uid h.
Proof. unfold issued. cbn. rewrite flat_map_app. cbn. by rewrite app_nil_r. Qed.

Lemma latest_note uid h s : issue_of uid h = [] -> latest uid (note h s) = latest uid s.
Proof. intros E. unfold latest. by rewrite issued_note, E, app_nil_r. Qed.

Lemma latest_issue uid g s : latest uid (note (EIssue uid g) s) = g.
Proof. unfold latest. rewrite issued_note. cbn. rewrite decide_True by done. by rewrite last_snoc. Qed.

Lemma sorted_snoc l g : StronglySorted Z.lt l -> default 0 (last l) < g -> Forall (fun x => 0 < x) l ->
  0 < g -> StronglySorted Z.lt (l ++ [g]) /\ Forall (fun x => 0 < x) (l ++ [g]).
Proof.
  intros Hs Hl Hp Hg. split; [|by apply Forall_app; split; [|constructor]].
  induction Hs as [|x l Hs IH Hx]; cbn; [repeat constructor|].
  apply Forall_cons in Hp as [_ Hp]. constructor.
  - apply IH; [|done]. destruct l; [cbn in *; lia|]. by rewrite last_cons_cons in Hl.
  - apply Forall_app. split; [done|]. constructor; [|constructor].
    destruct (last l) as [y|] eqn:E.
    + assert (y ∈ l) as Hy by (by apply last_Some_elem_of).
      rewrite Forall_forall in Hx. specialize (Hx y Hy).
      destruct l as [|z l]; [done|]. rewrite last_cons_cons, E in Hl. cbn in Hl. lia.
    + apply last_None in E as ->. cbn in Hl. lia.
Qed.

(** ** Steps *)

(** nothing the invariant is about changed *)
Record calm (s s' : store) : Prop := {
  ca_hash : forall uid, user uid -> hash_of uid s' = hash_of uid s;
  ca_reserved : reserved s' = reserved s;
  ca_lock : lock s' = lock s;
  ca_issued : forall uid, issued uid s' = issued uid s
}.

Lemma calm_latest s s' uid : calm s s' -> latest uid s' = latest uid s.
Proof. intros []. unfold latest. by rewrite ca_issued0. Qed.
Lemma calm_watermark s s' uid : calm s s' -> watermark uid s' = watermark uid s.
Proof. intros []. unfold watermark. by rewrite ca_reserved0. Qed.

Lemma holds_calm s s' uid o : calm s s' -> user uid -> holds uid o s' <-> holds uid o s.
Proof.
  intros Hc Hu. unfold holds. rewrite (ca_hash _ _ Hc) by done.
  destruct o as [[[g e] b]|]; [|done]. by rewrite (calm_latest s s'), (calm_watermark s s').
Qed.

Lemma stage_calm s s' t st : calm s s' -> stage_ok t st s -> stage_ok t st s'.
Proof.
  intros Hc. destruct st; cbn; try done.
  rewrite (ca_lock _ _ Hc), (calm_watermark s s'), (calm_latest s s') by done.
  intros (Hu & ? & ? & ? & ? & ? & ? & H1 & H2). rewrite (ca_hash _ _ Hc) by done. repeat (split; [done|]).
  intros Hr. destruct (H2 Hr) as [? Hg]. split; [done|]. intros g e b. rewrite holds_calm by done. apply Hg.
Qed.

Lemma rinv_calm t s s' : calm s s' -> (forall u, Some u <> t -> threads s' !! u = threads s !! u) ->
  rinv_but t s -> rinv_but t s'.
Proof.
  intros Hc Ht [H1 H2 H3 H4]. split.
  - intros uid Hu. destruct (H1 uid Hu) as [o Ho]. exists o. by apply (holds_calm s).
  - intros uid. by rewrite (ca_issued _ _ Hc).
  - intros uid. by rewrite (calm_latest s s'), (calm_watermark s s').
  - intros u k Hne. rewrite Ht by done. intros Hu. destruct (H4 u k Hne Hu) as [?|(st & ? & ?)]; [by left|].
    right. exists st. split; [done|]. by eapply stage_calm.
Qed.

Lemma rinv_weaken t s : rinv s -> rinv_but (Some t) s.
Proof. intros [H1 H2 H3 H4]. split; try done. intros u k _. by apply H4. Qed.

Lemma rinv_note t h s : (forall uid, issue_of uid h = []) -> rinv_but t s -> rinv_but t (note h s).
Proof.
  intros Hh. apply rinv_calm; [|done]. split; try done. intros uid. by rewrite issued_note, Hh, app_nil_r.
Qed.

(** the goroutine goes on *)
Lemma rinv_goto t k s : rinv_but (Some t) s -> (k = [] \/ exists st, k = [st] /\ stage_ok t st s) -> rinv (goto t k s).
Proof.
  intros [H1 H2 H3 H4] Hk. assert (calm s (goto t k s)) as Hc by done. split; try done.
  intros u k' _. cbn. intros [[<- <-]|[Hne Hu]]%lookup_insert_Some.
  - destruct Hk as [?|(st & ? & ?)]; [by left|right; exists st; split; [done|by eapply stage_calm]].
  - destruct (H4 u k') as [?|(st & ? & ?)]; [congruence|done|by left|right; exists st; split; [done|by eapply stage_calm]].
Qed.

Lemma rinv_end t s : rinv_but (Some t) s -> rinv (goto t [] s).
Proof. intros H. apply rinv_goto; [done|by left]. Qed.

(** *** Scripts *)

(** a script left the hash alone, or made [g] of a range up to [e] the owner *)
Definition effect (uid : Z) (h : hash) (a : answer) (s : store) (i : option (Z * Z)) : Prop :=
  match i with
  | None => h = hash_of uid s /\ (a = None \/ exists g, 0 <= g <= MaxInt64 /\ a = Some [bytes "range"; FormatUint g])
  | Some (g, e) => h = rep (Some (g, e, true)) /\ a = Some [bytes "ok"; FormatUint g] /\
      ranged (Some (g, e, true)) /\ latest uid s < g /\ e <= watermark uid s
  end.

Lemma ran_alone uid h a s : user uid -> effect uid h a s None -> calm s (ran uid h a s) /\
  threads (ran uid h a s) = threads s.
Proof.
  intros Hu [-> Ha].
  assert (ran uid (hash_of uid s) a s = set_hash (key uid) (hash_of uid s) s) as ->.
  { unfold Redis.ran. destruct Ha as [->|(g & _ & ->)]; [done|]. by rewrite bool_decide_false. }
  split; [|done]. split; try done. intros v Hv. rewrite hash_set by done. by case_decide; subst.
Qed.

Lemma ran_issue uid h a s g e : effect uid h a s (Some (g, e)) ->
  ran uid h a s = note (EIssue uid g) (set_hash (key uid) (rep (Some (g, e, true))) s).
Proof.
  intros (-> & -> & Hr & _). unfold Redis.ran. rewrite bool_decide_true by done.
  destruct (FormatUint_spec g) as [_ ->]; [|done]. destruct Hr. unfold MaxInt64 in *. lia.
Qed.

Lemma issued_other uid v g h s : v <> uid -> issued v (note (EIssue uid g) (set_hash (key uid) h s)) = issued v s.
Proof. intros Hne. rewrite issued_note. cbn. rewrite decide_False by done. by rewrite app_nil_r. Qed.

(** what other users see of an issue *)
Lemma issue_other uid v g h s : user uid -> v <> uid ->
  let s' := note (EIssue uid g) (set_hash (key uid) h s) in
  latest v s' = latest v s /\ (user v -> hash_of v s' = hash_of v s) /\ (user v -> forall o, holds v o s' <-> holds v o s).
Proof.
  intros Hu Hne s'. assert (latest v s' = latest v s) as El by (unfold latest, s'; by rewrite issued_other).
  assert (user v -> hash_of v s' = hash_of v s) as Eh.
  { intros Hv. change (hash_of v s') with (hash_of v (set_hash (key uid) h s)). rewrite hash_set by done. by rewrite decide_False. }
  split_and!; [done|done|]. intros Hv o. unfold holds. rewrite Eh by done. destruct o as [[[? ?] ?]|]; [by rewrite El|done].
Qed.

Lemma issue_inv t uid g e s : user uid -> rinv_but (Some t) s ->
  ranged (Some (g, e, true)) -> latest uid s < g -> e <= watermark uid s ->
  (forall u floor calls start last, u <> t -> threads s !! u = Some [SInit uid floor calls start last false] -> e < start) ->
  rinv_but (Some t) (note (EIssue uid g) (set_hash (key uid) (rep (Some (g, e, true))) s)).
Proof.
  intros Hu [H1 H2 H3 H4] Hr Hl He Hother. set (s' := note _ _).
  assert (latest uid s' = g) as Eg by (apply latest_issue).
  assert (hash_of uid s' = rep (Some (g, e, true))) as Eh.
  { change (hash_of uid s') with (hash_of uid (set_hash (key uid) (rep (Some (g, e, true))) s)).
    rewrite hash_set by done. by rewrite decide_True. }
  split.
  - intros v Hv. destruct (decide (v = uid)) as [->|Hne].
    + exists (Some (g, e, true)). split; [done|]. split; [done|]. by rewrite Eg.
    + destruct (H1 v Hv) as [o Ho]. exists o. by apply (issue_other uid v g _ s Hu Hne).
  - intros v. destruct (decide (v = uid)) as [->|Hne]; [|unfold s'; by rewrite issued_other].
    unfold s'. rewrite issued_note. cbn [issue_of]. rewrite decide_True by done.
    destruct (H2 uid). apply sorted_snoc; [done|done|done|]. destruct Hr. lia.
  - intros v. change (watermark v s') with (watermark v s). destruct (decide (v = uid)) as [->|Hne].
    + rewrite Eg. destruct Hr. lia.
    + assert (latest v s' = latest v s) as -> by exact (proj1 (issue_other uid v g (rep (Some (g, e, true))) s Hu Hne)). apply H3.
  - intros u k Hne Hk. destruct (H4 u k Hne Hk) as [?|(st & -> & Hst)]; [by left|]. right. exists st. split; [done|].
    destruct st; try done. cbn [stage_ok] in Hst |- *. change (watermark uid0 s') with (watermark uid0 s).
    change (lock s') with (lock s). destruct Hst as (Hu0 & ? & ? & ? & ? & ? & ? & Ha & Hb).
    destruct (decide (uid0 = uid)) as [->|Hv].
    + repeat (split; [done|]). split; [by rewrite Eh|]. intros ->. pose proof (Hother u floor calls start _ ltac:(congruence) Hk) as Hes.
      rewrite Eg. split; [destruct Hr; lia|]. intros g' e' b' (Hh & Hr' & _). rewrite Eh in Hh.
      apply (f_equal range_end) in Hh. cbn in Hh. injection Hh as Hh. apply FormatUint_inj in Hh as <-; [lia|destruct Hr; unfold MaxInt64 in *; lia|destruct Hr'; unfold MaxInt64 in *; lia].
    + destruct (issue_other uid uid0 g (rep (Some (g, e, true))) s Hu Hv) as (El & Eh0 & Eo). fold s' in El, Eh0, Eo.
      rewrite El, Eh0 by done. repeat (split; [done|]). intros Hf. destruct (Hb Hf) as [? H3']. split; [done|].
      intros g' e' b' Hh. apply (H3' g' e' b'). by apply Eo.
Qed.

(** *** The two scripts of Acquire *)

Lemma acquire_effect uid s h a : user uid -> (exists o, holds uid o s) -> acquireScript (hash_of uid s) = (h, a) ->
  exists i, effect uid h a s i /\ forall g e, i = Some (g, e) -> exists g' b, holds uid (Some (g', e, b)) s.
Proof.
  intros Hu (o & Ho & Hr & Hl). rewrite Ho, acquire_rep by done. destruct o as [[[g e] b]|].
  - destruct Hl as [-> He]. destruct Hr as [Hg Hm]. destruct (Z.ltb_spec (latest uid s) e); intros [= <- <-].
    + exists (Some (latest uid s + 1, e)). split; [|intros ? ? [= <- <-]; exists (latest uid s), b; by split_and!].
      split; [done|]. split; [done|]. cbn. lia.
    + exists None. split; [|done]. split; [done|]. right. exists (latest uid s). split; [lia|done].
  - intros [= <- <-]. exists None. split; [|done]. split; [done|]. right. exists 0. split; [unfold MaxInt64; lia|done].
Qed.

Lemma initialize_effect uid start last s h a : user uid -> (exists o, holds uid o s) ->
  0 < start <= last -> last <= MaxInt64 -> last <= watermark uid s -> (hash_of uid s = no_hash -> latest uid s < start) ->
  initializeRangeScript (FormatUint start) (FormatUint last) (hash_of uid s) = (h, a) -> exists i, effect uid h a s i.
Proof.
  intros Hu (o & Ho & Hr & Hl) Hs Hlm Hw Hn. rewrite Ho in *. rewrite initialize_rep by done. cbn zeta.
  destruct o as [[[g e] b]|].
  - destruct Hl as [-> He]. destruct Hr as [Hg Hm]. destruct (Z.ltb_spec (latest uid s) e); [|destruct (Z.leb_spec start (latest uid s))];
      intros [= <- <-].
    + exists (Some (latest uid s + 1, e)). split; [done|]. split; [done|]. cbn. lia.
    + exists None. split; [done|by left].
    + exists (Some (start, last)). split; [done|]. split; [done|]. cbn. lia.
  - intros [= <- <-]. specialize (Hn eq_refl). exists (Some (start, last)). split; [done|]. split; [done|]. cbn. lia.
Qed.

(** a script that ran keeps the invariant, given what the others wait to do *)
Lemma ran_inv t uid h a s i : user uid -> rinv_but (Some t) s -> effect uid h a s i ->
  (forall g e, i = Some (g, e) -> forall u floor calls start last, u <> t ->
     threads s !! u = Some [SInit uid floor calls start last false] -> e < start) ->
  rinv_but (Some t) (ran uid h a s).
Proof.
  intros Hu Hi He Hother. destruct i as [[g e]|].
  - rewrite (ran_issue uid h a s g e He). destruct He as (_ & _ & Hr & Hl & Hw). eapply issue_inv; eauto.
  - destruct (ran_alone uid h a s Hu He) as [Hc Ht]. apply (rinv_calm _ s); [done|by rewrite Ht|done].
Qed.

Lemma redis_acquire_inv t uid s h a : user uid -> rinv s -> acquireScript (hash_of uid s) = (h, a) ->
  rinv_but (Some t) (ran uid h a s).
Proof.
  intros Hu Hi E. destruct (acquire_effect uid s h a Hu (ri_hash _ _ Hi uid Hu) E) as (i & He & Hh).
  apply (ran_inv t uid h a s i); [done|by apply rinv_weaken|done|].
  intros g e -> u floor calls start last Hne Hk. destruct (Hh g e eq_refl) as (g' & b & Ho).
  destruct (ri_threads _ _ Hi u _ ltac:(done) Hk) as [?|(st & [= <-] & Hst)]; [done|].
  destruct Hst as (_ & _ & _ & _ & _ & _ & _ & _ & Hf). by eapply (proj2 (Hf eq_refl)).
Qed.

Lemma absent_start uid s t floor calls start last b : stage_ok t (SInit uid floor calls start last b) s ->
  hash_of uid s = no_hash -> latest uid s < start.
Proof.
  intros (_ & _ & _ & _ & _ & _ & _ & H1 & H2) Hn. destruct b; [by destruct (H1 eq_refl)|]. by destruct (H2 eq_refl).
Qed.

Lemma initialize_inv t uid floor calls start last b s h a : rinv s ->
  threads s !! t = Some [SInit uid floor calls start last b] ->
  initializeRangeScript (FormatUint start) (FormatUint last) (hash_of uid s) = (h, a) ->
  stage_ok t (SInit uid floor calls start last b) s /\ exists i, effect uid h a s i /\ rinv_but (Some t) (ran uid h a s).
Proof.
  intros Hi Ht E. destruct (ri_threads _ _ Hi t _ ltac:(done) Ht) as [?|(st & [= <-] & Hst)]; [done|].
  split; [done|]. pose proof (absent_start _ _ _ _ _ _ _ _ Hst) as Hn. destruct Hst as (Hu & _ & _ & Hlk & Hs & Hm & Hw & _ & _).
  destruct (initialize_effect uid start last s h a Hu (ri_hash _ _ Hi uid Hu) Hs Hm Hw Hn E) as (i & He).
  exists i. split; [done|]. apply (ran_inv t uid h a s i); [done|by apply rinv_weaken|done|].
  intros g e -> u floor' calls' start' last' Hne Hk.
  destruct (ri_threads _ _ Hi u _ ltac:(done) Hk) as [?|(st & [= <-] & Hst')]; [done|].
  destruct Hst' as (_ & _ & _ & Hlk' & _). congruence.
Qed.

(** the hash is there after the initializing script has run *)
Lemma initialized_present uid start last s h a i : user uid -> effect uid h a s i -> (exists o, holds uid o s) ->
  initializeRangeScript (FormatUint start) (FormatUint last) (hash_of uid s) = (h, a) ->
  0 < start <= last -> last <= MaxInt64 -> hash_of uid (ran uid h a s) <> no_hash.
Proof.
  intros Hu He (o & Ho & Hr & _) E Hs Hm.
  assert (hash_of uid (ran uid h a s) = h) as ->.
  { destruct i as [[g e]|].
    - rewrite (ran_issue _ _ _ _ _ _ He). destruct He as [-> _].
      change (hash_of uid (note ?n ?x)) with (hash_of uid x). rewrite hash_set by done. by rewrite decide_True.
    - destruct (ran_alone _ _ _ _ Hu He) as [Hc _]. rewrite (ca_hash _ _ Hc) by done. by destruct He. }
  rewrite Ho, initialize_rep in E by done. cbn zeta in E. destruct o as [[[g e] b]|]; repeat case_match; by simplify_eq.
Qed.

(** *** The other steps *)

Lemma release_calm t uid n s : user uid -> inU 64 n -> rinv s ->
  rinv_but (Some t) (set_hash (key uid) (releaseScript (FormatUint n) (hash_of uid s)).1 s).
Proof.
  intros Hu Hn Hi. destruct (ri_hash _ _ Hi uid Hu) as (o & Ho & Hr & Hl).
  rewrite Ho, release_rep by (done || (unfold inU in Hn; lia)).
  assert (exists o', (match o with Some (g, e, true) => if g =? n then (rep (Some (g, e, false)), 1) else (rep o, 0) | _ => (rep o, 0) end).1 = rep o' /\
    (o' = o \/ exists g e, o = Some (g, e, true) /\ o' = Some (g, e, false))) as (o' & -> & Hc).
  { destruct o as [[[g e] []]|]; [destruct (g =? n)|..]; try (eexists; split; [done|by left]).
    exists (Some (g, e, false)). split; [done|]. right. eauto. }
  destruct (rinv_weaken t s Hi) as [H1 H2 H3 H4]. set (s' := set_hash _ _ _).
  assert (forall v, user v -> hash_of v s' = if decide (v = uid) then rep o' else hash_of v s) as Eh by (intros; by apply hash_set).
  assert (forall v g e b, user v -> holds v (Some (g, e, b)) s' -> exists b', holds v (Some (g, e, b')) s) as Eo.
  { intros v g e b Hv (Hh & Hr' & Hx). rewrite Eh in Hh by done. case_decide as E; [subst v|exists b; exact (conj Hh (conj Hr' Hx))].
    destruct Hc as [->|(g0 & e0 & -> & ->)].
    - destruct o as [[[g1 e1] b1]|]; [|by destruct b]. exists b1. split; [rewrite Ho|exact (conj Hr' Hx)].
      pose proof (f_equal generation Hh) as E1. pose proof (f_equal range_end Hh) as E2.
      cbn [rep generation range_end] in *. injection E1 as E1. injection E2 as E2. by rewrite E1, E2.
    - exists true. split; [rewrite Ho|exact (conj Hr' Hx)].
      pose proof (f_equal generation Hh) as E1. pose proof (f_equal range_end Hh) as E2.
      cbn [rep generation range_end] in *. injection E1 as E1. injection E2 as E2. by rewrite E1, E2. }
  split; try done.
  - intros v Hv. destruct (decide (v = uid)) as [->|Hne].
    + exists o'. split; [rewrite Eh by done; by rewrite decide_True|].
      destruct Hc as [->|(g & e & -> & ->)]; [by split|by split].
    + destruct (H1 v Hv) as (ov & Hov & Hx). exists ov. split; [|done]. rewrite Eh by done. by rewrite decide_False.
  - intros u k Hne Hk. destruct (H4 u k Hne Hk) as [?|(st & -> & Hst)]; [by left|]. right. exists st. split; [done|].
    destruct st; try done. cbn [stage_ok] in *. destruct Hst as (Hu0 & ? & ? & ? & ? & ? & ? & Ha & Hb).
    repeat (split; [done|]). split.
    + intros Hr0. specialize (Ha Hr0). rewrite Eh by done. case_decide as E; [rewrite E, Ho in Ha|done].
      by destruct Hc as [->|(g & e & -> & ->)].
    + intros Hf. destruct (Hb Hf) as [? Hb']. split; [done|]. intros g e b Hh.
      destruct (Eo _ g e b Hu0 Hh) as [b' Hh']. by eapply Hb'.
Qed.

Lemma use_inv t uid start last s : user uid -> rinv s -> lock s !! uid = None \/ lock s !! uid = Some t ->
  watermark uid s < start -> start <= last ->
  rinv_but (Some t) (set_lock uid (Some t) (set_reserved uid last s)).
Proof.
  intros Hu Hi Hlk Hw Hl. destruct (rinv_weaken t s Hi) as [H1 H2 H3 H4]. set (s' := set_lock _ _ _).
  assert (forall v, watermark v s <= watermark v s') as Ew.
  { intros v. unfold watermark, s'. cbn. destruct (decide (v = uid)) as [->|]; [rewrite lookup_insert_eq; cbn; unfold watermark in Hw; lia|].
    by rewrite lookup_insert_ne. }
  split; try done.
  - intros v Hv. destruct (H1 v Hv) as (o & Ho & Hr & Hx). exists o. split; [done|]. split; [done|].
    destruct o as [[[g e] b]|]; [|done]. destruct Hx. split; [done|]. specialize (Ew v). lia.
  - intros v. change (latest v s') with (latest v s). specialize (H3 v). specialize (Ew v). lia.
  - intros u k Hne Hk. destruct (H4 u k Hne Hk) as [?|(st & -> & Hst)]; [by left|]. right. exists st. split; [done|].
    destruct st; try done. cbn [stage_ok] in *. destruct Hst as (Hu0 & ? & ? & Hlu & ? & ? & Hw0 & Ha & Hb).
    assert (uid0 <> uid) as Hv by (intros ->; destruct Hlk; congruence).
    assert (watermark uid0 s' = watermark uid0 s) as Ewv by (unfold watermark, s'; cbn; by rewrite lookup_insert_ne).
    do 3 (split; [done|]). split; [unfold s'; cbn; by rewrite lookup_insert_ne|]. rewrite Ewv. repeat (split; [done|]).
    intros Hf. destruct (Hb Hf) as [? Hb']. split; [done|]. intros g e b (Hh & Hr & Hx). apply (Hb' g e b).
    rewrite Ewv in Hx. by split.
Qed.

Lemma unlock_inv t uid s : rinv s -> rinv_but (Some t) (if bool_decide (lock s !! uid = Some t) then set_lock uid None s else s).
Proof.
  intros Hi. apply (rinv_weaken t) in Hi. case_bool_decide as Hl; [|done]. destruct Hi as [H1 H2 H3 H4]. split; try done.
  intros u k Hne Hk. destruct (H4 u k Hne Hk) as [?|(st & -> & Hst)]; [by left|]. right. exists st. split; [done|].
  destruct st; try done. cbn [stage_ok] in *. destruct Hst as (Hu0 & ? & ? & Hlu & Hx).
  do 3 (split; [done|]). split; [|done]. cbn. rewrite lookup_delete_ne; [done|]. intros ->. congruence.
Qed.

Lemma lose_inv uid s : user uid -> rinv s ->
  (forall u floor calls start last, threads s !! u <> Some [SInit uid floor calls start last true]) ->
  rinv (mkStore (delete (key uid) (db s)) (reserved s) (lock s) (threads s) (log s)).
Proof.
  intros Hu [H1 H2 H3 H4] Hno. set (s' := mkStore _ _ _ _ _).
  assert (forall v, user v -> hash_of v s' = if decide (v = uid) then no_hash else hash_of v s) as Eh.
  { intros v Hv. unfold Redis.hash_of, s'. cbn. case_decide as E; [subst; by rewrite lookup_total_alt, lookup_delete_eq|].
    rewrite !lookup_total_alt, lookup_delete_ne; [done|]. by intros ?%key_inj. }
  split; try done.
  - intros v Hv. destruct (decide (v = uid)) as [->|Hne].
    + exists None. split; [rewrite Eh by done; by rewrite decide_True|done].
    + destruct (H1 v Hv) as (o & Ho & Hx). exists o. split; [|done]. rewrite Eh by done. by rewrite decide_False.
  - intros u k Hne Hk. destruct (H4 u k Hne Hk) as [?|(st & -> & Hst)]; [by left|]. right. exists st. split; [done|].
    destruct st; try done. cbn [stage_ok] in *. destruct Hst as (Hu0 & ? & ? & ? & ? & ? & ? & Ha & Hb).
    repeat (split; [done|]). rewrite Eh by done. split.
    + intros ->. case_decide as E; [subst|by auto]. by eapply Hno in Hk.
    + intros Hf. destruct (Hb Hf) as [? Hb']. split; [done|]. intros g e b (Hh & Hx). rewrite Eh in Hh by done.
      case_decide; [done|]. by apply (Hb' g e b).
Qed.
End Inv.

(** ** session/redis: every step keeps the invariant, and every generation that is
    returned was issued for that call. *)
Section Exec.
Context (prefix : list Z) (has_allocator : bool).
Abbreviation hash_of := (hash_of prefix).
Abbreviation ran := (ran prefix).
Abbreviation rinv := (rinv prefix).
Abbreviation rinv_but := (rinv_but prefix).
Abbreviation stage_ok := (stage_ok prefix).
Abbreviation effect := (effect prefix).

Ltac ends := apply rinv_end, rinv_note; [by intros|done].

Lemma acquired_inv t uid h a s s1 i : user uid -> effect uid h a s i -> rinv_but (Some t) s1 ->
  rinv (acquired has_allocator t uid a s1).
Proof.
  intros Hu He Hi. unfold acquired. destruct i as [[g e]|].
  - destruct He as (_ & -> & Hr & _). destruct Hr. rewrite decode_ok by lia. ends.
  - destruct He as [_ [->|(g & Hg & ->)]]; [ends|]. rewrite decode_range by done.
    repeat case_match; try ends. apply rinv_goto; [done|]. right. eexists. split; [done|]. done.
Qed.

Lemma initialized_inv t uid floor calls h a s s1 i : user uid -> 0 <= floor <= MaxInt64 -> 0 <= calls ->
  effect uid h a s i -> rinv_but (Some t) s1 -> rinv (initialized t uid floor calls a s1).
Proof.
  intros Hu Hf Hc He Hi. unfold initialized.
  assert (forall gen r, rinv (goto t [SAlloc uid floor calls gen r] s1)) as Hg.
  { intros gen r. apply rinv_goto; [done|]. right. eexists. split; [done|]. done. }
  destruct i as [[g e]|].
  - destruct He as (_ & -> & Hr & _). destruct Hr. rewrite decode_ok by lia. apply Hg.
  - destruct He as [_ [->|(g & Hg' & ->)]]; [apply Hg|]. rewrite decode_range by done. apply Hg.
Qed.

Lemma step_inv t st x s s' : rinv s -> threads s !! t = Some [st] -> contract t (XGo x) s ->
  step prefix has_allocator t st x s = Some s' -> rinv s'.
Proof.
  intros Hi Ht Hc H. pose proof (rinv_weaken _ t s Hi) as Hb.
  destruct (ri_threads _ _ _ Hi t _ ltac:(done) Ht) as [?|(st' & [= <-] & Hst)]; [done|].
  destruct st, x; cbn [step] in H; try discriminate H; cbn [RedisStoreOk.stage_ok] in Hst.
  - simplify_eq. case_match; [ends|]. apply rinv_goto; [done|]. right. eexists. split; [done|]. cbn. unfold user. lia.
  - simplify_eq. ends.
  - destruct (acquireScript _) as [h a] eqn:E. simplify_eq.
    destruct (acquire_effect _ uid s h a Hst (ri_hash _ _ _ Hi uid Hst) E) as (i & He & _).
    eapply acquired_inv; [done|exact He|]. by apply redis_acquire_inv.
  - simplify_eq. ends.
  - destruct (acquireScript _) as [h a] eqn:E. simplify_eq.
    destruct (acquire_effect _ uid s h a Hst (ri_hash _ _ _ Hi uid Hst) E) as (i & He & _).
    apply rinv_goto; [by apply redis_acquire_inv|]. right. eexists. split; [done|]. done.
  - simplify_eq. destruct Hst as (Hu & Hf & Hcalls). destruct (proj1 Hc _ _ _ _ _ Ht) as (Hlk & Hfs & Hw & Hsl).
    pose proof (use_inv _ t uid start fin s Hu Hi Hlk Hw ltac:(lia)) as Hi1.
    case_match eqn:E; (apply rinv_goto; [done|]; right; eexists; split; [done|]); [split; [done|]; split; [done|lia]|].
    rewrite !orb_false_iff, negb_false_iff, Z.eqb_eq, Z.leb_gt, Z.eqb_neq, !Z.ltb_ge in E.
    destruct E as [[[[Ec E1] E2] E3] E4]. cbn [RedisStoreOk.stage_ok].
    split; [done|]. split; [done|]. split; [done|]. split; [cbn; apply lookup_insert_eq|]. split; [lia|]. split; [done|].
    split; [unfold watermark; cbn; rewrite lookup_insert_eq; cbn; lia|]. split; [done|]. intros _.
    pose proof (ri_mark _ _ _ Hi uid) as Hmk. fold (watermark uid s) in Hw.
    change (latest uid (set_lock _ _ _)) with (latest uid s). split; [lia|].
    intros g e b (Hh & Hr & _). destruct (ri_hash _ _ _ Hi uid Hu) as (o & Ho & Hr' & Hx).
    change (hash_of uid (set_lock _ _ _)) with (hash_of uid s) in Hh. rewrite Ho in Hh.
    destruct o as [[[g' e'] b']|]; [|by destruct b]. apply (f_equal range_end) in Hh. cbn [rep range_end] in Hh.
    injection Hh as Hh. apply FormatUint_inj in Hh as <-; destruct Hr, Hr'; unfold MaxInt64 in *; lia.
  - simplify_eq. pose proof (unlock_inv _ t uid s Hi) as Hi1. repeat case_match; try ends.
    all: apply rinv_goto; [done|]; right; eexists; split; [done|]; by destruct Hst.
  - destruct (initializeRangeScript _ _ _) as [h a] eqn:E. simplify_eq.
    destruct (initialize_inv _ t uid floor calls start fin again s h a Hi Ht E) as (_ & i & He & Hi1).
    destruct Hst as (Hu & Hf & -> & _). eapply initialized_inv; [done|done|done|exact He|done].
  - simplify_eq. apply rinv_goto; [done|]. right. eexists. split; [done|]. destruct Hst as (? & ? & -> & _). done.
  - destruct (initializeRangeScript _ _ _) as [h a] eqn:E. simplify_eq.
    destruct (initialize_inv _ t uid floor calls start fin again s h a Hi Ht E) as (_ & i & He & Hi1).
    apply rinv_goto; [done|]. right. eexists. split; [done|].
    destruct Hst as (Hu & Hf & Hcalls & Hlk & Hs & Hm & Hw & _).
    pose proof (initialized_present _ uid start fin s h a i Hu He (ri_hash _ _ _ Hi uid Hu) E Hs Hm) as Hp.
    assert (lock (ran uid h a s) = lock s /\ reserved (ran uid h a s) = reserved s) as [El Er].
    { destruct i as [[g e]|]; [by rewrite (ran_issue _ _ _ _ _ _ _ He)|]. destruct (ran_alone _ uid h a s Hu He) as [[] _]. done. }
    cbn [RedisStoreOk.stage_ok]. rewrite El. unfold watermark in *. rewrite Er. repeat (split; [done|]). done.
  - simplify_eq. ends.
  - simplify_eq. ends.
  - simplify_eq. case_match; [ends|]. apply rinv_goto; [done|]. right. eexists. split; [done|]. cbn. unfold user. lia.
  - simplify_eq. ends.
  - simplify_eq. ends.
  - simplify_eq. ends.
  - simplify_eq. destruct Hst as [Hu Hg]. case_match eqn:E; [ends|]. apply rinv_goto; [done|]. right. eexists. split; [done|].
    rewrite !orb_false_iff, Z.leb_gt in E. split; [unfold user; lia|done].
  - simplify_eq. ends.
  - destruct Hst as [Hu Hg]. pose proof (release_calm _ t uid _ s Hu Hg Hi) as Hr.
    destruct (releaseScript _ _) as [h n] eqn:E. cbn [fst] in Hr. simplify_eq. ends.
  - simplify_eq. ends.
  - destruct Hst as [Hu Hg]. simplify_eq. apply rinv_goto; [by apply release_calm|]. right. eexists. split; [done|]. done.
Qed.

Lemma redis_exec_inv t x s s' : rinv s -> contract t x s -> exec prefix has_allocator t x s = Some s' -> rinv s'.
Proof.
  intros Hi Hc H. unfold exec in H. destruct (threads s !! t) as [k|] eqn:Ht.
  - change (default [] (Some k)) with k in H.
    destruct (ri_threads _ _ _ Hi t _ ltac:(done) Ht) as [->|(st & -> & Hst)]; destruct x; simplify_eq;
      try (by destruct Hc; apply lose_inv); try (by eapply step_inv).
    all: apply rinv_goto; [by apply rinv_weaken|]; right; eexists; split; [done|]; exact (proj1 Hc).
  - change (default [] None) with (@nil stage) in H. destruct x; simplify_eq; try (by destruct Hc; apply lose_inv).
    all: apply rinv_goto; [by apply rinv_weaken|]; right; eexists; split; [done|]; exact (proj1 Hc).
Qed.

Lemma rinv_new : rinv NewStore.
Proof.
  split.
  - intros uid _. exists None. split; [|done]. unfold Redis.hash_of. cbn. by rewrite lookup_total_empty.
  - intros uid. split; constructor.
  - intros uid. done.
  - intros u k _ Hk. cbn in Hk. by rewrite lookup_empty in Hk.
Qed.

Lemma rinv_reachable s : reachable prefix has_allocator contract s -> rinv s.
Proof. induction 1; eauto using rinv_new, redis_exec_inv. Qed.

(** ** Accounting *)

Lemma waiting_goto uid g t k s :
  (waiting uid g (goto t k s) + weigh (pending uid g) (default [] (threads s !! t)) = waiting uid g s + weigh (pending uid g) k)%nat.
Proof.
  unfold waiting. pose proof (total_set (weigh (pending uid g)) (threads s) t k) as H. cbn [goto threads].
  destruct (threads s !! t) as [k0|].
  - change (default [] (Some k0)) with k0. lia.
  - change (weigh (pending uid g) (default [] None)) with 0%nat. lia.
Qed.

(** [t] goes from [st] to [k] while [hs] happens *)
Lemma accounted_step t st k hs s s1 : accounted s -> threads s !! t = Some [st] ->
  threads s1 = threads s -> log s1 = log s ++ hs ->
  (forall uid g, weigh (pending uid g) k + weigh (returns uid g) hs <= pending uid g st + weigh (issues uid g) hs)%nat ->
  accounted (goto t k s1).
Proof.
  intros Ha Ht E1 E2 Hw uid g. pose proof (waiting_goto uid g t k s1) as Hg. rewrite E1, Ht in Hg.
  change (default [] (Some [st])) with [st] in Hg. specialize (Ha uid g). specialize (Hw uid g).
  change (log (goto t k s1)) with (log s1). rewrite E2, !weigh_app.
  assert (waiting uid g s1 = waiting uid g s) by (unfold waiting; by rewrite E1).
  assert (weigh (pending uid g) [st] = pending uid g st) by (unfold weigh; cbn; lia). lia.
Qed.

Lemma ran_log uid h a s i : user uid -> effect uid h a s i -> threads (ran uid h a s) = threads s /\
  log (ran uid h a s) = log s ++ match i with Some (g, _) => [EIssue uid g] | None => [] end.
Proof.
  intros Hu He. destruct i as [[g e]|]; [by rewrite (ran_issue _ _ _ _ _ _ _ He)|].
  destruct (ran_alone _ uid h a s Hu He) as [_ Ht]. split; [done|]. rewrite app_nil_r.
  destruct He as [_ [->|(g & _ & ->)]]; [done|]. unfold Redis.ran. by rewrite bool_decide_false.
Qed.

Ltac counts := intros ? ?; unfold weigh; cbn; repeat case_decide; simplify_eq; naive_solver lia.
Ltac no_issue st hs := match goal with Ht : threads ?s !! ?t = Some _ |- _ =>
  eapply (accounted_step t st _ hs s); [done|done|done|by rewrite ?app_nil_r|counts] end.

Lemma step_accounted t st x s s' : rinv s -> accounted s -> threads s !! t = Some [st] -> contract t (XGo x) s ->
  step prefix has_allocator t st x s = Some s' -> accounted s'.
Proof.
  intros Hi Ha Ht Hc H.
  destruct (ri_threads _ _ _ Hi t _ ltac:(done) Ht) as [?|(st' & [= <-] & Hst)]; [done|].
  destruct st, x; cbn [step] in H; try discriminate H; cbn [RedisStoreOk.stage_ok] in Hst.
  - simplify_eq. case_match; [no_issue (SEnter uid) [EAcquire t (Err ErrInvalidArgument)]|no_issue (SEnter uid) (@nil happening)].
  - simplify_eq. no_issue (SEnter uid) [EAcquire t (Err e)].
  - destruct (acquireScript _) as [h a] eqn:E. simplify_eq.
    destruct (acquire_effect _ uid s h a Hst (ri_hash _ _ _ Hi uid Hst) E) as (i & He & _).
    destruct (ran_log uid h a s i Hst He) as [Et El]. set (s1 := ran uid h a s) in *.
    assert (forall k hs, (forall u g, weigh (pending u g) k = 0%nat) -> (forall u g, weigh (returns u g) hs = 0%nat) ->
      (forall u g, weigh (issues u g) hs = 0%nat) ->
      accounted (goto t k (mkStore (db s1) (reserved s1) (lock s1) (threads s1) (log s1 ++ hs)))) as Hq.
    { intros k hs Hk Hr Hs. eapply (accounted_step t (SAcquire uid) k (_ ++ hs) s); [done|done|done|cbn; by rewrite El, <- app_assoc|].
      intros u g. rewrite !weigh_app, Hk, Hr, Hs. destruct i as [[? ?]|]; unfold weigh; cbn; lia. }
    unfold acquired. destruct i as [[g e]|].
    + destruct He as (_ & -> & Hr & _). destruct Hr. rewrite decode_ok by lia.
      apply (accounted_step t (SAcquire uid) [] [EIssue uid g; EAcquire t (Ok (mkToken uid g))] s (note (EAcquire t (Ok (mkToken uid g))) s1) Ha Ht Et);
        [cbn [note log]; by rewrite El, <- app_assoc|counts].
    + destruct He as [_ [->|(g & Hg & ->)]]; [by apply (Hq [] [_])|]. rewrite decode_range by done.
      repeat case_match; try (by apply (Hq [] [_])). specialize (Hq [SAlloc uid g 0 g None] []). rewrite app_nil_r in Hq.
      by destruct s1; apply Hq.
  - simplify_eq. no_issue (SAcquire uid) [EAcquire t (Err e)].
  - destruct (acquireScript _) as [h a] eqn:E. simplify_eq.
    destruct (acquire_effect _ uid s h a Hst (ri_hash _ _ _ Hi uid Hst) E) as (i & He & _).
    destruct (ran_log uid h a s i Hst He) as [Et El]. eapply (accounted_step t _ _ _ s _ Ha Ht Et El). destruct i as [[? ?]|]; counts.
  - simplify_eq. case_match; no_issue (SAlloc uid floor calls gen r) (@nil happening).
  - simplify_eq. set (s1 := if bool_decide _ then _ else _).
    assert (threads s1 = threads s /\ log s1 = log s) as [Et El] by (unfold s1; by case_bool_decide). clearbody s1.
    destruct r0 as [e|].
    + eapply (accounted_step t _ [] [EAcquire t (Err e)] s); [done|done|done|cbn; by rewrite El|counts].
    + pose proof (proj1 Hc _ _ _ _ _ Ht) as ->. case_match eqn:E.
      * eapply (accounted_step t _ [] [EAcquire t (Err ErrInvalidGenerationRange)] s); [done|done|done|cbn; by rewrite El|counts].
      * rewrite orb_false_iff, negb_false_iff, Z.eqb_eq in E. destruct E as [-> _].
        eapply (accounted_step t _ _ [] s); [done|done|done|by rewrite app_nil_r|counts].
  - destruct (initializeRangeScript _ _ _) as [h a] eqn:E. simplify_eq.
    destruct (initialize_inv _ t uid floor calls start fin again s h a Hi Ht E) as (_ & i & He & _).
    destruct Hst as (Hu & _). destruct (ran_log uid h a s i Hu He) as [Et El].
    unfold initialized. destruct i as [[g e]|].
    + destruct He as (_ & -> & Hr & _). destruct Hr. rewrite decode_ok by lia.
      eapply (accounted_step t _ _ _ s _ Ha Ht Et El). case_match; counts.
    + destruct He as [_ [->|(g & Hg & ->)]]; [|rewrite decode_range by done];
        eapply (accounted_step t _ _ _ s _ Ha Ht Et El); counts.
  - simplify_eq. no_issue (SInit uid floor calls start fin again) (@nil happening).
  - destruct (initializeRangeScript _ _ _) as [h a] eqn:E. simplify_eq.
    destruct (initialize_inv _ t uid floor calls start fin again s h a Hi Ht E) as (_ & i & He & _).
    destruct Hst as (Hu & _). destruct (ran_log uid h a s i Hu He) as [Et El].
    eapply (accounted_step t _ _ _ s _ Ha Ht Et El). destruct i as [[? ?]|]; counts.
  - simplify_eq. no_issue (SLeave uid gen) [EAcquire t (Ok (mkToken uid gen))].
  - simplify_eq. no_issue (SLeave uid gen) [EAcquire t (Err e)].
  - simplify_eq. case_match; [no_issue (CEnter uid) [ECurrent t (Err ErrInvalidArgument)]|no_issue (CEnter uid) (@nil happening)].
  - simplify_eq. no_issue (CEnter uid) [ECurrent t (Err e)].
  - simplify_eq. no_issue (CRead uid) [ECurrent t (Redis.Current prefix uid s)].
  - simplify_eq. no_issue (CRead uid) [ECurrent t (Err e)].
  - simplify_eq. case_match; [no_issue (REnter uid token) [ERelease t (Err ErrInvalidArgument)]|no_issue (REnter uid token) (@nil happening)].
  - simplify_eq. no_issue (REnter uid token) [ERelease t (Err e)].
  - destruct (releaseScript _ _) as [h n] eqn:E. simplify_eq. no_issue (RRun uid token) [ERelease t (Ok (n =? 1))].
  - simplify_eq. no_issue (RRun uid token) [ERelease t (Err e)].
  - simplify_eq. no_issue (RRun uid token) (@nil happening).
Qed.

Lemma exec_accounted t x s s' : rinv s -> accounted s -> contract t x s ->
  exec prefix has_allocator t x s = Some s' -> accounted s'.
Proof.
  intros Hi Ha Hc H. unfold exec in H.
  assert (forall st, default [] (threads s !! t) = [] -> (forall uid g, pending uid g st = 0%nat) -> accounted (goto t [st] s)) as Hn.
  { intros st Ht Hst uid g. pose proof (waiting_goto uid g t [st] s) as Hg. rewrite Ht in Hg. specialize (Ha uid g).
    change (log (goto t [st] s)) with (log s). unfold weigh in Hg at 1 2. cbn [sum_list_with] in Hg. rewrite Hst in Hg. lia. }
  destruct (default [] (threads s !! t)) as [|st k] eqn:Ht; destruct x; simplify_eq; try (by apply Hn); try done.
  destruct (threads s !! t) as [k0|] eqn:Ht0; [|done]. cbn in Ht. subst k0.
  destruct (ri_threads _ _ _ Hi t _ ltac:(done) Ht0) as [?|(st' & [= <- ->] & _)]; [done|]. by eapply step_accounted.
Qed.

Lemma accounted_reachable s : reachable prefix has_allocator contract s -> accounted s.
Proof.
  induction 1 as [|s t x s' Hr IH Hc H]; [by intros ? ?|]. eapply exec_accounted; [by apply rinv_reachable|done|done|done].
Qed.
End Exec.
