(* ===== verification/RedisStoreClaims.v ===== *)
(** session/redis: what a user's generations promise across script retries and
    lost hashes, the exactness of the Lua comparison, and the run that the
    contract excludes. *)
From stdpp Require Import base numbers list gmap strings.
From Stdlib Require Import ZArith Lia Sorted.
From S2P Require Import Prelude Types Decimal Threads RedisStore RedisStoreOk.
Import Redis.

Open Scope Z_scope.

(** ** The contract, decided *)

Definition allocator_b (t : nat) (x : action) (s : store) : bool :=
  match x with
  | XGo (XUse start fin) =>
      match threads s !! t with
      | Some [SAlloc uid floor calls gen r] =>
          bool_decide (lock s !! uid = None \/ lock s !! uid = Some t) &&
          (floor <? start) && (default 0 (reserved s !! uid) <? start) && (start <=? fin) && (fin <? 2 ^ 64)
      | _ => true
      end
  | XGo (XRet None) =>
      match threads s !! t with Some [SAlloc uid floor calls gen (Some _)] => false | _ => true end
  | XLose uid => (0 <? uid) && (uid <? 2 ^ 63)
  | XAcquire uid | XCurrent uid => uid <? 2 ^ 63
  | XRelease uid token => (uid <? 2 ^ 63) && (0 <=? Generation token) && (Generation token <? 2 ^ 64)
  | _ => true
  end.

Definition answered (uid : Z) (k : list stage) : bool :=
  match k with [SInit u _ _ _ _ true] => negb (u =? uid) | _ => true end.

Definition contract_b (t : nat) (x : action) (s : store) : bool :=
  allocator_b t x s &&
  match x with XLose uid => forallb (fun p : nat * list stage => answered uid p.2) (map_to_list (threads s)) | _ => true end.

Lemma allocator_decided t x s : allocator_b t x s = true -> allocator t x s.
Proof.
  unfold allocator_b, allocator. destruct x as [uid|uid|uid token|uid|[]]; try done; intros H; unfold inU;
    rewrite ?andb_true_iff in H; try lia.
  - intros uid floor calls gen r E. rewrite E, !andb_true_iff, bool_decide_eq_true in H. destruct H as [[[[? ?] ?] ?] ?].
    split; [done|]. lia.
  - destruct r; [done|]. intros uid floor calls gen r E. rewrite E in H. by destruct r.
Qed.

Lemma contract_decided t x s : contract_b t x s = true -> contract t x s.
Proof.
  unfold contract_b, contract. rewrite andb_true_iff. intros [Ha H]. split; [by apply allocator_decided|].
  destruct x; try done. intros u floor calls start fin E. rewrite forallb_forall in H.
  apply elem_of_map_to_list, list_elem_of_In, H in E. cbn in E. by rewrite Z.eqb_refl in E.
Qed.

(** a run all of whose actions pass the test [c] *)
Fixpoint checked (c : nat -> action -> store -> bool) (p : list Z) (b : bool) (xs : list (nat * action)) (s : store) : option store :=
  match xs with
  | [] => Some s
  | (t, x) :: xs' => if c t x s then match exec p b t x s with Some s' => checked c p b xs' s' | None => None end else None
  end.

Lemma checked_reachable (C : nat -> action -> store -> Prop) c p b xs s s' :
  (forall t x s, c t x s = true -> C t x s) -> reachable p b C s -> checked c p b xs s = Some s' -> reachable p b C s'.
Proof.
  intros Hc. revert s. induction xs as [|[t x] xs IH]; intros s Hr H; cbn in H; [by simplify_eq|].
  destruct (c t x s) eqn:Ec; [|done]. destruct (exec p b t x s) as [s1|] eqn:E; [|done].
  apply (IH s1); [|done]. econstructor; eauto.
Qed.

(** ** Runs *)

Definition some_prefix : list Z := bytes "due:session".
Definition oks (t n : nat) : list (nat * action) := repeat (t, XGo XOk) n.

(** an acquisition within the range of the user *)
Definition within (t : nat) (uid : Z) : list (nat * action) := (t, XAcquire uid) :: oks t 2.
(** an acquisition that reserves [start..fin] *)
Definition reserving (t : nat) (uid start fin : Z) : list (nat * action) :=
  within t uid ++ [(t, XGo (XUse start fin)); (t, XGo XOk); (t, XGo (XRet None)); (t, XGo XOk)].

(** the hash is lost after two acquisitions, and the next reserves a new range *)
Definition hash_lost : list (nat * action) :=
  reserving 1 7 1 1024 ++ within 2 7 ++ [(0%nat, XLose 7)] ++ reserving 3 7 1025 2048.

(** the answer to the initializing script is lost, then the hash, then the
    client runs the script again *)
Definition retried : list (nat * action) :=
  within 1 7 ++ [(1%nat, XGo (XUse 1 1024)); (1%nat, XGo XLost)] ++ within 2 7 ++ [(0%nat, XLose 7)] ++
  [(1%nat, XGo XOk); (1%nat, XGo (XRet None)); (1%nat, XGo XOk)] ++ within 3 7.

(** ** Claims *)

Lemma sorted_once uid g hs : StronglySorted Z.lt (flat_map (issue_of uid) hs) -> (weigh (issues uid g) hs <= 1)%nat.
Proof.
  assert (forall l, Forall (fun g' => g < g') (flat_map (issue_of uid) l) -> weigh (issues uid g) l = 0%nat) as Habsent.
  { induction l as [|h l IH]; [done|]. cbn [flat_map]. intros [Hh Hl]%Forall_app. unfold weigh in *. cbn [sum_list_with].
    rewrite IH by done. destruct h as [u g'| | |]; try done. cbn in *. destruct (decide (u = uid)); case_decide as E; try done.
    - destruct E as [-> ->]. apply Forall_cons in Hh as [? _]. lia.
    - by destruct E as [? _]. }
  induction hs as [|h hs IH]; [cbn; lia|]. cbn [flat_map]. intros H. unfold weigh in *. cbn [sum_list_with].
  destruct h as [u g'| | |]; try (by apply IH). cbn in *.
  destruct (decide (u = uid)) as [->|Hn]; cbn in H.
  - apply StronglySorted_inv in H as [Hs Hf]. case_decide as E; [|by apply IH].
    destruct E as [_ ->]. rewrite Habsent by done. lia.
  - rewrite decide_False by naive_solver. by apply IH.
Qed.

Section Claims.
Context (prefix : list Z) (has_allocator : bool).
Abbreviation reachable := (reachable prefix has_allocator).

(** the owner a user's hash names is the one issued last *)
Lemma current_latest uid s t : rinv prefix s -> user uid -> Current prefix uid s = Ok (Some t) -> t = mkToken uid (latest uid s).
Proof.
  intros Hi Hu H. destruct (ri_hash _ _ _ Hi uid Hu) as (o & Ho & Hr & Hl). unfold Current in H. rewrite Ho in H.
  destruct o as [[[g e] []]|]; try done. cbn [current rep] in H. destruct Hr as [Hg He], Hl as [-> _].
  rewrite parse_format in H by (unfold MaxInt64 in *; lia). by case_match; simplify_eq.
Qed.


End Claims.

(** On the decimal strings that the scripts accept the Lua comparison, by
    length and then by bytes, is the comparison of the numbers. *)
Theorem lua_compare_exact a b : valid a = true -> valid b = true -> compare a b = (value a ?= value b).
Proof.
  rewrite !valid_spec. intros (m & Hm & ->) (n & Hn & ->). unfold MaxInt64 in *.
  rewrite compare_numbers by lia. by rewrite (proj2 (FormatUint_spec m ltac:(lia))), (proj2 (FormatUint_spec n ltac:(lia))).
Qed.

(** The allocator's contract alone does not keep tokens apart: when the
    answer to the initializing script is lost, and then the hash, the client's
    second run of the script sets the hash up again from the same start, and
    the generations issued in between are issued once more. *)
Theorem retried_initialization_reuses_generation : exists s,
  reachable some_prefix true allocator s /\ issued 7 s = [1; 2; 1; 2] /\ weigh (returns 7 2) (log s) = 2%nat.
Proof.
  destruct (checked allocator_b some_prefix true retried NewStore) as [s|] eqn:E; [|by vm_compute in E].
  exists s. split.
  - eapply checked_reachable; [apply allocator_decided|constructor|exact E].
  - vm_compute in E. injection E as <-. split; reflexivity.
Qed.

Lemma hash_lost_reachable s : checked contract_b some_prefix true hash_lost NewStore = Some s ->
  reachable some_prefix true contract s.
Proof. apply checked_reachable; [apply contract_decided|constructor]. Qed.



Lemma lua_compare_exact_witness : compare (bytes "999") (bytes "1000") = Lt /\
  compare (bytes "9007199254740993") (bytes "9007199254740992") = (9007199254740993 ?= 9007199254740992).
Proof. split; [reflexivity|]. exact (lua_compare_exact (bytes "9007199254740993") (bytes "9007199254740992") eq_refl eq_refl). Defined.
