(* ===== verification/GateForward.v ===== *)
(** cluster/gate: a client's message on its way to a node: handleReceive of
    gate.go and deliver of proxy.go, on top of the session table, the packet
    codec and the node linker.

    The callbacks of the application are parameters: what they return, or that
    they panic.  handleReceive reads the user of the connection first and the
    token later, so it is two steps, [receive] and [forward]; what other
    goroutines do to the gate may come in between. *)
From stdpp Require Import base numbers list gmap strings.
From Stdlib Require Import ZArith Lia.
From S2P Require Import Prelude Types Nocopy Packet Session Ownership Gate Link NodeLink.
Import Session.Session.

Open Scope Z_scope.
Open Scope go_scope.

Module Forward.

(** a callback returns a value or panics *)
Definition or_panic {A} (r : option A) : res A := match r with Some a => Ok a | None => Panic end.

(** the calls made of the application *)
Inductive happening :=
| FRejected (c : cref) (md : Cluster.RequestMetadata) (data : list Z) (e : error)
| FCompleted (err : option error).

Record options := mkOptions {
  requestTimeout : Z;
  correlationIDGenerator : option (option (list Z));
  (* the trace context and whether there is a function to call at the end *)
  traceContextGenerator : option (Cluster.RequestMetadata -> option (list Z * list Z * bool));
  statelessRouteAffinity : option (Z -> list Z -> option (Z * string * bool));
  rejectedRequestHandler : option (cref -> Cluster.RequestMetadata -> list Z -> error -> res unit)
}.

Section Forward.
Context {S : Type} `{OwnershipStore S}.

Record state := mkState { gate : Gate.Gate S; linker : NodeLinker.NodeLinker; calls : list happening }.

Definition on_gate {A} (m : ST (Gate.Gate S) A) : ST state A := fun s =>
  let '(r, g) := m (gate s) in (r, mkState g (linker s) (calls s)).
Definition on_linker {A} (m : ST NodeLinker.NodeLinker A) : ST state A := fun s =>
  let '(r, l) := m (linker s) in (r, mkState (gate s) l (calls s)).
Definition called (h : happening) : ST state unit := fun s => (Ok tt, mkState (gate s) (linker s) (calls s ++ [h])).

Context (opts : options) (now : Z).
Context (lopts : Link.Options) (answer : forall A, list made -> call A -> res A).
Context (packer : Packet.defaultPacker) (malloc : list made -> Writer.Writer.Writer).
Context (Marshal : Z -> res (list Z)) (Encryptor : option (list Z -> res (list Z))).
Context (rand : list made -> Z -> Z).

Definition newRequestMetadataWithTraceLifecycle : res (Cluster.RequestMetadata * bool) :=
  let deadline := if 0 <? requestTimeout opts then Some (now + requestTimeout opts) else None in
  match correlationIDGenerator opts with
  | Some None => Panic
  | Some (Some _) | None =>
      let id := match correlationIDGenerator opts with Some (Some id) => id | _ => [] end in
      let md := Cluster.mkMetadata deadline id [] [] in
      match traceContextGenerator opts with
      | None => Ok (md, false)
      | Some f => match f md with
                  | Some (parent, st, complete) => Ok (Cluster.mkMetadata deadline id parent st, complete)
                  | None => Panic
                  end
      end
  end.

(** a panic of the callback is recovered, so all there is to see is the call *)
Definition completeTraceContextLifecycle (complete : bool) (err : option error) : ST state unit :=
  if complete then called (FCompleted err) else st_ret tt.

Definition preferred (uid : Z) (m : Packet.Message) : ST state string :=
  match statelessRouteAffinity opts with
  | Some f =>
      if uid =? 0 then
        let! (routingUID, group, ok) := st_lift (or_panic (f (Packet.Route m) (Packet.Buffer m))) in
        if ok : bool then on_linker (NodeLinker.ResolveStatelessAffinityNode lopts answer rand (Packet.Route m) routingUID group)
        else st_ret ""%string
      else st_ret ""%string
  | None => st_ret ""%string
  end.

Definition deliver (cid uid : Z) (md : Cluster.RequestMetadata) (data : list Z) : ST state unit :=
  let! token := on_gate (Gate.on_session (Gate.requestDeliveryToken cid uid)) in
  let! message := st_lift (Packet.UnpackMessage packer data) in
  let! preferredNID := preferred uid message in
  on_linker (NodeLinker.DeliverRequest lopts answer packer malloc Marshal Encryptor rand
    (NodeLinker.mkDeliverArgs preferredNID cid uid token md (Packet.Route message) (NodeLinker.PBytes data))).

(** handleReceive up to the call of deliver *)
Definition receive (c : cref) : ST state (Z * Z * Cluster.RequestMetadata * bool) :=
  let! o := on_gate (Gate.on_session (deref c)) in
  let! (md, complete) := st_lift newRequestMetadataWithTraceLifecycle in
  st_ret (ID o, UID o, md, complete).

(** handleReceive from the call of deliver; an error of the handler is logged *)
Definition forward (c : cref) (data : list Z) (x : Z * Z * Cluster.RequestMetadata * bool) : ST state unit :=
  let '(cid, uid, md, complete) := x in
  let! r := st_try (deliver cid uid md data) in
  let err := match r with inl _ => None | inr e => Some e end in
  match err, rejectedRequestHandler opts with
  | Some e, Some handler =>
      called (FRejected c md data e) ;;;
      let! _ := st_try (st_lift (handler c md data e)) in st_ret tt
  | _, _ => st_ret tt
  end ;;;
  completeTraceContextLifecycle complete err.

Definition handleReceive (c : cref) (data : list Z) : ST state unit :=
  let! x := receive c in forward c data x.
End Forward.
Arguments state S : clear implicits.
End Forward.
