(* ===== verification/GateForwardClaims.v ===== *)
(** cluster/gate: what reaches the nodes of a client's messages, and in whose
    name. *)
From stdpp Require Import base numbers list gmap strings.
From Stdlib Require Import ZArith Lia.
From S2P Require Import Prelude Types Nocopy Packet Session SessionOk SessionClaims Ownership Gate GateOk Dispatcher Link.
From S2P Require Import NodeLink Link NodeLinkOk NodeLinkClaims RequestCodec GateRpc Server NodeServer Context Router NodeRpcClaims GateSafe GateForward.
Import Session.Session Forward.

Open Scope Z_scope.
Open Scope go_scope.

(** the message of a request is the data the client sent *)
Abbreviation raw data := (NocopyBuffer.NewNocopyBuffer [MBlock (BRaw data)]).

Section Forward.
Context {S : Type} `{OwnershipStore S}.
Context (opts : options) (now : Z) (lopts : Link.Options) (answer : forall A, list made -> call A -> res A).
Context (packer : Packet.defaultPacker) (malloc : list made -> Writer.Writer.Writer).
Context (Marshal : Z -> res (list Z)) (Encryptor : option (list Z -> res (list Z))).
Context (rand : list made -> Z -> Z).

Abbreviation deliver := (deliver opts lopts answer packer malloc Marshal Encryptor rand).
Abbreviation forward := (forward opts lopts answer packer malloc Marshal Encryptor rand).
Abbreviation handleReceive := (handleReceive opts now lopts answer packer malloc Marshal Encryptor rand).
Abbreviation node_log s := (Link.log (NodeLinker.env_ (linker s))).

Lemma resolve_since pre b route uid grp :
  keeps (since pre b) (NodeLinker.ResolveStatelessAffinityNode lopts answer rand route uid grp).
Proof.
  unfold NodeLinker.ResolveStatelessAffinityNode.
  pose proof (fun A c => ask_since answer pre b (A := A) c). pose proof (@read_since pre b).
  pose proof (find_endpoint_since pre b rand). keeps_steps. by apply ask_since.
Qed.

(** the token sent along: that of the connection, none without a user *)
Definition sent_token (w : World) (cid uid : Z) : Token :=
  if uid =? 0 then zero_token
  else match conns (sess w) !! cid with Some _ => token_at (sess w) cid | None => zero_token end.

Lemma requestDeliveryToken_eq w cid uid : wf w ->
  Gate.requestDeliveryToken cid uid w = (Ok (sent_token w cid uid), w).
Proof.
  intros Hw. unfold Gate.requestDeliveryToken, sent_token. destruct (uid =? 0); [done|].
  unfold st_bind, st_try, Token_, conn_, lookup_conn, st_bind. simpl.
  destruct (conns (sess w) !! cid) as [c|] eqn:Hc; [|done].
  destruct (wf_conns w Hw _ _ Hc) as (o & Ho & <-). unfold deref. by rewrite Ho.
Qed.

(** what deliver adds to the calls made of the nodes *)
Definition forwards (cid uid : Z) (token : Token) (md : Cluster.RequestMetadata) (data : list Z)
    (pre new : list made) (d : bool) : Prop :=
  exists nid route k, (k <= 2)%nat /\
    delivery answer (NodeLinker.mkDeliverArgs nid cid uid token md route (NodeLinker.PBytes data)) (raw data) pre new d k.

Lemma preferred_quiet uid m (s : Forward.state S) : exists new, gate (preferred opts lopts answer rand uid m s).2 = gate s /\
  calls (preferred opts lopts answer rand uid m s).2 = calls s /\
  node_log (preferred opts lopts answer rand uid m s).2 = node_log s ++ new /\ Forall quiet new.
Proof.
  unfold preferred. assert (forall r : res string, exists new, gate (r, s).2 = gate s /\ calls (r, s).2 = calls s /\
    node_log (r, s).2 = node_log s ++ new /\ Forall quiet new) as Hnone.
  { intros r. exists []. by rewrite app_nil_r. }
  destruct (statelessRouteAffinity opts) as [f|]; [|apply (Hnone (Ok _))].
  destruct (uid =? 0); [|apply (Hnone (Ok _))].
  unfold st_bind, st_lift. destruct (f _ _) as [[[u g] []]|]; cbn [or_panic]; [|apply (Hnone (Ok _))|apply (Hnone Panic)].
  unfold on_linker. pose proof (resolve_since (node_log s) (Link.message (NodeLinker.env_ (linker s))) (Packet.Route m) u g (linker s)) as Hr.
  destruct (NodeLinker.ResolveStatelessAffinityNode _ _ _ _ _ _ _) as [r l]. destruct Hr as [(new & Hn & Hq) _].
  { split; [reflexivity|done]. }
  by exists new.
Qed.

Lemma deliver_forwards cid uid md data (s : Forward.state S) : wf (Gate.world (gate s)) ->
  let '(r, s') := deliver cid uid md data s in
  gate s' = gate s /\ calls s' = calls s /\
  exists new d, node_log s' = node_log s ++ new /\
    forwards cid uid (sent_token (Gate.world (gate s)) cid uid) md data (node_log s) new d /\ (d = true -> r = Ok tt).
Proof.
  intros Hw. unfold Forward.deliver, st_bind, on_gate, Gate.on_session. rewrite requestDeliveryToken_eq by done.
  set (s1 := mkState _ (linker s) (calls s)). assert (s1 = s) as -> by (subst s1; by destruct s as [[] ? ?]).
  set (token := sent_token _ _ _). unfold st_lift.
  assert (forall (new : list made) nid route, Forall quiet new -> delivery answer (NodeLinker.mkDeliverArgs nid cid uid token md route
    (NodeLinker.PBytes data)) (raw data) (node_log s) new false 0) as Hend by (by constructor).
  assert (forall r : res unit, gate (r, s).2 = gate s /\ calls (r, s).2 = calls s /\ exists new d, node_log (r, s).2 = node_log s ++ new /\
    forwards cid uid token md data (node_log s) new d /\ (d = true -> r = Ok tt)) as Hnone.
  { intros r. split; [done|]. split; [done|]. exists [], false. rewrite app_nil_r. split; [done|]. split; [|done].
    exists ""%string, 0, 0%nat. split; [lia|]. by apply Hend. }
  destruct (Packet.UnpackMessage packer data) as [m| |]; [|apply (Hnone (Err _))|apply (Hnone Panic)].
  destruct (preferred_quiet uid m s) as (q & Hg & Hc & Hl & Hq).
  destruct (preferred opts lopts answer rand uid m s) as [[nid| |] s1]; cbn [snd] in Hg, Hc, Hl.
  2,3: split; [done|]; split; [done|]; exists q, false; split; [done|]; split; [|done];
    exists ""%string, 0, 0%nat; split; [lia|]; by apply Hend.
  unfold on_linker, NodeLinker.DeliverRequest.
  set (args := NodeLinker.mkDeliverArgs nid cid uid token md (Packet.Route m) (NodeLinker.PBytes data)).
  pose proof (deliver_bytes lopts answer packer malloc Marshal Encryptor rand args true data (linker s1) eq_refl) as Hd.
  cbn zeta in Hd. destruct (NodeLinker.deliver _ _ _ _ _ _ _ args true (linker s1)) as [r l'].
  destruct Hd as (_ & new & d & k & Hn & Hd & Hk & Hok & _). split; [done|]. split; [done|]. exists (q ++ new), d.
  cbn [linker]. rewrite Hn, Hl, app_assoc. split; [done|]. split; [|done].
  exists nid, (Packet.Route m), k. split; [done|]. apply delivery_quiet; [done|]. by rewrite <- Hl.
Qed.

(** what the application is told at the end *)
Definition told (c : cref) (md : Cluster.RequestMetadata) (data : list Z) (complete : bool) (err : option error) : list happening :=
  match err, rejectedRequestHandler opts with Some e, Some _ => [FRejected c md data e] | _, _ => [] end ++
  (if complete then [FCompleted err] else []).

Lemma forward_tells c data cid uid md complete (s : Forward.state S) : wf (Gate.world (gate s)) ->
  let '(r, s') := forward c data (cid, uid, md, complete) s in
  gate s' = gate s /\ exists new d err, node_log s' = node_log s ++ new /\
    forwards cid uid (sent_token (Gate.world (gate s)) cid uid) md data (node_log s) new d /\
    (d = true -> r = Ok tt /\ err = None) /\ (r = Ok tt -> calls s' = calls s ++ told c md data complete err).
Proof.
  intros Hw. unfold Forward.forward, st_bind, st_try. pose proof (deliver_forwards cid uid md data s Hw) as Hd.
  destruct (deliver cid uid md data s) as [[[]|e|] s1]; destruct Hd as (Hg & Hc & new & d & Hn & Hf & Hok).
  - unfold told. destruct complete; cbn; (split; [done|]); exists new, d, None; rewrite ?app_nil_r, ?Hc; done.
  - assert (d = false) as -> by (destruct d; [by specialize (Hok eq_refl)|done]). unfold told.
    destruct (rejectedRequestHandler opts) as [h|].
    + cbn. unfold st_lift. destruct (h c md data e) as [[]| |], complete; cbn; (split; [done|]);
        exists new, false, (Some e); rewrite ?app_nil_r, <- ?app_assoc, ?Hc; done.
    + destruct complete; cbn; (split; [done|]); exists new, false, (Some e); rewrite ?app_nil_r, ?Hc; done.
  - split; [done|]. exists new, d, None. split; [done|]. split; [done|]. split; [|done]. intros ->. by specialize (Hok eq_refl).
Qed.

(** a session's token is the one the node makes of the user and the generation *)
Lemma sent_token_current w c o : wf w -> heap w !! c = Some o -> users (sess w) !! UID o = Some c ->
  let token := sent_token w (ID o) (UID o) in cur w token /\ token = mkToken (UID o) (Generation token).
Proof.
  intros Hw Ho Hu. destruct (wf_users w Hw _ _ Hu) as (Hz & o' & Ho' & _ & Hc). simplify_eq.
  destruct (wf_tokens w Hw _ _ _ Hu Ho) as (t & Ht & Hut & Hg & _).
  assert (sent_token w (ID o) (UID o) = t) as ->.
  { unfold sent_token. apply Z.eqb_neq in Hz. by rewrite Hz, Hc; unfold token_at; rewrite Ht. }
  split; [|destruct t; cbn in *; by subst]. split; [by rewrite Hut|]. split; [done|]. exists c, o. by rewrite Hut.
Qed.

End Forward.

(** ** A connection that changes its user *)

Definition bare : options := mkOptions 0 None None None None.
Definition located (uid : Z) : option error := None.
Definition binds (cid uid : Z) : ST (Gate.Gate MemoryOwnershipStore.MemoryOwnershipStore) unit := Gate.Bind None located cid uid.

(** connection 8 holds user 10 and connection 7 user 9 *)
Definition two_users : state MemoryOwnershipStore.MemoryOwnershipStore :=
  mkState ((binds 8 10 ;;; binds 7 9) gate0).2 (sample_linker ∅) [].

(** route 7, sequence 3 *)
Definition to_route7 : list Z := [0; 0; 0; 7; 0; 0; 7; 0; 3; 65; 66].

Definition some_receive := handleReceive bare 0 gate_opts (sample_answer "new") Packet.example_packer sample_malloc sample_marshal None
  sample_rand (S := MemoryOwnershipStore.MemoryOwnershipStore).
Definition some_forward := forward bare gate_opts (sample_answer "new") Packet.example_packer sample_malloc sample_marshal None
  sample_rand (S := MemoryOwnershipStore.MemoryOwnershipStore).

(** a node that keeps what is delivered to it *)
#[local] Instance keeping : NodeProvider (list (Z * Z * Token)) := {|
  node_Trigger _ _ _ _ _ l := (Ok tt, l);
  node_Deliver _ _ _ cid uid token _ l := (Ok tt, l ++ [(cid, uid, token)]);
  node_GetState l := (Ok Cluster.Work, l);
  node_SetState _ l := (Ok tt, l)
|}.

Definition owner_of (g : Gate.Gate MemoryOwnershipStore.MemoryOwnershipStore) (uid : Z) : res (option Token) :=
  match Gate.store g with Some st => st_run (Current None uid) st | None => Panic end.

Definition stateful_route : Router.routeEntity :=
  Router.mkRouteEntity 7 None (Router.mkRouteOptions false true true []).
(** the request a node's router is handed *)
Definition arrived (d : Z * Z * Token) : Request.request :=
  let '(cid, uid, token) := d in
  Request.mkRequest Context.Background "gate-1" "" "" cid uid token (Link.mkMessage 3 7 Link.Nil) 1 None None.

(** C37: The user and the token of a request are read at different times, and
    the wire carries the user and the generation only.  A client's message is
    read while its connection holds user 9; before it is sent on, another
    connection takes user 9 over and the first one is bound to user 10, with
    the same generation.  The node is handed the token of the other connection,
    and lets the superseded client's request through to a stateful route. *)
Theorem rebind_race_passes_fence : exists x g s md y,
  owner_of (gate two_users) 9 = Ok (Some (mkToken 9 1)) /\
  receive bare 0 1%nat two_users = (Ok x, two_users) /\
  (binds 8 9 ;;; binds 7 10) (gate two_users) = (Ok tt, g) /\
  some_forward 1%nat to_route7 x (mkState g (linker two_users) []) = (Ok tt, s) /\
  last (Link.log (NodeLinker.env_ (linker s)))
    = Some (call_of (NodeDeliver "10.0.0.1:new" 7 9 (mkToken 10 2) md (raw to_route7))) /\
  Server.read (NodeServer.init queue1 malloc1) (fun _ => 0) (fun _ => false) 3
    (wire 1 (RHandshake Cluster.Gate [103]) ++ wire 0 (RDeliver 7 9 (Generation (mkToken 10 2)) md to_route7))
    (Server.mkServer [] (Server.newConn 0)) = Some (Server.Return, [], y) /\
  Server.provider y = [(7, 9, mkToken 9 2)] /\
  users (sess (Gate.world g)) !! 9 = Some 2%nat /\
  Router.validateSession true (owner_of g) (arrived (7, 9, mkToken 9 2)) stateful_route = Ok tt.
Proof.
  eexists _, _, _, Cluster.no_metadata, _. repeat (split; [vm_compute; reflexivity|]). vm_compute. reflexivity.
Qed.

(** ** Witness *)

Definition bound_gate : state MemoryOwnershipStore.MemoryOwnershipStore := mkState gate1 (sample_linker ∅) [].

Lemma bound_gate_wf : wf (Gate.world (gate bound_gate)).
Proof.
  assert (Gate.world gate1 = (BindToken 7 9 (mkToken 9 1) (Gate.world gate0)).2) as E by (vm_compute; reflexivity).
  pose proof (stable_BindToken accepting 7 9 (mkToken 9 1) ltac:(unfold inU; cbn; lia) _ (proj1 gate0_ok)) as Hs.
  cbn [gate bound_gate]. rewrite E. destruct (BindToken 7 9 (mkToken 9 1) (Gate.world gate0)) as [[] ?]; cbn in *; naive_solver.
Qed.

