(* ===== verification/FileSyncer.v ===== *)
(** log/file: the syncer that writes log entries to files and rotates them
    (syncer.go).

    The files are those of the syncer's directory, by name; a compressed file
    holds what it stands for.  What the operating system is asked is logged, and
    [answer] says which of these calls fail; a write that fails writes nothing.
    A goroutine is at one [stage] or at none; a region under the mutex that touches nothing
    else goroutines can see is one step, so [exec t x s] is the step of goroutine
    [t], and the clock shows [now] in it. *)
From stdpp Require Import base numbers list gmap strings.
From Stdlib Require Import ZArith Lia Ascii.
From S2P Require Import Prelude Types Decimal.

Open Scope Z_scope.
Open Scope go_scope.

Definition bytes_of (s : string) : list Z := (fun c => Z.of_N (N_of_ascii c)) <$> String.list_ascii_of_string s.

(** strings.Split by a byte *)
Fixpoint split_on (c : Z) (s : list Z) : list (list Z) :=
  match s with
  | [] => [[]]
  | x :: s' => if x =? c then [] :: split_on c s'
               else match split_on c s' with w :: ws => (x :: w) :: ws | [] => [[x]] end
  end.

(** strings.Join with a byte *)
Fixpoint join_with (c : Z) (ws : list (list Z)) : list Z :=
  match ws with
  | [] => []
  | [w] => w
  | w :: ws' => w ++ c :: join_with c ws'
  end.

(** strconv.ParseInt(v, 10, 64) and the verb d *)
Definition ParseInt (v : list Z) : option Z :=
  match v with
  | 45 :: r => match ParseUint 64 r with Some n => if n <=? 2 ^ 63 then Some (- n) else None | None => None end
  | 43 :: r => ParseUint 63 r
  | _ => ParseUint 63 v
  end.
Definition FormatInt (n : Z) : list Z := if n <? 0 then 45 :: FormatUint (- n) else FormatUint n.
(** %02d and the numbers of time.Format *)
Definition pad (w : nat) (n : Z) : list Z := repeat 48 (w - length (FormatUint n)) ++ FormatUint n.

Module Syncer.

Inductive Rotate := RotateNone | RotateYear | RotateMonth | RotateWeek | RotateDay | RotateHour | RotateOther.
#[export] Instance Rotate_eq_dec : EqDecision Rotate.
Proof. solve_decision. Defined.

(** a time, as the calendar of its location shows it *)
Record time := mkTime { Year : Z; Month : Z; Day : Z; Hour : Z; ISOYear : Z; ISOWeek : Z }.

(** path, taken apart by filepath.Split *)
Record options := mkOptions { dir : list Z; base : list Z; maxSize : Z; rotate : Rotate; compress : bool }.

(** buf is nil for the entries of the ticker *)
Record entry := mkEntry { now_ : time; buf : option (list Z) }.

Definition dot : Z := 46.
Definition gzipExt : list Z := bytes_of ".gz".

Section Names.
Context (opts : options).

(** fileName and fileExt, as init sets them *)
Definition fileName : list Z :=
  let l := split_on dot (base opts) in
  match length l with 1%nat => base opts | c => join_with dot (take (c - 1) l) end.
Definition fileExt : list Z :=
  let l := split_on dot (base opts) in
  match length l with 1%nat => [] | _ => dot :: default [] (last l) end.

Definition makeFileName (fileTag : list Z) (fileVersion : Z) (ext : list Z) : list Z :=
  if bool_decide (fileTag = []) then fileName ++ dot :: FormatInt fileVersion ++ ext
  else fileName ++ dot :: fileTag ++ dot :: FormatInt fileVersion ++ ext.

Definition makeFileTag (t : time) : list Z :=
  match rotate opts with
  | RotateYear => pad 4 (Year t)
  | RotateMonth => pad 4 (Year t) ++ pad 2 (Month t)
  | RotateWeek => FormatInt (ISOYear t) ++ pad 2 (ISOWeek t)
  | RotateDay => pad 4 (Year t) ++ pad 2 (Month t) ++ pad 2 (Day t)
  | RotateHour => pad 4 (Year t) ++ pad 2 (Month t) ++ pad 2 (Day t) ++ pad 2 (Hour t)
  | RotateNone | RotateOther => []
  end.

(** the body of the loop of parseFileMark: the tag and version a name carries *)
Definition file_mark (name : list Z) : res (option (list Z * Z)) :=
  if len name <? len fileName + len fileExt + 1 then Ok None else
  do head <- go_slice name 0 (len fileName);
  if negb (bool_decide (fileName = head)) then Ok None else
  do suffix <- go_slice name (len name - len fileExt) (len name);
  do fileTags <-
    (if bool_decide (fileExt = suffix)
     then do mid <- go_slice name (len fileName) (len name - len fileExt); Ok (Some (split_on dot mid))
     else do suffix <- go_slice name (len name - len gzipExt) (len name);
          if bool_decide (gzipExt = suffix)
          then do mid <- go_slice name (len fileName) (len name - len gzipExt); Ok (Some (split_on dot mid))
          else Ok None);
  Ok match fileTags with
     | Some [_; v] => match ParseInt v with Some n => Some ([], n) | None => None end
     | Some [_; tag; v] => match ParseInt v with Some n => Some (tag, n) | None => None end
     | _ => None
     end.

Definition filterFileMark (m : list Z * Z) (s : list Z * Z) : list Z * Z :=
  match lex m.1 s.1 with
  | Gt => m
  | Eq => if s.2 <? m.2 then (s.1, m.2) else s
  | Lt => s
  end.

(** entries that are directories are left out; os.ReadDir of an empty name fails *)
Fixpoint file_marks (names : list (list Z)) (s : list Z * Z) : res (list Z * Z) :=
  match names with
  | [] => Ok s
  | n :: ns => do m <- file_mark n; file_marks ns (match m with Some m => filterFileMark m s | None => s end)
  end.

Definition parseFileMark (names : res (list (list Z))) (now : time) (s : list Z * Z) : res (list Z * Z) * (list Z * Z) :=
  match names with
  | Err e => (Err e, s)
  | Panic => (Panic, s)
  | Ok ns => match file_marks ns s with
             | Ok s' => let s' := if bool_decide (makeFileTag now = s'.1) then s' else (makeFileTag now, 0) in (Ok s', s')
             | Err e => (Err e, s)
             | Panic => (Panic, s)
             end
  end.
End Names.

(** ** Files *)

Inductive content := Plain (bs : list Z) | Gzip (bs : list Z).
Definition text (c : content) : list Z := match c with Plain b | Gzip b => b end.

Inductive op :=
| OReadDir | OStatLog | OStatDir | OMkdir | OOpen | OStat | ORename (dst : list Z) | OClose | OWrite (bs : list Z)
| OOpenSrc (src : list Z) | OCreate (dst : list Z) | OCopy (src dst : list Z).

(** what the mutex guards; [file] tells whether the file is open, [jobs] are the
    goroutines that compress *)
Record out := mkOut {
  fileTag : list Z; fileVersion : Z; size : Z;
  file : option bool;
  writer : option (list Z * option error);
  fs : gmap (list Z) content;
  jobs : list (list Z * list Z);
  ops : list op
}.

Definition ErrClosed : error := ErrNew "file already closed".
Definition ErrNotExist : error := ErrNew "no such file or directory".
Definition bufferSize : Z := 4096.

Section Files.
Context (opts : options) (answer : list op -> op -> option error).

Definition ask (x : op) : ST out unit := fun s =>
  (match answer (ops s) x with None => Ok tt | Some e => Err e end,
   mkOut (fileTag s) (fileVersion s) (size s) (file s) (writer s) (fs s) (jobs s) (ops s ++ [x])).

Definition set_mark (m : list Z * Z) : ST out unit := fun s =>
  (Ok tt, mkOut m.1 m.2 (size s) (file s) (writer s) (fs s) (jobs s) (ops s)).
Definition set_size (n : Z) : ST out unit := fun s =>
  (Ok tt, mkOut (fileTag s) (fileVersion s) n (file s) (writer s) (fs s) (jobs s) (ops s)).
Definition set_file (f : option bool) : ST out unit := fun s =>
  (Ok tt, mkOut (fileTag s) (fileVersion s) (size s) f (writer s) (fs s) (jobs s) (ops s)).
Definition set_writer (w : option (list Z * option error)) : ST out unit := fun s =>
  (Ok tt, mkOut (fileTag s) (fileVersion s) (size s) (file s) w (fs s) (jobs s) (ops s)).
Definition set_fs (f : gmap (list Z) content -> gmap (list Z) content) : ST out unit := fun s =>
  (Ok tt, mkOut (fileTag s) (fileVersion s) (size s) (file s) (writer s) (f (fs s)) (jobs s) (ops s)).
Definition set_jobs (f : list (list Z * list Z) -> list (list Z * list Z)) : ST out unit := fun s =>
  (Ok tt, mkOut (fileTag s) (fileVersion s) (size s) (file s) (writer s) (fs s) (f (jobs s)) (ops s)).
Definition read {A} (f : out -> A) : ST out A := fun s => (Ok (f s), s).

Definition log_text (s : out) : list Z := match fs s !! base opts with Some c => text c | None => [] end.

(** os.File: Write appends *)
Definition file_Write (p : list Z) : ST out unit :=
  let! f := read file in
  if negb (bool_decide (f = Some true)) then st_err ErrClosed else
  ask (OWrite p) ;;;
  let! old := read log_text in set_fs (<[base opts := Plain (old ++ p)]>).

Definition file_Close : ST out unit :=
  let! f := read file in
  if negb (bool_decide (f = Some true)) then st_err ErrClosed else
  set_file (Some false) ;;; ask OClose.

(** bufio.Writer: an error stays *)
Definition through (b p : list Z) : ST out unit :=
  let! r := st_try (file_Write p) in
  match r with
  | inl _ => set_writer (Some ([], None))
  | inr e => set_writer (Some (b, Some e)) ;;; st_err e
  end.

Definition Flush : ST out unit :=
  let! w := read writer in
  match w with
  | None => st_panic
  | Some (b, Some e) => st_err e
  | Some ([], None) => st_ret tt
  | Some (b, None) => through b b
  end.

Definition writer_Write (p : list Z) : ST out Z :=
  let! w := read writer in
  match w with
  | None => st_panic
  | Some (b, Some e) => st_err e
  | Some (b, None) =>
      if len p <=? bufferSize - len b then set_writer (Some (b ++ p, None)) ;;; st_ret (len p)
      else if bool_decide (b = []) then through [] p ;;; st_ret (len p)
      else
        let k := Z.to_nat (bufferSize - len b) in
        through (b ++ take k p) (b ++ take k p) ;;;
        (if len (drop k p) <=? bufferSize then set_writer (Some (drop k p, None)) else through [] (drop k p)) ;;;
        st_ret (len p)
  end.

Definition openFile (now : time) : ST out unit :=
  let! st := st_try (ask OStatDir) in
  (match st with inl _ => st_ret tt | inr _ => ask OMkdir end) ;;;
  let! tag := read fileTag in
  let! version := read fileVersion in
  (if bool_decide (makeFileTag opts now = tag) then set_mark (tag, wrapS 64 (version + 1)) else set_mark (makeFileTag opts now, 1)) ;;;
  ask OOpen ;;;
  let! old := read log_text in
  set_fs (<[base opts := Plain old]>) ;;;
  ask OStat ;;;
  set_size (len old) ;;; set_file (Some true) ;;; set_writer (Some ([], None)).

Definition doRotateFile (tag : list Z) (version : Z) (now : time) : ST out unit :=
  let filePath := makeFileName opts tag version (fileExt opts) in
  ask (ORename filePath) ;;;
  let! files := read fs in
  match files !! base opts with
  | None => st_err ErrNotExist
  | Some c =>
      set_fs (fun m => <[filePath := c]> (delete (base opts) m)) ;;;
      openFile now ;;;
      if negb (compress opts) then st_ret tt
      else set_jobs (fun l => l ++ [(makeFileName opts tag version gzipExt, filePath)])
  end.

Definition rotateFile (now : time) : ST out unit :=
  let! f := read file in
  match f with
  | None => st_ret tt
  | Some _ =>
      file_Close ;;;
      let! tag := read fileTag in let! version := read fileVersion in doRotateFile tag version now
  end.

Definition writeEntry (now : time) (e : entry) (isAutoFlush : bool) : ST out unit :=
  let! tag := read fileTag in
  (if negb (bool_decide (rotate opts = RotateNone)) && negb (bool_decide (makeFileTag opts (now_ e) = tag))
   then Flush ;;; rotateFile now else st_ret tt) ;;;
  match buf e with
  | Some p => let! n := writer_Write p in let! sz := read size in set_size (sz + n)
  | None => st_ret tt
  end ;;;
  (if isAutoFlush : bool then Flush else st_ret tt) ;;;
  let! sz := read size in
  if maxSize opts <=? sz then Flush ;;; rotateFile now else st_ret tt.

(** the source is removed when nothing failed *)
Definition compressFile (dst src : list Z) : ST out unit :=
  ask (OOpenSrc src) ;;;
  let! files := read fs in
  match files !! src with
  | None => st_err ErrNotExist
  | Some _ =>
      ask (OCreate dst) ;;;
      set_fs (<[dst := Gzip []]>) ;;;
      ask (OCopy src dst) ;;;
      set_fs (fun m => match m !! src with Some c => delete src (<[dst := Gzip (text c)]> m) | None => m end)
  end.

(** init: [created] is the creation time of the log file *)
Definition init (names : res (list (list Z))) (created : option time) (now : time) : ST out unit :=
  let! tag := read fileTag in
  let! version := read fileVersion in
  let '(r, m) := parseFileMark opts names now (tag, version) in
  set_mark m ;;;
  match r with
  | Panic => st_panic
  | Err _ => st_ret tt
  | Ok _ =>
      match created with
      | None => st_ret tt
      | Some t =>
          let tag := makeFileTag opts t in
          if bool_decide (tag = m.1) then st_ret tt
          else let! _ := st_try (doRotateFile tag m.2 now) in st_ret tt
      end
  end.
End Files.

(** ** Goroutines *)

Definition ErrSyncerClosed : error := ErrNew "syncer is closed".

(** whose flush it is: of a direct write, of tryFlushToFile, of Close *)
Inductive flusher := KWrite | KTry | KClose.

Inductive stage :=
| WEnter (e : entry) | WTry (e : entry) | WLocked (e : entry)
| WSend (e : entry) | WCount | WHead | WTryFlush
(* flushToFile: before acc.Load, before the receive of one of [n] entries, with
   one received, before the entry given by the caller *)
| FLoad (oe : option entry) (k : flusher) | FRecv (n : Z) (oe : option entry) (k : flusher)
| FPut (e : entry) (n : Z) (oe : option entry) (k : flusher) | FLast (oe : option entry) (k : flusher)
| CEnter | CWait.

Inductive happening :=
| EAccept (p : option (list Z)) (* an entry was put into the queue or is about to be written *)
| EPut (p : option (list Z)) (* writeEntry was called for it *)
| EWrote (t : nat) (r : option error) | EClosed (t : nat) (r : option error).

Record syncer := mkSyncer {
  o : out;
  acc : Z;
  chEntry : list entry;
  closing : bool;
  flushing : bool;
  mu : option nat;
  threads : gmap nat (list stage);
  log : list happening
}.

Definition goto (t : nat) (k : list stage) (s : syncer) : syncer :=
  mkSyncer (o s) (acc s) (chEntry s) (closing s) (flushing s) (mu s) (<[t := k]> (threads s)) (log s).
Definition note (h : happening) (s : syncer) : syncer :=
  mkSyncer (o s) (acc s) (chEntry s) (closing s) (flushing s) (mu s) (threads s) (log s ++ [h]).
Definition set_o (x : out) (s : syncer) : syncer :=
  mkSyncer x (acc s) (chEntry s) (closing s) (flushing s) (mu s) (threads s) (log s).
Definition set_acc (n : Z) (s : syncer) : syncer :=
  mkSyncer (o s) n (chEntry s) (closing s) (flushing s) (mu s) (threads s) (log s).
Definition set_ch (l : list entry) (s : syncer) : syncer :=
  mkSyncer (o s) (acc s) l (closing s) (flushing s) (mu s) (threads s) (log s).
Definition set_closing (s : syncer) : syncer :=
  mkSyncer (o s) (acc s) (chEntry s) true (flushing s) (mu s) (threads s) (log s).
Definition set_flushing (b : bool) (s : syncer) : syncer :=
  mkSyncer (o s) (acc s) (chEntry s) (closing s) b (mu s) (threads s) (log s).
Definition set_mu (m : option nat) (s : syncer) : syncer :=
  mkSyncer (o s) (acc s) (chEntry s) (closing s) (flushing s) m (threads s) (log s).

Definition queueSize : Z := 4096.

(** one job is done *)
Fixpoint remove_one {A} `{EqDecision A} (x : A) (l : list A) : list A :=
  match l with [] => [] | y :: l' => if decide (x = y) then l' else y :: remove_one x l' end.

Inductive action := XWrite (e : entry) | XTick | XClose | XCompress (dst src : list Z) | XGo.

Section Goroutines.
Context (opts : options) (answer : list op -> op -> option error).

Definition err_of {A} (r : res A) : option error := match r with Err e => Some e | _ => None end.

(** the end of flushToFile: the deferred reset, and what its caller does *)
Definition flushed (t : nat) (k : flusher) (r : option error) (s : syncer) : syncer :=
  let s := set_flushing false s in
  match k with
  | KWrite => goto t [] (note (EWrote t r) (set_mu None s))
  | KTry => goto t [] (note (EWrote t None) (set_mu None s))
  | KClose => goto t [CWait] s
  end.

(** writeEntry in a flush; [next] is where it goes on *)
Definition put (t : nat) (now : time) (e : entry) (auto : bool) (k : flusher) (next : syncer -> syncer) (s : syncer)
    : option syncer :=
  let '(r, x) := writeEntry opts answer now e auto (o s) in
  let s := note (EPut (buf e)) (set_o x s) in
  match r with
  | Ok _ => Some (next s)
  | Err e => Some (flushed t k (Some e) s)
  | Panic => None
  end.

Definition step (t : nat) (st : stage) (now : time) (s : syncer) : option syncer :=
  match st with
  | WEnter e =>
      Some (if closing s then goto t [] (note (EWrote t (Some ErrSyncerClosed)) s) else goto t [WTry e] s)
  | WTry e =>
      Some match mu s with
           | None => goto t [WLocked e] (set_mu (Some t) s)
           | Some _ => goto t [WSend e] s
           end
  | WLocked e =>
      Some (if closing s then goto t [] (note (EWrote t (Some ErrSyncerClosed)) (set_mu None s))
            else goto t [FLoad (Some e) KWrite] (note (EAccept (buf e)) s))
  | WSend e =>
      if len (chEntry s) <? queueSize
      then Some (goto t [WCount] (note (EAccept (buf e)) (set_ch (chEntry s ++ [e]) s))) else None
  | WCount => Some (goto t [WHead] (set_acc (acc s + 1) s))
  | WHead => Some (if flushing s then goto t [] (note (EWrote t None) s) else goto t [WTryFlush] s)
  | WTryFlush =>
      Some match mu s with
           | None => goto t [FLoad None KTry] (set_mu (Some t) s)
           | Some _ => goto t [WHead] s
           end
  | FLoad oe k =>
      let n := acc s in
      let '(r, x) := if ((0 <? n) || bool_decide (is_Some oe)) && bool_decide (file (o s) = None)
                     then openFile opts answer now (o s) else (Ok tt, o s) in
      let s := set_o x s in
      match r with
      | Ok _ => Some (if 0 <? n then goto t [FRecv n oe k] (set_flushing true s) else goto t [FLast oe k] s)
      | Err e => Some (flushed t k (Some e) s)
      | Panic => None
      end
  | FRecv n oe k =>
      match chEntry s with
      | e :: l => Some (goto t [FPut e n oe k] (set_ch l s))
      | [] => None
      end
  | FPut e n oe k =>
      put t now e false k (fun s => if n =? 1 then goto t [FLast oe k] s else goto t [FRecv (n - 1) oe k] s)
        (set_acc (acc s - 1) s)
  | FLast (Some e) k => put t now e true k (flushed t k None) s
  | FLast None k => Some (flushed t k None s)
  | CEnter =>
      match mu s with
      | None => Some (if closing s then goto t [] (note (EClosed t (Some ErrSyncerClosed)) s)
                      else goto t [FLoad None KClose] (set_closing (set_mu (Some t) s)))
      | Some _ => None
      end
  | CWait =>
      if bool_decide (jobs (o s) = []) then
        let '(r, x) := if bool_decide (file (o s) = None) then (Ok tt, o s) else file_Close answer (o s) in
        Some (goto t [] (note (EClosed t (err_of r)) (set_mu None (set_o x s))))
      else None
  end.

Definition exec (t : nat) (x : action) (now : time) (s : syncer) : option syncer :=
  match x, default [] (threads s !! t) with
  | XWrite e, [] => Some (goto t [WEnter e] s)
  | XClose, [] => Some (goto t [CEnter] s)
  | XTick, [] =>
      if bool_decide (rotate opts = RotateNone) || closing s then None
      else Some (if bool_decide (makeFileTag opts now = fileTag (o s)) then s else goto t [WTry (mkEntry now None)] s)
  | XCompress dst src, _ =>
      if bool_decide ((dst, src) ∈ jobs (o s)) then
        let '(r, x) := compressFile answer dst src (o s) in
        Some (set_o (snd (set_jobs (remove_one (dst, src)) x)) s)
      else None
  | XGo, st :: _ => step t st now s
  | _, _ => None
  end.

Fixpoint run (xs : list (nat * action * time)) (s : syncer) : option syncer :=
  match xs with
  | [] => Some s
  | (t, x, now) :: xs' => match exec t x now s with Some s' => run xs' s' | None => None end
  end.

(** NewSyncer on a directory *)
Definition NewSyncer (files : gmap (list Z) content) (created : option time) (now : time) : res unit * syncer :=
  let names := if bool_decide (dir opts = []) then Err ErrNotExist else Ok (map_to_list files).*1 in
  let '(r, x) := init opts answer names created now (mkOut [] 0 0 None None files [] []) in
  (r, mkSyncer x 0 [] false false None ∅ []).
End Goroutines.
End Syncer.
