(* ===== verification/FileSyncerNames.v ===== *)
(** log/file: names of rotated files.  A name carries its tag and version, so
    different marks have different names, none of them the log file's, and the
    syncer reads the mark back. *)
From stdpp Require Import base numbers list gmap strings.
From Stdlib Require Import ZArith Lia.
From S2P Require Import Prelude Types Decimal FileSyncer.
Import Syncer.

Open Scope Z_scope.
Open Scope go_scope.

(** ** Splitting *)

Definition nodot (s : list Z) : Prop := dot ∉ s.

Lemma split_cons c s : exists w ws, split_on c s = w :: ws.
Proof.
  destruct s as [|x s]; cbn [split_on]; [by do 2 eexists|]. destruct (x =? c); [by do 2 eexists|].
  by destruct (split_on c s); do 2 eexists.
Qed.

Lemma split_nodot s : nodot s -> split_on dot s = [s].
Proof.
  unfold nodot. induction s as [|x s IH]; intros H; [done|]. cbn [split_on].
  rewrite not_elem_of_cons in H. destruct H as [Hx Hs]. rewrite IH by done.
  by destruct (Z.eqb_spec x dot); [congruence|].
Qed.

Lemma split_app a b : split_on dot (a ++ dot :: b) = split_on dot a ++ split_on dot b.
Proof.
  induction a as [|x a IH]; cbn [app split_on]; [done|]. rewrite IH. destruct (x =? dot); [done|].
  by destruct (split_cons dot a) as (w & ws & ->).
Qed.

Lemma split_all s : Forall nodot (split_on dot s).
Proof.
  unfold nodot. induction s as [|x s IH]; cbn [split_on]; [constructor; [apply not_elem_of_nil|constructor]|].
  destruct (Z.eqb_spec x dot); [constructor; [apply not_elem_of_nil|done]|].
  destruct (split_cons dot s) as (w & ws & E). rewrite E in *. apply Forall_cons in IH as [Hw Hs].
  constructor; [|done]. rewrite not_elem_of_cons. split; [congruence|done].
Qed.

Lemma join_split s : join_with dot (split_on dot s) = s.
Proof.
  induction s as [|x s IH]; [done|]. cbn [split_on]. destruct (split_cons dot s) as (w & ws & E). rewrite E in *.
  destruct (Z.eqb_spec x dot) as [->|].
  - change (dot :: join_with dot (w :: ws) = dot :: s). by rewrite IH.
  - rewrite <- IH. by destruct ws.
Qed.

Lemma split_join ws : ws <> [] -> Forall nodot ws -> split_on dot (join_with dot ws) = ws.
Proof.
  intros Hne Hn. induction Hn as [|w ws Hw Hn IH]; [done|]. destruct ws as [|w' ws].
  - by apply split_nodot.
  - change (split_on dot (w ++ dot :: join_with dot (w' :: ws)) = w :: w' :: ws).
    rewrite split_app, split_nodot by done. by rewrite IH.
Qed.

(** ** Digits *)

Lemma format_digits fuel n acc : forallb digit acc = true -> forallb digit (format fuel n acc) = true.
Proof.
  revert n acc. induction fuel as [|f IH]; intros n acc Ha; cbn [format];
    assert (forallb digit ((48 + n mod 10) :: acc) = true) as H
      by (cbn [forallb]; rewrite Ha, andb_true_r; unfold digit; pose proof (Z.mod_pos_bound n 10); lia);
    destruct (n <? 10); try done. by apply IH.
Qed.

Lemma FormatUint_digits n : forallb digit (FormatUint n) = true.
Proof. by apply format_digits. Qed.

Lemma digits_nodot v : forallb digit v = true -> nodot v.
Proof.
  unfold nodot. intros H Hin. rewrite forallb_forall in H. apply list_elem_of_In, H in Hin. by vm_compute in Hin.
Qed.

Lemma FormatInt_nodot n : nodot (FormatInt n).
Proof.
  unfold FormatInt. pose proof (digits_nodot _ (FormatUint_digits (-n))). pose proof (digits_nodot _ (FormatUint_digits n)).
  unfold nodot in *. destruct (n <? 0); [|done]. by rewrite not_elem_of_cons.
Qed.

Lemma pad_nodot w n : nodot (pad w n).
Proof.
  unfold pad, nodot. rewrite elem_of_app. intros [H|H]; [|by apply (digits_nodot _ (FormatUint_digits n))].
  apply list_elem_of_In, repeat_spec in H. done.
Qed.

Lemma makeFileTag_nodot opts t : nodot (makeFileTag opts t).
Proof.
  assert (forall a b, nodot a -> nodot b -> nodot (a ++ b)) as Happ by (unfold nodot; intros a b; rewrite elem_of_app; tauto).
  unfold makeFileTag. destruct (rotate opts); eauto 6 using pad_nodot, FormatInt_nodot; apply not_elem_of_nil.
Qed.

Definition version (v : Z) : Prop := 0 <= v < 2 ^ 63.

Lemma FormatInt_pos v : version v -> FormatInt v = FormatUint v.
Proof. unfold version, FormatInt. intros Hv. by destruct (Z.ltb_spec v 0); [lia|]. Qed.

Lemma FormatInt_inj v w : version v -> version w -> FormatInt v = FormatInt w -> v = w.
Proof. intros Hv Hw. rewrite !FormatInt_pos by done. unfold version in *. intros E. apply FormatUint_inj in E; lia. Qed.

Lemma ParseInt_FormatInt v : version v -> ParseInt (FormatInt v) = Some v.
Proof.
  intros Hv. rewrite FormatInt_pos by done. assert (ParseUint 63 (FormatUint v) = Some v) as E.
  { apply parse_format; unfold version in Hv; lia. }
  pose proof (FormatUint_digits v) as Hd. unfold ParseInt. destruct (FormatUint v) as [|c r]; [done|].
  cbn [forallb] in Hd. unfold digit in Hd. destruct (decide (c = 45)) as [->|]; [done|]. destruct (decide (c = 43)) as [->|]; [done|].
  repeat case_match; congruence.
Qed.

(** ** Names *)

Definition shape (e : list Z) : Prop := e = [] \/ exists x, e = dot :: x /\ nodot x.
Definition segs (e : list Z) : list (list Z) := match e with [] => [] | _ :: x => [x] end.

Lemma gzip_shape : shape gzipExt.
Proof. right. exists (bytes_of "gz"). split; [done|]. apply (bool_decide_unpack (dot ∉ bytes_of "gz")). by vm_compute. Qed.

Lemma split_ext a e : shape e -> split_on dot (a ++ e) = match e with [] => split_on dot a | _ => split_on dot a ++ segs e end.
Proof. intros [->|(x & -> & Hx)]; [by rewrite app_nil_r|]. by rewrite split_app, (split_nodot x). Qed.

Section Names.
Context (opts : options).
Abbreviation fileName := (fileName opts).
Abbreviation fileExt := (fileExt opts).
Abbreviation makeFileName := (makeFileName opts).

(** a base without a dot, or with a part after its last dot *)
Lemma base_cases : (split_on dot (base opts) = [base opts] /\ fileName = base opts /\ fileExt = []) \/
  exists ws x, ws <> [] /\ split_on dot (base opts) = ws ++ [x] /\ fileName = join_with dot ws /\ fileExt = dot :: x.
Proof.
  unfold Syncer.fileName, Syncer.fileExt. pose proof (join_split (base opts)) as Hj.
  destruct (split_cons dot (base opts)) as (w & ws & E). rewrite E in *.
  destruct ws as [|x ws _] using rev_ind; [left; by rewrite <- Hj|]. right. exists (w :: ws), x.
  replace (length (w :: ws ++ [x])) with (S (S (length ws))) by (cbn; rewrite length_app; cbn; lia).
  split; [done|]. split; [done|]. split.
  - f_equal. replace (S (S (length ws)) - 1)%nat with (length (w :: ws)) by (cbn; lia). change (w :: ws ++ [x]) with ((w :: ws) ++ [x]). by rewrite take_app_length.
  - f_equal. change (w :: ws ++ [x]) with ((w :: ws) ++ [x]). by rewrite last_snoc.
Qed.

Lemma join_snoc ws x : ws <> [] -> join_with dot (ws ++ [x]) = join_with dot ws ++ dot :: x.
Proof.
  induction ws as [|w ws IH]; [done|]. intros _. destruct ws as [|w' ws]; [done|].
  change (w ++ dot :: join_with dot ((w' :: ws) ++ [x]) = (w ++ dot :: join_with dot (w' :: ws)) ++ dot :: x).
  rewrite IH by done. by rewrite <- app_assoc.
Qed.

Lemma base_parts : shape fileExt /\ split_on dot (base opts) = split_on dot fileName ++ segs fileExt /\
  fileName ++ fileExt = base opts.
Proof.
  pose proof (split_all (base opts)) as Hn. pose proof (join_split (base opts)) as Hj.
  destruct base_cases as [(E & -> & ->)|(ws & x & Hw & E & -> & ->)].
  - cbn [segs]. rewrite !app_nil_r. by split; [left|].
  - rewrite E in *. apply Forall_app in Hn as [Hn Hx]. apply Forall_cons in Hx as [Hx _].
    split; [right; by exists x|]. split; [by rewrite split_join|]. by rewrite <- Hj, join_snoc.
Qed.

(** what stands between the name and the extension *)
Definition marks (tag : list Z) (v : Z) : list (list Z) := (if bool_decide (tag = []) then [] else [tag]) ++ [FormatInt v].

Lemma split_name tag v e : nodot tag -> shape e ->
  split_on dot (makeFileName tag v e) = split_on dot fileName ++ marks tag v ++ segs e.
Proof.
  intros Ht He. assert (split_on dot (FormatInt v ++ e) = FormatInt v :: segs e) as Ev.
  { rewrite split_ext, (split_nodot (FormatInt v)) by (done || apply FormatInt_nodot). by destruct e. }
  unfold Syncer.makeFileName, marks. case_bool_decide; rewrite !split_app, Ev; [done|]. by rewrite (split_nodot tag).
Qed.

Lemma marks_inj t1 v1 t2 v2 : version v1 -> version v2 -> marks t1 v1 = marks t2 v2 -> t1 = t2 /\ v1 = v2.
Proof.
  intros H1 H2 E. unfold marks in E. apply app_inj_tail in E as [E Ev]. apply FormatInt_inj in Ev; [|done..].
  split; [|done]. repeat case_bool_decide; simplify_eq; done.
Qed.

Lemma marks_gz t v l : version v -> marks t v <> l ++ [bytes_of "gz"].
Proof.
  intros Hv E. unfold marks in E. apply app_inj_tail in E as [_ E]. pose proof (FormatUint_digits v) as Hd.
  by rewrite <- FormatInt_pos, E in Hd.
Qed.

(** different extensions give different names *)
Lemma ext_differs t1 v1 t2 v2 : nodot t1 -> nodot t2 -> version v1 -> fileExt <> gzipExt ->
  makeFileName t1 v1 fileExt <> makeFileName t2 v2 gzipExt.
Proof.
  intros H1 H2 Hv Hx E. apply (f_equal (split_on dot)) in E. destruct base_parts as (Hs & _).
  rewrite !split_name in E by (done || apply gzip_shape). apply app_inv_head in E. change (segs gzipExt) with [bytes_of "gz"] in E.
  destruct Hs as [Hs|(x & Hs & _)]; rewrite Hs in E, Hx; cbn [segs] in E.
  - rewrite app_nil_r in E. by eapply marks_gz.
  - apply app_inj_tail in E as [_ ->]. done.
Qed.

Lemma name_inj t1 v1 t2 v2 e : nodot t1 -> nodot t2 -> version v1 -> version v2 -> shape e ->
  makeFileName t1 v1 e = makeFileName t2 v2 e -> t1 = t2 /\ v1 = v2.
Proof.
  intros H1 H2 Hv1 Hv2 He E. apply (f_equal (split_on dot)) in E. rewrite !split_name in E by done.
  apply app_inv_head, app_inv_tail in E. by apply marks_inj.
Qed.

(** the log file itself is none of them *)
Lemma name_not_base t v e : nodot t -> e = fileExt \/ e = gzipExt -> makeFileName t v e <> base opts.
Proof.
  intros Ht He E. apply (f_equal (fun n => length (split_on dot n))) in E. destruct base_parts as (Hs & Eb & _).
  rewrite Eb, split_name, !length_app in E by (done || destruct He as [->| ->]; done || apply gzip_shape).
  assert (length (marks t v) = (if bool_decide (t = []) then 1 else 2)%nat) as Em by (unfold marks; by case_bool_decide).
  rewrite Em in E. destruct He as [->| ->]; [case_bool_decide; lia|].
  change (length (segs gzipExt)) with 1%nat in E. destruct Hs as [Hs|(x & Hs & _)]; rewrite Hs in E; cbn in E; case_bool_decide; lia.
Qed.

Lemma slice_mid (a b c : list Z) lo hi : lo = len a -> hi = len a + len b -> go_slice (a ++ b ++ c) lo hi = Ok b.
Proof.
  intros -> ->. unfold go_slice, len. rewrite !length_app, !Nat2Z.inj_add.
  rewrite (proj2 (Z.leb_le 0 _)), (proj2 (Z.leb_le _ _)), (proj2 (Z.leb_le _ _)) by lia. cbn [andb].
  rewrite Nat2Z.id, drop_app_length.
  by replace (Z.to_nat _) with (length b) by lia; rewrite take_app_length.
Qed.

(** the mark of a name that starts with the file's name and ends with [e] *)
Lemma middle_mark tag v e : nodot tag -> version v -> shape e ->
  exists mid, makeFileName tag v e = fileName ++ mid ++ e /\ mid <> [] /\
    split_on dot mid = [] :: marks tag v.
Proof.
  intros Ht Hv He. pose proof (FormatInt_nodot v) as Hf. unfold Syncer.makeFileName, marks. case_bool_decide.
  - exists (dot :: FormatInt v). split; [done|]. split; [done|]. cbn [split_on]. rewrite Z.eqb_refl. by rewrite split_nodot.
  - exists (dot :: tag ++ dot :: FormatInt v). split; [cbn; by rewrite <- app_assoc|]. split; [done|].
    cbn [split_on]. rewrite Z.eqb_refl, split_app. by rewrite !split_nodot.
Qed.
(** the end of a name tells its extension *)
Lemma suffix_dot (b e x : list Z) : nodot x -> shape e -> e <> [] -> len e <= len (b ++ dot :: x) ->
  drop (length (b ++ dot :: x) - length e) (b ++ dot :: x) = e -> e = dot :: x.
Proof.
  intros Hx [->|(y & -> & Hy)] He Hl E; [done|]. f_equal.
  assert (b ++ dot :: x = take (length (b ++ dot :: x) - length (dot :: y)) (b ++ dot :: x) ++ dot :: y) as Es
    by (rewrite <- E at 2; by rewrite take_drop).
  apply (f_equal (fun n => last (split_on dot n))) in Es. rewrite !split_app, (split_nodot x), (split_nodot y), !last_snoc in Es by done.
  congruence.
Qed.

Lemma slice_end (l : list Z) k : 0 <= k <= len l -> go_slice l (len l - k) (len l) = Ok (drop (length l - Z.to_nat k) l).
Proof.
  intros Hk. unfold go_slice, len in *.
  rewrite (proj2 (Z.leb_le 0 _)), (proj2 (Z.leb_le _ _)), (proj2 (Z.leb_le _ _)) by lia. cbn [andb]. f_equal.
  replace (Z.to_nat (Z.of_nat (length l) - k)) with (length l - Z.to_nat k)%nat by lia.
  rewrite take_ge; [done|]. rewrite length_drop. lia.
Qed.

(** a mark is read back from the name, compressed or not *)
Lemma file_mark_name tag v e : nodot tag -> version v -> (e = fileExt \/ e = gzipExt /\ fileExt <> [] /\ len fileExt <= 4) ->
  file_mark opts (makeFileName tag v e) = Ok (Some (tag, v)).
Proof.
  intros Ht Hv He. destruct base_parts as (Hs & _).
  assert (shape e) as Hse by (destruct He as [->|[-> _]]; [done|apply gzip_shape]).
  destruct (middle_mark tag v e Ht Hv Hse) as (mid & E & Hm & Hsp).
  assert (2 <= len mid) as Hlm.
  { destruct mid as [|x [|y mid]]; [done| |unfold len; cbn; lia]. exfalso. cbn in Hsp. destruct (x =? dot); [|done].
    injection Hsp as Hsp. unfold marks in Hsp. case_bool_decide; [|done]. injection Hsp as Hsp.
    pose proof (ParseInt_FormatInt v Hv) as Hp. by rewrite <- Hsp in Hp. }
  assert (forall l, l = [] :: marks tag v -> match l with
     | [_; v] => match ParseInt v with Some n => Some ([], n) | None => None end
     | [_; tag; v] => match ParseInt v with Some n => Some (tag, n) | None => None end
     | _ => None end = Some (tag, v)) as Hmark.
  { intros l ->. unfold marks. case_bool_decide; cbn [app]; by rewrite ParseInt_FormatInt; subst. }
  rewrite E. unfold file_mark. rewrite !len_app.
  assert (go_slice (fileName ++ mid ++ e) 0 (len fileName) = Ok fileName) as Hh
    by (apply (slice_mid [] fileName (mid ++ e)); unfold len; cbn; lia).
  assert (forall e', e' = e -> go_slice (fileName ++ mid ++ e) (len fileName + (len mid + len e) - len e') (len fileName + (len mid + len e)) = Ok e) as Hsuf.
  { intros e' ->. pose proof (slice_mid (fileName ++ mid) e []) as Hx. rewrite app_nil_r, <- app_assoc in Hx.
    apply Hx; rewrite len_app; lia. }
  assert (forall e', e' = e -> go_slice (fileName ++ mid ++ e) (len fileName) (len fileName + (len mid + len e) - len e') = Ok mid) as Hmid.
  { intros e' ->. apply slice_mid; lia. }
  rewrite Hh. destruct He as [->|(-> & Hne & Hle)].
  - rewrite (proj2 (Z.ltb_ge _ _)) by lia. cbn [res_bind]. rewrite bool_decide_true by done. cbn [negb].
    rewrite Hsuf by done. cbn [res_bind]. rewrite bool_decide_true by done. rewrite Hmid by done. cbn [res_bind]. by rewrite Hmark.
  - change (len gzipExt) with 3 in *. rewrite (proj2 (Z.ltb_ge _ _)) by lia. cbn [res_bind]. rewrite bool_decide_true by done. cbn [negb].
    assert (len (fileName ++ mid ++ gzipExt) = len fileName + (len mid + 3)) as Hlen by (by rewrite !len_app).
    pose proof (len_nonneg fileName) as Hf0. pose proof (len_nonneg fileExt) as He0.
    pose proof (slice_end (fileName ++ mid ++ gzipExt) (len fileExt) ltac:(lia)) as Hend. rewrite Hlen in Hend. rewrite Hend. cbn [res_bind].
    pose proof (Hsuf gzipExt eq_refl) as Hs3. pose proof (Hmid gzipExt eq_refl) as Hm3. change (len gzipExt) with 3 in Hs3, Hm3.
    case_bool_decide as Hext.
    + assert (fileExt = gzipExt) as Eg.
      { destruct gzip_shape as [?|(x & Ex & Hx)]; [done|]. rewrite Ex in *. apply (suffix_dot (fileName ++ mid)); try done.
        - rewrite <- app_assoc. lia.
        - rewrite <- app_assoc. symmetry. unfold len in Hext. by rewrite Nat2Z.id in Hext. }
      rewrite Eg. change (len gzipExt) with 3. rewrite Hm3. cbn [res_bind]. by rewrite Hmark.
    + rewrite Hs3. cbn [res_bind]. rewrite bool_decide_true by done. rewrite Hm3. cbn [res_bind]. by rewrite Hmark.
Qed.
End Names.
