(* ===== verification/FileSyncerOk.v ===== *)
(** log/file: what the files hold.  While no call of the system fails, nothing
    that was archived is touched, and archives, log file and buffer together
    hold what was written, in order. *)
From stdpp Require Import base numbers list gmap strings.
From Stdlib Require Import ZArith Lia.
From S2P Require Import Prelude Types Decimal FileSyncer FileSyncerNames Threads.
Import Syncer.

Open Scope Z_scope.
Open Scope go_scope.

(** ** Order of tags *)

Lemma lex_refl a : lex a a = Eq.
Proof. induction a as [|x a IH]; [done|]. cbn [lex]. by rewrite Z.compare_refl. Qed.

Lemma lex_eq a b : lex a b = Eq -> a = b.
Proof.
  revert b. induction a as [|x a IH]; intros [|y b]; try done. cbn [lex].
  destruct (Z.compare_spec x y) as [->| |]; try done. intros H. f_equal. by apply IH.
Qed.

Lemma lex_lt_trans a b c : lex a b = Lt -> lex b c = Lt -> lex a c = Lt.
Proof.
  revert b c. induction a as [|x a IH]; intros [|y b] [|z c]; try done. cbn [lex].
  destruct (Z.compare_spec x y) as [->| |]; try done.
  - destruct (Z.compare_spec y z); try done. by apply IH.
  - intros _. destruct (Z.compare_spec y z) as [->| |]; try done; intros _; by rewrite (proj2 (Z.compare_lt_iff x z)) by lia.
Qed.

(** ** Archives *)

Definition mark (m : list Z * Z) : Prop := nodot m.1 /\ version m.2.
Definition buffered (x : out) : list Z := match writer x with Some (b, _) => b | None => [] end.

Section Files.
Context (opts : options) (answer : list op -> op -> option error).
Context (Hext : fileExt opts <> gzipExt).

Abbreviation log_text := (log_text opts).
Abbreviation plain m := (makeFileName opts (fst m) (snd m) (fileExt opts)).
Abbreviation gzip m := (makeFileName opts (fst m) (snd m) gzipExt).

(** what the archive with a mark holds *)
Definition archived (f : gmap (list Z) content) (m : list Z * Z) : option (list Z) :=
  match f !! plain m with Some c => Some (text c) | None => text <$> f !! gzip m end.
Abbreviation archive x := (archived (fs x)).

Lemma archive_base f c m : mark m -> archived (<[base opts := c]> f) m = archived f m.
Proof.
  intros [Hm _]. unfold archived. rewrite !lookup_insert_ne; [done|..]; intros E; symmetry in E;
    by apply name_not_base in E; auto.
Qed.
Lemma archive_base_delete f m : mark m -> archived (delete (base opts) f) m = archived f m.
Proof.
  intros [Hm _]. unfold archived. rewrite !lookup_delete_ne; [done|..]; intros E; symmetry in E;
    by apply name_not_base in E; auto.
Qed.

(** a file is put under the name of a mark *)
Lemma archive_insert f c m m' : mark m -> mark m' ->
  archived (<[plain m := c]> f) m' = if decide (m' = m) then Some (text c) else archived f m'.
Proof.
  intros [H1 H2] [H1' H2']. unfold archived. destruct (decide (m' = m)) as [->|Hn]; [by rewrite lookup_insert_eq|].
  destruct (base_parts opts) as [Hs _]. rewrite !lookup_insert_ne; [done|..].
  - by apply ext_differs.
  - intros E. apply name_inj in E as [? ?]; try done. by destruct m, m'; simplify_eq/=.
Qed.

(** a file is compressed *)
Lemma archive_compress f c m m' : mark m -> mark m' -> f !! plain m = Some c ->
  archived (delete (plain m) (<[gzip m := Gzip (text c)]> f)) m' = archived f m'.
Proof.
  intros [H1 H2] [H1' H2'] Hc. unfold archived. destruct (base_parts opts) as [Hs _].
  assert (forall a b : list Z * Z, nodot a.1 -> version a.2 -> nodot b.1 -> plain a <> gzip b) as Hd by (intros; by apply ext_differs).
  destruct (decide (m' = m)) as [->|Hn].
  - rewrite lookup_delete_eq, lookup_delete_ne, lookup_insert_eq by auto. by rewrite Hc.
  - assert (plain m <> plain m') by (intros E; apply name_inj in E as [? ?]; try done; by destruct m, m'; simplify_eq/=).
    assert (gzip m <> gzip m') by (intros E; apply name_inj in E as [? ?]; try done; [by destruct m, m'; simplify_eq/=|apply gzip_shape]).
    rewrite !lookup_delete_ne, !lookup_insert_ne by (auto using not_eq_sym). done.
Qed.

(** ** What an operation does to the files *)

(** nothing archived is touched *)
Definition kept (x x' : out) : Prop := forall m c, mark m -> archive x m = Some c -> archive x' m = Some c.

(** what was in the log and the buffer, and then [p], is in new archives, the log and the buffer *)
Definition written (x x' : out) (p : list Z) : Prop :=
  exists ms ts, Forall2 (fun m c => mark m /\ archive x' m = Some c) ms ts /\ Forall (fun m => archive x m = None) ms /\
    NoDup ms /\ concat ts ++ log_text x' ++ buffered x' = log_text x ++ buffered x ++ p.

Definition wrote (x x' : out) (p : list Z) : Prop := kept x x' /\ written x x' p.

Lemma kept_refl x : kept x x.
Proof. by intros m c. Qed.
Lemma kept_trans x y z : kept x y -> kept y z -> kept x z.
Proof. intros H1 H2 m c Hm H. by apply H2, H1. Qed.

Lemma Forall2_mark (P : list Z * Z -> list Z -> Prop) ms ts m : Forall2 P ms ts -> m ∈ ms -> exists c, P m c.
Proof.
  intros H. induction H as [|m' c ms ts Hc _ IH]; [by rewrite elem_of_nil|]. rewrite elem_of_cons. intros [->|?]; eauto.
Qed.

Lemma wrote_trans x y z p q : wrote x y p -> wrote y z q -> wrote x z (p ++ q).
Proof.
  intros [K1 (ms1 & ts1 & F1 & N1 & D1 & E1)] [K2 (ms2 & ts2 & F2 & N2 & D2 & E2)]. split; [by eapply kept_trans|].
  exists (ms1 ++ ms2), (ts1 ++ ts2). rewrite !Forall_forall in *.
  assert (forall m, m ∈ ms2 -> archive x m = None) as N3.
  { intros m Hm. destruct (Forall2_mark _ _ _ _ F2 Hm) as (c & Hk & _). specialize (N2 m Hm).
    destruct (archive x m) as [c'|] eqn:E; [|done]. apply K1 in E; [congruence|done]. }
  split_and!.
  - apply Forall2_app; [|done]. eapply Forall2_impl; [exact F1|]. intros m c [Hm Hc]. split; [done|by apply K2].
  - intros m. rewrite elem_of_app. intros [?|?]; auto.
  - apply NoDup_app. split_and!; [done| |done]. intros m Hm Hm2. specialize (N2 m Hm2).
    destruct (Forall2_mark _ _ _ _ F1 Hm) as (c & _ & Hc). congruence.
  - rewrite concat_app, <- app_assoc, E2. rewrite app_assoc in E1 |- *. rewrite (app_assoc _ _ q), E1. by rewrite <- !app_assoc.
Qed.

(** only the log and the buffer changed *)
Lemma wrote_log x x' p : (forall m, mark m -> archive x' m = archive x m) ->
  log_text x' ++ buffered x' = log_text x ++ buffered x ++ p -> wrote x x' p.
Proof.
  intros Ha E. split; [intros m c Hm; by rewrite Ha|]. exists [], []. split_and!; [constructor..|done].
Qed.

(** ** Tidy files *)

(** no archive has the tag of the log and a version from [n] on, or a later tag *)
Definition free (f : gmap (list Z) content) (tag : list Z) (n : Z) : Prop :=
  (forall v, version v -> n <= v -> archived f (tag, v) = None) /\
  (forall tag' v, nodot tag' -> version v -> lex tag tag' = Lt -> archived f (tag', v) = None).

Record tidy (x : out) : Prop := {
  td_mark : mark (fileTag x, fileVersion x);
  td_free : free (fs x) (fileTag x) (fileVersion x + if bool_decide (file x = None) then 1 else 0);
  td_jobs : forall d s, (d, s) ∈ jobs x -> exists m, mark m /\ d = gzip m /\ s = plain m;
  td_open : match file x, writer x with
            | None, None | Some false, Some _ => True
            | Some true, Some (_, None) => is_Some (fs x !! base opts)
            | _, _ => False
            end
}.

(** the clock does not go back behind the tag of the log, and versions are left *)
Definition timely (now : time) (x : out) : Prop :=
  lex (fileTag x) (makeFileTag opts now) <> Gt /\ fileVersion x < 2 ^ 63 - 3.

Lemma free_same f f' tag n : (forall m, mark m -> archived f' m = archived f m) -> nodot tag -> free f tag n -> free f' tag n.
Proof. intros Ha Ht [H1 H2]. split; intros; rewrite Ha; by auto. Qed.

Lemma free_next f tag v tag' : lex tag tag' <> Gt -> nodot tag' -> free f tag (v + 1) ->
  free f tag' (if bool_decide (tag' = tag) then v + 1 else 1).
Proof.
  intros Hl Ht [H1 H2]. case_bool_decide as E; [by subst|].
  assert (lex tag tag' = Lt) as Hlt by (destruct (lex tag tag') eqn:El; [by apply lex_eq in El|done|done]).
  split; [auto|]. intros. apply H2; eauto using lex_lt_trans.
Qed.

Context (Hans : forall l x, answer l x = None).

Lemma ask_ok op x : ask answer op x =
  (Ok tt, mkOut (fileTag x) (fileVersion x) (size x) (file x) (writer x) (fs x) (jobs x) (ops x ++ [op])).
Proof. unfold ask. by rewrite Hans. Qed.

Definition opened (now : time) (x : out) : list Z * Z :=
  if bool_decide (makeFileTag opts now = fileTag x) then (fileTag x, wrapS 64 (fileVersion x + 1)) else (makeFileTag opts now, 1).

Lemma openFile_eq now x : exists l,
  openFile opts answer now x = (Ok tt, mkOut (opened now x).1 (opened now x).2 (len (log_text x)) (Some true) (Some ([], None))
    (<[base opts := Plain (log_text x)]> (fs x)) (jobs x) l).
Proof.
  eexists. unfold openFile, st_bind, st_try, read, opened. rewrite ask_ok. cbn -[ask bool_decide].
  case_bool_decide; cbn -[ask]; rewrite !ask_ok; cbn -[ask]; rewrite ?ask_ok; done.
Qed.

(** opening the log, with the archive of the version before already there *)
Lemma openFile_tidy now x : nodot (fileTag x) -> 0 <= fileVersion x < 2 ^ 63 - 1 -> lex (fileTag x) (makeFileTag opts now) <> Gt ->
  free (fs x) (fileTag x) (fileVersion x + 1) ->
  (forall d s, (d, s) ∈ jobs x -> exists m, mark m /\ d = gzip m /\ s = plain m) ->
  exists x', openFile opts answer now x = (Ok tt, x') /\ tidy x' /\ file x' = Some true /\ buffered x' = [] /\
    log_text x' = log_text x /\ (forall m, mark m -> archive x' m = archive x m) /\ jobs x' = jobs x /\
    fileTag x' = makeFileTag opts now /\ fileVersion x' <= fileVersion x + 1.
Proof.
  intros Ht Hv Hl Hf Hj. destruct (openFile_eq now x) as (l & ->). eexists. split; [done|]. set (x' := mkOut _ _ _ _ _ _ _ _).
  assert (forall m, mark m -> archive x' m = archive x m) as Ha by (intros m Hm; by apply archive_base).
  pose proof (makeFileTag_nodot opts now) as Hn.
  assert (opened now x = (makeFileTag opts now, if bool_decide (makeFileTag opts now = fileTag x) then fileVersion x + 1 else 1)) as Eo.
  { unfold opened. case_bool_decide as E; [|done]. rewrite wrapS_id by (unfold inS; lia). by rewrite E. }
  assert (mark (opened now x)) as Hm by (rewrite Eo; split; [done|unfold version; cbn [snd]; case_bool_decide; lia]).
  split; [|split; [done|split; [done|split; [|split; [done|split; [done|split]]]]]].
  - split; cbn [fileTag fileVersion file fs jobs writer x'].
    + by destruct (opened now x).
    + rewrite (bool_decide_false (Some true = None)), Z.add_0_r, Eo by done. cbn [fst snd].
      apply (free_same (fs x)); [done|done|]. by apply free_next.
    + done.
    + rewrite lookup_insert_eq. by eexists.
  - unfold Syncer.log_text. cbn [fs x']. by rewrite lookup_insert_eq.
  - cbn. by rewrite Eo.
  - cbn [fileVersion x']. rewrite Eo. cbn [snd]. case_bool_decide; lia.
Qed.

(** *** The buffer *)

Definition open (b : list Z) (x : out) : Prop := file x = Some true /\ writer x = Some (b, None).

(** the buffer and the text of the log changed *)
Definition touched (b t : list Z) (x x' : out) : Prop :=
  (fileTag x', fileVersion x', jobs x') = (fileTag x, fileVersion x, jobs x) /\ open b x' /\ log_text x' = t /\
  (forall m, mark m -> archive x' m = archive x m) /\ is_Some (fs x' !! base opts).

Lemma touched_tidy b b' t x x' : tidy x -> open b x -> touched b' t x x' -> tidy x'.
Proof.
  intros [H1 H2 H3 H4] [Ho Hw] (E & [Ho' Hw'] & _ & Ha & Hb). injection E as Et Ev Ej. split; rewrite ?Et, ?Ev, ?Ej, ?Ho', ?Hw'; try done.
  rewrite Ho in H2. apply (free_same (fs x)); [done|apply H1|done].
Qed.

Lemma touched_trans b t b' t' x y z : touched b t x y -> touched b' t' y z -> touched b' t' x z.
Proof.
  intros (E1 & _ & _ & A1 & _) (E2 & O2 & T2 & A2 & B2). split; [congruence|]. split; [done|]. split; [done|].
  split; [intros m Hm; by rewrite A2, A1|done].
Qed.

Lemma touched_wrote b b' t p x x' : open b x -> touched b' t x x' -> t ++ b' = log_text x ++ b ++ p -> wrote x x' p.
Proof.
  intros [_ Hw] (_ & [_ Hw'] & Et & Ha & _) E. apply wrote_log; [done|]. unfold buffered. by rewrite Hw, Hw', Et.
Qed.

Lemma set_writer_touched b b' x : tidy x -> open b x -> exists x', set_writer (Some (b', None)) x = (Ok tt, x') /\ touched b' (log_text x) x x'.
Proof.
  intros Ht [Ho Hw]. eexists. split; [done|]. split; [done|]. split; [by split|]. split; [done|]. split; [done|].
  pose proof (td_open x Ht) as H. by rewrite Ho, Hw in H.
Qed.

Lemma file_Write_eq p x : file x = Some true -> exists l, file_Write opts answer p x =
  (Ok tt, mkOut (fileTag x) (fileVersion x) (size x) (file x) (writer x) (<[base opts := Plain (log_text x ++ p)]> (fs x)) (jobs x) l).
Proof.
  intros Ho. eexists. unfold file_Write, st_bind, read. rewrite Ho. rewrite bool_decide_true by done. cbn [negb].
  rewrite ask_ok. cbn [set_fs]. by rewrite Ho.
Qed.

Lemma through_touched b b' p x : open b x -> exists x', through opts answer b' p x = (Ok tt, x') /\ touched [] (log_text x ++ p) x x'.
Proof.
  intros [Ho Hw]. unfold through, st_bind, st_try. destruct (file_Write_eq p x Ho) as (l & ->). cbn.
  eexists. split; [done|]. split; [done|]. split; [by split|]. unfold Syncer.log_text. cbn [fs]. rewrite lookup_insert_eq.
  split; [done|]. split; [intros m Hm; by apply archive_base|by eexists].
Qed.

Lemma Flush_touched b x : tidy x -> open b x -> exists x', Flush opts answer x = (Ok tt, x') /\ touched [] (log_text x ++ b) x x'.
Proof.
  intros Ht Ho. unfold Flush, st_bind, read. rewrite (proj2 Ho). destruct b as [|c b].
  - exists x. rewrite app_nil_r. split; [done|]. split; [done|]. split; [done|]. split; [done|]. split; [done|].
    pose proof (td_open x Ht) as H. by rewrite (proj1 Ho), (proj2 Ho) in H.
  - by apply (through_touched (c :: b)).
Qed.

Lemma write_touched b p x : tidy x -> open b x ->
  exists x' b' t, writer_Write opts answer p x = (Ok (len p), x') /\ touched b' t x x' /\ t ++ b' = log_text x ++ b ++ p.
Proof.
  intros Ht Ho. unfold writer_Write, st_bind at 1, read. rewrite (proj2 Ho). destruct (len p <=? _).
  { destruct (set_writer_touched b (b ++ p) x Ht Ho) as (x' & E & Hx). unfold st_bind. rewrite E. by do 3 eexists. }
  case_bool_decide as Eb.
  { subst. destruct (through_touched [] [] p x Ho) as (x' & E & Hx). unfold st_bind. rewrite E. do 3 eexists. split; [done|].
    split; [done|]. by rewrite app_nil_r. }
  set (k := Z.to_nat _). destruct (through_touched b (b ++ take k p) (b ++ take k p) x Ho) as (y & E & Hy).
  unfold st_bind at 1. rewrite E. pose proof (touched_tidy _ _ _ _ _ Ht Ho Hy) as Hty. pose proof Hy as (_ & Hoy & Et & _).
  assert ((log_text x ++ b ++ take k p) ++ drop k p = log_text x ++ b ++ p) as Es
    by (by rewrite <- !app_assoc, take_drop).
  unfold st_bind. destruct (len (drop k p) <=? bufferSize).
  - destruct (set_writer_touched [] (drop k p) y Hty Hoy) as (z & Ez & Hz). rewrite Ez. do 3 eexists. split; [done|].
    split; [by eapply touched_trans|]. by rewrite Et.
  - destruct (through_touched [] [] (drop k p) y Hoy) as (z & Ez & Hz). rewrite Ez. do 3 eexists. split; [done|].
    split; [by eapply touched_trans|]. by rewrite Et, app_nil_r.
Qed.

(** *** Rotation *)

(** the log was renamed to its archive *)
Lemma renamed_archive f c m m' : mark m -> mark m' ->
  archived (<[plain m := c]> (delete (base opts) f)) m' = if decide (m' = m) then Some (text c) else archived f m'.
Proof. intros Hm Hm'. rewrite archive_insert by done. case_decide; [done|]. by apply archive_base_delete. Qed.

Lemma renamed_free f c tag v : mark (tag, v) -> free f tag v -> free (<[plain (tag, v) := c]> (delete (base opts) f)) tag (v + 1).
Proof.
  intros Hm [H1 H2]. split.
  - intros v' Hv' Hle. rewrite (renamed_archive f c (tag, v) (tag, v')) by (done || by split; [apply Hm|]).
    rewrite decide_False by (intros [= ->]; lia). apply H1; [done|lia].
  - intros tag' v' Ht' Hv' Hlt. rewrite (renamed_archive f c (tag, v) (tag', v')) by (done || by split).
    rewrite decide_False by (intros [= -> _]; by rewrite lex_refl in Hlt). by apply H2.
Qed.

Lemma doRotate_eq tag v now x c : fs x !! base opts = Some c -> exists l,
  doRotateFile opts answer tag v now x =
  (openFile opts answer now ;;;
   if compress opts then set_jobs (fun l => l ++ [(gzip (tag, v), plain (tag, v))]) else st_ret tt)
  (mkOut (fileTag x) (fileVersion x) (size x) (file x) (writer x) (<[plain (tag, v) := c]> (delete (base opts) (fs x))) (jobs x) l).
Proof.
  intros Hc. eexists. unfold doRotateFile. unfold st_bind at 1. rewrite ask_ok. unfold st_bind at 1, read. cbn [fs]. rewrite Hc.
  unfold st_bind, set_fs. cbn [fs]. by destruct (compress opts).
Qed.

(** more archives to compress *)
Lemma tidy_jobs z k : tidy z -> Forall (fun j => exists m, mark m /\ j.1 = gzip m /\ j.2 = plain m) k ->
  tidy (mkOut (fileTag z) (fileVersion z) (size z) (file z) (writer z) (fs z) (jobs z ++ k) (ops z)).
Proof.
  intros [Z1 Z2 Z3 Z4] Hk. split; try done. intros d s. cbn [jobs]. rewrite elem_of_app. intros [?|Hin]; [by apply Z3|].
  rewrite Forall_forall in Hk. destruct (Hk _ Hin) as (m' & ? & ? & ?). by exists m'.
Qed.

Lemma rotate_wrote now x : tidy x -> open [] x -> lex (fileTag x) (makeFileTag opts now) <> Gt -> fileVersion x < 2 ^ 63 - 1 ->
  exists x', rotateFile opts answer now x = (Ok tt, x') /\ tidy x' /\ open [] x' /\ wrote x x' [] /\
    fileTag x' = makeFileTag opts now /\ fileVersion x' <= fileVersion x + 1.
Proof.
  intros Ht [Ho Hw] Hl Hv. set (m := (fileTag x, fileVersion x)). destruct Ht as [Hm Hf Hj Hb]. fold m in Hm.
  rewrite Ho, Hw in Hb. destruct Hb as [c Hc]. rewrite Ho in Hf. cbn in Hf. rewrite Z.add_0_r in Hf.
  unfold rotateFile, st_bind at 1, read. rewrite Ho. unfold file_Close, st_bind, read. rewrite Ho, bool_decide_true by done.
  cbn [negb set_file]. rewrite ask_ok. cbn [fileTag fileVersion size file writer fs jobs ops].
  set (y0 := mkOut _ _ _ _ _ _ _ _). destruct (doRotate_eq (fileTag x) (fileVersion x) now y0 c Hc) as (l & ->).
  cbn [y0 fileTag fileVersion size file writer fs jobs ops]. set (y := mkOut _ _ _ _ _ _ _ _).
  destruct (openFile_tidy now y) as (z & Ez & Hz & Hzo & Hzb & Hzl & Hza & Hzj & Hzt & Hzv); [apply Hm|split; [apply Hm|done]|done|by apply renamed_free|done|].
  unfold st_bind. rewrite Ez.
  assert (forall k, Forall (fun j => exists m, mark m /\ j.1 = gzip m /\ j.2 = plain m) k ->
    let z' := mkOut (fileTag z) (fileVersion z) (size z) (file z) (writer z) (fs z) (jobs z ++ k) (ops z) in
    tidy z' /\ open [] z' /\ wrote x z' [] /\ fileTag z' = makeFileTag opts now /\ fileVersion z' <= fileVersion x + 1) as Hfin.
  { intros k Hk z'. split_and!.
    - by apply tidy_jobs.
    - pose proof (td_open z Hz) as Hx. unfold buffered in Hzb. cbn [z' writer file]. rewrite Hzo in Hx. split; [done|]. cbn [writer z'].
      destruct (writer z) as [[b [e|]]|]; [done| |done]. by rewrite Hzb.
    - assert (forall m', mark m' -> archive z' m' = if decide (m' = m) then Some (text c) else archive x m') as Ha.
      { intros m' Hm'. cbn [fs z']. rewrite Hza by done. cbn [fs y]. by apply (renamed_archive (fs x) c m). }
      assert (archive x m = None) as Hnone by (apply (proj1 Hf); [apply Hm|lia]).
      split.
      + intros m' c' Hm' Hc'. rewrite Ha by done. by rewrite decide_False by congruence.
      + exists [m], [text c]. split_and!.
        * constructor; [split; [done|]; by rewrite Ha, decide_True|constructor].
        * by constructor.
        * apply NoDup_singleton.
        * cbn. change (log_text z') with (log_text z). change (buffered z') with (buffered z). rewrite Hzl, Hzb.
          unfold Syncer.log_text, buffered. cbn [fs y]. rewrite Hw, Hc, lookup_insert_ne, lookup_delete_eq; [by rewrite !app_nil_r|].
          by apply name_not_base; [apply Hm|left].
    - done.
    - done. }
  destruct (compress opts).
  - eexists. split; [done|]. apply (Hfin [_]). constructor; [|constructor]. by exists m.
  - exists z. split; [done|]. specialize (Hfin [] ltac:(constructor)). rewrite app_nil_r in Hfin. by destruct z.
Qed.

Lemma flush_rotate now b x : tidy x -> open b x -> lex (fileTag x) (makeFileTag opts now) <> Gt -> fileVersion x < 2 ^ 63 - 1 ->
  exists x', (Flush opts answer ;;; rotateFile opts answer now) x = (Ok tt, x') /\ tidy x' /\ open [] x' /\ wrote x x' [] /\
    fileTag x' = makeFileTag opts now /\ fileVersion x' <= fileVersion x + 1.
Proof.
  intros Ht Ho Hl Hv. destruct (Flush_touched b x Ht Ho) as (y & Ey & Hy). unfold st_bind. rewrite Ey.
  pose proof (touched_tidy _ _ _ _ _ Ht Ho Hy) as Hty. pose proof Hy as (E & Hoy & _). injection E as Et Ev _.
  destruct (rotate_wrote now y Hty Hoy) as (z & Ez & Hz & Hoz & Hwz & Htz & Hvz); [by rewrite Et|by rewrite Ev|].
  exists z. split; [done|]. split; [done|]. split; [done|]. split; [|split; [done|lia]].
  apply (wrote_trans x y z [] []); [|done]. apply (touched_wrote b [] (log_text x ++ b)); [done|done|]. by rewrite !app_nil_r.
Qed.

(** the last part of writeEntry *)
Lemma write_end now auto b x : tidy x -> open b x -> lex (fileTag x) (makeFileTag opts now) <> Gt -> fileVersion x < 2 ^ 63 - 1 ->
  exists x', ((if auto : bool then Flush opts answer else st_ret tt) ;;;
    let! sz := read size in if maxSize opts <=? sz then Flush opts answer ;;; rotateFile opts answer now else st_ret tt) x = (Ok tt, x') /\
    tidy x' /\ (exists b', open b' x') /\ wrote x x' [].
Proof.
  intros Ht Ho Hl Hv.
  assert (exists y b', (if auto : bool then Flush opts answer else st_ret tt) x = (Ok tt, y) /\ tidy y /\ open b' y /\ wrote x y [] /\
    fileTag y = fileTag x /\ fileVersion y = fileVersion x) as (y & b' & Ey & Hty & Hoy & Hwy & Et & Ev).
  { destruct auto; [|exists x, b; split_and!; [done..|by apply wrote_log; [|rewrite app_nil_r]|done|done]].
    destruct (Flush_touched b x Ht Ho) as (y & Ey & Hy). exists y, []. pose proof Hy as (E & Hoy & _). injection E as Et Ev _.
    split_and!; [done|by eapply touched_tidy|done| |done|done]. apply (touched_wrote b [] (log_text x ++ b)); [done|done|]. by rewrite !app_nil_r. }
  unfold st_bind at 1. rewrite Ey. unfold st_bind at 1, read. destruct (maxSize opts <=? size y).
  - destruct (flush_rotate now b' y Hty Hoy) as (z & Ez & Hz & Hoz & Hwz & _); [by rewrite Et|by rewrite Ev|].
    exists z. split; [done|]. split; [done|]. split; [by eexists|]. by apply (wrote_trans x y z [] []).
  - exists y. split; [done|]. split; [done|]. split; [by eexists|done].
Qed.

Lemma writeEntry_wrote now e auto b x : tidy x -> open b x -> timely now x ->
  exists x', writeEntry opts answer now e auto x = (Ok tt, x') /\ tidy x' /\ (exists b', open b' x') /\ wrote x x' (default [] (buf e)).
Proof.
  intros Ht Ho [Hl Hv]. unfold writeEntry. unfold st_bind at 1, read at 1. unfold st_bind at 1.
  set (c := _ && _).
  assert (exists y b', (if c then Flush opts answer ;;; rotateFile opts answer now else st_ret tt) x = (Ok tt, y) /\ tidy y /\ open b' y /\
    wrote x y [] /\ lex (fileTag y) (makeFileTag opts now) <> Gt /\ fileVersion y < 2 ^ 63 - 1) as (y & b' & Ey & Hty & Hoy & Hwy & Hly & Hvy).
  { destruct c; [|exists x, b; split_and!; [done..|by apply wrote_log; [|rewrite app_nil_r]|done|lia]].
    destruct (flush_rotate now b x Ht Ho Hl ltac:(lia)) as (y & Ey & Hy & Hoy & Hwy & Ety & Evy). exists y, [].
    split_and!; [done..|rewrite Ety; by rewrite lex_refl|lia]. }
  rewrite Ey. clearbody c.
  assert (exists z b'', (match buf e with Some p => let! n := writer_Write opts answer p in let! sz := read size in set_size (sz + n) | None => st_ret tt end) y
    = (Ok tt, z) /\ tidy z /\ open b'' z /\ wrote y z (default [] (buf e)) /\ fileTag z = fileTag y /\ fileVersion z = fileVersion y)
    as (z & b'' & Ez & Htz & Hoz & Hwz & Etz & Evz).
  { destruct (buf e) as [p|]; [|exists y, b'; split_and!; [done..|by apply wrote_log; [|rewrite app_nil_r]|done|done]].
    destruct (write_touched b' p y Hty Hoy) as (z & b'' & t & Ez & Hz & Es). unfold st_bind. rewrite Ez. cbn -[wrote].
    assert (touched b'' t y (mkOut (fileTag z) (fileVersion z) (size z + len p) (file z) (writer z) (fs z) (jobs z) (ops z))) as Hz' by (by destruct z).
    eexists _, b''. split; [done|]. pose proof Hz' as (E & Hoz & _). injection E as Et Ev _.
    split; [by eapply touched_tidy|]. split; [done|]. split; [by eapply touched_wrote|done]. }
  unfold st_bind at 1. rewrite Ez.
  destruct (write_end now auto b'' z Htz Hoz) as (w & Ew & Hw & How & Hww); [by rewrite Etz|by rewrite Evz|].
  exists w. split; [done|]. split; [done|]. split; [done|].
  replace (default [] (buf e)) with ([] ++ default [] (buf e) ++ []) by (by rewrite app_nil_r).
  eapply wrote_trans; [done|]. by eapply wrote_trans.
Qed.

(** *** Compression *)

Lemma compress_eq d s c x : fs x !! s = Some c -> s <> d -> exists l, compressFile answer d s x =
  (Ok tt, mkOut (fileTag x) (fileVersion x) (size x) (file x) (writer x) (delete s (<[d := Gzip (text c)]> (fs x))) (jobs x) l).
Proof.
  intros Hc Hn. assert (<[d := Gzip []]> (fs x) !! s = Some c) as Hc' by (by rewrite lookup_insert_ne).
  eexists. unfold compressFile, st_bind, read, set_fs. rewrite ask_ok. cbn [fs]. rewrite Hc, ask_ok. cbn -[ask lookup insert delete].
  rewrite ask_ok. cbn -[lookup insert delete]. rewrite Hc'. by rewrite insert_insert_eq.
Qed.

Lemma compress_kept d s x : tidy x -> (d, s) ∈ jobs x -> exists r x', compressFile answer d s x = (r, x') /\
  (fileTag x', fileVersion x', file x', writer x', jobs x') = (fileTag x, fileVersion x, file x, writer x, jobs x) /\
  fs x' !! base opts = fs x !! base opts /\ forall m, mark m -> archive x' m = archive x m.
Proof.
  intros Ht Hj. destruct (td_jobs x Ht d s Hj) as (m & Hm & -> & ->).
  assert (plain m <> gzip m) as Hn by (by destruct Hm; apply ext_differs).
  destruct (fs x !! plain m) as [c|] eqn:Hc.
  - destruct (compress_eq (gzip m) (plain m) c x Hc Hn) as (l & ->). do 2 eexists. split; [done|]. split; [done|]. cbn [fs]. split.
    + rewrite lookup_delete_ne, lookup_insert_ne; [done|..]; apply name_not_base; [apply Hm|by right|apply Hm|by left].
    + intros m' Hm'. by apply archive_compress.
  - unfold compressFile, st_bind, read. rewrite ask_ok. cbn [fs]. rewrite Hc. by do 2 eexists.
Qed.

(** *** After Close *)

(** the files are left alone *)
Definition shut (x x' : out) : Prop :=
  file x' = Some false /\ is_Some (writer x') /\
  (fileTag x', fileVersion x', fs x', jobs x') = (fileTag x, fileVersion x, fs x, jobs x).

Lemma shut_tidy x x' : tidy x -> file x = Some false -> shut x x' -> tidy x'.
Proof.
  intros [H1 H2 H3 H4] Hf (Hf' & [w Hw] & E). injection E as E1 E2 E3 E4.
  split; rewrite ?E1, ?E2, ?E3, ?E4, ?Hf', ?Hw; try done. by rewrite Hf in H2.
Qed.

Lemma shut_close x0 : stable (shut x0) (file_Close answer) (fun _ => False).
Proof.
  intros x Hx. unfold file_Close, st_bind, read. destruct Hx as (Hf & ?). rewrite Hf. by rewrite bool_decide_false.
Qed.
Lemma shut_through x0 b p : stable (shut x0) (through opts answer b p) (fun _ => False).
Proof.
  intros x Hx. unfold through, st_bind, st_try, file_Write, st_bind, read. destruct Hx as (Hf & Hw & E). rewrite Hf, bool_decide_false by done.
  cbn. split; [done|]. by split; [eexists|].
Qed.
Lemma shut_writer x0 w : stable (shut x0) (set_writer (Some w)) (fun _ => True).
Proof. intros x (Hf & Hw & E). split; [done|]. split; [done|]. by split; [eexists|]. Qed.
Lemma shut_size x0 n : stable (shut x0) (set_size n) (fun _ => True).
Proof. by intros x. Qed.
Lemma shut_read {A} x0 (f : out -> A) : stable (shut x0) (read f) (fun _ => True).
Proof. by intros x. Qed.
Lemma shut_Flush x0 : stable (shut x0) (Flush opts answer) (fun _ => True).
Proof.
  intros x Hx. unfold Flush, st_bind, read. pose proof Hx as (Hf & [w Hw] & E). rewrite Hw.
  destruct w as [[|c b] [e|]]; [exact Hx|by split|exact Hx|].
  pose proof (shut_through x0 (c :: b) (c :: b) x Hx) as H. destruct (through _ _ _ _ _) as [[]]; naive_solver.
Qed.

Lemma shut_Write x0 p : stable (shut x0) (writer_Write opts answer p) (fun _ => True).
Proof.
  intros x Hx. unfold writer_Write, st_bind, read. pose proof Hx as (Hf & [w Hw] & E). rewrite Hw. destruct w as [b [e|]]; [done|].
  destruct (len p <=? _); [split; [done|]; split; [done|]; by split; [eexists|]|]. case_bool_decide.
  - pose proof (shut_through x0 [] p x Hx) as H'. destruct (through opts answer [] p x) as [[]]; naive_solver.
  - set (q := b ++ _). pose proof (shut_through x0 q q x Hx) as H'. destruct (through opts answer q q x) as [[]]; naive_solver.
Qed.

Lemma shut_rotate x0 now : stable (shut x0) (rotateFile opts answer now) (fun _ => True).
Proof.
  intros x Hx. unfold rotateFile. unfold st_bind at 1, read. pose proof Hx as (Hf & _ & _). rewrite Hf. unfold st_bind at 1.
  pose proof (shut_close x0 x Hx) as H. destruct (file_Close answer x) as [[]]; naive_solver.
Qed.

Lemma shut_writeEntry x0 now e auto : stable (shut x0) (writeEntry opts answer now e auto) (fun _ => True).
Proof.
  assert (stable (shut x0) (Flush opts answer ;;; rotateFile opts answer now) (fun _ => True)) as Hfr
    by (eapply stable_bind; [apply shut_Flush|intros; apply shut_rotate]).
  assert (forall A B (m : ST out A) (k : A -> ST out B), stable (shut x0) m (fun _ => True) ->
    (forall a, stable (shut x0) (k a) (fun _ => True)) -> stable (shut x0) (st_bind m k) (fun _ => True)) as Hb
    by (intros; eapply stable_bind; eauto).
  unfold writeEntry. apply Hb; [apply shut_read|intros tag]. apply Hb.
  { destruct (_ && _); [done|by apply stable_ret]. }
  intros _. apply Hb.
  { destruct (buf e); [|by apply stable_ret]. apply Hb; [apply shut_Write|intros n]. apply Hb; [apply shut_read|intros sz]. apply shut_size. }
  intros _. apply Hb.
  { destruct auto; [apply shut_Flush|by apply stable_ret]. }
  intros _. apply Hb; [apply shut_read|intros sz]. destruct (_ <=? _); [done|by apply stable_ret].
Qed.
End Files.

(** ** log/file: every interleaving of writers, the ticker, compression and Close
    keeps the files tidy and accounts for every entry. *)
(** ** What is accounted for *)

Definition puts (s : syncer) : list (list Z) :=
  flat_map (fun h => match h with EPut (Some p) => [p] | _ => [] end) (log s).

Definition same (p : option (list Z)) (e : entry) : nat := if decide (buf e = p) then 1%nat else 0%nat.
Definition accepts (p : option (list Z)) (h : happening) : nat :=
  match h with EAccept q => if decide (q = p) then 1%nat else 0%nat | _ => 0%nat end.
Definition written_ (p : option (list Z)) (h : happening) : nat :=
  match h with EPut q => if decide (q = p) then 1%nat else 0%nat | _ => 0%nat end.

(** entries goroutines hold that were accepted *)
Definition given (p : option (list Z)) (oe : option entry) : nat := match oe with Some e => same p e | None => 0%nat end.
Definition holds (p : option (list Z)) (st : stage) : nat :=
  match st with
  | FLoad oe _ | FRecv _ oe _ | FLast oe _ => given p oe
  | FPut e _ oe _ => (same p e + given p oe)%nat
  | _ => 0%nat
  end.
Definition counting (st : stage) : nat := match st with WCount => 1%nat | _ => 0%nat end.
Definition taken (st : stage) : nat := match st with FPut _ _ _ _ => 1%nat | _ => 0%nat end.

Definition tot (f : stage -> nat) (s : syncer) : nat := Threads.total (weigh f) (threads s).

Lemma sync_tot_goto f t k s : (tot f (goto t k s) + weigh f (default [] (threads s !! t)) = tot f s + weigh f k)%nat.
Proof.
  unfold tot. pose proof (total_set (weigh f) (threads s) t k) as H. cbn [goto threads].
  destruct (threads s !! t) as [k0|]; [change (default [] (Some k0)) with k0; lia|].
  change (weigh f (default [] None)) with 0%nat. lia.
Qed.

(** ** The invariant *)

(** under the mutex *)
Definition locked (st : stage) : bool :=
  match st with WLocked _ | FLoad _ _ | FRecv _ _ _ | FPut _ _ _ _ | FLast _ _ | CWait => true | _ => false end.

Definition stage_ok (st : stage) (s : syncer) : Prop :=
  match st with
  | FLoad oe k => (oe <> None -> file (o s) <> Some false) /\ (k = KClose -> closing s = true)
  | FRecv n oe k | FPut _ n oe k =>
      1 <= n <= acc s /\ file (o s) <> None /\ (oe <> None -> file (o s) <> Some false) /\ (k = KClose -> closing s = true)
  | FLast oe k => (oe <> None -> file (o s) = Some true) /\ (k = KClose -> closing s = true)
  | CWait => closing s = true
  | _ => True
  end.

Section Inv.
Context (opts : options) (answer : list op -> op -> option error).
Context (Hext : fileExt opts <> gzipExt) (Hans : forall l x, answer l x = None).
Context (x0 : out).

Record sinv_but (t : option nat) (s : syncer) : Prop := {
  si_tidy : tidy opts (o s);
  si_kept : kept opts x0 (o s);
  si_written : file (o s) <> Some false -> written opts x0 (o s) (concat (puts s));
  si_closed : file (o s) = Some false -> closing s = true;
  si_acc : 0 <= acc s;
  si_threads : forall u k, Some u <> t -> threads s !! u = Some k ->
    k = [] \/ exists st, k = [st] /\ stage_ok st s /\ (locked st = true -> mu s = Some u)
}.
Definition sinv (s : syncer) : Prop := sinv_but None s.

(** a step that does not need the mutex *)
Definition frame (s s' : syncer) : Prop :=
  o s' = o s /\ acc s <= acc s' /\ mu s' = mu s /\ closing s' = closing s /\ puts s' = puts s.

Lemma stage_frame st s s' : file (o s') = file (o s) -> acc s <= acc s' -> closing s' = closing s -> stage_ok st s -> stage_ok st s'.
Proof. intros E Ha Ec. destruct st; cbn [stage_ok]; rewrite ?E, ?Ec; try done; intros (? & ? & ?); (split; [lia|done]). Qed.

Lemma sinv_weaken t s : sinv s -> sinv_but (Some t) s.
Proof. intros [H1 H2 H3 H4 H5 H6]. split; try done. intros u k _ Hu. by apply H6. Qed.

Lemma sinv_frame t s s' : frame s s' -> (forall u, Some u <> t -> threads s' !! u = threads s !! u) -> sinv_but t s -> sinv_but t s'.
Proof.
  intros (Eo & Ea & Em & Ec & Ep) Ht [H1 H2 H3 H4 H5 H6]. split; rewrite ?Eo, ?Ep, ?Ec; try done; [lia|].
  intros u k Hu Hk. rewrite Ht in Hk by done. destruct (H6 u k Hu Hk) as [?|(st & -> & Hs & Hl)]; [by left|right].
  exists st. split; [done|]. split; [by apply (stage_frame st s); rewrite ?Eo|by rewrite Em].
Qed.

(** the goroutine goes on *)
Lemma sinv_goto t k s : sinv_but (Some t) s ->
  (k = [] \/ exists st, k = [st] /\ stage_ok st s /\ (locked st = true -> mu s = Some t)) -> sinv (goto t k s).
Proof.
  intros [H1 H2 H3 H4 H5 H6] Hk. split; try done. intros u k' _ Hu. cbn [goto threads mu] in *.
  destruct (decide (u = t)) as [->|Hn].
  - rewrite lookup_insert_eq in Hu. simplify_eq. done.
  - rewrite lookup_insert_ne in Hu by done. apply H6; [congruence|done].
Qed.

(** the others while a goroutine holds the mutex, or takes it *)
Lemma sinv_holder t s s' : (mu s = Some t \/ mu s = None) -> sinv_but (Some t) s ->
  (forall u, Some u <> Some t -> threads s' !! u = threads s !! u) ->
  tidy opts (o s') -> kept opts x0 (o s') -> (file (o s') <> Some false -> written opts x0 (o s') (concat (puts s'))) ->
  (file (o s') = Some false -> closing s' = true) -> 0 <= acc s' -> sinv_but (Some t) s'.
Proof.
  intros Hm [H1 H2 H3 H4 H5 H6] Ht T K W C A. split; try done. intros u k Hu Hk. rewrite Ht in Hk by done.
  destruct (H6 u k Hu Hk) as [?|(st & -> & Hs & Hl)]; [by left|right]. exists st. split; [done|].
  destruct (locked st) eqn:E; [exfalso; specialize (Hl eq_refl); destruct Hm; congruence|]. split; [by destruct st|done].
Qed.

(** the mutex is taken, or given back *)
Lemma sinv_mu t m c s s' : (mu s = Some t \/ mu s = None) -> sinv_but (Some t) s ->
  o s' = o s -> acc s' = acc s -> puts s' = puts s -> threads s' = threads s -> mu s' = m -> closing s' = c ->
  (closing s = true -> c = true) -> sinv_but (Some t) s'.
Proof.
  intros Hm Hi Eo Ea Ep Et _ Ec Hc. destruct Hi as [H1 H2 H3 H4 H5 H6] eqn:E. apply (sinv_holder t s s'); rewrite ?Eo, ?Ea, ?Ep, ?Et, ?Ec; auto.
Qed.

Lemma puts_note h s : puts (note h s) = puts s ++ match h with EPut (Some p) => [p] | _ => [] end.
Proof. unfold puts. cbn [note log]. rewrite flat_map_app. cbn [flat_map]. by rewrite app_nil_r. Qed.

Lemma flushed_inv t k r s : sinv_but (Some t) s -> mu s = Some t -> (k = KClose -> closing s = true) -> sinv (flushed t k r s).
Proof.
  intros Hi Hm Hc. unfold flushed. destruct k; (apply sinv_goto; [|try (by left)]).
  - eapply (sinv_mu t None (closing s) s); [by left|done|done|done|by rewrite puts_note, app_nil_r|done..].
  - eapply (sinv_mu t None (closing s) s); [by left|done|done|done|by rewrite puts_note, app_nil_r|done..].
  - eapply (sinv_mu t (mu s) (closing s) s); by auto.
  - right. eexists. split; [done|]. split; [by apply Hc|done].
Qed.

(** what writeEntry does under the mutex *)
Lemma put_files t now e auto s r x : sinv_but (Some t) s -> mu s = Some t -> file (o s) <> None -> timely opts now (o s) ->
  writeEntry opts answer now e auto (o s) = (r, x) ->
  sinv_but (Some t) (note (EPut (buf e)) (set_o x s)) /\ file x = file (o s) /\ r <> Panic /\ (file (o s) = Some true -> r = Ok tt).
Proof.
  intros Hi Hm Hf Ht E. pose proof (si_tidy _ _ Hi) as Htd. pose proof (td_open _ _ Htd) as Hop.
  destruct (file (o s)) as [[]|] eqn:Ef; [| |done].
  - destruct (writer (o s)) as [[b [?|]]|] eqn:Ew; [done| |done].
    destruct (writeEntry_wrote opts answer Hext Hans now e auto b (o s) Htd ltac:(by split) Ht) as (x' & E' & Htx & (b' & Hfx & _) & Hw).
    rewrite E' in E. injection E as <- <-. split; [|split; [by rewrite Hfx|by split]].
    apply (sinv_holder t s); [by left|done|done|done|..].
    + eapply kept_trans; [apply (si_kept _ _ Hi)|apply Hw].
    + intros _. rewrite puts_note, concat_app. cbn [o note set_o].
      pose proof (si_written _ _ Hi ltac:(by rewrite Ef)) as Hw0.
      destruct (wrote_trans opts x0 (o s) x' (concat (puts s)) (default [] (buf e))) as [_ Hfin]; [split; [apply (si_kept _ _ Hi)|done]|done|].
      destruct (buf e); cbn in *; by rewrite ?app_nil_r in *.
    + cbn [o note set_o]. by rewrite Hfx.
    + apply (si_acc _ _ Hi).
  - assert (shut (o s) (o s)) as Hs by (split; [done|]; split; [by destruct (writer (o s)); [eexists|]|done]).
    pose proof (shut_writeEntry opts answer (o s) now e auto (o s) Hs) as Hst. rewrite E in Hst.
    assert (shut (o s) x /\ r <> Panic) as [Hsx Hr] by (destruct r; [split; [apply Hst|done]|done|done]).
    split; [|split; [apply Hsx|done]].
    apply (sinv_holder t s); [by left|done|done|by apply (shut_tidy opts (o s))|..].
    + pose proof Hsx as (_ & _ & Ex). injection Ex as _ _ Efs _. intros m c Hmk. cbn [o note set_o]. rewrite Efs. by apply (si_kept _ _ Hi).
    + destruct Hsx as (Hfx & _). cbn [o note set_o]. by rewrite Hfx.
    + intros _. by apply (si_closed _ _ Hi).
    + apply (si_acc _ _ Hi).
Qed.

Lemma set_acc_inv t n s : sinv_but (Some t) s -> mu s = Some t -> 0 <= n -> sinv_but (Some t) (set_acc n s).
Proof.
  intros Hi Hm Hn. destruct Hi as [H1 H2 H3 H4 H5 H6] eqn:E. by apply (sinv_holder t s); [left|..].
Qed.

(** writeEntry, and what follows it *)
Lemma put_inv t now e auto k next s s' : sinv_but (Some t) s -> mu s = Some t -> file (o s) <> None -> timely opts now (o s) ->
  (k = KClose -> closing s = true) -> put opts answer t now e auto k next s = Some s' ->
  (forall s1, sinv_but (Some t) s1 -> mu s1 = Some t -> acc s1 = acc s -> closing s1 = closing s -> file (o s1) = file (o s) -> sinv (next s1)) ->
  sinv s'.
Proof.
  intros Hi Hm Hf Ht Hc H Hn. unfold put in H. destruct (writeEntry _ _ _ _ _ _) as [r x] eqn:E.
  destruct (put_files t now e auto s r x Hi Hm Hf Ht E) as (Hi' & Ef & Hr & _). destruct r as [[]|e'|]; simplify_eq.
  - by apply Hn.
  - by apply flushed_inv.
Qed.

(** the file is opened when there is something to write *)
Lemma load_inv t now (w : bool) s r x : sinv_but (Some t) s -> mu s = Some t -> timely opts now (o s) ->
  (if w && bool_decide (file (o s) = None) then openFile opts answer now (o s) else (Ok tt, o s)) = (r, x) ->
  r = Ok tt /\ sinv_but (Some t) (set_o x s) /\ (w = true -> file x <> None) /\ (file x = Some false <-> file (o s) = Some false).
Proof.
  intros Hi Hm [Hl Hv] E. pose proof (si_tidy _ _ Hi) as Htd. destruct (w && _) eqn:Ew.
  - apply andb_true_iff in Ew as [-> Ef]. apply bool_decide_eq_true in Ef. destruct Htd as [[Hmt Hmv] Hfr Hj Hop].
    rewrite Ef in Hfr. cbn in Hmt, Hmv. rewrite (bool_decide_true (None = None)) in Hfr by done.
    destruct (openFile_tidy opts answer Hans now (o s)) as (x' & E' & Htx & Hfx & Hbx & Hlx & Hax & _); [done|destruct Hmv; lia|done|done|done|].
    rewrite E' in E. simplify_eq. split; [done|]. split; [|rewrite Hfx, Ef; by split].
    assert (wrote opts (o s) x []) as Hw.
    { apply wrote_log; [done|]. rewrite Hlx, Hbx. unfold buffered. rewrite Ef in Hop. by destruct (writer (o s)). }
    apply (sinv_holder t s); [by left|done|done|done|..].
    + eapply kept_trans; [apply (si_kept _ _ Hi)|apply Hw].
    + intros _. cbn [o set_o]. rewrite <- (app_nil_r (concat _)).
      apply (wrote_trans opts x0 (o s) x); [|done]. split; [apply (si_kept _ _ Hi)|]. apply (si_written _ _ Hi). by rewrite Ef.
    + cbn [o set_o]. by rewrite Hfx.
    + apply (si_acc _ _ Hi).
  - simplify_eq. split; [done|]. split; [by destruct s|]. split; [|done]. intros ->. by case_bool_decide.
Qed.

(** Close closes the file *)
Lemma close_inv t s r x : sinv_but (Some t) s -> mu s = Some t -> closing s = true ->
  (if bool_decide (file (o s) = None) then (Ok tt, o s) else file_Close answer (o s)) = (r, x) -> sinv_but (Some t) (set_o x s).
Proof.
  intros Hi Hm Hc E. assert (sinv_but (Some t) (set_o (o s) s)) as Hid by (by destruct s). case_bool_decide as Ef; [by simplify_eq|].
  unfold file_Close, st_bind, read in E. destruct (file (o s)) as [[]|] eqn:Eo; [| |done].
  - rewrite bool_decide_true in E by done. cbn [negb set_file] in E. rewrite ask_ok in E by done. simplify_eq.
    destruct (si_tidy _ _ Hi) as [H1 H2 H3 H4]. rewrite Eo in H2, H4. apply (sinv_holder t s); [by left|done|done| |apply (si_kept _ _ Hi)|done|done|apply (si_acc _ _ Hi)].
    split; try done. cbn. by destruct (writer (o s)).
  - rewrite bool_decide_false in E by done. cbn in E. injection E as _ <-. done.
Qed.

Lemma sync_step_inv t st now s s' : sinv s -> threads s !! t = Some [st] -> timely opts now (o s) ->
  step opts answer t st now s = Some s' -> sinv s'.
Proof.
  intros Hi Ht Hti H. pose proof (sinv_weaken t s Hi) as Hb.
  destruct (si_threads _ _ Hi t _ ltac:(done) Ht) as [?|(st' & [= <-] & Hok & Hlk)]; [done|].
  assert (forall s1, frame s s1 -> threads s1 = threads s -> sinv_but (Some t) s1) as Hfr
    by (intros s1 Hs1 Et; apply (sinv_frame (Some t) s); [done|by rewrite Et|done]).
  assert (forall h, match h with EPut _ => False | _ => True end -> sinv_but (Some t) (note h s)) as Hnote.
  { intros h Hh. apply Hfr; [|done]. split; [done|]. split; [cbn; lia|]. split; [done|]. split; [done|]. rewrite puts_note. destruct h; by rewrite ?app_nil_r. }
  destruct st; cbn [step] in H; cbn [stage_ok] in Hok; cbn [locked] in Hlk; try specialize (Hlk eq_refl).
  - simplify_eq. case_match; (apply sinv_goto; [by auto|]); [by left|right; by eexists].
  - simplify_eq. destruct (mu s) as [u|] eqn:Em; (apply sinv_goto; [|right; by eexists]); [by auto|].
    apply (sinv_mu t (Some t) (closing s) s); by auto.
  - simplify_eq. case_match eqn:Ec; apply sinv_goto.
    + apply (sinv_mu t None (closing s) s); try done; [by left|by rewrite puts_note, app_nil_r].
    + by left.
    + by auto.
    + right. eexists. split; [done|]. split; [|done]. split; [|done]. intros _ Ef. by rewrite (si_closed _ _ Hi Ef) in Ec.
  - case_match; [|done]. simplify_eq. apply sinv_goto; [|right; by eexists].
    apply Hfr; [|done]. split; [done|]. split; [cbn; lia|]. split; [done|]. split; [done|]. by rewrite puts_note, app_nil_r.
  - simplify_eq. apply sinv_goto; [|right; by eexists]. apply Hfr; [|done]. split; [done|]. split; [cbn; lia|]. done.
  - simplify_eq. case_match; (apply sinv_goto; [by auto|]); [by left|right; by eexists].
  - simplify_eq. destruct (mu s) as [u|] eqn:Em; (apply sinv_goto; [|right; eexists]); [by auto|done| |done].
    apply (sinv_mu t (Some t) (closing s) s); by auto.
  - destruct Hok as [Hoe Hc]. destruct (if _ && _ then _ else _) as [r x] eqn:E.
    destruct (load_inv t now _ s r x Hb Hlk Hti E) as (-> & Hx & Hne & Hfa). clear E. simplify_eq. destruct (0 <? acc s) eqn:En; apply sinv_goto.
    + by apply (sinv_mu t (Some t) (closing s) (set_o x s)); auto.
    + right. eexists. split; [done|]. split; [|done]. cbn [stage_ok set_flushing set_o o acc closing].
      split; [lia|]. split; [by apply Hne|]. split; [|done]. intros Hs Hf. by apply Hoe, Hfa.
    + done.
    + right. eexists. split; [done|]. split; [|done]. split; [|done]. intros Hs. cbn [set_o o].
      assert (file x <> None) as Hn by (apply Hne; rewrite bool_decide_true, orb_true_r by (by destruct oe; [eexists|]); done).
      assert (file x <> Some false) by (intros Hf; by apply Hoe, Hfa). by destruct (file x) as [[]|].
  - destruct (chEntry s) as [|e l]; [done|]. simplify_eq. apply sinv_goto.
    + apply Hfr; [|done]. by split; [|split; [cbn; lia|]].
    + right. by eexists.
  - destruct Hok as (Hn & Hf & Hoe & Hc). eapply (put_inv t now e false k _ (set_acc (acc s - 1) s)); [by apply set_acc_inv; [..|lia]|done|done|done|done|exact H|].
    intros s1 Hi1 Hm1 Ea Ec Ef. cbn [set_acc acc closing o] in *. case_match; (apply sinv_goto; [done|]); right; eexists; (split; [done|]); (split; [|done]); cbn [stage_ok]; rewrite ?Ec, ?Ef, ?Ea.
    + split; [|done]. intros Hs. specialize (Hoe Hs). by destruct (file (o s)) as [[]|].
    + split; [lia|done].
  - destruct Hok as [Hoe Hc]. destruct oe as [e|]; [|simplify_eq; by apply flushed_inv].
    eapply (put_inv t now e true k); [exact Hb|done|by rewrite Hoe|done|done|exact H|].
    intros s1 Hi1 Hm1 Ea Ec Ef. apply flushed_inv; [done|done|by rewrite Ec].
  - destruct (mu s) as [|] eqn:Em; [done|]. simplify_eq. case_match; apply sinv_goto; [by auto|by left| |].
    + apply (sinv_mu t (Some t) true s); by auto.
    + right. eexists. split; [done|]. by split.
  - case_bool_decide as Ej; [|done]. destruct (if bool_decide _ then _ else _) as [r x] eqn:E. simplify_eq. apply sinv_goto; [|by left].
    apply (sinv_mu t None (closing s) (set_o x s)); try done; [by left|by eapply close_inv|by rewrite puts_note, app_nil_r].
Qed.

(** ** Accounting *)

(** the queue holds what [acc] says, up to goroutines between the two; every
    accepted entry is written, in the queue, or with a goroutine *)
Definition acct (s : syncer) : Prop :=
  Z.of_nat (length (chEntry s) + tot taken s) = acc s + Z.of_nat (tot counting s) /\
  forall p, (weigh (accepts p) (log s) = weigh (written_ p) (log s) + weigh (same p) (chEntry s) + tot (holds p) s)%nat.

Lemma acct_goto t k0 k hs s s1 : acct s -> default [] (threads s !! t) = k0 -> threads s1 = threads s -> log s1 = log s ++ hs ->
  Z.of_nat (length (chEntry s1) + weigh taken k) + Z.of_nat (weigh counting k0) + acc s =
    Z.of_nat (length (chEntry s) + weigh taken k0) + Z.of_nat (weigh counting k) + acc s1 ->
  (forall p, weigh (accepts p) hs + weigh (holds p) k0 + weigh (same p) (chEntry s) =
             weigh (written_ p) hs + weigh (same p) (chEntry s1) + weigh (holds p) k)%nat ->
  acct (goto t k s1).
Proof.
  intros [B A] Ek Et El Hb Ha. assert (forall f, tot f s1 = tot f s) as Etot by (intros f; unfold tot; by rewrite Et). split.
  - pose proof (sync_tot_goto taken t k s1) as H1. pose proof (sync_tot_goto counting t k s1) as H2. rewrite Et, Ek, Etot in H1, H2.
    cbn [goto chEntry acc] in *. lia.
  - intros p. specialize (A p). specialize (Ha p). pose proof (sync_tot_goto (holds p) t k s1) as H3. rewrite Et, Ek, Etot in H3.
    cbn [goto chEntry log] in *. rewrite El, !weigh_app. lia.
Qed.

Ltac counts := unfold weigh in *; cbn [sum_list_with taken counting holds given accepts written_ chEntry acc] in *;
  rewrite ?length_app, ?sum_list_with_app; cbn [length sum_list_with] in *; lia.

(** the end of a flush that holds nothing any more *)
Lemma flushed_acct t k r st hs s s1 : acct s -> threads s !! t = Some [st] -> threads s1 = threads s -> log s1 = log s ++ hs ->
  Z.of_nat (length (chEntry s1)) + Z.of_nat (counting st) + acc s = Z.of_nat (length (chEntry s) + taken st) + acc s1 ->
  (forall p, weigh (accepts p) hs + holds p st + weigh (same p) (chEntry s) = weigh (written_ p) hs + weigh (same p) (chEntry s1))%nat ->
  acct (flushed t k r s1).
Proof.
  intros Ha Ht Et El Hb Hp. unfold flushed. assert (default [] (threads s !! t) = [st]) as Ek by (by rewrite Ht).
  destruct k; [apply (acct_goto t [st] [] (hs ++ [EWrote t r]) s)|apply (acct_goto t [st] [] (hs ++ [EWrote t None]) s)|apply (acct_goto t [st] [CWait] hs s)];
    try done; try (by cbn [note log set_mu set_flushing]; rewrite El, <- app_assoc); cbn [set_mu note set_flushing chEntry acc] in *; try (counts);
    intros p; specialize (Hp p); rewrite ?weigh_app; counts.
Qed.

Ltac balance st k hs s := apply (acct_goto _ [st] k hs s);
  [done|done|done|by cbn [note log set_mu set_flushing set_o set_ch set_acc set_closing]; rewrite ?app_nil_r, <- ?app_assoc
  |cbn [note set_mu set_flushing set_o set_ch set_acc set_closing chEntry acc] in *; counts
  |intros ?p; cbn [note set_mu set_flushing set_o set_ch set_acc set_closing chEntry acc] in *; unfold weigh;
    cbn [sum_list_with holds given accepts written_]; rewrite ?sum_list_with_app; cbn [sum_list_with]; unfold same; lia].

Lemma put_cases t now e auto k next s s' : sinv_but (Some t) s -> mu s = Some t -> file (o s) <> None -> timely opts now (o s) ->
  put opts answer t now e auto k next s = Some s' ->
  exists x r, let s1 := note (EPut (buf e)) (set_o x s) in
    s' = next s1 \/ s' = flushed t k r s1 /\ file (o s) = Some false.
Proof.
  intros Hi Hm Hf Ht H. unfold put in H. destruct (writeEntry _ _ _ _ _ _) as [r x] eqn:E.
  destruct (put_files t now e auto s r x Hi Hm Hf Ht E) as (_ & _ & _ & Hok). destruct r as [[]|e'|]; [| |done]; simplify_eq.
  - exists x, None. by left.
  - exists x, (Some e'). right. split; [done|]. destruct (file (o s)) as [[]|]; [by specialize (Hok eq_refl)|done|done].
Qed.

Lemma sync_step_acct t st now s s' : sinv s -> acct s -> threads s !! t = Some [st] -> timely opts now (o s) ->
  step opts answer t st now s = Some s' -> acct s'.
Proof.
  intros Hi Ha Ht Hti H. pose proof (sinv_weaken t s Hi) as Hb.
  destruct (si_threads _ _ Hi t _ ltac:(done) Ht) as [?|(st' & [= <-] & Hok & Hlk)]; [done|].
  assert (default [] (threads s !! t) = [st]) as Ek by (by rewrite Ht).
  destruct st; cbn [step] in H; cbn [stage_ok] in Hok; cbn [locked] in Hlk; try specialize (Hlk eq_refl).
  - simplify_eq. case_match; [balance (WEnter e) (@nil stage) [EWrote t (Some ErrSyncerClosed)] s|balance (WEnter e) [WTry e] (@nil happening) s].
  - simplify_eq. destruct (mu s); [balance (WTry e) [WSend e] (@nil happening) s|balance (WTry e) [WLocked e] (@nil happening) s].
  - simplify_eq. case_match; [balance (WLocked e) (@nil stage) [EWrote t (Some ErrSyncerClosed)] s|
      balance (WLocked e) [FLoad (Some e) KWrite] [EAccept (buf e)] s].
  - case_match; [|done]. simplify_eq. balance (WSend e) [WCount] [EAccept (buf e)] s.
  - simplify_eq. balance WCount [WHead] (@nil happening) s.
  - simplify_eq. case_match; [balance WHead (@nil stage) [EWrote t None] s|balance WHead [WTryFlush] (@nil happening) s].
  - simplify_eq. destruct (mu s); [balance WTryFlush [WHead] (@nil happening) s|balance WTryFlush [FLoad None KTry] (@nil happening) s].
  - destruct (if _ && _ then _ else _) as [r x] eqn:E.
    destruct (load_inv t now _ s r x Hb Hlk Hti E) as (-> & _). clear E. simplify_eq.
    destruct (0 <? acc s); [balance (FLoad oe k) [FRecv (acc s) oe k] (@nil happening) s|balance (FLoad oe k) [FLast oe k] (@nil happening) s].
  - destruct (chEntry s) as [|e l] eqn:El; [done|]. simplify_eq. apply (acct_goto t [FRecv n oe k] [FPut e n oe k] [] s); try done.
    + by rewrite app_nil_r.
    + cbn [set_ch chEntry acc]. rewrite El. counts.
    + intros p. cbn [set_ch chEntry acc]. rewrite El. counts.
  - destruct Hok as (Hn & Hf & Hoe & Hc).
    destruct (put_cases _ _ _ _ _ _ _ _ (set_acc_inv t (acc s - 1) s Hb Hlk ltac:(lia)) Hlk Hf Hti H) as (x & r & [->|[-> Hcl]]).
    + case_match; [balance (FPut e n oe k) [FLast oe k] [EPut (buf e)] s|balance (FPut e n oe k) [FRecv (n - 1) oe k] [EPut (buf e)] s].
    + assert (oe = None) as -> by (destruct oe; [by destruct (Hoe ltac:(done))|done]).
      apply (flushed_acct t k r (FPut e n None k) [EPut (buf e)] s); [done|done|done|done|cbn; lia|].
      intros p. cbn [set_acc set_o note chEntry]. unfold weigh. cbn [sum_list_with accepts written_ holds given]. unfold same. lia.
  - destruct Hok as [Hoe Hc]. destruct oe as [e|].
    + assert (file (o s) <> None) as Hf by (by rewrite Hoe).
      destruct (put_cases _ _ _ _ _ _ _ _ Hb Hlk Hf Hti H) as (x & r & [->|[-> Hcl]]); [|by rewrite Hoe in Hcl].
      apply (flushed_acct t k None (FLast (Some e) k) [EPut (buf e)] s); [done|done|done|done|cbn; lia|].
      intros p. cbn [set_o note chEntry]. unfold weigh. cbn [sum_list_with accepts written_ holds given]. unfold same. lia.
    + simplify_eq. apply (flushed_acct t k None (FLast None k) [] s); [done|done|done|by rewrite app_nil_r|cbn; lia|].
      intros p. unfold weigh. cbn. lia.
  - destruct (mu s); [done|]. simplify_eq.
    case_match; [balance CEnter (@nil stage) [EClosed t (Some ErrSyncerClosed)] s|balance CEnter [FLoad None KClose] (@nil happening) s].
  - case_bool_decide; [|done]. destruct (if bool_decide _ then _ else _) as [r x] eqn:E. simplify_eq.
    balance CWait (@nil stage) [EClosed t (err_of r)] s.
Qed.

(** ** Runs *)

(** compression changes no archive *)
Lemma remove_one_elem {A} `{EqDecision A} (a b : A) l : a ∈ remove_one b l -> a ∈ l.
Proof.
  induction l as [|c l IH]; cbn [remove_one]; [done|]. case_decide; rewrite !elem_of_cons; [tauto|]. intros [?|?]; auto.
Qed.

Lemma compress_inv d f r x s : sinv s -> (d, f) ∈ jobs (o s) -> compressFile answer d f (o s) = (r, x) ->
  sinv (set_o (set_jobs (remove_one (d, f)) x).2 s).
Proof.
  intros Hi Hj E. destruct (compress_kept opts answer Hext Hans d f (o s) (si_tidy _ _ Hi) Hj) as (r' & x' & E' & Ex & Eb & Ha).
  rewrite E' in E. injection E as -> ->. injection Ex as Et Ev Ef Ew Ej. set (y := (set_jobs _ x).2).
  assert (wrote opts (o s) y []) as Hw.
  { apply wrote_log; [done|]. rewrite app_nil_r. unfold log_text, buffered. cbn [y set_jobs snd fs writer]. by rewrite Eb, Ew. }
  destruct Hi as [H1 H2 H3 H4 H5 H6]. split; cbn [set_o o closing acc threads mu]; try done.
  - destruct H1 as [T1 T2 T3 T4]. split; cbn [y set_jobs snd fileTag fileVersion file writer fs jobs]; rewrite ?Et, ?Ev, ?Ef, ?Ew, ?Ej, ?Eb; try done.
    + apply (free_same opts (fs (o s))); [done|apply T1|done].
    + intros d' s' Hin. apply remove_one_elem in Hin. by apply T3.
  - eapply kept_trans; [exact H2|apply Hw].
  - intros Hf. rewrite <- (app_nil_r (concat _)). apply (wrote_trans opts x0 (o s) y); [|done]. split; [done|]. apply H3. by rewrite <- Ef.
  - cbn [y set_jobs snd file]. by rewrite Ef.
  - intros u k _ Hu. destruct (H6 u k ltac:(done) Hu) as [?|(st & -> & Hs & Hl)]; [by left|right]. exists st. split; [done|].
    split; [|done]. by apply (stage_frame st s).
Qed.

(** what a step asks of the clock and the versions *)
Inductive reachable (s0 : syncer) : syncer -> Prop :=
| reach_start : reachable s0 s0
| reach_step s t x now s' : reachable s0 s -> timely opts now (o s) -> exec opts answer t x now s = Some s' -> reachable s0 s'.

Lemma sync_exec_inv t x now s s' : sinv s -> acct s -> timely opts now (o s) -> exec opts answer t x now s = Some s' -> sinv s' /\ acct s'.
Proof.
  intros Hi Ha Ht H. unfold exec in H. pose proof (sinv_weaken t s Hi) as Hb.
  assert (forall st, default [] (threads s !! t) = [] -> stage_ok st s -> locked st = false -> (taken st + counting st = 0)%nat ->
    (forall p, holds p st = 0%nat) -> sinv (goto t [st] s) /\ acct (goto t [st] s)) as Hnew.
  { intros st Ek Hs Hl Hz Hh. split; [apply sinv_goto; [done|]; right; exists st; by rewrite Hl|].
    apply (acct_goto t [] [st] [] s); try done; [by rewrite app_nil_r|counts|]. intros p. specialize (Hh p). unfold weigh. cbn. lia. }
  destruct x.
  - destruct (default [] (threads s !! t)) eqn:Ek; [|done]. simplify_eq. by apply Hnew.
  - destruct (default [] (threads s !! t)) eqn:Ek; [|done]. case_match; [done|]. simplify_eq. case_match; [done|]. by apply Hnew.
  - destruct (default [] (threads s !! t)) eqn:Ek; [|done]. simplify_eq. by apply Hnew.
  - case_bool_decide as Hj; [|done]. destruct (compressFile answer dst src (o s)) as [r x] eqn:E. simplify_eq.
    split; [by eapply compress_inv|]. destruct Ha as [B A]. by split.
  - destruct (threads s !! t) as [k|] eqn:Hk; [|done]. change (default [] (Some k)) with k in H.
    destruct (si_threads _ _ Hi t k ltac:(done) Hk) as [->|(st & -> & _)]; [done|].
    split; [by eapply sync_step_inv|by eapply sync_step_acct].
Qed.

Lemma sync_reachable s0 s : sinv s0 -> acct s0 -> reachable s0 s -> sinv s /\ acct s.
Proof. intros Hi Ha. induction 1 as [|s t x now s' Hr [IH1 IH2] Ht H]; [done|]. by eapply sync_exec_inv. Qed.
End Inv.
