(* ===== verification/FileSyncerClaims.v ===== *)
(** log/file: what the syncer promises from its start on, and where it loses
    entries. *)
From stdpp Require Import base numbers list gmap strings.
From Stdlib Require Import ZArith Lia.
From S2P Require Import Prelude Types Decimal Threads FileSyncer FileSyncerNames FileSyncerOk.
Import Syncer.

Open Scope Z_scope.
Open Scope go_scope.

(** ** Starting on a directory *)

Lemma lex_opp a b : lex b a = CompOpp (lex a b).
Proof.
  revert b. induction a as [|x a IH]; intros [|y b]; try done. cbn [lex]. rewrite (Z.compare_antisym x y).
  destruct (x ?= y); cbn; [apply IH|done|done].
Qed.

Lemma lex_antisym a b : lex a b <> Gt -> lex b a <> Gt -> a = b.
Proof. intros H1 H2. rewrite lex_opp in H2. apply lex_eq. by destruct (lex a b). Qed.

Lemma lex_le_trans a b c : lex a b <> Gt -> lex b c <> Gt -> lex a c <> Gt.
Proof.
  intros H1 H2. destruct (lex a b) eqn:E1; [apply lex_eq in E1; by subst| |done].
  destruct (lex b c) eqn:E2; [apply lex_eq in E2; subst; by rewrite E1| |done]. by rewrite (lex_lt_trans a b c).
Qed.

Section Start.
Context (opts : options) (answer : list op -> op -> option error).
Context (Hext : fileExt opts <> gzipExt) (Hshort : fileExt opts <> [] /\ len (fileExt opts) <= 4).
Context (Hans : forall l x, answer l x = None).
Context (files : gmap (list Z) content) (now : time).
Abbreviation archive := (archived opts).

(** the marks in the directory are of versions, and none is later than now *)
Definition clean : Prop := forall n c m, files !! n = Some c -> file_mark opts n = Ok (Some m) ->
  0 <= m.2 < 2 ^ 63 - 3 /\ lex m.1 (makeFileTag opts now) <> Gt.

Definition le_mark (m s : list Z * Z) : Prop := lex m.1 s.1 <> Gt /\ (m.1 = s.1 -> m.2 <= s.2).

Lemma file_mark_noerr n e : file_mark opts n <> Err e.
Proof.
  assert (forall (l : list Z) a b, go_slice l a b <> Err e) as Hs by (intros l a b; unfold go_slice; by case_match).
  unfold file_mark, res_bind. repeat case_match; naive_solver.
Qed.
Lemma file_marks_noerr ns s e : file_marks opts ns s <> Err e.
Proof.
  revert s. induction ns as [|n ns IH]; intros s; [done|]. cbn [file_marks]. pose proof (file_mark_noerr n e).
  destruct (file_mark opts n); cbn [res_bind]; [apply IH|congruence|congruence].
Qed.

Lemma filter_le m s : le_mark m (filterFileMark m s) /\ le_mark s (filterFileMark m s) /\
  (filterFileMark m s = s \/ filterFileMark m s = m).
Proof.
  unfold filterFileMark, le_mark. destruct (lex m.1 s.1) eqn:E; cbn [fst snd].
  - apply lex_eq in E. destruct (Z.ltb_spec s.2 m.2); cbn; rewrite ?E, ?lex_refl.
    + split_and!; try done; try lia. right. rewrite <- E. by destruct m.
    + split_and!; try done; try lia. by left.
  - rewrite E, lex_refl. split_and!; try done; try lia; [|by left]. intros Em. by rewrite Em, lex_refl in E.
  - rewrite lex_refl, (lex_opp m.1), E. split_and!; try done; try lia; [|by right]. intros Em. by rewrite Em, lex_refl in E.
Qed.

Lemma le_mark_trans a b c : le_mark a b -> le_mark b c -> le_mark a c.
Proof.
  intros [A1 A2] [B1 B2]. split; [by eapply lex_le_trans|]. intros E.
  assert (a.1 = b.1) as E1 by (apply lex_antisym; [done|by rewrite E]). rewrite E1 in E. specialize (A2 E1). specialize (B2 E). lia.
Qed.

Lemma file_marks_max names s s' : file_marks opts names s = Ok s' ->
  le_mark s s' /\ (forall n m, n ∈ names -> file_mark opts n = Ok (Some m) -> le_mark m s') /\
  (s' = s \/ exists n, n ∈ names /\ file_mark opts n = Ok (Some s')).
Proof.
  revert s. induction names as [|n names IH]; intros s H; cbn [file_marks] in H.
  - simplify_eq. split; [split; [by rewrite lex_refl|lia]|]. split; [by intros n m ?%elem_of_nil|by left].
  - destruct (file_mark opts n) as [om| |] eqn:En; [|done|done]. cbn [res_bind] in H. destruct (IH _ H) as (H1 & H2 & H3).
    destruct om as [m|].
    + destruct (filter_le m s) as (F1 & F2 & F3). split; [by eapply le_mark_trans|]. split.
      * intros n' m' [->|Hn]%elem_of_cons E; [|by eapply H2]. rewrite En in E. simplify_eq. by eapply le_mark_trans.
      * destruct H3 as [->|(n' & ? & ?)]; [|right; exists n'; by split; [right|]].
        destruct F3 as [->| ->]; [by left|]. right. exists n. split; [left|done].
    + split; [done|]. split; [|destruct H3 as [?|(n' & ? & ?)]; [by left|right; exists n'; by split; [right|]]].
      intros n' m' [->|Hn]%elem_of_cons E; [congruence|by eapply H2].
Qed.

(** an archive has a name whose mark is read back *)
Lemma archive_marked m : mark m -> archive files m <> None -> exists n c, files !! n = Some c /\ file_mark opts n = Ok (Some m).
Proof.
  intros [Hm Hv] H. unfold archived in H. destruct m as [tag v]. cbn [fst snd] in *.
  destruct (files !! makeFileName opts tag v (fileExt opts)) as [c|] eqn:E1.
  - do 2 eexists. split; [done|]. apply file_mark_name; auto.
  - destruct (files !! makeFileName opts tag v gzipExt) as [c|] eqn:E2; [|done].
    do 2 eexists. split; [done|]. apply file_mark_name; auto.
Qed.

Lemma parse_free m : clean -> parseFileMark opts (Ok (map_to_list files).*1) now ([], 0) = (Ok m, m) ->
  mark m /\ m.1 = makeFileTag opts now /\ free opts files m.1 (m.2 + 1) /\ m.2 < 2 ^ 63 - 3.
Proof.
  intros Hc H. unfold parseFileMark in H. destruct (file_marks _ _ _) as [s'| |] eqn:E; [|done|done].
  destruct (file_marks_max _ _ _ E) as (H1 & H2 & H3).
  assert (forall n c, files !! n = Some c -> n ∈ (map_to_list files).*1) as Hin
    by (intros n c Hn; apply list_elem_of_fmap; exists (n, c); split; [done|by apply elem_of_map_to_list]).
  assert (forall n, n ∈ (map_to_list files).*1 -> exists c, files !! n = Some c) as Hout
    by (intros n ([n' c] & -> & Hn)%list_elem_of_fmap; exists c; by apply elem_of_map_to_list).
  assert (forall m', mark m' -> archive files m' <> None -> le_mark m' s' /\ lex m'.1 (makeFileTag opts now) <> Gt) as Har.
  { intros m' Hm' Ha. destruct (archive_marked m' Hm' Ha) as (n & c & Hn & Em). split; [by eapply H2; [eapply Hin|]|by eapply Hc]. }
  assert (0 <= s'.2 < 2 ^ 63 - 3 /\ lex s'.1 (makeFileTag opts now) <> Gt) as [Hv Hl].
  { destruct H3 as [->|(n & Hn & Em)]; [|destruct (Hout n Hn) as [c Hnc]; by eapply Hc]. cbn. split; [lia|].
    by destruct (makeFileTag opts now). }
  pose proof (makeFileTag_nodot opts now) as Hnd. injection H as <-.
  assert (forall tag' v, nodot tag' -> version v -> lex (makeFileTag opts now) tag' = Lt -> archive files (tag', v) = None) as Hlater.
  { intros tag' v Ht Hv' Hlt. destruct (archive files (tag', v)) eqn:Ea; [|done].
    destruct (Har (tag', v) ltac:(by split)) as [_ Hg]; [congruence|]. cbn in Hg. by rewrite lex_opp, Hlt in Hg. }
  case_bool_decide as Eb; cbn [fst snd].
  - split; [split; [by rewrite <- Eb|unfold version; lia]|]. split; [done|]. rewrite <- Eb. split; [|lia]. split; [|done]. intros v Hv' Hle.
    destruct (archive files (makeFileTag opts now, v)) eqn:Ea; [|done].
    destruct (Har (makeFileTag opts now, v) ltac:(by split)) as [[_ Hx] _]; [congruence|]. cbn in Hx. specialize (Hx Eb). lia.
  - split; [by split; [|unfold version; cbn; lia]|]. split; [done|]. split; [|lia]. split; [|done]. intros v Hv' Hle.
    destruct (archive files (makeFileTag opts now, v)) eqn:Ea; [|done].
    destruct (Har (makeFileTag opts now, v) ltac:(by split)) as [[Hx _] _]; [congruence|]. cbn in Hx. exfalso. apply Eb. by apply lex_antisym.
Qed.

(** the log file found at the start is of now, or of an earlier tag whose next
    archive does not exist *)
Definition found (created : option time) : Prop :=
  match created with
  | None => True
  | Some t =>
      makeFileTag opts t = makeFileTag opts now \/
      lex (makeFileTag opts t) (makeFileTag opts now) = Lt /\
      archive files (makeFileTag opts t, (parseFileMark opts (Ok (map_to_list files).*1) now ([], 0)).2.2) = None
  end.

Lemma start_tidy created s0 : dir opts <> [] -> clean -> found created -> NewSyncer opts answer files created now = (Ok tt, s0) ->
  tidy opts (o s0) /\ (forall m c, mark m -> archive files m = Some c -> archive (fs (o s0)) m = Some c) /\
  (acc s0, chEntry s0, closing s0, mu s0, threads s0, log s0) = (0, [], false, None, ∅, []) /\ file (o s0) <> Some false.
Proof.
  intros Hd Hc Hf H. unfold NewSyncer in H. rewrite bool_decide_false in H by done. unfold found in Hf.
  destruct (init _ _ _ _ _ _) as [r x] eqn:Ei. injection H as -> <-. cbn [o acc chEntry closing mu threads log].
  unfold init, st_bind, read in Ei. cbn [fileTag fileVersion] in Ei.
  destruct (parseFileMark _ _ _ _) as [r m] eqn:Ep. cbn [snd] in Hf.
  destruct r as [m'| |]; [|exfalso|unfold st_panic in Ei; simplify_eq].
  2:{ unfold parseFileMark in Ep. destruct (file_marks _ _ _) eqn:E; simplify_eq. by eapply file_marks_noerr. }
  assert (m' = m) as -> by (unfold parseFileMark in Ep; destruct (file_marks _ _ _); simplify_eq; done).
  destruct (parse_free m Hc Ep) as (Hm & Ht & Hfree & Hv). cbn [set_mark] in Ei. set (y := mkOut _ _ _ _ _ _ _ _) in Ei.
  assert (tidy opts y) as Hy by (split; [by destruct m|done|by intros ? ? ?%elem_of_nil|done]).
  assert (forall l, tidy opts (mkOut m.1 m.2 0 None None files [] l)) as Hy' by (intros l; by destruct Hy).
  destruct created as [t|]; [|unfold st_ret in Ei; simplify_eq; by split_and!]. case_bool_decide as Eb; [unfold st_ret in Ei; simplify_eq; by split_and!|].
  destruct Hf as [Hf|[Hlt Hnone]]; [congruence|]. unfold st_bind, st_try in Ei.
  destruct (files !! base opts) as [c|] eqn:Hb.
  - destruct (doRotate_eq opts answer Hans (makeFileTag opts t) m.2 now y c Hb) as (l & El). rewrite El in Ei. clear El.
    set (z0 := mkOut _ _ _ _ _ _ _ _) in Ei.
    assert (mark (makeFileTag opts t, m.2)) as Hmt by (split; [apply makeFileTag_nodot|apply Hm]).
    assert (forall m', mark m' -> archive (fs z0) m' = if decide (m' = (makeFileTag opts t, m.2)) then Some (text c) else archive files m') as Ha
      by (intros m' Hm'; by apply (renamed_archive opts Hext files c)).
    destruct (openFile_tidy opts answer Hans now z0) as (z & Ez & Hz & Hzo & _ & _ & Hza & _);
      [apply Hm|split; [apply Hm|cbn; lia]|cbn; by rewrite Ht, lex_refl| |by intros ? ? ?%elem_of_nil|].
    { destruct Hfree as [F1 F2]. split.
      - intros v Hv' Hle. rewrite Ha by (by split; [apply Hm|]). rewrite decide_False by (intros [= E _]; congruence). by apply F1.
      - intros tag' v Hn Hv' Hl. rewrite Ha by (by split). rewrite decide_False; [by apply F2|]. intros [= E _]. subst tag'.
        cbn in Hl. rewrite Ht, lex_opp, Hlt in Hl. done. }
    assert (forall m' c', mark m' -> archive files m' = Some c' -> archive (fs z) m' = Some c') as Hkeep.
    { intros m' c' Hm' Hc'. rewrite Hza, Ha by done. rewrite decide_False; [done|]. intros ->. congruence. }
    unfold st_bind in Ei. rewrite Ez in Ei. destruct (compress opts).
    + unfold set_jobs, st_ret in Ei. injection Ei as <-. split; [|split; [exact Hkeep|split; [done|cbn; by rewrite Hzo]]].
      apply tidy_jobs; [done|]. constructor; [|constructor]. by eexists (_, _).
    + unfold st_ret in Ei. simplify_eq. split; [done|]. split; [done|]. split; [done|]. by rewrite Hzo.
  - unfold doRotateFile in Ei. unfold st_bind at 1 in Ei. rewrite ask_ok in Ei by done. unfold st_bind, read in Ei. cbn [fs y] in Ei. rewrite Hb in Ei.
    unfold st_err, st_ret in Ei. injection Ei as <-. split; [apply Hy'|]. by split_and!.
Qed.
End Start.

(** ** Claims *)

Section Claims.
Context (opts : options) (answer : list op -> op -> option error).



(** Once the file is closed and not opened again no entry reaches a file any more. *)
Lemma closed_for_good x y now e auto : shut x y -> shut x (writeEntry opts answer now e auto y).2.
Proof.
  intros Hs. pose proof (shut_writeEntry opts answer x now e auto y Hs) as H. destruct (writeEntry _ _ _ _ _ _) as [[]]; naive_solver.
Qed.

(** A rotation whose rename fails ends the log: the file was closed before and
    is not opened again, and no later entry is written. *)
Theorem failed_rename_ends_logging now x y e0 (es : list (entry * bool)) : file x = Some true -> is_Some (writer x) ->
  (forall l, answer l OClose = None) -> (forall l dst, answer l (ORename dst) = Some e0) ->
  rotateFile opts answer now x = (Err e0, y) ->
  fs (foldl (fun z p => (writeEntry opts answer now p.1 p.2 z).2) y es) = fs x.
Proof.
  intros Ho Hw Hc Hr E.
  assert (shut y y /\ fs y = fs x) as [Hs Ef].
  { unfold rotateFile, file_Close, doRotateFile, st_bind, read in E. rewrite Ho in E. rewrite bool_decide_true in E by done.
    unfold ask in E. cbn [negb set_file ops] in E. rewrite Hc in E. cbn [fileTag fileVersion ops] in E. rewrite Hr in E. injection E as <-.
    split; [|done]. by split. }
  rewrite <- Ef. assert (shut y (foldl (fun z p => (writeEntry opts answer now p.1 p.2 z).2) y es)) as (_ & _ & Ex); [|by injection Ex].
  revert Hs. generalize y at 2 4 as z. induction es as [|p es IH]; intros z Hz; [done|]. cbn [foldl]. by apply IH, closed_for_good.
Qed.
End Claims.

(** ** Runs *)

Definition never_fails (l : list op) (x : op) : option error := None.
Definition noon : time := mkTime 2024 5 6 12 2024 19.
Definition line (s : string) : entry := mkEntry noon (Some (bytes_of s)).
Definition app_log (base : string) (max : Z) (rot : Rotate) (gz : bool) : options :=
  mkOptions (bytes_of "log/") (bytes_of base) max rot gz.

Definition steps (t n : nat) : list (nat * action * time) := repeat (t, XGo, noon) n.
Definition writes (t : nat) (s : string) (n : nat) : list (nat * action * time) := (t, XWrite (line s), noon) :: steps t n.

(** a writer finds the mutex taken and queues its line, which the flush that
    follows leaves in the buffer; then the syncer is closed *)
Definition queued_then_closed : list (nat * action * time) :=
  writes 1 "a" 4 ++ writes 2 "b" 4 ++ steps 1 1 ++ steps 2 6 ++ [(3%nat, XClose, noon)] ++ steps 3 4.

(** C36: Close does not flush the buffer: a line whose Write returned nil, written
    by the flush of a queued entry, is in no file once Close has returned nil. *)
Theorem close_loses_line : exists s,
  let opts := app_log "app.log" 1000 RotateDay false in
  run opts never_fails queued_then_closed (NewSyncer opts never_fails ∅ None noon).2 = Some s /\
  EWrote 2 None ∈ log s /\ EPut (Some (bytes_of "b")) ∈ log s /\ EClosed 3 None ∈ log s /\
  fs (o s) = {[ bytes_of "app.log" := Plain (bytes_of "a") ]} /\ threads s = <[3%nat := []]> (<[2%nat := []]> {[1%nat := []]}).
Proof.
  eexists. split; [vm_compute; reflexivity|]. cbn [log]. split; [|split; [|split; [|split]]]; [by repeat constructor|by repeat constructor|by repeat constructor|reflexivity|reflexivity].
Qed.

(** With an extension longer than four bytes a compressed archive is not
    recognized at the start, and the next rotation compresses over it. *)
Theorem long_extension_overwrites_archive : exists s,
  let opts := app_log "app.json" 2 RotateNone true in
  let old := makeFileName opts (makeFileTag opts noon) 1 gzipExt in
  run opts never_fails (writes 1 "new" 5 ++ [(0%nat, XCompress old (makeFileName opts (makeFileTag opts noon) 1 (fileExt opts)), noon)])
    (NewSyncer opts never_fails {[ old := Gzip (bytes_of "old") ]} None noon).2 = Some s /\
  fs (o s) !! old = Some (Gzip (bytes_of "new")).
Proof. eexists. split; [vm_compute; reflexivity|vm_compute; reflexivity]. Qed.

(** ** Witnesses *)

Definition timely_b (opts : options) (now : time) (x : out) : bool :=
  match lex (fileTag x) (makeFileTag opts now) with Gt => false | _ => true end && (fileVersion x <? 2 ^ 63 - 3).

Fixpoint timely_run (opts : options) (answer : list op -> op -> option error) (xs : list (nat * action * time)) (s : syncer)
    : option syncer :=
  match xs with
  | [] => Some s
  | (t, x, now) :: xs' =>
      if timely_b opts now (o s)
      then match exec opts answer t x now s with Some s' => timely_run opts answer xs' s' | None => None end else None
  end.

Lemma timely_reachable opts answer s0 xs s s' : reachable opts answer s0 s -> timely_run opts answer xs s = Some s' ->
  reachable opts answer s0 s'.
Proof.
  revert s. induction xs as [|[[t x] now] xs IH]; intros s Hr H; cbn in H; [by simplify_eq|].
  destruct (timely_b opts now (o s)) eqn:Et; [|done]. destruct (exec opts answer t x now s) as [s1|] eqn:E; [|done].
  apply (IH s1); [|done]. apply (reach_step opts answer s0 s t x now s1); [done| |done]. unfold timely_b in Et.
  apply andb_true_iff in Et as [El Ev]. split; [by intros Eg; rewrite Eg in El|lia].
Qed.

Definition daily : options := app_log "app.log" 2 RotateDay false.
Definition archive1 : list Z := makeFileName daily (makeFileTag daily noon) 1 (fileExt daily).
Definition some_files : gmap (list Z) content := {[ archive1 := Plain (bytes_of "old") ]}.


