(* ===== verification/Watch.v ===== *)
(** locate/redis/watcher.go: the watchers of a manager, and the goroutine that
    hands them the events of the subscription.

    A goroutine is the list of what it still has to do; a RWMutex is its readers
    and its writer, and a region under a lock that cannot block is one stage.
    Goroutine 0 receives the messages of the subscription.  registry/consul,
    registry/etcd and registry/nacos have watchers of the same make. *)
From stdpp Require Import base numbers list gmap strings.
From Stdlib Require Import ZArith Lia.
From S2P Require Import Prelude Types.

Open Scope Z_scope.

Module Watch.

Definition stateInitial : Z := 0.
Definition stateRunning : Z := 1.
Definition stateStopped : Z := 2.

Record RWMutex := mkRW { readers : nat; writer : option nat }.
Definition unlocked : RWMutex := mkRW 0 None.
Definition free (m : RWMutex) : bool := (readers m =? 0)%nat && bool_decide (writer m = None).
Definition RLock (m : RWMutex) : RWMutex := mkRW (S (readers m)) (writer m).
Definition RUnlock (m : RWMutex) : RWMutex := mkRW (pred (readers m)) (writer m).

(** events are numbers here *)
Record watcher := mkWatcher { state : Z; chEvent : list Z; closed : bool; canceled : bool; rw : RWMutex }.
Definition newWatcher : watcher := mkWatcher stateInitial [] false false unlocked.
#[export] Instance watcher_inhabited : Inhabited watcher := populate newWatcher.
Definition chanSize : nat := 16.

Inductive stage :=
(* broadcast and, in it, notify *)
| BLock (e : Z) | BPick (e : Z) (todo : list nat) | NLock (w : nat) (e : Z) (todo : list nat) | NSend (w : nat) (e : Z) (todo : list nat)
(* Next; Stop, and in it recycle; fork *)
| XEnter (w : nat) | XSelect (w : nat) | SLock (w : nat) | SRecycle (w : nat) | FEnter.

Inductive happening :=
| EPublished (e : Z) | ESent (w : nat) (e : Z)
| EReceived (w : nat) (e : Z) | ENothing (w : nat) | EDone (w : nat)
| EStopped (w : nat) (r : option error) | EForked (w : nat) | ERunning (w : nat) | EPanic.

Record watcherMgr := mkMgr {
  objects : gmap nat watcher;
  watchers : list nat;
  mrw : RWMutex;
  idx : nat;
  down : bool;
  threads : gmap nat (list stage);
  log : list happening
}.
Definition newWatcherMgr : watcherMgr := mkMgr ∅ [] unlocked 0 false ∅ [].

Definition goto (t : nat) (k : list stage) (s : watcherMgr) : watcherMgr :=
  mkMgr (objects s) (watchers s) (mrw s) (idx s) (down s) (<[t := k]> (threads s)) (log s).
Definition note (h : happening) (s : watcherMgr) : watcherMgr :=
  mkMgr (objects s) (watchers s) (mrw s) (idx s) (down s) (threads s) (log s ++ [h]).
Definition obj (w : nat) (s : watcherMgr) : watcher := objects s !!! w.
Definition set_obj (w : nat) (x : watcher) (s : watcherMgr) : watcherMgr :=
  mkMgr (<[w := x]> (objects s)) (watchers s) (mrw s) (idx s) (down s) (threads s) (log s).
Definition set_mrw (m : RWMutex) (s : watcherMgr) : watcherMgr :=
  mkMgr (objects s) (watchers s) m (idx s) (down s) (threads s) (log s).
Definition with_rw (m : RWMutex) (x : watcher) : watcher := mkWatcher (state x) (chEvent x) (closed x) (canceled x) m.
Definition with_ch (l : list Z) (x : watcher) : watcher := mkWatcher (state x) l (closed x) (canceled x) (rw x).

(** recycle: the last watcher takes the subscription down *)
Definition recycle (w : nat) (s : watcherMgr) : watcherMgr :=
  let ws := filter (fun v => v <> w) (watchers s) in
  mkMgr (objects s) ws (mrw s) (idx s) (down s || bool_decide (ws = [])) (threads s) (log s).

Definition fork (s : watcherMgr) : watcherMgr :=
  let w := S (idx s) in
  note (EForked w) (mkMgr (<[w := newWatcher]> (objects s)) (watchers s ++ [w]) (mrw s) w (down s) (threads s) (log s)).

(** what the select of Next found, which watcher comes next in the map, and what
    closing the subscription returned *)
Inductive outcome := XOk | XDone | XPick (w : nat) | XClose (r : option error).
Inductive action := XEvent (e : Z) | XNext (w : nat) | XStop (w : nat) | XFork | XGo (x : outcome).

Definition step (t : nat) (st : stage) (x : outcome) (s : watcherMgr) : option watcherMgr :=
  match st, x with
  | BLock e, XOk =>
      if bool_decide (writer (mrw s) = None)
      then Some (goto t [BPick e (watchers s)] (set_mrw (RLock (mrw s)) s)) else None
  | BPick e [], XOk => Some (goto t [] (set_mrw (RUnlock (mrw s)) s))
  | BPick e todo, XPick w => if bool_decide (w ∈ todo) then Some (goto t [NLock w e (filter (fun v => v <> w) todo)] s) else None
  | NLock w e todo, XOk =>
      let y := obj w s in
      if bool_decide (writer (rw y) = None)
      then Some (if state y =? stateRunning then goto t [NSend w e todo] (set_obj w (with_rw (RLock (rw y)) y) s)
                 else goto t [BPick e todo] s)
      else None
  | NSend w e todo, XOk =>
      let y := obj w s in
      if closed y then Some (goto t [] (note EPanic s))
      else if (length (chEvent y) <? chanSize)%nat
      then Some (goto t [BPick e todo] (note (ESent w e) (set_obj w (with_ch (chEvent y ++ [e]) (with_rw (RUnlock (rw y)) y)) s)))
      else None
  | XEnter w, XOk =>
      let y := obj w s in
      if free (rw y)
      then Some (goto t [XSelect w]
                   (if state y =? stateInitial
                    then note (ERunning w) (set_obj w (mkWatcher stateRunning (chEvent y) (closed y) (canceled y) (rw y)) s) else s))
      else None
  | XSelect w, XDone => if canceled (obj w s) || down s then Some (goto t [] (note (EDone w) s)) else None
  | XSelect w, XOk =>
      let y := obj w s in
      match chEvent y with
      | e :: l => Some (goto t [] (note (EReceived w e) (set_obj w (with_ch l y) s)))
      | [] => if closed y
              then Some (goto t [] (note (if canceled y || down s then EDone w else ENothing w) s)) else None
      end
  | SLock w, XOk =>
      let y := obj w s in
      if free (rw y)
      then Some (if state y =? stateStopped then goto t [] (note (EStopped w (Some ErrIllegalOperation)) s)
                 else if closed y then goto t [] (note EPanic s)
                 else goto t [SRecycle w] (set_obj w (mkWatcher stateStopped (chEvent y) true true (mkRW 0 (Some t))) s))
      else None
  | SRecycle w, XClose r =>
      if free (mrw s)
      then let s1 := recycle w s in
           Some (goto t [] (note (EStopped w (if bool_decide (watchers s1 = []) then r else None))
                              (set_obj w (with_rw unlocked (obj w s1)) s1)))
      else None
  | FEnter, XOk => if free (mrw s) then Some (goto t [] (fork s)) else None
  | _, _ => None
  end.

Definition exec (t : nat) (x : action) (s : watcherMgr) : option watcherMgr :=
  match x, default [] (threads s !! t) with
  | XEvent e, [] => if (t =? 0)%nat && negb (down s) then Some (goto t [BLock e] (note (EPublished e) s)) else None
  | XNext w, [] => if (0 <? t)%nat && bool_decide (is_Some (objects s !! w)) then Some (goto t [XEnter w] s) else None
  | XStop w, [] => if (0 <? t)%nat && bool_decide (is_Some (objects s !! w)) then Some (goto t [SLock w] s) else None
  | XFork, [] => if (0 <? t)%nat then Some (goto t [FEnter] s) else None
  | XGo x, st :: _ => step t st x s
  | _, _ => None
  end.

Inductive reachable (s0 : watcherMgr) : watcherMgr -> Prop :=
| reach_start : reachable s0 s0
| reach_exec s t x s' : reachable s0 s -> exec t x s = Some s' -> reachable s0 s'.

Fixpoint run (xs : list (nat * action)) (s : watcherMgr) : option watcherMgr :=
  match xs with
  | [] => Some s
  | (t, x) :: xs' => match exec t x s with Some s' => run xs' s' | None => None end
  end.
End Watch.
