(* ===== verification/WatchOk.v ===== *)
(** locate/redis/watcher.go: what a watcher hears.  [flow] relates, for one
    watcher, what was published, what was put into its channel and what Next
    handed out; every step of every goroutine keeps it. *)
From stdpp Require Import base numbers list gmap strings.
From Stdlib Require Import ZArith Lia.
From S2P Require Import Prelude Types Watch.

Open Scope Z_scope.
Import Watch.

Definition received (w : nat) : list happening -> list Z :=
  omap (fun h => match h with EReceived v e => if decide (v = w) then Some e else None | _ => None end).
Definition sent (w : nat) : list happening -> list Z :=
  omap (fun h => match h with ESent v e => if decide (v = w) then Some e else None | _ => None end).
Definition published : list happening -> list Z :=
  omap (fun h => match h with EPublished e => Some e | _ => None end).
(** what was published since the watcher runs *)
Definition since (w : nat) : list happening -> option (list Z) :=
  foldl (fun acc h => match h with
                      | ERunning v => if decide (v = w) then Some [] else acc
                      | EPublished e => (fun l => l ++ [e]) <$> acc
                      | _ => acc
                      end) None.

Lemma received_snoc w l h : received w (l ++ [h]) = received w l ++ match h with EReceived v e => if decide (v = w) then [e] else [] | _ => [] end.
Proof. unfold received. rewrite omap_app. f_equal. by destruct h; simpl; repeat case_decide. Qed.
Lemma sent_snoc w l h : sent w (l ++ [h]) = sent w l ++ match h with ESent v e => if decide (v = w) then [e] else [] | _ => [] end.
Proof. unfold sent. rewrite omap_app. f_equal. by destruct h; simpl; repeat case_decide. Qed.
Lemma published_snoc l h : published (l ++ [h]) = published l ++ match h with EPublished e => [e] | _ => [] end.
Proof. unfold published. rewrite omap_app. f_equal. by destruct h; simpl; repeat case_decide. Qed.
Lemma since_snoc w l h :
  since w (l ++ [h]) = match h with
                       | ERunning v => if decide (v = w) then Some [] else since w l
                       | EPublished e => (fun l => l ++ [e]) <$> since w l
                       | _ => since w l
                       end.
Proof. unfold since. rewrite foldl_app. reflexivity. Qed.

(** the event being handed out, and who has still to get it *)
Definition pend (k : list stage) : option (Z * (nat -> Prop)) :=
  match k with
  | BLock e :: _ => Some (e, fun _ => True)
  | BPick e todo :: _ => Some (e, fun v => v ∈ todo)
  | NLock w e todo :: _ | NSend w e todo :: _ => Some (e, fun v => v = w \/ v ∈ todo)
  | _ => None
  end.

Definition ordered (pd : option (Z * (nat -> Prop))) (l : list happening) (w : nat) : Prop :=
  match pd with
  | None => sent w l `sublist_of` published l
  | Some (e, P) => exists pub, published l = pub ++ [e] /\ (P w -> sent w l `sublist_of` pub) /\ sent w l `sublist_of` published l
  end.

Definition complete (pd : option (Z * (nat -> Prop))) (l : list happening) (w : nat) : Prop :=
  exists q, since w l = Some q /\
  match pd with
  | None => q `suffix_of` sent w l
  | Some (e, P) =>
      (P w -> q = [] \/ exists p, q = p ++ [e] /\ p `suffix_of` sent w l) /\ (~ P w -> q `suffix_of` sent w l)
  end.

Record flow (pd : option (Z * (nat -> Prop))) (l : list happening) (w : nat) (y : watcher) : Prop := mkFlow {
  f_queue : received w l ++ chEvent y = sent w l;
  f_order : ordered pd l w;
  f_all : state y = stateRunning -> complete pd l w
}.

(** a happening that says nothing of what the watcher hears *)
Definition neutral (w : nat) (h : happening) : Prop :=
  match h with
  | EPublished _ => False
  | ESent v _ | EReceived v _ | ERunning v => v <> w
  | _ => True
  end.

Ltac snocs := rewrite ?received_snoc, ?sent_snoc, ?published_snoc, ?since_snoc in *; simpl in *.
Ltac keys := repeat (case_decide; try congruence); rewrite ?app_nil_r in *.

Lemma neutral_views w h l :
  neutral w h ->
  received w (l ++ [h]) = received w l /\ sent w (l ++ [h]) = sent w l /\
  published (l ++ [h]) = published l /\ since w (l ++ [h]) = since w l.
Proof. destruct h; simpl; intros N; snocs; try done; keys; done. Qed.

Lemma flow_neutral pd l w y h : neutral w h -> flow pd l w y -> flow pd (l ++ [h]) w y.
Proof.
  intros N [F1 F2 F3]. destruct (neutral_views w h l N) as (R & S & P & I).
  split; unfold ordered, complete in *; rewrite ?R, ?S, ?P, ?I; done.
Qed.

Lemma flow_same pd l w y y' : chEvent y' = chEvent y -> (state y' = stateRunning -> state y = stateRunning) -> flow pd l w y -> flow pd l w y'.
Proof. intros C S [F1 F2 F3]. split; [by rewrite C|done|auto]. Qed.

(** fewer watchers are waiting: those that left do not run *)
Lemma flow_shrink e (P Q : nat -> Prop) l w y :
  (Q w -> P w) -> (P w -> Q w \/ state y <> stateRunning) -> flow (Some (e, P)) l w y -> flow (Some (e, Q)) l w y.
Proof.
  intros QP PQ [F1 F2 F3]. split; [done| |].
  - destruct F2 as (pub & ? & ? & ?). exists pub. auto.
  - intros R. destruct (F3 R) as (q & E & A & B). exists q. split; [done|]. split; [auto|].
    intros NQ. apply B. intros HP. destruct (PQ HP); auto.
Qed.

Lemma flow_done e (P : nat -> Prop) l w y : ~ P w -> flow (Some (e, P)) l w y -> flow None l w y.
Proof.
  intros NP [F1 (pub & E & _ & O) F3]. split; [done|done|].
  intros R. destruct (F3 R) as (q & Eq & _ & B). exists q. auto.
Qed.

Lemma flow_begin e l w y : flow None l w y -> flow (Some (e, fun _ => True)) (l ++ [EPublished e]) w y.
Proof.
  intros [F1 F2 F3]. split; snocs; keys; [done| |].
  - exists (published l). snocs. keys. split; [done|]. split; [done|]. by apply sublist_inserts_r.
  - intros R. destruct (F3 R) as (q & E & B). exists (q ++ [e]). snocs. rewrite E. split; [done|]. keys.
    split; [|by intros []]. intros _. right. eauto.
Qed.

Lemma flow_running pd l w y y' : chEvent y' = chEvent y -> flow pd l w y -> flow pd (l ++ [ERunning w]) w y'.
Proof.
  intros C [F1 F2 F3]. split; [|unfold ordered in *|intros _; exists []]; snocs; keys; rewrite ?C; [done|done|].
  split; [done|]. destruct pd as [[e P]|]; [split; [auto|]|]; intros; apply suffix_nil.
Qed.

Lemma flow_receive pd l w y e q : chEvent y = e :: q -> flow pd l w y -> flow pd (l ++ [EReceived w e]) w (with_ch q y).
Proof.
  intros C [F1 F2 F3]. split; [|unfold ordered in *|unfold complete in *]; snocs; keys; [|done|done].
  rewrite C in F1. by rewrite <- F1, <- (assoc_L (++)).
Qed.

(** the event in hand reaches a watcher that waited for it *)
Lemma flow_send e (P Q : nat -> Prop) l w y y' :
  P w -> ~ Q w -> state y = stateRunning -> chEvent y' = chEvent y ++ [e] ->
  flow (Some (e, P)) l w y -> flow (Some (e, Q)) (l ++ [ESent w e]) w y'.
Proof.
  intros HP NQ R C [F1 (pub & E & O & _) F3]. destruct (F3 R) as (q & Eq & A & _). split.
  - snocs. keys. by rewrite C, (assoc_L (++)), F1.
  - exists pub. snocs. keys. split; [done|]. split; [done|]. rewrite E. by apply sublist_app; auto.
  - intros _. exists q. snocs. keys. split; [done|]. split; [done|]. intros _.
    destruct (A HP) as [->|(p & -> & S)]; [apply suffix_nil|]. by apply suffix_app.
Qed.

(** what a goroutine relies on at a stage *)
Definition stage_ok (s : watcherMgr) (t : nat) (st : stage) : Prop :=
  match st with
  | BLock _ | BPick _ _ => t = 0%nat
  | NLock w _ todo => t = 0%nat /\ w ∉ todo
  | NSend w _ todo => t = 0%nat /\ w ∉ todo /\ state (obj w s) = stateRunning /\ (1 <= readers (rw (obj w s)))%nat
  | XEnter w | XSelect w | SLock w => is_Some (objects s !! w)
  | SRecycle w => state (obj w s) = stateStopped
  | FEnter => True
  end.

Definition head_ok (s : watcherMgr) (t : nat) (k : list stage) : Prop :=
  match k with [] => True | st :: _ => stage_ok s t st end.

Definition stages (s : watcherMgr) (t : nat) : list stage := default [] (threads s !! t).

Record inv (s : watcherMgr) : Prop := mkInv {
  i_flow w : flow (pend (stages s 0)) (log s) w (obj w s);
  i_stage t : head_ok s t (stages s t);
  i_listed w : is_Some (objects s !! w) -> state (obj w s) <> stateStopped -> w ∈ watchers s;
  i_closed w : closed (obj w s) = true -> state (obj w s) = stateStopped;
  i_idx w : is_Some (objects s !! w) -> (w <= idx s)%nat;
  i_calm : EPanic ∉ log s
}.

Lemma watch_obj_set w v y s : obj v (set_obj w y s) = if decide (v = w) then y else obj v s.
Proof.
  unfold obj, set_obj. simpl. case_decide; subst.
  - apply lookup_total_insert_eq.
  - by apply lookup_total_insert_ne.
Qed.
Lemma known_set w v y s : is_Some (objects (set_obj w y s) !! v) <-> v = w \/ is_Some (objects s !! v).
Proof.
  simpl. destruct (decide (v = w)) as [->|].
  - rewrite lookup_insert_eq. naive_solver.
  - rewrite lookup_insert_ne by done. naive_solver.
Qed.
Lemma obj_unknown v s : objects s !! v = None -> obj v s = newWatcher.
Proof. unfold obj. intros E. by rewrite lookup_total_alt, E. Qed.
Lemma stages_goto t u k s : stages (goto t k s) u = if decide (u = t) then k else stages s u.
Proof.
  unfold stages, goto. simpl. case_decide; subst.
  - by rewrite lookup_insert_eq.
  - by rewrite lookup_insert_ne.
Qed.

(** what the others rely on survives a step of goroutine [t] *)
Definition steady (t : nat) (s s' : watcherMgr) : Prop :=
  (forall w, is_Some (objects s !! w) -> is_Some (objects s' !! w)) /\
  (forall w, state (obj w s) = stateStopped -> state (obj w s') = stateStopped) /\
  (forall w, t <> 0%nat -> state (obj w s) = stateRunning -> (1 <= readers (rw (obj w s)))%nat ->
     state (obj w s') = stateRunning /\ (1 <= readers (rw (obj w s')))%nat).

Lemma steady_refl_like t s s' : objects s' = objects s -> steady t s s'.
Proof. intros E. unfold steady, obj. rewrite E. auto. Qed.

Lemma steady_set t w y s s' :
  objects s' = <[w := y]> (objects s) ->
  (state (obj w s) = stateStopped -> state y = stateStopped) ->
  (t <> 0%nat -> state (obj w s) = stateRunning -> (1 <= readers (rw (obj w s)))%nat -> state y = stateRunning /\ (1 <= readers (rw y))%nat) ->
  steady t s s'.
Proof.
  intros E A B. pose proof (watch_obj_set w) as O. unfold obj, set_obj in O, A, B. simpl in O.
  unfold steady, obj. rewrite E. split; [|split]; intros v.
  - destruct (decide (v = w)) as [->|]; [by rewrite lookup_insert_eq|by rewrite lookup_insert_ne].
  - rewrite (O v y s). case_decide; subst; auto.
  - rewrite (O v y s). case_decide; subst; auto.
Qed.

Lemma stage_steady t s s' u st : steady t s s' -> u <> t -> stage_ok s u st -> stage_ok s' u st.
Proof. intros (A & B & C) N. destruct st; simpl; naive_solver. Qed.

Lemma head_same s s' t k : objects s' = objects s -> head_ok s t k -> head_ok s' t k.
Proof. intros E. destruct k as [|[] ?]; simpl; unfold obj; rewrite ?E; done. Qed.

Lemma stages_kept s s' t k :
  steady t s s' -> (forall u, head_ok s u (stages s u)) -> head_ok s' t k ->
  threads s' = threads s -> forall u, head_ok (goto t k s') u (stages (goto t k s') u).
Proof.
  intros S I K E u. rewrite stages_goto. case_decide; subst; [destruct k; exact K|].
  specialize (I u). unfold stages in *. rewrite E. destruct (default [] _); [done|].
  by eapply stage_steady.
Qed.

(** a goroutine moves on to [k] *)
Lemma inv_goto s s' t k :
  inv s -> steady t s s' -> threads s' = threads s -> head_ok s' t k ->
  (forall w, flow (pend (if decide (0 = t)%nat then k else stages s 0)) (log s') w (obj w s')) ->
  (forall w, is_Some (objects s' !! w) -> state (obj w s') <> stateStopped -> w ∈ watchers s') ->
  (forall w, closed (obj w s') = true -> state (obj w s') = stateStopped) ->
  (forall w, is_Some (objects s' !! w) -> (w <= idx s')%nat) ->
  EPanic ∉ log s' ->
  inv (goto t k s').
Proof.
  intros I S T H F L C X P. split; try done.
  - intros w. rewrite stages_goto. unfold stages in *. rewrite T. apply F.
  - apply (stages_kept s); auto using i_stage.
Qed.

Lemma pend_aside s t st r k :
  stages s t = st :: r -> pend [st] = None -> pend k = None -> pend (if decide (0 = t)%nat then k else stages s 0) = pend (stages s 0).
Proof.
  intros E S K. case_decide; subst; [|done]. rewrite E, K. destruct st; done.
Qed.

(** ... and nothing but the log changes *)
Lemma inv_note s t k h :
  inv s -> head_ok s t k -> (forall w, neutral w h) -> h <> EPanic ->
  pend (if decide (0 = t)%nat then k else stages s 0) = pend (stages s 0) -> inv (goto t k (note h s)).
Proof.
  intros I H N Q E. apply (inv_goto s); auto using steady_refl_like.
  - intros w. rewrite E. apply flow_neutral; [auto|apply (i_flow s I)].
  - apply (i_listed s I).
  - apply (i_closed s I).
  - apply (i_idx s I).
  - simpl. rewrite elem_of_app, list_elem_of_singleton. pose proof (i_calm s I). naive_solver.
Qed.

Lemma inv_move s s' t k :
  inv s -> head_ok s t k -> objects s' = objects s -> watchers s' = watchers s -> idx s' = idx s ->
  threads s' = threads s -> log s' = log s ->
  (forall w, flow (pend (stages s 0)) (log s) w (obj w s) -> flow (pend (if decide (0 = t)%nat then k else stages s 0)) (log s) w (obj w s)) ->
  inv (goto t k s').
Proof.
  intros I H O W X T L F. assert (OB : forall w, obj w s' = obj w s) by (intros; unfold obj; by rewrite O).
  apply (inv_goto s); auto using steady_refl_like.
  - by apply (head_same s).
  - intros w. rewrite L, OB. apply F, (i_flow s I).
  - intros w. rewrite O, OB, W. apply (i_listed s I).
  - intros w. rewrite OB. apply (i_closed s I).
  - intros w. rewrite O, X. apply (i_idx s I).
  - rewrite L. apply (i_calm s I).
Qed.

(** ... and one watcher changes, as the log tells *)
Lemma inv_set s s' t k w y h :
  inv s -> is_Some (objects s !! w) ->
  objects s' = <[w := y]> (objects s) -> watchers s' = watchers s -> idx s' = idx s -> threads s' = threads s ->
  log s' = log s ++ h -> EPanic ∉ h ->
  steady t s s' -> head_ok s' t k ->
  (state y <> stateStopped -> state (obj w s) <> stateStopped) ->
  (closed y = true -> state y = stateStopped) ->
  flow (pend (if decide (0 = t)%nat then k else stages s 0)) (log s ++ h) w y ->
  (forall v, v <> w -> flow (pend (stages s 0)) (log s) v (obj v s) ->
     flow (pend (if decide (0 = t)%nat then k else stages s 0)) (log s ++ h) v (obj v s)) ->
  inv (goto t k s').
Proof.
  intros I K O W X T L P S H A B Fw Fv.
  assert (OB : forall v, obj v s' = if decide (v = w) then y else obj v s).
  { intros v. rewrite <- watch_obj_set. unfold obj. rewrite O. done. }
  assert (KN : forall v, is_Some (objects s' !! v) -> is_Some (objects s !! v)).
  { intros v. rewrite O. intros V. apply (known_set w v y s) in V. destruct V; subst; auto. }
  apply (inv_goto s); auto.
  - intros v. rewrite L, OB. destruct (decide (v = w)) as [->|]; [done|]. apply Fv; [done|]. apply (i_flow s I).
  - intros v V. rewrite OB, W. intros Y. apply (i_listed s I v (KN v V)). destruct (decide (v = w)) as [->|]; auto.
  - intros v. rewrite OB. destruct (decide (v = w)) as [->|]; [exact B|]. apply (i_closed s I).
  - intros v V. rewrite X. apply (i_idx s I); auto.
  - rewrite L, elem_of_app. pose proof (i_calm s I). naive_solver.
Qed.

(** ** locate/redis/watcher.go: every step of every goroutine keeps [WatchOk.inv]. *)
Lemma watch_inv_new : inv newWatcherMgr.
Proof.
  assert (O : forall w, obj w newWatcherMgr = newWatcher) by (intros; by apply obj_unknown).
  split; try (intros w; rewrite O); try (intros w; simpl; rewrite lookup_empty; by intros []); try done.
  - change (pend _) with (@None (Z * (nat -> Prop))). split; [done|apply sublist_nil_l|done].
  - simpl. rewrite lookup_empty. by intros [].
  - simpl. apply not_elem_of_nil.
Qed.

Lemma fork_ok s t r : inv s -> stages s t = FEnter :: r -> inv (goto t [] (fork s)).
Proof.
  intros I E. unfold fork. set (w := S (idx s)).
  assert (N : objects s !! w = None).
  { apply eq_None_not_Some. intros K. pose proof (i_idx s I w K). subst w. lia. }
  assert (OB : forall v, <[w := newWatcher]> (objects s) !!! v = obj v s).
  { intros v. destruct (decide (v = w)) as [->|]; [|by apply lookup_total_insert_ne].
    rewrite lookup_total_insert_eq. symmetry. by apply obj_unknown. }
  assert (KN : forall v, is_Some (<[w := newWatcher]> (objects s) !! v) -> v = w \/ is_Some (objects s !! v)).
  { intros v. apply (known_set w v newWatcher s). }
  apply (inv_goto s); try done; simpl.
  - apply (steady_set t w newWatcher); [done| |]; rewrite (obj_unknown w s N); done.
  - intros v. rewrite (pend_aside s t FEnter r []) by done. apply flow_neutral; [done|].
    unfold obj at 1. simpl. rewrite OB. apply (i_flow s I).
  - intros v V NS. rewrite elem_of_app, list_elem_of_singleton. destruct (KN v V) as [->|K]; [by right|left].
    apply (i_listed s I v K). by rewrite <- OB.
  - intros v. unfold obj. simpl. rewrite OB. apply (i_closed s I).
  - intros v V. destruct (KN v V) as [->|K]; [done|]. pose proof (i_idx s I v K). subst w. lia.
  - rewrite elem_of_app, list_elem_of_singleton. pose proof (i_calm s I). naive_solver.
Qed.

Lemma running_known s w : state (obj w s) = stateRunning -> is_Some (objects s !! w).
Proof. intros R. apply not_eq_None_Some. intros N. by rewrite (obj_unknown w s N) in R. Qed.

Lemma not_closed s w : inv s -> state (obj w s) <> stateStopped -> closed (obj w s) = false.
Proof. intros I N. destruct (closed (obj w s)) eqn:C; [|done]. by apply (i_closed s I) in C. Qed.

Lemma sent_ok s w e todo r :
  inv s -> stages s 0 = NSend w e todo :: r ->
  inv (goto 0 [BPick e todo] (note (ESent w e) (set_obj w (with_ch (chEvent (obj w s) ++ [e]) (with_rw (RUnlock (rw (obj w s))) (obj w s))) s))).
Proof.
  intros I E. pose proof (i_stage s I 0) as G. rewrite E in G. destruct G as (_ & NT & R & _).
  pose proof (running_known s w R) as K. pose proof (i_flow s I w) as F. rewrite E in F.
  set (y := with_ch _ _). apply (inv_set s _ 0 _ w y [ESent w e]); try done.
  - by rewrite list_elem_of_singleton.
  - by apply (steady_set 0 w y).
  - simpl. apply (i_closed s I).
  - simpl. eapply flow_send; [| | |done|exact F]; simpl; auto.
  - intros v N Fv. rewrite E in Fv. simpl. apply flow_neutral; [simpl; congruence|].
    eapply flow_shrink; [| |exact Fv]; simpl; naive_solver.
Qed.

Lemma entered_ok s w t r :
  inv s -> stages s t = XEnter w :: r -> is_Some (objects s !! w) -> state (obj w s) = stateInitial ->
  inv (goto t [XSelect w]
         (note (ERunning w) (set_obj w (mkWatcher stateRunning (chEvent (obj w s)) (closed (obj w s)) (canceled (obj w s)) (rw (obj w s))) s))).
Proof.
  intros I E K ST. set (y := mkWatcher _ _ _ _ _). pose proof (pend_aside s t _ _ [XSelect w] E eq_refl eq_refl) as PA.
  assert (C : closed (obj w s) = false) by (apply not_closed; [done|by rewrite ST]).
  apply (inv_set s _ t _ w y [ERunning w]); try done.
  - by rewrite list_elem_of_singleton.
  - apply (steady_set t w y); rewrite ?ST; done.
  - simpl. rewrite lookup_insert_eq. eauto.
  - by rewrite ST.
  - simpl. by rewrite C.
  - rewrite PA. eapply flow_running; [|apply (i_flow s I)]. done.
  - intros v N Fv. rewrite PA. apply flow_neutral; [simpl; congruence|done].
Qed.

Lemma received_ok s w t r e q :
  inv s -> stages s t = XSelect w :: r -> is_Some (objects s !! w) -> chEvent (obj w s) = e :: q ->
  inv (goto t [] (note (EReceived w e) (set_obj w (with_ch q (obj w s)) s))).
Proof.
  intros I E K C. pose proof (pend_aside s t _ _ [] E eq_refl eq_refl) as PA.
  apply (inv_set s _ t _ w (with_ch q (obj w s)) [EReceived w e]); try done.
  - by rewrite list_elem_of_singleton.
  - by apply (steady_set t w (with_ch q (obj w s))).
  - simpl. apply (i_closed s I).
  - rewrite PA. apply flow_receive; [done|apply (i_flow s I)].
  - intros v N Fv. rewrite PA. apply flow_neutral; [simpl; congruence|done].
Qed.

Lemma free_readers m : free m = true -> readers m = 0%nat.
Proof. unfold free. rewrite andb_true_iff, Nat.eqb_eq. by intros []. Qed.

Lemma stopping_ok s w t r :
  inv s -> stages s t = SLock w :: r -> is_Some (objects s !! w) -> free (rw (obj w s)) = true ->
  inv (goto t [SRecycle w] (set_obj w (mkWatcher stateStopped (chEvent (obj w s)) true true (mkRW 0 (Some t))) s)).
Proof.
  intros I E K Fr. apply free_readers in Fr. set (y := mkWatcher _ _ _ _ _).
  pose proof (pend_aside s t _ _ [SRecycle w] E eq_refl eq_refl) as PA.
  apply (inv_set s _ t _ w y []); try done.
  - simpl. by rewrite app_nil_r.
  - apply not_elem_of_nil.
  - apply (steady_set t w y); [done|done|]. rewrite Fr. lia.
  - simpl. by rewrite watch_obj_set, decide_True.
  - rewrite PA, app_nil_r. eapply flow_same; [| |apply (i_flow s I)]; done.
  - intros v N Fv. by rewrite PA, app_nil_r.
Qed.

Lemma recycled_ok s w t r res :
  inv s -> stages s t = SRecycle w :: r ->
  inv (goto t [] (note (EStopped w res) (set_obj w (with_rw unlocked (obj w (recycle w s))) (recycle w s)))).
Proof.
  intros I E. pose proof (i_stage s I t) as G. rewrite E in G. simpl in G.
  pose proof (pend_aside s t _ _ [] E eq_refl eq_refl) as PA.
  change (obj w (recycle w s)) with (obj w s). set (y := with_rw unlocked (obj w s)).
  assert (OB : forall v, obj v (note (EStopped w res) (set_obj w y (recycle w s))) = if decide (v = w) then y else obj v s).
  { intros v. apply (watch_obj_set w v y s). }
  assert (KN : forall v, v <> w -> is_Some (<[w := y]> (objects s) !! v) -> is_Some (objects s !! v)).
  { intros v N. by rewrite lookup_insert_ne. }
  apply (inv_goto s); try done.
  - apply (steady_set t w y); [done|done|]. rewrite G. done.
  - intros v. rewrite PA, OB. apply flow_neutral; [done|]. pose proof (i_flow s I v) as F.
    destruct (decide (v = w)) as [->|]; [|done]. eapply flow_same; [| |exact F]; done.
  - intros v V. rewrite OB. destruct (decide (v = w)) as [->|N]; [intros X; by destruct X|].
    intros S. simpl. apply list_elem_of_filter. split; [done|]. apply (i_listed s I v); [|done]. by apply KN.
  - intros v. rewrite OB. destruct (decide (v = w)) as [->|]; apply (i_closed s I).
  - intros v V. destruct (decide (v = w)) as [->|N]; [|by apply (i_idx s I), KN].
    apply (i_idx s I). apply not_eq_None_Some. intros X. by rewrite (obj_unknown w s X) in G.
  - simpl. rewrite elem_of_app, list_elem_of_singleton. pose proof (i_calm s I). naive_solver.
Qed.

Lemma notified_ok s w e todo r :
  inv s -> stages s 0 = NLock w e todo :: r ->
  inv (if state (obj w s) =? stateRunning
       then goto 0 [NSend w e todo] (set_obj w (with_rw (RLock (rw (obj w s))) (obj w s)) s) else goto 0 [BPick e todo] s).
Proof.
  intros I E. pose proof (i_stage s I 0) as G. rewrite E in G. destruct G as (_ & NT).
  destruct (Z.eqb_spec (state (obj w s)) stateRunning) as [R|R].
  - set (y := with_rw _ _). apply (inv_set s _ 0 _ w y []); try done.
    + by apply running_known.
    + simpl. by rewrite app_nil_r.
    + apply not_elem_of_nil.
    + by apply (steady_set 0 w y).
    + simpl. rewrite watch_obj_set, decide_True by done. simpl. split_and!; [done|done|done|lia].
    + apply (i_closed s I).
    + rewrite app_nil_r. simpl. pose proof (i_flow s I w) as F. rewrite E in F. eapply flow_same; [| |exact F]; done.
    + intros v N Fv. rewrite E in Fv. by rewrite app_nil_r.
  - apply (inv_move s); try done. intros v F. rewrite E in F. simpl.
    eapply flow_shrink; [| |exact F]; simpl; [naive_solver|].
    intros [->|]; auto.
Qed.

Lemma broadcast_ok s st r x s' :
  inv s -> stages s 0 = st :: r -> pend [st] <> None -> step 0 st x s = Some s' -> inv s'.
Proof.
  intros I E P S. pose proof (i_stage s I 0) as G. rewrite E in G.
  destruct st as [e|e todo|w e todo|w e todo|?|?|?|?|]; try done.
  - destruct x; try done. cbn -[goto] in S. case_bool_decide; [|done]. injection S as <-.
    apply (inv_move s); try done. intros v F. rewrite E in F. simpl.
    eapply flow_shrink; [| |exact F]; simpl; [done|]. intros _.
    destruct (decide (state (obj v s) = stateRunning)) as [R|]; [left|by right].
    apply (i_listed s I v); [by apply running_known|by rewrite R].
  - destruct x as [| |w|]; destruct todo as [|v0 todo]; try done; cbn -[goto filter] in S.
    + injection S as <-. apply (inv_move s); try done. intros v F. rewrite E in F. simpl.
      eapply flow_done; [|exact F]. simpl. apply not_elem_of_nil.
    + case_bool_decide as M; [|done]. injection S as <-. apply (inv_move s); try done.
      * split; [done|]. rewrite list_elem_of_filter. naive_solver.
      * intros v F. rewrite E in F.
        eapply flow_shrink; [| |exact F]; rewrite list_elem_of_filter; [naive_solver|].
        intros V. left. destruct (decide (v = w)); auto.
  - destruct x; try done. cbn -[goto] in S. case_bool_decide; [|done].
    injection S as <-. by apply (notified_ok s w e todo r).
  - destruct x; try done. cbn -[goto Nat.ltb] in S. destruct G as (_ & _ & R & _).
    rewrite (not_closed s w I) in S by (by rewrite R). destruct (_ <? _)%nat; [|done].
    injection S as <-. by apply (sent_ok s w e todo r).
Qed.

Lemma aside_ok s t st r x s' :
  inv s -> stages s t = st :: r -> pend [st] = None -> step t st x s = Some s' -> inv s'.
Proof.
  intros I E P S. pose proof (i_stage s I t) as G. rewrite E in G.
  pose proof (fun k => pend_aside s t st r k E P) as PA.
  destruct st as [?|?|?|?|w|w|w|w|]; try done; destruct x as [| |?|res]; try done; cbn -[goto] in S.
  - destruct (free _); [|done]. injection S as <-. destruct (Z.eqb_spec (state (obj w s)) stateInitial).
    + by apply (entered_ok s w t r).
    + apply (inv_move s); try done. intros v. by rewrite PA.
  - destruct (chEvent (obj w s)) as [|e q] eqn:C.
    + destruct (closed _); [|done]. injection S as <-. apply inv_note; try done; [| |by apply PA]; by destruct (_ || _).
    + injection S as <-. by apply (received_ok s w t r).
  - destruct (_ || _); [|done]. injection S as <-. apply inv_note; try done. by apply PA.
  - destruct (free _) eqn:Fr; [|done]. injection S as <-. destruct (Z.eqb_spec (state (obj w s)) stateStopped).
    + apply inv_note; try done. by apply PA.
    + rewrite (not_closed s w I) by done. by apply (stopping_ok s w t r).
  - destruct (free _); [|done]. injection S as <-. by apply (recycled_ok s w t r).
  - destruct (free _); [|done]. injection S as <-. by apply (fork_ok s t r).
Qed.

Lemma exec_ok s t x s' : inv s -> exec t x s = Some s' -> inv s'.
Proof.
  intros I X. unfold exec in X. fold (stages s t) in X. destruct (stages s t) as [|st r] eqn:E.
  - assert (PN : forall k, pend k = None -> pend (if decide (0 = t)%nat then k else stages s 0) = pend (stages s 0)).
    { intros k K. case_decide; [|done]. subst. by rewrite E, K. }
    destruct x as [e|w|w| |]; try done; destruct (_ : bool) eqn:B in X; try done; injection X as <-.
    + apply andb_true_iff in B as [T _]. apply Nat.eqb_eq in T as ->. apply (inv_goto s); auto using steady_refl_like.
      * done.
      * intros v. simpl. pose proof (i_flow s I v) as F. rewrite E in F. by apply flow_begin.
      * apply (i_listed s I).
      * apply (i_closed s I).
      * apply (i_idx s I).
      * simpl. rewrite elem_of_app, list_elem_of_singleton. pose proof (i_calm s I). naive_solver.
    + apply andb_true_iff in B as [_ B]. apply bool_decide_eq_true in B. apply (inv_move s); try done. intros v. by rewrite PN.
    + apply andb_true_iff in B as [_ B]. apply bool_decide_eq_true in B. apply (inv_move s); try done. intros v. by rewrite PN.
    + apply (inv_move s); try done. intros v. by rewrite PN.
  - destruct x as [| | | |x]; try done. destruct (pend [st]) eqn:P.
    + assert (t = 0%nat) as ->.
      { pose proof (i_stage s I t) as G. rewrite E in G. destruct st; try done; by destruct G. }
      eapply broadcast_ok; [done|done|by rewrite P|done].
    + by eapply aside_ok.
Qed.

Lemma watch_reachable_inv s : reachable newWatcherMgr s -> inv s.
Proof. induction 1; [apply watch_inv_new|]. by eapply exec_ok. Qed.
