(* ===== verification/WatchClaims.v ===== *)
(** locate/redis/watcher.go: what watchers hear, and how stopping one of them can
    end it for all; locate/redis/locator.go: what unbinding may remove. *)
From stdpp Require Import base numbers list gmap strings.
From Stdlib Require Import ZArith Lia.
From S2P Require Import Prelude Types Watch WatchOk.

Open Scope Z_scope.
Import Watch.

Lemma watch_run_reachable xs s0 s s' : reachable s0 s -> run xs s = Some s' -> reachable s0 s'.
Proof.
  revert s. induction xs as [|[t x] xs IH]; simpl; intros s R E; [by injection E as <-|].
  destruct (exec t x s) as [s1|] eqn:X; [|done]. eapply IH; [|done]. by econstructor.
Qed.

(** C17: What a watcher hears.  Whatever the goroutines do and however they
    interleave: nobody sends on or closes a closed channel; what Next handed out
    followed by what waits in the channel is what was sent; that is a part of
    what was published, in the same order; and a running watcher missed nothing
    since it runs, once the event in hand has been handed to all. *)
Theorem watchers_hear_in_order s w :
  reachable newWatcherMgr s ->
  EPanic ∉ log s /\
  received w (log s) ++ chEvent (obj w s) = sent w (log s) /\
  sent w (log s) `sublist_of` published (log s) /\
  (stages s 0 = [] -> state (obj w s) = stateRunning ->
   exists q, since w (log s) = Some q /\ q `suffix_of` sent w (log s)).
Proof.
  intros R. apply watch_reachable_inv in R as I. destruct (i_flow s I w) as [F1 F2 F3].
  split; [by apply i_calm|]. split; [done|]. split.
  - unfold ordered in F2. destruct (pend _) as [[e P]|]; [|done]. by destruct F2 as (pub & _ & _ & ?).
  - intros E S. specialize (F3 S). by rewrite E in F3.
Qed.

(** a watcher runs, hears 7 and 8, and has taken 7 *)
Definition hearing : list (nat * action) :=
  [(1, XFork); (1, XGo XOk); (1, XNext 1); (1, XGo XOk);
   (0, XEvent 7); (0, XGo XOk); (0, XGo (XPick 1)); (0, XGo XOk); (0, XGo XOk); (0, XGo XOk);
   (0, XEvent 8); (0, XGo XOk); (0, XGo (XPick 1)); (0, XGo XOk); (0, XGo XOk); (0, XGo XOk);
   (1, XGo XOk)]%nat.
Definition heard : watcherMgr := default newWatcherMgr (run hearing newWatcherMgr).

Lemma watchers_hear_in_order_witness :
  received 1 (log heard) = [7] /\ chEvent (obj 1 heard) = [8] /\
  exists q, since 1 (log heard) = Some q /\ q `suffix_of` sent 1 (log heard).
Proof.
  split; [vm_compute; reflexivity|]. split; [vm_compute; reflexivity|].
  apply (watchers_hear_in_order heard 1); [|vm_compute; reflexivity|vm_compute; reflexivity].
  apply (watch_run_reachable hearing _ newWatcherMgr); [constructor|vm_compute; reflexivity].
Defined.

(** goroutine 0 holds the managers' lock and waits for that of [w] *)
Record blocked (s : watcherMgr) (w : nat) (k : list stage) : Prop := mkBlocked {
  b_inv : inv s;
  b_stage : stages s 0 = k;
  b_writer : writer (rw (obj w s)) <> None;
  b_readers : (1 <= readers (mrw s))%nat
}.

(** what no longer changes *)
Definition frozen (s s' : watcherMgr) : Prop :=
  mrw s' = mrw s /\ watchers s' = watchers s /\ idx s' = idx s /\
  published (log s') = published (log s) /\ forall v, sent v (log s') = sent v (log s).

Lemma frozen_refl s : frozen s s.
Proof. by repeat split. Qed.
Lemma frozen_trans s1 s2 s3 : frozen s1 s2 -> frozen s2 s3 -> frozen s1 s3.
Proof. unfold frozen. intros (-> & -> & -> & -> & A) (-> & -> & -> & -> & B). split_and!; try done. intros v. by rewrite B, A. Qed.

Lemma locked_not_free m : writer m <> None -> free m = false.
Proof. intros N. unfold free. rewrite bool_decide_false by done. apply andb_false_r. Qed.
Lemma read_not_free m : (1 <= readers m)%nat -> free m = false.
Proof. intros N. unfold free. by destruct (Nat.eqb_spec (readers m) 0); [lia|]. Qed.

(** another goroutine that changes no lock of [w] *)
Lemma blocked_kept s s1 w k t k' :
  blocked s w k -> inv (goto t k' s1) -> t <> 0%nat -> threads s1 = threads s -> rw (obj w s1) = rw (obj w s) -> frozen s s1 ->
  frozen s (goto t k' s1) /\ blocked (goto t k' s1) w k.
Proof.
  intros [B1 B2 B3 B4] I N T W F. split; [exact F|]. split; [done| | |].
  - rewrite stages_goto. rewrite decide_False by done. unfold stages. by rewrite T.
  - change (obj w (goto t k' s1)) with (obj w s1). by rewrite W.
  - change (mrw (goto t k' s1)) with (mrw s1). destruct F as (-> & _). done.
Qed.

Definition quiet (h : happening) : Prop := match h with EPublished _ | ESent _ _ => False | _ => True end.

Lemma frozen_note s s1 h : quiet h -> frozen s s1 -> frozen s (note h s1).
Proof.
  unfold frozen. simpl. intros Q (-> & -> & -> & <- & S). split_and!; try done.
  - rewrite published_snoc. destruct h; try done; apply app_nil_r.
  - intros v. rewrite sent_snoc, <- S. destruct h; try done; apply app_nil_r.
Qed.

Lemma frozen_set s s1 v y : frozen s s1 -> frozen s (set_obj v y s1).
Proof. done. Qed.

Lemma rw_set w v y s : (v = w -> rw y = rw (obj w s)) -> rw (obj w (set_obj v y s)) = rw (obj w s).
Proof. intros E. rewrite watch_obj_set. case_decide; subst; auto. Qed.

Lemma frozen_step s w e todo r t x s' :
  blocked s w (NLock w e todo :: r) -> exec t x s = Some s' -> frozen s s' /\ blocked s' w (NLock w e todo :: r).
Proof.
  intros B X. pose proof (exec_ok s t x s' (b_inv _ _ _ B) X) as I.
  pose proof (b_stage _ _ _ B) as E0. pose proof (i_stage s (b_inv _ _ _ B) t) as G.
  unfold exec in X. fold (stages s t) in X. destruct (decide (t = 0%nat)) as [->|N].
  { rewrite E0 in X. destruct x as [| | | |[]]; try done. cbn -[goto] in X.
    rewrite bool_decide_false in X by apply (b_writer _ _ _ B). done. }
  destruct (stages s t) as [|st r'].
  { destruct x as [e'|v|v| |]; try done; destruct (_ : bool) eqn:C in X; try done; injection X as <-;
      [|apply (blocked_kept s); auto using frozen_refl..].
    apply andb_true_iff in C as [C _]. by apply Nat.eqb_eq in C. }
  destruct x as [| | | |x]; try done. pose proof (read_not_free _ (b_readers _ _ _ B)) as M.
  destruct st as [?|?|?|?|v|v|v|v|]; try (by (destruct G || idtac)); destruct x as [| |?|res]; try done; cbn -[goto] in X;
    rewrite ?M in X; try done.
  - destruct (decide (v = w)) as [->|V]; [by rewrite (locked_not_free _ (b_writer _ _ _ B)) in X|].
    destruct (free _); [|done]. injection X as <-. apply (blocked_kept s); try done.
    + by destruct (_ =? _).
    + destruct (_ =? _); [|done]. apply (rw_set w v). done.
    + destruct (_ =? _); [|apply frozen_refl]. by apply frozen_note, frozen_set, frozen_refl.
  - destruct (chEvent (obj v s)) as [|e' q].
    + destruct (closed _); [|done]. injection X as <-. apply (blocked_kept s); try done.
      apply frozen_note, frozen_refl. by destruct (_ || _).
    + injection X as <-. apply (blocked_kept s); try done.
      * apply (rw_set w v). by intros ->.
      * by apply frozen_note, frozen_set, frozen_refl.
  - destruct (_ || _); [|done]. injection X as <-. apply (blocked_kept s); try done. by apply frozen_note, frozen_refl.
  - destruct (decide (v = w)) as [->|V]; [by rewrite (locked_not_free _ (b_writer _ _ _ B)) in X|].
    destruct (free _); [|done]. injection X as <-. destruct (_ =? _); [|destruct (closed (obj v s))].
    + apply (blocked_kept s); try done. by apply frozen_note, frozen_refl.
    + apply (blocked_kept s); try done. by apply frozen_note, frozen_refl.
    + apply (blocked_kept s); try done. by apply (rw_set w v).
Qed.

Lemma frozen_reachable s w e todo r s' :
  blocked s w (NLock w e todo :: r) -> reachable s s' -> frozen s s' /\ blocked s' w (NLock w e todo :: r).
Proof.
  intros B R. induction R as [|s1 t x s2 R [F1 B1] X]; [split; [apply frozen_refl|done]|].
  destruct (frozen_step _ _ _ _ _ _ _ _ B1 X) as [F2 B2]. split; [|done]. by eapply frozen_trans.
Qed.

(** a goroutine moves itself only *)
Lemma exec_stages u x s s' t : exec u x s = Some s' -> t <> u -> stages s' t = stages s t.
Proof.
  intros X N. assert (G : forall k s1, threads s1 = threads s -> stages (goto u k s1) t = stages s t).
  { intros k s1 T. rewrite stages_goto, decide_False by done. unfold stages. by rewrite T. }
  unfold exec in X. fold (stages s u) in X. destruct (stages s u) as [|st r].
  - destruct x; try done; destruct (_ : bool) in X; try done; injection X as <-; by apply G.
  - destruct x as [| | | |x]; try done.
    destruct st as [?|? [|? ?]|?|?|?|?|?|?|]; destruct x; try done; unfold step in X;
      repeat (case_match; try done); injection X as <-; repeat case_match; by apply G.
Qed.

(** Stop waits for the lock broadcast holds *)
Lemma stop_waits s w e todo r t v r' s' :
  blocked s w (NLock w e todo :: r) -> stages s t = SRecycle v :: r' -> reachable s s' -> stages s' t = SRecycle v :: r'.
Proof.
  intros B E R. induction R as [|s1 u x s2 R IH X]; [done|]. destruct (frozen_reachable _ _ _ _ _ _ B R) as [_ B1].
  destruct (decide (t = u)) as [<-|N]; [|by rewrite (exec_stages u x s1 s2)].
  unfold exec in X. fold (stages s1 t) in X. rewrite IH in X. destruct x as [| | | |[]]; try done. cbn in X.
  by rewrite (read_not_free _ (b_readers _ _ _ B1)) in X.
Qed.

(** a watcher is stopped while an event is being handed out: Stop holds the
    watcher's lock and waits for the manager's, broadcast holds the manager's and
    waits for the watcher's *)
Definition stopping : list (nat * action) :=
  [(1, XFork); (1, XGo XOk); (1, XFork); (1, XGo XOk);
   (1, XNext 1); (1, XGo XOk); (2, XNext 2); (2, XGo XOk);
   (0, XEvent 7); (0, XGo XOk); (0, XGo (XPick 1)); (3, XStop 1); (3, XGo XOk)]%nat.

(** C38: Stopping a watcher can end hearing for all of them.  There is a schedule
    after which, whatever the goroutines do, the subscription's goroutine stays
    where it is, nothing published is received and nothing is sent to any
    watcher, no watcher is added or removed, and Stop does not return. *)
Theorem stop_deadlocks :
  exists s, reachable newWatcherMgr s /\ state (obj 2 s) = stateRunning /\
  forall s', reachable s s' ->
    stages s' 0 = [NLock 1 7 [2%nat]] /\ watchers s' = [1; 2]%nat /\ idx s' = 2%nat /\
    published (log s') = [7] /\ (forall w, sent w (log s') = []) /\
    stages s' 3 = [SRecycle 1].
Proof.
  destruct (run stopping newWatcherMgr) as [s|] eqn:E; [|by vm_compute in E].
  assert (R : reachable newWatcherMgr s) by (eapply watch_run_reachable; [constructor|exact E]).
  assert (L : log s = [EForked 1; EForked 2; ERunning 1; ERunning 2; EPublished 7]) by (vm_compute in E; by injection E as <-).
  assert (B : blocked s 1 [NLock 1 7 [2%nat]]).
  { split; [by apply watch_reachable_inv|..]; vm_compute in E; injection E as <-; vm_compute; [done|done|lia]. }
  exists s. split; [done|]. split; [vm_compute in E; by injection E as <-|].
  intros s' R'. destruct (frozen_reachable _ _ _ _ _ _ B R') as [(_ & W & X & P & S) B'].
  split; [apply (b_stage _ _ _ B')|]. rewrite W, X, P.
  assert (F : watchers s = [1; 2]%nat /\ idx s = 2%nat) by (vm_compute in E; by injection E as <-).
  destruct F as [-> ->]. split_and!; try done.
  - by rewrite L.
  - intros w. by rewrite S, L.
  - eapply stop_waits; [exact B| |exact R']. vm_compute in E. by injection E as <-.
Qed.
