(* ===== verification/Locator.v ===== *)
(** locate/redis/locator.go and script.go: where users are, in Redis, and the
    events that tell of it.

    What the locators of a cluster share is the strings and hashes in Redis and
    the events published so far.  A call changes Redis first and publishes
    afterwards; between the two, other locators act.  So a call leaves its event
    among those still to be published, and publishing one is an action of its
    own.  An answer of the client is a parameter of the action: a call that
    failed may have been carried out.  The keys (prefix, user) are the user; a
    message is the event marshalled into it. *)
From stdpp Require Import base numbers list gmap strings.
From Stdlib Require Import ZArith Lia.
From S2P Require Import Prelude Types GateLink.

Open Scope Z_scope.

Module Locator.

(** the channel's kind, and the event *)
Definition message : Type := string * LocateEvent.

Record redis := mkRedis {
  gates : gmap Z string;
  nodes : gmap Z (gmap string string);
  outbox : list message;
  published : list message
}.
Definition empty : redis := mkRedis ∅ ∅ [] [].

Inductive reply := Answered | Failed (e : error) (carried_out : bool).

(** the scripts: GET of a missing key is false in Lua, which is neither an empty string nor the argument *)
Definition unbindGateScript (gid : string) (val : option string) : option string * bool :=
  if bool_decide (val = Some ""%string) || negb (bool_decide (val = Some gid)) then (val, false) else (None, true).
Definition unbindNodeScript (name nid : string) (h : gmap string string) : gmap string string * bool :=
  if bool_decide (h !! name = Some ""%string) || negb (bool_decide (h !! name = Some nid)) then (h, false)
  else (delete name h, true).

Definition hash (uid : Z) (r : redis) : gmap string string := default ∅ (nodes r !! uid).

(** redis.Nil, the answer for a missing key, is no error *)
Definition LocateGate (err : option error) (uid : Z) (p : reply) (r : redis) : res string :=
  match err, p with
  | Some e, _ | None, Failed e _ => Err e
  | None, Answered => Ok (default ""%string (gates r !! uid))
  end.
Definition LocateNode (err : option error) (uid : Z) (name : string) (p : reply) (r : redis) : res string :=
  match err, p with
  | Some e, _ | None, Failed e _ => Err e
  | None, Answered => Ok (default ""%string (hash uid r !! name))
  end.
Definition LocateNodes (err : option error) (uid : Z) (p : reply) (r : redis) : res (gmap string string) :=
  match err, p with
  | Some e, _ | None, Failed e _ => Err e
  | None, Answered => Ok (hash uid r)
  end.

(** the message of an event *)
Definition broadcast (typ uid : Z) (insID : string) (insName : option string) : message :=
  (if (typ =? BindGateEvent) || (typ =? UnbindGateEvent) then Cluster.KindString Cluster.Gate
   else if (typ =? BindNodeEvent) || (typ =? UnbindNodeEvent) then Cluster.KindString Cluster.Node else ""%string,
   mkLocateEvent uid typ insID (default ""%string insName)).

(** a request to the client: what it does to Redis and, when it answered, the event that follows *)
Definition request (err : option error) (p : reply) (change : redis -> redis) (event : redis -> option message) : ST redis unit :=
  fun r =>
  match err, p with
  | Some e, _ => (Err e, r)
  | None, Failed e false => (Err e, r)
  | None, Failed e true => (Err e, change r)
  | None, Answered =>
      let r' := change r in
      (Ok tt, mkRedis (gates r') (nodes r') (outbox r' ++ from_option (fun m => [m]) [] (event r)) (published r'))
  end.

Definition set_gates (g : gmap Z string) (r : redis) : redis := mkRedis g (nodes r) (outbox r) (published r).
Definition set_nodes (n : gmap Z (gmap string string)) (r : redis) : redis := mkRedis (gates r) n (outbox r) (published r).

Definition BindGate (err : option error) (uid : Z) (gid : string) (p : reply) : ST redis unit :=
  request err p (fun r => set_gates (<[uid := gid]> (gates r)) r)
    (fun _ => Some (broadcast BindGateEvent uid gid None)).

Definition BindNode (err : option error) (uid : Z) (name nid : string) (p : reply) : ST redis unit :=
  request err p (fun r => set_nodes (<[uid := <[name := nid]> (hash uid r)]> (nodes r)) r)
    (fun _ => Some (broadcast BindNodeEvent uid nid (Some name))).

Definition UnbindGate (err : option error) (uid : Z) (gid : string) (p : reply) : ST redis unit :=
  request err p
    (fun r => match (unbindGateScript gid (gates r !! uid)).1 with
              | Some v => r
              | None => set_gates (delete uid (gates r)) r
              end)
    (fun r => if (unbindGateScript gid (gates r !! uid)).2 then Some (broadcast UnbindGateEvent uid gid None) else None).

Definition UnbindNode (err : option error) (uid : Z) (name nid : string) (p : reply) : ST redis unit :=
  request err p
    (fun r => if (unbindNodeScript name nid (hash uid r)).2
              then set_nodes (<[uid := (unbindNodeScript name nid (hash uid r)).1]> (nodes r)) r else r)
    (fun r => if (unbindNodeScript name nid (hash uid r)).2
              then Some (broadcast UnbindNodeEvent uid nid (Some name)) else None).

(** the client publishes the [i]th waiting message, or fails to: the error is logged *)
Definition publish (i : nat) (p : reply) (r : redis) : redis :=
  match outbox r !! i with
  | None => r
  | Some m =>
      mkRedis (gates r) (nodes r) (take i (outbox r) ++ drop (S i) (outbox r))
        (match p with Answered | Failed _ true => published r ++ [m] | Failed _ false => published r end)
  end.

(** what the locators of the cluster do *)
Inductive action :=
| ABindGate (uid : Z) (gid : string) (p : reply) | AUnbindGate (uid : Z) (gid : string) (p : reply)
| ABindNode (uid : Z) (name nid : string) (p : reply) | AUnbindNode (uid : Z) (name nid : string) (p : reply)
| APublish (i : nat) (p : reply).

Definition exec (a : action) (r : redis) : redis :=
  match a with
  | ABindGate uid gid p => (BindGate None uid gid p r).2
  | AUnbindGate uid gid p => (UnbindGate None uid gid p r).2
  | ABindNode uid name nid p => (BindNode None uid name nid p r).2
  | AUnbindNode uid name nid p => (UnbindNode None uid name nid p r).2
  | APublish i p => publish i p r
  end.
Definition run (l : list action) (r : redis) : redis := fold_left (fun r a => exec a r) l r.

(** the subscription of a watcher manager: the messages of its kinds' channels, unmarshalled *)
Definition subscribed (kinds : list string) (l : list message) : list LocateEvent :=
  omap (fun m => if bool_decide (m.1 ∈ kinds) then Some m.2 else None) l.
End Locator.
