(* ===== verification/LocatorClaims.v ===== *)
(** The locator and the linkers that follow its events: while every call's event
    is published before the next call begins, a node linker that keeps a table of
    its own has in it what Redis has; when two calls overlap, it need not. *)
From stdpp Require Import base numbers list gmap strings.
From Stdlib Require Import ZArith Lia.
From S2P Require Import Prelude Types Reader Writer Nocopy Packet Dispatcher SourceHints.
From S2P Require Import Link GateLink NodeLink NodeLinkOk NodeLinkClaims Locator.
Import Link NodeLinker.

Open Scope Z_scope.
Open Scope go_scope.

(** ** The table of sources *)
Section Table.
Context (opts : Options).

Lemma source_insert u n x m s u' n' :
  (forall k, k <> n -> m !! k = source s u k) ->
  source (<[u := <[n := x]> m]> s) u' n' = if decide (u' = u /\ n' = n) then Some x else source s u' n'.
Proof.
  intros M. unfold source at 1. destruct (decide (u' = u)) as [->|U].
  - rewrite lookup_insert_eq. simpl. destruct (decide (n' = n)) as [->|N].
    + by rewrite lookup_insert_eq, decide_True.
    + rewrite lookup_insert_ne, decide_False by naive_solver. by apply M.
  - by rewrite lookup_insert_ne, decide_False by naive_solver.
Qed.

Lemma source_known u s m : s !! u = Some m -> forall k, m !! k = source s u k.
Proof. intros E k. unfold source. by rewrite E. Qed.

Lemma store_locked_source u n x s u' n' :
  source (store_locked opts u n x s).2 u' n' = if decide (u' = u /\ n' = n) then Some x else source s u' n'.
Proof.
  unfold store_locked. destruct (s !! u) as [m|] eqn:U.
  - pose proof (source_known u s m U) as M. destruct (m !! n) as [y|] eqn:Y.
    + case_bool_decide as D; simpl.
      * case_decide as C; [|done]. destruct C; subst. by rewrite <- M.
      * replace (_.2) with (<[u := <[n := x]> m]> s) by (by repeat case_bool_decide).
        by apply source_insert.
    + by apply source_insert.
  - change {[n := x]} with (<[n := x]> (∅ : gmap string string)). simpl. apply source_insert.
    intros k _. unfold source. by rewrite U, lookup_empty.
Qed.

Lemma delete_locked_source u n x s u' n' :
  source s u n = Some x ->
  source (delete_locked opts u n x s).2 u' n' = if decide (u' = u /\ n' = n) then None else source s u' n'.
Proof.
  intros S. unfold delete_locked. unfold source in S. destruct (s !! u) as [m|] eqn:U; [|done]. simpl in S.
  rewrite S, bool_decide_eq_false_2 by naive_solver. unfold source. cbn [snd].
  destruct (Z.eqb_spec (Z.of_nat (size m)) 1) as [Z1|Z1]; destruct (decide (u' = u)) as [->|N];
    rewrite ?lookup_delete_eq, ?lookup_insert_eq, ?(lookup_delete_ne s), ?(lookup_insert_ne s) by done; simpl.
  - case_decide; [done|]. rewrite U. simpl. symmetry. apply eq_None_not_Some. intros [z Z].
    assert (E : delete n m = ∅).
    { apply map_size_empty_iff. rewrite map_size_delete_Some by eauto. lia. }
    assert (D : delete n m !! n' = Some z) by (by rewrite lookup_delete_ne by naive_solver). by rewrite E in D.
  - rewrite decide_False by naive_solver. done.
  - rewrite U. simpl. destruct (decide (n' = n)) as [->|].
    + by rewrite lookup_delete_eq, decide_True.
    + by rewrite lookup_delete_ne, decide_False by naive_solver.
  - rewrite decide_False by naive_solver. done.
Qed.

(** an event, in a linker without hints, does to the table what the call did to Redis *)
Lemma apply_bind u n x l :
  hints l = None ->
  exists l', applySourceEvent opts (Locator.broadcast BindNodeEvent u x (Some n)).2 l = (Ok tt, l') /\ hints l' = None /\
    forall u' n', source (sources l') u' n' = if decide (u' = u /\ n' = n) then Some x else source (sources l) u' n'.
Proof.
  intros Hh. pose proof (store_locked_source u n x (sources l)) as S.
  unfold applySourceEvent, doStoreSource, storeLegacySource, WaitHandler, DoneHandler, on_sources, st_bind, has_hints.
  cbn. rewrite Hh. cbn. rewrite Hh. cbn. destruct (store_locked opts u n x (sources l)) as [[w d] s'].
  destruct w, d, (HasWaitHandler opts), (HasDoneHandler opts); eexists; (split; [reflexivity|]); (split; [first [done|exact Hh]|exact S]).
Qed.

Lemma apply_unbind u n x l :
  hints l = None -> source (sources l) u n = Some x ->
  exists l', applySourceEvent opts (Locator.broadcast UnbindNodeEvent u x (Some n)).2 l = (Ok tt, l') /\ hints l' = None /\
    forall u' n', source (sources l') u' n' = if decide (u' = u /\ n' = n) then None else source (sources l) u' n'.
Proof.
  intros Hh K. pose proof (fun u' n' => delete_locked_source u n x (sources l) u' n' K) as S.
  unfold applySourceEvent, doDeleteSource, deleteLegacySource, DoneHandler, on_sources, st_bind, has_hints.
  cbn. rewrite Hh. cbn. rewrite Hh. cbn. destruct (delete_locked opts u n x (sources l)) as [d s'].
  destruct d, (HasDoneHandler opts); eexists; (split; [reflexivity|]); (split; [first [done|exact Hh]|exact S]).
Qed.
End Table.

Section Follow.
Context (opts : Options).

Definition follows (l : NodeLinker) (r : Locator.redis) : Prop :=
  hints l = None /\ forall u n, source (sources l) u n = Locator.hash u r !! n.

Fixpoint apply_events (evs : list LocateEvent) : ST NodeLinker unit :=
  match evs with [] => st_ret tt | ev :: evs' => applySourceEvent opts ev ;;; apply_events evs' end.

(** what the watcher of the node linkers is sent *)
Definition heard (ms : list Locator.message) : list LocateEvent :=
  Locator.subscribed [Cluster.KindString Cluster.Node] ms.

(** a call that was answered, and its event *)
Definition answered (a : Locator.action) : bool :=
  match a with
  | Locator.ABindGate _ _ Locator.Answered | Locator.AUnbindGate _ _ Locator.Answered
  | Locator.ABindNode _ _ _ Locator.Answered | Locator.AUnbindNode _ _ _ Locator.Answered => true
  | _ => false
  end.
Definition whole (a : Locator.action) : list Locator.action := [a; Locator.APublish 0 Locator.Answered].

Lemma locator_hash_set u m r u' g o p :
  Locator.hash u' (Locator.mkRedis g (<[u := m]> (Locator.nodes r)) o p) = if decide (u' = u) then m else Locator.hash u' r.
Proof.
  unfold Locator.hash. simpl. case_decide; subst.
  - by rewrite lookup_insert_eq.
  - by rewrite lookup_insert_ne.
Qed.

Lemma apply_app e1 e2 l l1 l2 : apply_events e1 l = (Ok tt, l1) -> apply_events e2 l1 = (Ok tt, l2) -> apply_events (e1 ++ e2) l = (Ok tt, l2).
Proof.
  revert l. induction e1 as [|ev e1 IH]; simpl; intros l A B.
  - unfold st_ret in A. by injection A as <-.
  - unfold st_bind in *. destruct (applySourceEvent opts ev l) as [[[]| |] l3]; try done. by apply IH.
Qed.

Definition followed (ms : list Locator.message) (l : NodeLinker) (r r' : Locator.redis) : Prop :=
  Locator.outbox r' = [] /\ Locator.published r' = Locator.published r ++ ms /\
  exists l', apply_events (heard ms) l = (Ok tt, l') /\ follows l' r'.

Lemma run_request a change ev r :
  Locator.exec a r = (Locator.request None Locator.Answered change ev r).2 -> Locator.outbox (change r) = [] ->
  Locator.run (whole a) r =
  Locator.mkRedis (Locator.gates (change r)) (Locator.nodes (change r)) []
    (Locator.published (change r) ++ from_option (fun m => [m]) [] (ev r)).
Proof.
  intros X O. unfold Locator.run, whole. cbn [fold_left]. rewrite X. unfold Locator.request. cbn [snd].
  rewrite O. destruct (ev r); cbn; by rewrite ?app_nil_r.
Qed.

(** a call that says nothing of nodes *)
Lemma follow_gate a change ev l r :
  Locator.exec a r = (Locator.request None Locator.Answered change ev r).2 ->
  Locator.outbox (change r) = [] -> Locator.nodes (change r) = Locator.nodes r -> Locator.published (change r) = Locator.published r ->
  (forall m, ev r = Some m -> m.1 = Cluster.KindString Cluster.Gate) ->
  follows l r -> exists ms, followed ms l r (Locator.run (whole a) r).
Proof.
  intros X O N P G [Hh F]. rewrite (run_request a change ev r X O), N, P. eexists. split; [done|]. split; [done|].
  exists l. split; [|by split]. destruct (ev r) as [m|]; [|done]. cbn. rewrite (G m eq_refl). done.
Qed.

Lemma apply_one ev l l' : applySourceEvent opts ev l = (Ok tt, l') -> apply_events [ev] l = (Ok tt, l').
Proof. intros E. cbn [apply_events]. unfold st_bind. by rewrite E. Qed.

Lemma unbind_script u n x r :
  (Locator.hash u r !! n = Some x /\ Locator.unbindNodeScript n x (Locator.hash u r) = (delete n (Locator.hash u r), true)) \/
  Locator.unbindNodeScript n x (Locator.hash u r) = (Locator.hash u r, false).
Proof.
  unfold Locator.unbindNodeScript. repeat case_bool_decide; simpl; auto.
Qed.

Lemma follow_one a l r :
  answered a = true -> Locator.outbox r = [] -> follows l r -> exists ms, followed ms l r (Locator.run (whole a) r).
Proof.
  intros A O F. destruct a as [u g []|u g []|u n x []|u n x []|]; try done; clear A.
  - eapply follow_gate; try done. intros m. by injection 1 as <-.
  - eapply follow_gate; try done; try by (cbn; destruct (Locator.unbindGateScript g (Locator.gates r !! u)).1).
    intros m. simpl. destruct (Locator.unbindGateScript _ _).2; [|done]. by injection 1 as <-.
  - eexists. erewrite run_request by done. split; [done|]. split; [done|]. destruct F as [Hh F].
    destruct (apply_bind opts u n x l Hh) as (l' & E & Hh' & S). exists l'. split; [exact (apply_one _ _ _ E)|].
    split; [done|]. intros u' n'. rewrite S, F. cbn [Locator.nodes Locator.set_nodes]. rewrite locator_hash_set. repeat case_decide; try naive_solver.
    + destruct H; subst. by rewrite lookup_insert_eq.
    + subst. by rewrite lookup_insert_ne by naive_solver.
  - erewrite run_request; [|done|by cbn; destruct (Locator.unbindNodeScript n x _).2]. destruct F as [Hh F].
    cbv beta. destruct (unbind_script u n x r) as [[K ->] | ->]; cbn [fst snd].
    + destruct (apply_unbind opts u n x l Hh) as (l' & E & Hh' & S); [by rewrite F|].
      eexists. split; [done|]. split; [done|]. exists l'. split; [exact (apply_one _ _ _ E)|]. split; [done|].
      intros u' n'. rewrite S, F. cbn [Locator.nodes Locator.set_nodes]. rewrite locator_hash_set. repeat case_decide; try naive_solver.
      * destruct H; subst. by rewrite lookup_delete_eq.
      * subst. by rewrite lookup_delete_ne by naive_solver.
    + exists []. split; [done|]. split; [done|]. by exists l.
Qed.

Lemma follow_all acts l r :
  Forall (fun a => answered a = true) acts -> Locator.outbox r = [] -> follows l r ->
  exists ms, followed ms l r (Locator.run (acts ≫= whole) r).
Proof.
  intros A. revert l r. induction A as [|a acts Ha A IH]; intros l r O F.
  - exists []. split; [done|]. split; [by rewrite app_nil_r|]. by exists l.
  - destruct (follow_one a l r Ha O F) as (m1 & O1 & P1 & l1 & E1 & F1).
    destruct (IH l1 _ O1 F1) as (m2 & O2 & P2 & l2 & E2 & F2). exists (m1 ++ m2).
    assert (Locator.run ((a :: acts) ≫= whole) r = Locator.run (acts ≫= whole) (Locator.run (whole a) r)) as ->
      by apply fold_left_app.
    split; [done|]. split; [by rewrite P2, P1, (assoc_L (++))|]. exists l2. split; [|done].
    unfold heard, Locator.subscribed. rewrite omap_app. by eapply apply_app.
Qed.
End Follow.


(** a user moves from n1 to n2 and leaves n2's rank group; n1's late unbinding changes nothing *)
Definition moves : list Locator.action :=
  [Locator.ABindGate 42 "g1" Locator.Answered; Locator.ABindNode 42 "game" "n1" Locator.Answered;
   Locator.ABindNode 42 "rank" "n2" Locator.Answered; Locator.ABindNode 42 "game" "n2" Locator.Answered;
   Locator.AUnbindNode 42 "game" "n1" Locator.Answered; Locator.AUnbindNode 42 "rank" "n2" Locator.Answered]%string.
Definition following : NodeLinker := mkNodeLinker ∅ None 0 (env_ (sample_linker ∅)).


(** C39: Calls that overlap need not.  Two nodes bind a user at once; Redis keeps the
    second, the events arrive the other way round, and when all is published and
    applied the linker sends the user's requests to the node Redis does not name,
    without asking the locator again. *)
Theorem overlapping_binds_mislead_linker answer :
  exists acts l',
    let r := Locator.run acts Locator.empty in
    Locator.outbox r = [] /\
    apply_events gate_opts (heard (Locator.published r)) following = (Ok tt, l') /\
    Locator.LocateNode None 42 "game" Locator.Answered r = Ok "n2"%string /\
    NodeLinker.LocateNode gate_opts answer 42 "game" l' = (Ok "n1"%string, l').
Proof.
  exists [Locator.ABindNode 42 "game" "n1" Locator.Answered; Locator.ABindNode 42 "game" "n2" Locator.Answered;
     Locator.APublish 1 Locator.Answered; Locator.APublish 0 Locator.Answered]%string.
  eexists. cbv zeta. split; [reflexivity|]. split; [vm_compute; reflexivity|]. split; reflexivity.
Qed.
